(* ===== verification/_CoqProject ===== *)
-Q . S2P
Prelude.v
Types.v
Interfaces.v
HashMap.v
OrderPool.v
PriceSet.v
OrderQueue.v
OrderBook.v
BookSpec.v
BookRep.v
BookOps.v
BookCache.v
BookPurge.v
BookResize.v
BookRefine.v
BookUpdate.v
BookTrace.v
HashedBook.v
Clob.v
ClobBudget.v
RandomContainer.v
Matching.v
ClobProof.v
ClobProperties.v
Generator.v
GeneratorProof.v
Bytes.v
Codec.v
CodecProof.v
Ring.v
RingBuffers.v
RingUse.v
Waits.v
Spsc.v
SeqLock.v
CircularCache.v
CacheOrder.v
ReorderBuffer.v
ReorderOrder.v
ReorderOnce.v
Network.v
Connection.v
RetransmitServer.v
ServerWorld.v
ServerEvents.v
ServerLoop.v
Handler.v
Sockets.v
SocketsProof.v
Threads.v
HandlerProof.v
Feed.v
FeedProof.v
Exchange.v
ExchangeProof.v
Retransmission.v
ExchangeThreads.v
Errors.v
Log.v
Strategy.v
MarketMakerProof.v
Trader.v
TraderProof.v
Pipeline.v
System.v
Runner.v
PipelineTest.v
