(* ===== verification/Prelude.v ===== *)
(** * Verification of the low-latency HFT pipeline

    A library about the C++ program under [src/]: an exchange simulator that
    matches generated orders and broadcasts what happens, a market data handler
    that rebuilds the stream from a lossy network, and a strategy process that
    keeps its own book, quotes on it and checks its orders against risk limits.

    ** How the parts interact

    MarketRequestGenerator submits requests to CentralLimitOrderBook, which
    changes its BookState and publishes MarketEvents into a LazyRingBuffer.
    ExchangeSimulator takes them out, numbers and encodes them (Sequencer,
    BinaryProtocol), stores the messages in the CircularCache and multicasts
    them (Broadcaster).  RetransmitServer answers requests for lost packets from
    that cache over TCP (Connection, send_range and recv_range).
    RealTimeListener receives the datagrams into a ring buffer; MarketDataHandler
    finds gaps (GapDetector), asks RetransmitListener for what is missing and
    writes all packets to the ReorderBuffer, from which MarketEventPublisher
    forwards the decoded events in order.  OrderBookEngine executes them on its
    own BookState and publishes the best bid and offer through a SeqLock; Trader
    runs PassiveMarketMaker on it, gates its requests by risk and hands
    them to the order management system.

    ** Files

    - Prelude: outcomes, machine integers, power-of-two capacities, arrays, tactics.
    - Types: [order-book/order.hpp], the requests of [exchange/protocol.hpp], the
      error codes and the constants of [config.hpp].  Interfaces: the promises of a keyed
      store and of a bounded queue, as classes with laws.
    - HashMap, OrderPool, PriceSet: [order-book/closed-hash-map.hpp],
      [order-pool.hpp] and the [std::set]s of prices.
    - OrderBook: [order-book/book-state], over any keyed stores.  BookSpec is the
      abstract book, a list of orders in time order; OrderQueue, BookRep, BookOps, BookCache,
      BookPurge, BookResize, BookRefine, BookUpdate and BookTrace show that the linked
      queues, maps, price sets and cached best prices implement it.  HashedBook instantiates
      the stores with ClosedHashMap.
    - Clob: [exchange/clob].  Matching is price-time matching as a definition;
      ClobProof, ClobProperties and ClobBudget relate the two, ClobBudget for the stop token.
    - RandomContainer, Generator, GeneratorProof: [utils/random-container.hpp]
      and [exchange/order-generator].
    - Bytes, Codec, CodecProof: [exchange/binary-protocol], [encoded-message],
      [sequencer.hpp], the headers and [RetransmitRequest], on hosts of either byte order.
    - Ring, RingBuffers, RingUse: the three ring buffers of [utils/] as sequential
      objects.  Waits: their spinning waits, with and without a stop token.  Spsc: two of
      them shared by two threads.  SeqLock, CircularCache, ReorderBuffer: the lock-free
      structures of [utils/], one atomic access at a time.  CacheOrder, ReorderOrder: the last two
      again, with loads as stale as their memory orders allow.  ReorderOnce: writers that try each
      index once.
    - Network: [utils/network-utils] over a class of socket calls.  Connection and
      RetransmitServer: [exchange/tcp-connection.hpp] and [tcp-retransmit].  ServerWorld,
      ServerEvents, ServerLoop: what the server relies on of its clients and of kqueue, one
      event, and the event loop from start to shut-down.
    - Sockets, SocketsProof: the wrappers of [network-utils] and the opening,
      configuring and closing of every descriptor, over a class of system calls with a history.
    - Threads: the [start] and [launch_*] functions of [exchange-simulator],
      [market-data-handler] and [strategy-runner]: groups of threads with a stop source.
    - Handler, HandlerProof: [market-data-handler/].  Feed, FeedProof: its threads composed.
    - Exchange, ExchangeProof: [exchange/broadcaster] and [exchange-simulator].
    - Errors: the formatters of the three error types.  Log: [utils/log.hpp] and the progress
      messages of the components.
    - Strategy, MarketMakerProof: [strategy-oms/strategy.hpp], [client-id-gen],
      [market-maker].  Trader, TraderProof: [trader.hpp], any strategy, and [engine].
    - Retransmission: the exchange, the retransmit server and the feed composed.
      ExchangeThreads: the exchange's three threads over the members they share.  Pipeline:
      the matching engine, the feed and the strategy's engine composed.  System: the whole
      path, from the generator to the strategy's book.  Runner: the strategy's threads.
      PipelineTest: [test/exchange-pipeline-tester.cpp] on the modelled components.

    ** How code becomes definitions

    An operation is a function from the state to an [outcome]: [Ok], or
    [Undefined] for undefined behaviour and failed assertions (assertions are
    on in the default build).  State is a record with the members of the class;
    references and pointers into a container are indices; globals and counters
    are passed along.  Unsigned integers are reduced by [uwrap], signed overflow
    is [Undefined].  [std::expected] is [expected], [std::optional] is [option].  What
    other threads and the outside do is data: a stop token is a number of polls
    left or a list of answers, a full buffer a list of delays, random numbers a
    sequence of integers, the operating system a class with its documented behaviour as laws
    (Network.Scripted, Scripted_kernel, ServerWorld.Playback and ExchangeProof.flaky are
    instances).  Two threads are relations or lists of steps interleaved at will; [memory_order] is
    modelled as what a load may see (Spsc, SeqLock, CacheOrder, ReorderOrder).

    ** What the theorems show

    - The book: BookState implements the time-ordered book on every stream that
      respects its contract, reports what changed, and keeps its structure under updates; the two
      errors of [update_quantity] and their consequence are theorems too.
    - The exchange: price-time priority, conservation of quantity, a log that
      replays to the same book, and capacities the generator never exceeds; what is
      broadcast is numbered without gap and is what the cache serves.
    - Containers: the hash map is a finite map, the pool hands out free slots, the rings are
      queues, also between threads; the reorder buffer outputs in order, without a data race and
      without dropping a packet, as long as a claim is not overtaken by the reader, which holds if
      each index is tried once; a cache or
      seq-lock read never returns a torn item, and but for the first index of an empty cache none
      that was not put; and where the code allows a stale, later or missed
      item, an execution that shows it.
    - Network: encoders and decoders are inverse; partial sends and receives
      assemble whole messages; a retransmit request is answered packet by packet; the server's
      event loop keeps its table, its counter and the watched descriptors in agreement over all
      batches of events that name no descriptor twice, and its shut-down leaves none open;
      the handler recovers the event stream from loss, duplication and reordering, with what the
      retransmit server reads off the exchange's cache while it is written, cut anywhere.
    - Set-up and shut-down: a successful set-up has made its system calls, a failed one
      leaks no descriptor; waits return; the threads of a group stop together, except
      that the handler's listener needs one more datagram.
    - The processes: the exchange's threads serve every client from the cache while it is
      written and end together; every request that the strategy's threads take up is placed if and
      only if the risk figures read for it permit it (the trader's [decisions] are a history of the
      model's own, which the code does not keep).
    - The pipeline: the strategy's book and best prices are the exchange's after
      the events delivered so far, whatever the network does, and in the end its own.
    - The strategy: the market maker stays well-formed and quotes inside the
      spread, but for the overflow when the offers are gone; a trader round ends and forwards
      exactly what the limits allow.

    What is assumed of the environment is said in each theorem's comment.  Three conditions
    recur, and each is a defect of the code where it fails: kqueue names no descriptor twice
    in a batch ([reports_once]), the retransmit cache is read after the first event, and an
    error message does not cut a packet in two (see [Retransmission]).

    ** Fuel and bounds

    Trading loops get one round more than there are pool slots: every trade but
    the last removes a resting order.  Transfer loops get the bytes to transfer.  The
    generator's loops get twice the polls left plus one: every round polls.  The
    trader's loop gets more than the order buffer and the pending cancels of its
    strategy.  Each such loop has a lemma that this suffices; no theorem is about
    a run that is out of fuel.  Sessions of the market maker are bounded by 2^50 operations
    and sequence numbers by 2^64, where their counters would wrap.

    ** Not modelled

    The order management system: [oms.cpp] is empty, so what it would take, fill and return comes
    in as data (Runner).  A [recv] of the retransmit client that blocks for ever, the cache line
    size, which only aligns members, the other tests, the constructors that only bind references, the spin hints in
    assembly, and the source files that are empty.  The composed theorems call the cache and the
    reorder buffer one operation at a time: their interleavings are the subject of CacheOrder
    and ReorderOrder.  That the handler and the retransmit client together try an index once is not
    shown, and does not hold: a late datagram and the retransmitted packet carry the same
    number (ReorderOnce has what can come of it). *)

From stdpp Require Export base option list numbers gmap.
From stdpp Require Export fin_maps fin_sets.
From Stdlib Require Export ZArith Lia.

#[global] Open Scope Z_scope.
#[global] Set Default Goal Selector "!".

(** ** Outcomes of a C++ operation

    [Ok a] is a normal return.  [Undefined] stands for undefined behaviour
    (dereferencing an empty [std::optional], indexing an array out of bounds,
    signed overflow) and for a failed [assert]; the model stops there.
    [OutOfFuel] is never a behaviour of the program: it says that the bound
    given to a loop of the model was too small. *)
Inductive outcome (A : Type) : Type :=
  | Ok (a : A)
  | Undefined
  | OutOfFuel.
Arguments Ok {A} a.
Arguments Undefined {A}.
Arguments OutOfFuel {A}.

#[global] Instance outcome_ret : MRet outcome := λ A a, Ok a.
#[global] Instance outcome_bind : MBind outcome := λ A B f m,
  match m with
  | Ok a => f a
  | Undefined => Undefined
  | OutOfFuel => OutOfFuel
  end.
#[global] Instance outcome_fmap : FMap outcome := λ A B f m,
  match m with
  | Ok a => Ok (f a)
  | Undefined => Undefined
  | OutOfFuel => OutOfFuel
  end.

#[global] Instance outcome_eq_dec {A} `{EqDecision A} : EqDecision (outcome A).
Proof. solve_decision. Defined.

(** A read that must succeed: [opt->get()], [array[i]]. *)
Definition deref {A} (o : option A) : outcome A :=
  match o with Some a => Ok a | None => Undefined end.

(** [assert(b)]: assertions are enabled in the default build. *)
Definition assert_ (b : bool) : outcome unit :=
  if b then Ok tt else Undefined.

(** [std::expected<A, E>]. *)
Inductive expected (A E : Type) : Type :=
  | Value (a : A)
  | Unexpected (e : E).
Arguments Value {A E} a.
Arguments Unexpected {A E} e.

#[global] Instance expected_eq_dec {A E} `{EqDecision A, EqDecision E} :
  EqDecision (expected A E).
Proof. solve_decision. Defined.

(** ** Machine integers

    An unsigned integer of width [w] is a [Z] kept in [0, 2^w); [uwrap] is the
    modular reduction of C++ unsigned arithmetic.  Signed overflow is
    undefined, so signed results go through [i32] or [i64]. *)
Definition uwrap (w x : Z) : Z := x mod 2 ^ w.
Abbreviation u64 := (uwrap 64).
Abbreviation u32 := (uwrap 32).
Abbreviation u16 := (uwrap 16).
Abbreviation u8 := (uwrap 8).

Definition in_u (w x : Z) : Prop := 0 ≤ x < 2 ^ w.
Definition in_s (w x : Z) : Prop := - 2 ^ (w - 1) ≤ x < 2 ^ (w - 1).

#[global] Instance in_u_dec w x : Decision (in_u w x).
Proof. unfold in_u. apply _. Defined.
#[global] Instance in_s_dec w x : Decision (in_s w x).
Proof. unfold in_s. apply _. Defined.

(** A signed result of width [w]: undefined when it overflows. *)
Definition checked (w x : Z) : outcome Z :=
  if decide (in_s w x) then Ok x else Undefined.
Abbreviation i32 := (checked 32).
Abbreviation i64 := (checked 64).

(** Conversion of an unsigned value to the signed type of the same width
    (defined as the two's complement value since C++20). *)
Definition to_signed (w x : Z) : Z :=
  let y := x mod 2 ^ w in if y <? 2 ^ (w - 1) then y else y - 2 ^ w.

Lemma uwrap_small w x : in_u w x → uwrap w x = x.
Proof. unfold uwrap, in_u. intros. by apply Z.mod_small. Qed.

Lemma uwrap_range w x : 0 ≤ w → in_u w (uwrap w x).
Proof. intros. unfold uwrap, in_u. apply Z.mod_pos_bound. lia. Qed.

Lemma uwrap_uwrap w x : uwrap w (uwrap w x) = uwrap w x.
Proof. unfold uwrap. apply Zmod_mod. Qed.

Lemma uwrap_add_l w x y : uwrap w (uwrap w x + y) = uwrap w (x + y).
Proof. unfold uwrap. apply Zplus_mod_idemp_l. Qed.

Lemma uwrap_sub_l w x y : uwrap w (uwrap w x - y) = uwrap w (x - y).
Proof. unfold uwrap. apply Zminus_mod_idemp_l. Qed.

Lemma uwrap_sub_r w x y : uwrap w (x - uwrap w y) = uwrap w (x - y).
Proof. unfold uwrap. apply Zminus_mod_idemp_r. Qed.

Lemma to_signed_small w x : in_s w x → 0 < w → to_signed w (x mod 2 ^ w) = x.
Proof.
  unfold in_s, to_signed. intros [??] ?.
  assert (2 ^ w = 2 * 2 ^ (w - 1)) as Hp
    by (rewrite <- Z.pow_succ_r by lia; f_equal; lia).
  rewrite Zmod_mod.
  destruct (Z_lt_ge_dec x 0).
  - assert (x mod 2 ^ w = x + 2 ^ w) as ->
      by (symmetry; apply Zmod_unique with (-1); lia).
    destruct (Z.ltb_spec (x + 2 ^ w) (2 ^ (w - 1))); lia.
  - rewrite (Z.mod_small x) by lia.
    destruct (Z.ltb_spec x (2 ^ (w - 1))); lia.
Qed.

Lemma uwrap_to_signed w x : uwrap w (to_signed w x) = uwrap w x.
Proof.
  unfold uwrap, to_signed. destruct (_ <? _); [apply Zmod_mod|].
  rewrite <- Zminus_mod_idemp_r, Z_mod_same_full, Z.sub_0_r. apply Zmod_mod.
Qed.

(** ** Power-of-two capacities

    Every container of the program indexes its storage with
    [cursor & (CAPACITY - 1)] and checks
    [CAPACITY != 0 && (CAPACITY & (CAPACITY - 1)) == 0] with a static_assert.
    The class below is that assertion; the lemmas turn the mask into a
    remainder. *)
Class PowerOfTwo (c : Z) : Prop := {
  pot_pos : 0 < c;
  pot_mask : Z.land c (c - 1) = 0;
}.

Definition mask (c x : Z) : Z := Z.land x (c - 1).

Lemma pot_is_pow2 c : PowerOfTwo c → c = 2 ^ Z.log2 c.
Proof.
  intros [Hpos Hmask].
  destruct (Z.log2_spec c Hpos) as [Hlo Hhi].
  pose proof (Z.log2_nonneg c) as Hk.
  destruct (Z.eq_dec c (2 ^ Z.log2 c)) as [|Hne]; [done|exfalso].
  assert (Z.testbit (Z.land c (c - 1)) (Z.log2 c) = true) as Hb.
  { rewrite Z.land_spec, Z.bit_log2 by done. simpl.
    replace (Z.log2 c) with (Z.log2 (c - 1)).
    { apply Z.bit_log2. pose proof (Z.pow_pos_nonneg 2 (Z.log2 c)). lia. }
    apply Z.log2_unique; [done|]. rewrite Z.pow_succ_r in * by lia. lia. }
  rewrite Hmask, Z.bits_0 in Hb. done.
Qed.

Lemma mask_mod c x `{PowerOfTwo c} : mask c x = x mod c.
Proof.
  unfold mask. rewrite (pot_is_pow2 c) by done.
  assert (2 ^ Z.log2 c - 1 = Z.ones (Z.log2 c)) as -> by (rewrite Z.ones_equiv; lia).
  apply Z.land_ones, Z.log2_nonneg.
Qed.

Lemma mask_range c x `{PowerOfTwo c} : 0 ≤ mask c x < c.
Proof. rewrite mask_mod by done. pose proof (pot_pos (c := c)). by apply Z.mod_pos_bound. Qed.

Lemma mask_small c x `{PowerOfTwo c} : 0 ≤ x < c → mask c x = x.
Proof. intros. rewrite mask_mod by done. by apply Z.mod_small. Qed.

(** A cursor that wrapped modulo [2^64] still selects the right slot. *)
Lemma mask_u64 c x `{PowerOfTwo c} : c ≤ 2 ^ 64 → mask c (u64 x) = x mod c.
Proof.
  intros Hc. rewrite mask_mod by done. unfold uwrap.
  apply Z.mod_mod_divide. exists (2 ^ (64 - Z.log2 c)).
  pose proof (Z.log2_nonneg c) as Hk. pose proof (pot_is_pow2 c H) as Hp.
  assert (Z.log2 c ≤ 64) by (rewrite Hp in Hc; apply Z.pow_le_mono_r_iff in Hc; lia).
  rewrite Hp at 2. rewrite <- Z.pow_add_r by lia. f_equal. lia.
Qed.

(** Two cursors less than [c] apart that select the same slot are equal. *)
Lemma mod_inj_window c x y : 0 < c → x mod c = y mod c → Z.abs (x - y) < c → x = y.
Proof.
  intros Hc Hmod Habs.
  assert ((x - y) mod c = 0) as Hd by (rewrite Zminus_mod, Hmod, Z.sub_diag; done).
  apply Z.mod_divide in Hd as [q Hq]; [|lia]. assert (q = 0) by nia. lia.
Qed.

Lemma pot_check c : bool_decide (0 < c) && bool_decide (Z.land c (c - 1) = 0) = true →
  PowerOfTwo c.
Proof.
  intros [H1 H2]%andb_prop. apply bool_decide_eq_true in H1, H2. by constructor.
Qed.

(** ** Automation *)

(** Symbolic execution of a monadic hypothesis [e = Ok r]: split the binds and
    the tests it went through. *)
Ltac outcome_step H :=
  lazymatch type of H with
  | (?m ≫= _) = Ok _ =>
      let E := fresh "E" in destruct m eqn:E; cbn in H; [|discriminate H|discriminate H]
  | mbind _ ?m = Ok _ =>
      let E := fresh "E" in destruct m eqn:E; cbn in H; [|discriminate H|discriminate H]
  | (match ?m with _ => _ end) = Ok _ =>
      let E := fresh "E" in destruct m eqn:E; cbn in H; try discriminate H
  | (if ?m then _ else _) = Ok _ =>
      let E := fresh "E" in destruct m eqn:E; cbn in H; try discriminate H
  end.
Ltac outcome_inv H := repeat (outcome_step H); try (injection H as H); subst.

(** The same in every hypothesis, nested binds included. *)
Ltac outcome_all :=
  repeat (match goal with H : _ = Ok _ |- _ => outcome_step H end; simplify_eq/=).

Create Rewrite HintDb zwrap.
Create Rewrite HintDb zsum.
Ltac zsimpl := autorewrite with zwrap.
#[export] Hint Rewrite uwrap_uwrap uwrap_add_l uwrap_sub_l uwrap_sub_r uwrap_to_signed : zwrap.

(** ** Lists and arrays *)

(** [std::array] indexing: out of range is undefined. *)
Definition array_get {A} (l : list A) (i : Z) : outcome A :=
  if i <? 0 then Undefined else deref (l !! Z.to_nat i).
Definition array_set {A} (l : list A) (i : Z) (a : A) : outcome (list A) :=
  if (0 <=? i) && (i <? Z.of_nat (length l)) then Ok (<[Z.to_nat i := a]> l) else Undefined.

Lemma array_get_Ok {A} (l : list A) i a :
  array_get l i = Ok a ↔ 0 ≤ i ∧ l !! Z.to_nat i = Some a.
Proof.
  unfold array_get. destruct (Z.ltb_spec i 0) as [Hi|Hi]; [split; [done|lia]|].
  destruct (l !! Z.to_nat i); simpl; naive_solver.
Qed.

Lemma array_set_Ok {A} (l : list A) i a :
  0 ≤ i < Z.of_nat (length l) → array_set l i a = Ok (<[Z.to_nat i := a]> l).
Proof.
  intros [Hlo Hhi]. unfold array_set.
  by rewrite (proj2 (Z.leb_le _ _) Hlo), (proj2 (Z.ltb_lt _ _) Hhi).
Qed.

Definition zsum (l : list Z) : Z := foldr Z.add 0 l.

Lemma zsum_app l k : zsum (l ++ k) = zsum l + zsum k.
Proof. induction l; simpl; lia. Qed.

Lemma zsum_nonneg l : Forall (λ x, 0 ≤ x) l → 0 ≤ zsum l.
Proof. induction 1; simpl; lia. Qed.

Lemma zsum_pos l : Forall (λ x, 0 < x) l → l ≠ [] → 0 < zsum l.
Proof.
  destruct 1; [done|intros _; simpl].
  enough (0 ≤ zsum l) by lia. apply zsum_nonneg. eapply Forall_impl; [done|]. simpl. lia.
Qed.

Lemma zsum_le_bound b l : Forall (λ x, x ≤ b) l → zsum l ≤ b * Z.of_nat (length l).
Proof. induction 1; simpl; lia. Qed.

#[export] Hint Rewrite @zsum_app : zsum.

(** Counting the elements that satisfy a decidable predicate, under update. *)
Lemma filter_insert_length {A} (P : A → Prop) `{∀ a, Decision (P a)} (l : list A) i a b :
  l !! i = Some a →
  (length (filter P (<[i := b]> l)) + (if decide (P a) then 1 else 0) =
   length (filter P l) + (if decide (P b) then 1 else 0))%nat.
Proof.
  revert i. induction l as [|c l IH]; intros [|i] Hi; simplify_eq/=.
  - rewrite !filter_cons. repeat case_decide; simpl; lia.
  - rewrite !filter_cons. specialize (IH i Hi). repeat case_decide; simpl in *; lia.
Qed.

Lemma filter_full_length {A} (P : A → Prop) `{∀ a, Decision (P a)} (l : list A) :
  length (filter P l) = length l ↔ Forall P l.
Proof.
  split.
  - intros Hl. induction l as [|a l IH]; [done|]. rewrite filter_cons in Hl.
    case_decide; simpl in Hl; [constructor; auto|].
    pose proof (length_filter P l). lia.
  - induction 1; [done|]. rewrite filter_cons_True by done. simpl. by f_equal.
Qed.

Lemma Forall_filter_keep {A} (Q P : A → Prop) `{∀ a, Decision (P a)} (l : list A) :
  Forall Q l → Forall Q (filter P l).
Proof.
  rewrite !Forall_forall. intros HQ a Ha. apply list_elem_of_filter in Ha as [_ ?]. auto.
Qed.

Lemma filter_ext_in {A} (P Q : A → Prop) `{∀ a, Decision (P a)} `{∀ a, Decision (Q a)} (l : list A) :
  (∀ a, a ∈ l → P a ↔ Q a) → filter P l = filter Q l.
Proof.
  induction l as [|a l IH]; intros Heq; [done|]. rewrite !filter_cons, IH.
  - pose proof (Heq a ltac:(by left)). repeat case_decide; tauto.
  - intros b Hb. apply Heq. by right.
Qed.
