(* ===== verification/Types.v ===== *)
(** * Shared data types and configuration constants

  The plain data of the program ([includes/order-book/order.hpp],
  [includes/exchange/protocol.hpp], [includes/exchange/exchange-errors.hpp])
  and the constants of [includes/config.hpp].  A C++ struct is a [Record], an
  enum class an [Inductive]; integer members are [Z] and the [wf] predicates
  give the range of their C++ type. *)

From S2P Require Import Prelude.

(** [std::numeric_limits<int32_t>::min()] and [max()], [uint32_t] and
  [size_t] maxima. *)
Definition INT32_MIN : Z := - 2 ^ 31.
Definition INT32_MAX : Z := 2 ^ 31 - 1.
Definition UINT32_MAX : Z := 2 ^ 32 - 1.
Definition SIZE_MAX : Z := 2 ^ 64 - 1.

Module Side.
Inductive t : Type := Buy | Sell.
#[global] Instance eq_dec : EqDecision t.
Proof. solve_decision. Defined.
End Side.

Module Order.
Definition INVALID_ORDER_ID : Z := 0.

Record t : Type := {
  order_id : Z;
  price : Z;
  quantity : Z;
  side : Side.t;
}.

#[global] Instance eq_dec : EqDecision t.
Proof. solve_decision. Defined.

(** Every member holds a value of its C++ type. *)
Definition wf (o : t) : Prop :=
  in_u 64 (order_id o) ∧ in_s 32 (price o) ∧ in_u 32 (quantity o).
#[global] Instance wf_dec o : Decision (wf o).
Proof. unfold wf. apply _. Defined.

(** [o.quantity = q]. *)
Definition set_quantity (q : Z) (o : t) : t :=
  {| order_id := order_id o; price := price o; quantity := q; side := side o |}.
Definition set_order_id (i : Z) (o : t) : t :=
  {| order_id := i; price := price o; quantity := quantity o; side := side o |}.

(** The value a designated initialiser gives the members it leaves out. *)
Definition zero : t :=
  {| order_id := 0; price := 0; quantity := 0; side := Side.Buy |}.
End Order.

Module RestingOrder.
Definition NULL_INDEX : Z := UINT32_MAX.

Record t : Type := {
  order : Order.t;
  previous : Z;
  next : Z;
}.

Definition set_order (o : Order.t) (r : t) : t :=
  {| order := o; previous := previous r; next := next r |}.
Definition set_previous (p : Z) (r : t) : t :=
  {| order := order r; previous := p; next := next r |}.
Definition set_next (n : Z) (r : t) : t :=
  {| order := order r; previous := previous r; next := n |}.
End RestingOrder.

Module MarketEvent.
Inductive Type_ : Type := Add | Cancel | Trade | Update.
#[global] Instance type_eq_dec : EqDecision Type_.
Proof. solve_decision. Defined.

Record t : Type := {
  order : Order.t;
  type : Type_;
}.
#[global] Instance eq_dec : EqDecision t.
Proof. solve_decision. Defined.

Definition wf (e : t) : Prop := Order.wf (order e).
#[global] Instance wf_dec e : Decision (wf e).
Proof. unfold wf. apply _. Defined.
End MarketEvent.

Module OrderRequest.
Inductive Type_ : Type := Buy | Sell | Cancel | Update.
#[global] Instance type_eq_dec : EqDecision Type_.
Proof. solve_decision. Defined.

Record t : Type := {
  order_id : Z;
  price : Z;
  quantity : Z;
  type : Type_;
}.
#[global] Instance eq_dec : EqDecision t.
Proof. solve_decision. Defined.
End OrderRequest.

(** The exchange's error codes.  The first seven are public and have explicit
  values; the others continue the numbering. *)
Module ExchangeError.
Inductive t : Type :=
  | PacketTooOld | InvalidPacket | PacketUnavailable | ClientConnection | ServerFatal
  | OrderDoesNotExist | InvalidOrderRequest
  | StartBroadcast | InvalidBroadcastIP | InvalidBroadcastInterface | Send
  | ServerBusy | StartRetransmitServer | AddressInfo | SetSocketNonblocking
  | ClientConnectionClosed | WouldBlock | ReceiveFromClient | SendToClient
  | NewConnection | RequestHandler
  | RegisterEvent | EventQueue.
#[global] Instance eq_dec : EqDecision t.
Proof. solve_decision. Defined.

Definition all : list t :=
  [ PacketTooOld; InvalidPacket; PacketUnavailable; ClientConnection; ServerFatal;
    OrderDoesNotExist; InvalidOrderRequest;
    StartBroadcast; InvalidBroadcastIP; InvalidBroadcastInterface; Send;
    ServerBusy; StartRetransmitServer; AddressInfo; SetSocketNonblocking;
    ClientConnectionClosed; WouldBlock; ReceiveFromClient; SendToClient;
    NewConnection; RequestHandler; RegisterEvent; EventQueue ].

(** [static_cast<Length>(error)]. *)
Definition code (e : t) : Z :=
  match e with
  | PacketTooOld => 1 | InvalidPacket => 2 | PacketUnavailable => 3
  | ClientConnection => 4 | ServerFatal => 5
  | OrderDoesNotExist => 6 | InvalidOrderRequest => 7
  | StartBroadcast => 8 | InvalidBroadcastIP => 9 | InvalidBroadcastInterface => 10
  | Send => 11 | ServerBusy => 12 | StartRetransmitServer => 13 | AddressInfo => 14
  | SetSocketNonblocking => 15 | ClientConnectionClosed => 16 | WouldBlock => 17
  | ReceiveFromClient => 18 | SendToClient => 19 | NewConnection => 20
  | RequestHandler => 21 | RegisterEvent => 22 | EventQueue => 23
  end.
End ExchangeError.

(** ** [includes/config.hpp] *)
Module Config.
Definition MAX_PRICE_LEVELS : Z := Z.shiftl 1 13.
Definition MAX_CONCURRENT_ORDERS : Z := Z.shiftl 1 15.

(** exchange::config *)
Definition MARKET_EVENT_BUFFER_CAPACITY : Z := Z.shiftl 1 14.
Definition MAX_MESSAGE_BYTES : Z := Z.shiftl 1 5.
Definition FIRST_SEQUENCE_ID : Z := 1.
Definition RETRANSMIT_CACHE_SIZE : Z := Z.shiftl 1 15.
Definition DEFAULT_CONNECTION_BUFFERS : Z := 5.
Definition MAX_TOTAL_CONNECTIONS : Z := 25.
Definition KQUEUE_TIMEOUT_NS : Z := 100000000.
Definition MIN_LARGE_QUANTITY : Z := 100.
Definition MAX_LARGE_QUANTITY : Z := 600.
Definition MIN_PRICE : Z := 1.
Definition MAX_PRICE : Z := 1000.
Definition DEFAULT_BUY_PRICE : Z := 350.
Definition DEFAULT_SELL_PRICE : Z := 650.
Definition PRICE_VARIANCE : Z := 10.
Definition LARGE_PRICE_VARIANCE : Z := 20.
Definition MIN_QUANTITY : Z := 10.
Definition MAX_QUANTITY : Z := 100.
Definition MAX_ACTIVE_ORDERS : Z := Z.shiftl 1 13.
Definition PURGE_UNTIL_WHEN_FULL : Z := Z.shiftl 1 12.
Definition POPULATE_WHEN_EMPTY : Z := Z.shiftl 1 8.

(** handler::config *)
Definition UDP_PACKET_BUFFER_SIZE : Z := Z.shiftl 1 15.
Definition REORDER_BUFFER_SIZE : Z := Z.shiftl 1 15.
Definition MARKET_EVENT_BUFFER_SIZE : Z := Z.shiftl 1 15.
Definition RETRANSMIT_BUFFER_SIZE : Z := Z.shiftl 1 8.

(** strategy::config *)
Definition TRADE_BUFFER_SIZE : Z := Z.shiftl 1 15.
Definition ORDER_UPDATE_BUFFER_SIZE : Z := Z.shiftl 1 15.
Definition STRATEGY_ORDER_BUFFER_SIZE : Z := Z.shiftl 1 5.
Definition MIN_TICK_DIFF : Z := 1.
Definition ONE_SIDED_MIN_SPREAD : Z := 3.
Definition ONE_SIDED_MAX_SPREAD : Z := 10.
Definition MAX_ALLOWED_DRIFT : Z := 2.
Definition MARKET_MAKER_ORDER_QUANTITY : Z := 75.
Definition MIN_MARKET_MAKER_ORDER_QUANTITY : Z := 25.
Definition EXPOSURE_REBALANCE_THRESHOLD : Z := 25.
Definition MAX_ADDITIONAL_EXIT_QUANTITY : Z := 150.
Definition MIN_BID_PRICE : Z := 1.

(** The capacities the program instantiates its containers with pass the
    containers' static assertions. *)
#[global] Instance pot_map_levels : PowerOfTwo (MAX_PRICE_LEVELS * 2).
Proof. by apply pot_check. Qed.
#[global] Instance pot_map_orders : PowerOfTwo (MAX_CONCURRENT_ORDERS * 2).
Proof. by apply pot_check. Qed.
#[global] Instance pot_market_events : PowerOfTwo MARKET_EVENT_BUFFER_CAPACITY.
Proof. by apply pot_check. Qed.
#[global] Instance pot_cache : PowerOfTwo RETRANSMIT_CACHE_SIZE.
Proof. by apply pot_check. Qed.
#[global] Instance pot_retransmit : PowerOfTwo RETRANSMIT_BUFFER_SIZE.
Proof. by apply pot_check. Qed.
#[global] Instance pot_strategy_orders : PowerOfTwo STRATEGY_ORDER_BUFFER_SIZE.
Proof. by apply pot_check. Qed.
End Config.
