(* ===== verification/Interfaces.v ===== *)
(** * Interfaces between components

    What one component promises to another, as type classes: the operations a
    client calls, and the laws its proofs may use.  The client's theorems are
    proved against the class; the file of the implementation gives the
    instance. *)

From S2P Require Import Prelude.

(** ** A keyed store

    The interface of [ClosedHashMap] that [BookState] relies on.  [ks_find] is
    [find(key)] followed by a read of the reference, [ks_modify] a write
    through the reference that [find(key)] returned. *)
Class KeyedStore (M K V : Type) : Type := {
  ks_find : M → K → option V;
  ks_add : M → K → V → outcome M;
  ks_remove : M → K → bool * M;
  ks_modify : M → K → (V → V) → outcome M;
}.

(** The store behaves as the finite map [g] as long as it holds at most [cap]
    keys: the contract is that of [gmap], with a size bound on [ks_add]. *)
Class KeyedStoreLaws (M K V : Type) `{Countable K} {ops : KeyedStore M K V}
    (cap : Z) (repr : M → gmap K V → Prop) : Prop := {
  ks_find_spec m g k : repr m g → ks_find m k = g !! k;
  ks_add_spec m g k v :
    repr m g → g !! k = None → Z.of_nat (size g) < cap →
    ∃ m', ks_add m k v = Ok m' ∧ repr m' (<[k := v]> g);
  ks_remove_spec m g k :
    repr m g →
    ∃ m', ks_remove m k = (bool_decide (is_Some (g !! k)), m') ∧ repr m' (delete k g);
  ks_modify_spec m g k v f :
    repr m g → g !! k = Some v →
    ∃ m', ks_modify m k f = Ok m' ∧ repr m' (<[k := f v]> g);
}.

(** ** A bounded first-in first-out queue

    The interface of the ring buffers: [bq_push] is the producer's whole
    sequence (claim, write, publish), [bq_pop] the consumer's (claim, read,
    release); both return [None] where the code reports a full or empty
    buffer. *)
Class BoundedQueue (Q A : Type) : Type := {
  bq_push : A → Q → outcome (option Q);
  bq_pop : Q → outcome (option (A * Q));
}.

(** [repr q l]: [q] holds the elements [l], oldest first. *)
Class BoundedQueueLaws (Q A : Type) {ops : BoundedQueue Q A}
    (cap : Z) (repr : Q → list A → Prop) : Prop := {
  bq_bound q l : repr q l → Z.of_nat (length l) ≤ cap;
  bq_push_full q l a : repr q l → Z.of_nat (length l) = cap → bq_push a q = Ok None;
  bq_push_spec q l a : repr q l → Z.of_nat (length l) < cap →
    ∃ q', bq_push a q = Ok (Some q') ∧ repr q' (l ++ [a]);
  bq_pop_empty q : repr q [] → bq_pop q = Ok None;
  bq_pop_spec q a l : repr q (a :: l) →
    ∃ q', bq_pop q = Ok (Some (a, q')) ∧ repr q' l;
}.

(** Scripts of pushes and pops, on an implementation and on the list it
    represents; the results are [false]/[None] where the buffer refused. *)
Inductive queue_op (A : Type) : Type := Push (a : A) | Pop.
Arguments Push {A} a.
Arguments Pop {A}.

Section Scripts.
Context {Q A : Type} `{BoundedQueue Q A}.

Fixpoint run_queue (script : list (queue_op A)) (q : Q) : outcome (list (bool + option A) * Q) :=
  match script with
  | [] => Ok ([], q)
  | Push a :: script =>
      o ← bq_push a q;
      '(out, q') ← run_queue script (default q o);
      Ok (inl (bool_decide (is_Some o)) :: out, q')
  | Pop :: script =>
      o ← bq_pop q;
      '(out, q') ← run_queue script (default q (snd <$> o));
      Ok (inr (fst <$> o) :: out, q')
  end.

Fixpoint run_list (cap : Z) (script : list (queue_op A)) (l : list A) :
    list (bool + option A) * list A :=
  match script with
  | [] => ([], l)
  | Push a :: script =>
      let room := Z.of_nat (length l) <? cap in
      let '(out, l') := run_list cap script (if room then l ++ [a] else l) in (inl room :: out, l')
  | Pop :: script =>
      let '(out, l') := run_list cap script (tail l) in (inr (head l) :: out, l')
  end.

Lemma run_queue_list cap repr `{!BoundedQueueLaws Q A cap repr} script q l :
  repr q l →
  ∃ q', run_queue script q = Ok ((run_list cap script l).1, q') ∧ repr q' (run_list cap script l).2.
Proof.
  revert q l. induction script as [|[a|] script IH]; intros q l Hq; simpl; [by exists q|..].
  - pose proof (bq_bound _ _ Hq). destruct (Z.ltb_spec (Z.of_nat (length l)) cap) as [Hlt|Hge].
    + destruct (bq_push_spec _ _ a Hq Hlt) as (q1 & -> & Hq1). simpl.
      destruct (IH q1 _ Hq1) as (q' & -> & Hq'). simpl. destruct (run_list _ _ _). by exists q'.
    + rewrite (bq_push_full _ _ a Hq) by lia. simpl.
      destruct (IH q _ Hq) as (q' & -> & Hq'). simpl. destruct (run_list _ _ _). by exists q'.
  - destruct l as [|a l].
    + rewrite (bq_pop_empty _ Hq). simpl.
      destruct (IH q _ Hq) as (q' & -> & Hq'). simpl. destruct (run_list _ _ _). by exists q'.
    + destruct (bq_pop_spec _ _ _ Hq) as (q1 & -> & Hq1). simpl.
      destruct (IH q1 _ Hq1) as (q' & -> & Hq'). simpl. destruct (run_list _ _ _). by exists q'.
Qed.
End Scripts.
