(* ===== verification/HashMap.v ===== *)
(** * ClosedHashMap ([includes/order-book/closed-hash-map.hpp])

    The linear-probing hash map with tombstones, for any key type, any
    [std::hash] and any power-of-two capacity.  The map refines [gmap]: it is an
    instance of the [KeyedStore] interface. *)

From S2P Require Import Prelude Interfaces.

Module ClosedHashMap.

Inductive SlotStatus : Type := Empty | Tombstone | Occupied.
#[global] Instance status_eq_dec : EqDecision SlotStatus.
Proof. solve_decision. Defined.

(** [slots] and [occupied].  A slot whose [KeyValuePair] was never written is
    [None]: its members are indeterminate. *)
Record t (K V : Type) : Type := {
  slots : list (option (K * V));
  occupied : list SlotStatus;
}.
Arguments slots {K V}.
Arguments occupied {K V}.

Section Definitions.
Context {K V : Type} `{EqDecision K} (std_hash : K → Z) (CAPACITY : Z).

Definition init : t K V := {|
  slots := replicate (Z.to_nat CAPACITY) None;
  occupied := replicate (Z.to_nat CAPACITY) Empty;
|}.

Definition hash (key : K) : Z := mask CAPACITY (u64 (std_hash key)).

Definition status_at (m : t K V) (i : Z) : option SlotStatus := occupied m !! Z.to_nat i.
Definition pair_at (m : t K V) (i : Z) : option (K * V) := mjoin (slots m !! Z.to_nat i).

(** [slots[idx].key == key] *)
Definition key_is (m : t K V) (i : Z) (key : K) : bool :=
  match pair_at m i with Some (k, _) => bool_decide (k = key) | None => false end.

(** The probe loops; [probes] counts the remaining iterations of the [for]
    loop, [None] is [NULL_INDEX]. *)
Fixpoint probe_new_loop (probes : nat) (m : t K V) (idx : Z) : option Z :=
  match probes with
  | O => None
  | S probes =>
      if negb (bool_decide (status_at m idx = Some Occupied)) then Some idx
      else probe_new_loop probes m (mask CAPACITY (idx + 1))
  end.
Definition probe_new (m : t K V) (key : K) : option Z :=
  probe_new_loop (Z.to_nat CAPACITY) m (hash key).

Fixpoint probe_existing_loop (probes : nat) (m : t K V) (key : K) (idx : Z) : option Z :=
  match probes with
  | O => None
  | S probes =>
      if bool_decide (status_at m idx = Some Empty) then None
      else if bool_decide (status_at m idx = Some Occupied) && key_is m idx key then Some idx
      else probe_existing_loop probes m key (mask CAPACITY (idx + 1))
  end.
Definition probe_existing (m : t K V) (key : K) : option Z :=
  probe_existing_loop (Z.to_nat CAPACITY) m key (hash key).

Definition add (m : t K V) (key : K) (value : V) : outcome (t K V) :=
  match probe_new m key with
  | None => Undefined (* assert(slot_index != NULL_INDEX) *)
  | Some i => Ok {|
      slots := <[Z.to_nat i := Some (key, value)]> (slots m);
      occupied := <[Z.to_nat i := Occupied]> (occupied m);
    |}
  end.

Definition remove (m : t K V) (key : K) : bool * t K V :=
  match probe_existing m key with
  | None => (false, m)
  | Some i => (true, {| slots := slots m; occupied := <[Z.to_nat i := Tombstone]> (occupied m) |})
  end.

(** The value that the reference returned by [find] designates. *)
Definition find (m : t K V) (key : K) : option V :=
  i ← probe_existing m key; snd <$> pair_at m i.

(** A write through the reference returned by [find]. *)
Definition modify (m : t K V) (key : K) (f : V → V) : outcome (t K V) :=
  match probe_existing m key with
  | None => Undefined
  | Some i =>
      match pair_at m i with
      | None => Undefined
      | Some (k, v) =>
          Ok {| slots := <[Z.to_nat i := Some (k, f v)]> (slots m); occupied := occupied m |}
      end
  end.

End Definitions.

(** ** Probe sequences *)

Section Proofs.
Context {K V : Type} `{Countable K} (std_hash : K → Z) (CAPACITY : Z).
Context {HC : PowerOfTwo CAPACITY}.

Abbreviation hash_of := (hash std_hash CAPACITY).
Implicit Types (m : t K V) (k : K) (v : V) (i : Z) (d : nat).

(** The [d]-th slot probed from [i]. *)
Definition pos i d : Z := (i + Z.of_nat d) mod CAPACITY.

Lemma cap_pos : 0 < CAPACITY.
Proof. apply pot_pos. Qed.

Lemma pos_range i d : 0 ≤ pos i d < CAPACITY.
Proof. apply Z.mod_pos_bound, cap_pos. Qed.

Lemma pos_O i : 0 ≤ i < CAPACITY → pos i 0 = i.
Proof. intros. unfold pos. rewrite Z.add_0_r. by apply Z.mod_small. Qed.

Lemma pos_S i d : pos i (S d) = pos (mask CAPACITY (i + 1)) d.
Proof.
  unfold pos. rewrite mask_mod by done. rewrite Zplus_mod_idemp_l. f_equal. lia.
Qed.

Lemma hash_range k : 0 ≤ hash_of k < CAPACITY.
Proof. by apply mask_range. Qed.

(** Every slot is reached within [CAPACITY] probes. *)
Lemma pos_surj i j : 0 ≤ i < CAPACITY → 0 ≤ j < CAPACITY →
  ∃ d, (d < Z.to_nat CAPACITY)%nat ∧ j = pos i d.
Proof.
  intros Hi Hj. exists (Z.to_nat ((j - i) mod CAPACITY)).
  pose proof (Z.mod_pos_bound (j - i) CAPACITY cap_pos). split; [lia|].
  unfold pos. rewrite Z2Nat.id by lia. rewrite Zplus_mod_idemp_r.
  replace (i + (j - i)) with j by lia. by rewrite Z.mod_small.
Qed.

Definition holds m i k v : Prop :=
  status_at m i = Some Occupied ∧ pair_at m i = Some (k, v).

Lemma key_is_holds m i k : status_at m i = Some Occupied → key_is m i k = true →
  ∃ v, holds m i k v.
Proof.
  unfold key_is, holds. intros Hs.
  destruct (pair_at m i) as [[k' v]|]; [|done].
  intros Hk%bool_decide_eq_true. subst. by exists v.
Qed.

Lemma holds_key_is m i k v : holds m i k v → key_is m i k = true.
Proof. unfold key_is. intros [_ ->]. by apply bool_decide_eq_true. Qed.

(** What the two loops return, in terms of the probe sequence. *)
Lemma probe_new_loop_spec n m i : 0 ≤ i < CAPACITY →
  match probe_new_loop CAPACITY n m i with
  | Some j => ∃ d, (d < n)%nat ∧ j = pos i d ∧ status_at m j ≠ Some Occupied ∧
      ∀ d', (d' < d)%nat → status_at m (pos i d') = Some Occupied
  | None => ∀ d, (d < n)%nat → status_at m (pos i d) = Some Occupied
  end.
Proof.
  revert i. induction n as [|n IH]; intros i Hi; simpl; [intros; lia|].
  destruct (bool_decide_reflect (status_at m i = Some Occupied)) as [Hs|Hs]; simpl.
  - specialize (IH (mask CAPACITY (i + 1)) ltac:(by apply mask_range)).
    destruct (probe_new_loop _ _ _ _) as [j|].
    + destruct IH as (d & ? & -> & ? & Hd). exists (S d). rewrite pos_S.
      repeat split; [lia|done|]. intros [|d'] ?; [by rewrite pos_O|].
      rewrite pos_S. apply Hd. lia.
    + intros [|d] ?; [by rewrite pos_O|]. rewrite pos_S. apply IH. lia.
  - exists 0%nat. rewrite pos_O by done. repeat split; [lia|done|]. intros; lia.
Qed.

Lemma probe_existing_loop_spec n m k i : 0 ≤ i < CAPACITY →
  match probe_existing_loop CAPACITY n m k i with
  | Some j => ∃ v, holds m j k v
  | None => ∃ d, (d ≤ n)%nat ∧ (d = n ∨ status_at m (pos i d) = Some Empty) ∧
      ∀ d', (d' < d)%nat → ∀ v, ¬ holds m (pos i d') k v
  end.
Proof.
  revert i. induction n as [|n IH]; intros i Hi; simpl.
  { exists 0%nat. repeat split; [lia|by left|]. intros; lia. }
  destruct (bool_decide_reflect (status_at m i = Some Empty)) as [He|He].
  { exists 0%nat. rewrite pos_O by done. repeat split; [lia|by right|]. intros; lia. }
  destruct (bool_decide_reflect (status_at m i = Some Occupied)) as [Hs|Hs]; simpl;
    [destruct (key_is m i k) eqn:Hk|]; [by apply key_is_holds|..].
  all: specialize (IH (mask CAPACITY (i + 1)) ltac:(by apply mask_range)).
  all: destruct (probe_existing_loop _ _ _ _ _) as [j|]; [done|].
  all: destruct IH as (d & ? & Hend & Hd); exists (S d); rewrite pos_S.
  all: (split; [lia|split; [destruct Hend as [->|?]; [by left|by right]|]]).
  all: intros [|d'] ? v Hh; [rewrite pos_O in Hh by done|rewrite pos_S in Hh; eapply Hd; [|done]; lia].
  - apply holds_key_is in Hh. congruence.
  - by destruct Hh.
Qed.

(** ** The representation relation *)

(** Well-formedness: both arrays have [CAPACITY] elements, an occupied slot
    was written, a key occupies at most one slot, and the probe sequence of a
    key meets no [Empty] slot before the slot the key occupies. *)
Record wf m : Prop := {
  wf_slots : length (slots m) = Z.to_nat CAPACITY;
  wf_occupied : length (occupied m) = Z.to_nat CAPACITY;
  wf_init i : 0 ≤ i → status_at m i = Some Occupied → is_Some (pair_at m i);
  wf_unique i j k v w : 0 ≤ i → 0 ≤ j → holds m i k v → holds m j k w → i = j;
  wf_path i k v : 0 ≤ i → holds m i k v →
    ∃ d, (d < Z.to_nat CAPACITY)%nat ∧ i = pos (hash_of k) d ∧
      ∀ d', (d' < d)%nat → status_at m (pos (hash_of k) d') ≠ Some Empty;
}.

Definition count m : nat := length (filter (λ s, s = Occupied) (occupied m)).

Record repr m (g : gmap K V) : Prop := {
  repr_wf : wf m;
  repr_lookup k v : g !! k = Some v ↔ ∃ i, 0 ≤ i ∧ holds m i k v;
  repr_count : count m = size g;
}.

Lemma status_lt m i s : wf m → 0 ≤ i → status_at m i = Some s → i < CAPACITY.
Proof.
  intros Hwf Hi Hs%lookup_lt_Some. rewrite wf_occupied in Hs by done. lia.
Qed.

Lemma status_total m i : wf m → 0 ≤ i < CAPACITY → is_Some (status_at m i).
Proof. intros Hwf ?. apply lookup_lt_is_Some. rewrite wf_occupied by done. lia. Qed.

Lemma probe_existing_spec m g k : repr m g →
  match probe_existing std_hash CAPACITY m k with
  | Some i => ∃ v, 0 ≤ i < CAPACITY ∧ holds m i k v ∧ g !! k = Some v
  | None => g !! k = None
  end.
Proof.
  intros [Hwf Hlook Hcnt]. unfold probe_existing.
  pose proof (probe_existing_loop_spec (Z.to_nat CAPACITY) m k (hash_of k) (hash_range k)) as Hp.
  assert (∀ n i j, 0 ≤ i < CAPACITY → probe_existing_loop CAPACITY n m k i = Some j →
    0 ≤ j < CAPACITY) as Hrange.
  { intros n. induction n as [|n IH]; simpl; intros i j Hi; [done|].
    destruct (bool_decide _); [done|]. destruct (_ && _); [intros [= <-]; done|].
    apply IH. by apply mask_range. }
  destruct (probe_existing_loop _ _ _ _ _) as [i|] eqn:Hl.
  - apply Hrange in Hl; [|apply hash_range]. destruct Hp as [v Hv]. exists v.
    repeat split; [lia..|apply Hv|apply Hv|]. apply Hlook. exists i. split; [lia|done].
  - destruct Hp as (d & Hd & Hend & Hnone).
    destruct (g !! k) as [v|] eqn:Hg; [exfalso|done].
    apply Hlook in Hg as (i & Hi & Hh).
    destruct (wf_path m Hwf i k v Hi Hh) as (e & He & -> & Hpath).
    destruct (decide (e < d)%nat) as [|Hge]; [by eapply Hnone|].
    destruct Hend as [->|Hend]; [lia|].
    destruct (decide (d = e)) as [->|]; [destruct Hh; congruence|].
    apply (Hpath d); [lia|done].
Qed.

(** Statuses and pairs after a store into slot [i]. *)
Lemma status_upd m i s j : wf m → 0 ≤ i < CAPACITY → 0 ≤ j →
  <[Z.to_nat i := s]> (occupied m) !! Z.to_nat j =
    if decide (i = j) then Some s else status_at m j.
Proof.
  intros Hwf ??. case_decide; subst.
  - apply list_lookup_insert_eq. rewrite wf_occupied by done. lia.
  - apply list_lookup_insert_ne. lia.
Qed.

Lemma pair_upd m i p j : wf m → 0 ≤ i < CAPACITY → 0 ≤ j →
  mjoin (<[Z.to_nat i := Some p]> (slots m) !! Z.to_nat j) =
    if decide (i = j) then Some p else pair_at m j.
Proof.
  intros Hwf ??. unfold pair_at. case_decide; subst.
  - rewrite list_lookup_insert_eq by (rewrite wf_slots by done; lia). done.
  - rewrite list_lookup_insert_ne by lia. done.
Qed.

Lemma init_repr : repr (init (K := K) (V := V) CAPACITY) ∅.
Proof.
  assert (∀ i k v, ¬ holds (init CAPACITY) i k v) as Hno.
  { intros i k v [Hs _]. unfold status_at in Hs. simpl in Hs.
    by apply lookup_replicate in Hs as [? _]. }
  split.
  - split; simpl; rewrite ?length_replicate; try done.
    + intros i _ Hs. unfold status_at in Hs. simpl in Hs.
      by apply lookup_replicate in Hs as [? _].
    + intros i j k v w _ _ Hh. by apply Hno in Hh.
    + intros i k v _ Hh. by apply Hno in Hh.
  - intros k v. rewrite lookup_empty. split; [done|]. intros (i & _ & Hh). by apply Hno in Hh.
  - rewrite map_size_empty. unfold count. simpl.
    induction (Z.to_nat CAPACITY); simpl; [done|]. by rewrite filter_cons_False.
Qed.

Lemma find_repr m g k : repr m g → find std_hash CAPACITY m k = g !! k.
Proof.
  intros Hr. unfold find. pose proof (probe_existing_spec m g k Hr) as Hp.
  destruct (probe_existing _ _ _ _) as [i|]; simpl; [|done].
  destruct Hp as (v & _ & [_ ->] & ->). done.
Qed.

(** A state whose slot [i] alone changed, with its new status and pair. *)
Definition store m i (s : SlotStatus) (p : K * V) : t K V := {|
  slots := <[Z.to_nat i := Some p]> (slots m);
  occupied := <[Z.to_nat i := s]> (occupied m);
|}.

Lemma holds_store m i s p j k v : wf m → 0 ≤ i < CAPACITY → 0 ≤ j →
  holds (store m i s p) j k v ↔
    if decide (i = j) then s = Occupied ∧ p = (k, v) else holds m j k v.
Proof.
  intros. unfold holds, status_at at 1, pair_at at 1, store; simpl.
  rewrite status_upd, pair_upd by done. case_decide; [|done].
  split; [intros [[= ->] [= ->]]|intros [-> ->]]; done.
Qed.

Lemma count_store m i s s' p : status_at m i = Some s' →
  (count (store m i s p) + (if decide (s' = Occupied) then 1 else 0) =
   count m + (if decide (s = Occupied) then 1 else 0))%nat.
Proof. intros Hs. unfold count, store. simpl. exact (filter_insert_length (λ x, x = Occupied) (occupied m) (Z.to_nat i) s' s Hs). Qed.

(** Storing into slot [i] preserves well-formedness when it does not empty the
    slot and the new key, if any, is reachable and fresh. *)
Lemma wf_store m i s p : wf m → 0 ≤ i < CAPACITY → s ≠ Empty →
  (s = Occupied → ∀ j w, 0 ≤ j → j ≠ i → ¬ holds m j p.1 w) →
  (s = Occupied → ∃ d, (d < Z.to_nat CAPACITY)%nat ∧ i = pos (hash_of p.1) d ∧
      ∀ d', (d' < d)%nat → status_at m (pos (hash_of p.1) d') ≠ Some Empty) →
  wf (store m i s p).
Proof.
  intros Hwf Hi Hs Hfresh Hpath.
  assert (∀ j, 0 ≤ j → status_at m j ≠ Some Empty →
    status_at (store m i s p) j ≠ Some Empty) as Hmono.
  { intros j Hj Hne. unfold status_at, store; simpl. rewrite status_upd by done.
    case_decide; congruence. }
  split.
  - simpl. rewrite length_insert. by apply wf_slots.
  - simpl. rewrite length_insert. by apply wf_occupied.
  - intros j Hj. unfold status_at, pair_at, store; simpl.
    rewrite status_upd, pair_upd by done. case_decide; [by eexists|by apply wf_init].
  - intros j j' k v w Hj Hj'. rewrite !holds_store by done.
    destruct (decide (i = j)) as [<-|], (decide (i = j')) as [<-|]; [done|..].
    + intros [-> ->] Hh. exfalso. by eapply (Hfresh eq_refl j').
    + intros Hh [-> ->]. exfalso. by eapply (Hfresh eq_refl j).
    + by apply wf_unique.
  - intros j k v Hj. rewrite holds_store by done. intros Hh.
    assert (∃ d, (d < Z.to_nat CAPACITY)%nat ∧ j = pos (hash_of k) d ∧
      ∀ d', (d' < d)%nat → status_at m (pos (hash_of k) d') ≠ Some Empty) as (d & Hd & -> & Hpre).
    { destruct (decide (i = j)) as [<-|]; [destruct Hh as [-> ->]; by apply Hpath|].
      by eapply wf_path. }
    exists d. repeat split; [done|]. intros d' Hd'. apply Hmono; [apply pos_range|auto].
Qed.

Lemma not_full m g : repr m g → Z.of_nat (size g) < CAPACITY →
  ∃ i, 0 ≤ i < CAPACITY ∧ status_at m i ≠ Some Occupied.
Proof.
  intros [Hwf _ Hcnt] Hsize.
  destruct (decide (Forall (λ s, s = Occupied) (occupied m))) as [Hall|Hex].
  - apply (filter_full_length (λ s, s = Occupied)) in Hall. unfold count in Hcnt.
    rewrite Hcnt, wf_occupied in Hall by done. lia.
  - apply not_Forall_Exists in Hex; [|apply _].
    apply Exists_exists in Hex as (s & Hin & Hs).
    apply list_elem_of_lookup in Hin as [n Hn]. exists (Z.of_nat n).
    pose proof (lookup_lt_Some _ _ _ Hn) as Hlt. rewrite wf_occupied in Hlt by done.
    split; [lia|]. unfold status_at. rewrite Nat2Z.id, Hn. congruence.
Qed.

Lemma add_repr m g k v : repr m g → g !! k = None → Z.of_nat (size g) < CAPACITY →
  ∃ m', add std_hash CAPACITY m k v = Ok m' ∧ repr m' (<[k := v]> g).
Proof.
  intros Hr Hk Hsize. pose proof Hr as [Hwf Hlook Hcnt].
  unfold add, probe_new.
  pose proof (probe_new_loop_spec (Z.to_nat CAPACITY) m _ (hash_range k)) as Hp.
  destruct (probe_new_loop _ _ _ _) as [i|].
  2:{ destruct (not_full m g Hr Hsize) as (j & Hj & Hs).
      destruct (pos_surj _ j (hash_range k) Hj) as (d & Hd & ->). by rewrite Hp in Hs. }
  destruct Hp as (d & Hd & Hi & Hs & Hocc).
  assert (0 ≤ i < CAPACITY) as Hir by (subst; apply pos_range).
  eexists. split; [done|].
  change (repr (store m i Occupied (k, v)) (<[k := v]> g)).
  assert (∀ j w, 0 ≤ j → ¬ holds m j k w) as Hno.
  { intros j w Hj Hh. assert (g !! k = Some w) by (apply Hlook; eauto). congruence. }
  split.
  - apply wf_store; [done..|naive_solver|]. intros _. exists d.
    repeat split; [done|done|]. intros d' Hd'. simpl. rewrite Hocc by done. done.
  - intros k' v'. rewrite lookup_insert. case_decide as Hkk; subst.
    + split; [intros [= <-]; exists (pos (hash_of k') d)|intros (j & Hj & Hh)].
      * split; [lia|]. rewrite holds_store by (done || lia). by rewrite decide_True.
      * rewrite holds_store in Hh by done. case_decide; [naive_solver|by apply Hno in Hh].
    + rewrite Hlook. split; intros (j & Hj & Hh); exists j; (split; [done|]).
      * rewrite holds_store by done. case_decide; [|done]. subst j. by destruct Hh.
      * rewrite holds_store in Hh by done. case_decide; [naive_solver|done].
  - destruct (status_total m i Hwf Hir) as [s' Hs'].
    pose proof (count_store m i Occupied s' (k, v) Hs') as Hc.
    rewrite map_size_insert_None by done. rewrite <- Hcnt.
    rewrite decide_False, decide_True in Hc by congruence. lia.
Qed.

Lemma remove_repr m g k : repr m g →
  ∃ m', remove std_hash CAPACITY m k = (bool_decide (is_Some (g !! k)), m') ∧
        repr m' (delete k g).
Proof.
  intros Hr. pose proof Hr as [Hwf Hlook Hcnt]. unfold remove.
  pose proof (probe_existing_spec m g k Hr) as Hp.
  destruct (probe_existing _ _ _ _) as [i|].
  2:{ exists m. rewrite Hp, bool_decide_false by (by intros []). split; [done|].
      by rewrite delete_id. }
  destruct Hp as (v & Hi & [Hs Hpr] & Hg).
  assert ({| slots := slots m; occupied := <[Z.to_nat i:=Tombstone]> (occupied m) |} =
    store m i Tombstone (k, v)) as ->.
  { unfold store. f_equal. symmetry. apply list_insert_id.
    unfold pair_at in Hpr. by destruct (slots m !! Z.to_nat i) as [[]|]; simplify_eq/=. }
  eexists. rewrite Hg, bool_decide_true by eauto. split; [done|]. split.
  - by apply wf_store.
  - intros k' v'. rewrite lookup_delete. case_decide as Hkk; subst.
    + split; [done|]. intros (j & Hj & Hh). rewrite holds_store in Hh by done.
      case_decide as Hij; [naive_solver|]. exfalso. apply Hij.
      eapply (wf_unique m Hwf i j); [lia|done| |done]. by split.
    + rewrite Hlook. split; intros (j & Hj & Hh); exists j; (split; [done|]).
      * rewrite holds_store by done. case_decide; [|done]. subst j.
        destruct Hh as [_ Hh]. congruence.
      * rewrite holds_store in Hh by done. case_decide; [naive_solver|done].
  - pose proof (count_store m i Tombstone Occupied (k, v) Hs) as Hc.
    rewrite decide_True, decide_False in Hc by done.
    rewrite map_size_delete, Hg. lia.
Qed.

Lemma modify_repr m g k v f : repr m g → g !! k = Some v →
  ∃ m', modify std_hash CAPACITY m k f = Ok m' ∧ repr m' (<[k := f v]> g).
Proof.
  intros Hr Hg. pose proof Hr as [Hwf Hlook Hcnt]. unfold modify.
  pose proof (probe_existing_spec m g k Hr) as Hp.
  destruct (probe_existing _ _ _ _) as [i|]; [|congruence].
  destruct Hp as (v' & Hi & Hh & Hg'). simplify_eq. pose proof Hh as [Hs Hpr].
  rewrite Hpr. eexists. split; [done|].
  assert ({| slots := <[Z.to_nat i:=Some (k, f v)]> (slots m); occupied := occupied m |} =
    store m i Occupied (k, f v)) as ->.
  { unfold store. f_equal. symmetry. by apply list_insert_id. }
  split.
  - apply wf_store; [done..| |].
    + intros _ j w Hj Hne Hh'. apply Hne. eapply (wf_unique m Hwf j i); [done|lia|done|done].
    + intros _. eapply wf_path; [done| |done]. lia.
  - intros k' v'. rewrite lookup_insert. case_decide as Hkk; subst.
    + split; [intros [= <-]; exists i|intros (j & Hj & Hh')].
      * split; [lia|]. rewrite holds_store by (done || lia). by rewrite decide_True.
      * rewrite holds_store in Hh' by done. case_decide as Hij; [naive_solver|].
        exfalso. apply Hij. eapply (wf_unique m Hwf i j); [lia|done|done|done].
    + rewrite Hlook. split; intros (j & Hj & Hh'); exists j; (split; [done|]).
      * rewrite holds_store by done. case_decide; [|done]. subst j.
        destruct Hh' as [_ Hh']. congruence.
      * rewrite holds_store in Hh' by done. case_decide; [naive_solver|done].
  - pose proof (count_store m i Occupied Occupied (k, f v) Hs) as Hc.
    rewrite decide_True in Hc by done. rewrite map_size_insert_Some by eauto. lia.
Qed.

(** ** The interface instance *)

Definition keyed_store : KeyedStore (t K V) K V := {|
  ks_find := find std_hash CAPACITY;
  ks_add := add std_hash CAPACITY;
  ks_remove := remove std_hash CAPACITY;
  ks_modify := modify std_hash CAPACITY;
|}.

Lemma keyed_store_laws :
  KeyedStoreLaws (t K V) K V (ops := keyed_store) CAPACITY repr.
Proof.
  split; [exact find_repr|exact add_repr|exact remove_repr|exact modify_repr].
Qed.

(** ** Scripts of operations *)

Inductive op : Type :=
  | OpAdd (k : K) (v : V)
  | OpRemove (k : K)
  | OpFind (k : K).
Inductive resp : Type :=
  | RAdded
  | RRemoved (found : bool)
  | RFound (v : option V).

Definition step m (o : op) : outcome (t K V * resp) :=
  match o with
  | OpAdd k v => m' ← add std_hash CAPACITY m k v; Ok (m', RAdded)
  | OpRemove k => let '(b, m') := remove std_hash CAPACITY m k in Ok (m', RRemoved b)
  | OpFind k => Ok (m, RFound (find std_hash CAPACITY m k))
  end.

Fixpoint run m (os : list op) : outcome (list resp) :=
  match os with
  | [] => Ok []
  | o :: os => '(m', r) ← step m o; rs ← run m' os; Ok (r :: rs)
  end.

(** The same script on a finite map; [None] when it breaks the contract of
    [add] (the key is present, or the map is full). *)
Definition spec_step (g : gmap K V) (o : op) : option (gmap K V * resp) :=
  match o with
  | OpAdd k v =>
      if decide (g !! k = None ∧ Z.of_nat (size g) < CAPACITY)
      then Some (<[k := v]> g, RAdded) else None
  | OpRemove k => Some (delete k g, RRemoved (bool_decide (is_Some (g !! k))))
  | OpFind k => Some (g, RFound (g !! k))
  end.

Fixpoint spec_run (g : gmap K V) (os : list op) : option (list resp) :=
  match os with
  | [] => Some []
  | o :: os => '(g', r) ← spec_step g o; rs ← spec_run g' os; Some (r :: rs)
  end.

Lemma step_refines m g o g' r : repr m g → spec_step g o = Some (g', r) →
  ∃ m', step m o = Ok (m', r) ∧ repr m' g'.
Proof.
  intros Hr. destruct o as [k v|k|k]; simpl.
  - case_decide as Hd; [|done]. intros [= <- <-].
    destruct (add_repr m g k v Hr) as (m' & -> & ?); [apply Hd..|]. by exists m'.
  - intros [= <- <-]. destruct (remove_repr m g k Hr) as (m' & -> & ?). by exists m'.
  - intros [= <- <-]. rewrite (find_repr m g k Hr). by exists m.
Qed.

Lemma run_refines m g os rs : repr m g → spec_run g os = Some rs → run m os = Ok rs.
Proof.
  revert m g rs. induction os as [|o os IH]; intros m g rs Hr; simpl; [by intros [= <-]|].
  destruct (spec_step g o) as [[g' r]|] eqn:Hs; simpl; [|done].
  destruct (spec_run g' os) as [rs'|] eqn:Hrun; simpl; [|done]. intros [= <-].
  destruct (step_refines m g o g' r Hr Hs) as (m' & -> & Hr'). simpl.
  by rewrite (IH m' g' rs' Hr' Hrun).
Qed.

(** C15: the linear-probing map with tombstones refines a finite map.  For every
    hash function and every power-of-two capacity, any script of [add],
    [remove] and [find] run from the empty map, in which [add] is given fresh
    keys and the number of live keys stays within the capacity, returns exactly
    what the same script returns on a [gmap]; no assertion fails. *)
Theorem closed_hash_map_refines_gmap (os : list op) (rs : list resp) :
  spec_run ∅ os = Some rs → run (init CAPACITY) os = Ok rs.
Proof. apply run_refines, init_repr. Qed.

End Proofs.

(** All keys collide: a full map, a tombstone in the middle of the probe
    sequence, a lookup past it and a reuse of the tombstone. *)
Lemma closed_hash_map_refines_gmap_witness :
  run (λ _ : Z, 3) 4 (init 4)
    [OpAdd 10 1; OpAdd 11 2; OpAdd 12 3; OpAdd 13 4; OpRemove 11; OpFind 13;
     OpRemove 11; OpAdd 14 5; OpFind 14; OpFind 11] =
  Ok [RAdded; RAdded; RAdded; RAdded; RRemoved true; RFound (Some 4);
      RRemoved false; RAdded; RFound (Some 5); RFound None].
Proof.
  apply (closed_hash_map_refines_gmap (λ _, 3) 4 (HC := pot_check 4 eq_refl)). reflexivity.
Defined.
End ClosedHashMap.
