(* ===== verification/OrderPool.v ===== *)
(** * OrderPool ([includes/order-book/order-pool.hpp])

    The fixed-capacity slab allocator behind [BookState]: an array of resting
    orders and a stack of free indices. *)

From S2P Require Import Prelude Types.

Module OrderPool.

(** [orders] starts indeterminate ([None]). *)
Record t : Type := {
  orders : list (option RestingOrder.t);
  free_stack : list Z;
  top_index : Z;
}.

Section Definitions.
Context (CAPACITY : Z).

(** [std::ranges::iota(free_stack, 0)] *)
Definition init : t := {|
  orders := replicate (Z.to_nat CAPACITY) None;
  free_stack := seqZ 0 CAPACITY;
  top_index := CAPACITY;
|}.

(** [top_index] is a [uint32_t]: [--top_index] wraps, and the array accesses
    that follow are undefined out of range. *)
Definition allocate (p : t) (order : RestingOrder.t) : outcome (Z * t) :=
  let top := u32 (top_index p - 1) in
  order_idx ← array_get (free_stack p) top;
  os ← array_set (orders p) order_idx (Some order);
  Ok (order_idx, {| orders := os; free_stack := free_stack p; top_index := top |}).

Definition free (p : t) (idx : Z) : outcome t :=
  fs ← array_set (free_stack p) (top_index p) idx;
  Ok {| orders := orders p; free_stack := fs; top_index := u32 (top_index p + 1) |}.

(** [get] returns a reference; [update] is a write through it. *)
Definition get (p : t) (idx : Z) : outcome RestingOrder.t :=
  o ← array_get (orders p) idx; deref o.

Definition update (p : t) (idx : Z) (f : RestingOrder.t → RestingOrder.t) : outcome t :=
  o ← get p idx;
  os ← array_set (orders p) idx (Some (f o));
  Ok {| orders := os; free_stack := free_stack p; top_index := top_index p |}.
End Definitions.

Section Proofs.
Context (CAPACITY : Z).
Implicit Types (p : t) (A : list Z) (i j : Z) (o : RestingOrder.t).

(** [A] are the live indices: with the free part of the stack they are exactly
    [0 .. CAPACITY-1], each once. *)
Record inv p A : Prop := {
  inv_capacity : 0 ≤ CAPACITY < 2 ^ 32;
  inv_orders : length (orders p) = Z.to_nat CAPACITY;
  inv_stack : length (free_stack p) = Z.to_nat CAPACITY;
  inv_top : 0 ≤ top_index p ≤ CAPACITY;
  inv_perm : take (Z.to_nat (top_index p)) (free_stack p) ++ A ≡ₚ seqZ 0 CAPACITY;
}.

Lemma inv_range p A i : inv p A → i ∈ A → 0 ≤ i < CAPACITY.
Proof.
  intros Hinv Hi. assert (i ∈ seqZ 0 CAPACITY) as Hs.
  { rewrite <- (inv_perm p A Hinv). set_solver. }
  apply elem_of_seqZ in Hs. lia.
Qed.

Lemma inv_NoDup p A : inv p A → NoDup A.
Proof.
  intros Hinv. pose proof (NoDup_seqZ 0 CAPACITY) as Hnd.
  rewrite <- (inv_perm p A Hinv) in Hnd. by apply NoDup_app in Hnd as (_ & _ & ?).
Qed.

Lemma inv_size p A : inv p A → Z.of_nat (length A) = CAPACITY - top_index p.
Proof.
  intros Hinv. pose proof (Permutation_length (inv_perm p A Hinv)) as Hl.
  pose proof (inv_stack p A Hinv). pose proof (inv_top p A Hinv).
  pose proof (inv_capacity p A Hinv).
  rewrite length_app, length_take, length_seqZ in Hl. lia.
Qed.

Lemma inv_Permutation p A A' : A ≡ₚ A' → inv p A → inv p A'.
Proof. intros HA []. split; try done. by rewrite <- HA. Qed.

Lemma pool_init_inv : 0 ≤ CAPACITY < 2 ^ 32 → inv (init CAPACITY) [].
Proof.
  intros. split; simpl; [done|by rewrite length_replicate|by rewrite length_seqZ|lia|].
  rewrite app_nil_r, take_ge; [done|]. by rewrite length_seqZ.
Qed.

Lemma allocate_spec p A o : inv p A → Z.of_nat (length A) < CAPACITY →
  ∃ i p', allocate p o = Ok (i, p') ∧ (i ∉ A) ∧ inv p' (i :: A) ∧
    orders p' = <[Z.to_nat i := Some o]> (orders p).
Proof.
  intros Hinv Hlen. pose proof (inv_size p A Hinv). pose proof (inv_top p A Hinv).
  destruct Hinv as [Hc Ho Hs Ht Hperm]. unfold allocate.
  rewrite uwrap_small by (unfold in_u; lia).
  destruct (lookup_lt_is_Some_2 (free_stack p) (Z.to_nat (top_index p - 1))) as [i Hi]; [lia|].
  rewrite (proj2 (array_get_Ok _ _ i)) by (split; [lia|done]). simpl.
  replace (Z.to_nat (top_index p)) with (S (Z.to_nat (top_index p - 1))) in Hperm by lia.
  rewrite (take_S_r _ _ i), <- app_assoc in Hperm by done. simpl in Hperm.
  assert (0 ≤ i < CAPACITY) as Hir.
  { assert (i ∈ seqZ 0 CAPACITY) as Hin by (rewrite <- Hperm; set_solver).
    apply elem_of_seqZ in Hin. lia. }
  rewrite array_set_Ok by lia. simpl. exists i; eexists. split; [done|]. split; [|split; [|done]].
  - pose proof (NoDup_seqZ 0 CAPACITY) as Hnd. rewrite <- Hperm in Hnd.
    apply NoDup_app in Hnd as (_ & _ & Hnd). by apply NoDup_cons in Hnd as [? _].
  - split; simpl; [done|by rewrite length_insert|done|lia|done].
Qed.

Lemma free_spec p A i : inv p (i :: A) →
  ∃ p', free p i = Ok p' ∧ inv p' A ∧ orders p' = orders p.
Proof.
  intros Hinv. pose proof (inv_size p _ Hinv) as Hsz. simpl in Hsz.
  destruct Hinv as [Hc Ho Hs Ht Hperm]. unfold free.
  rewrite array_set_Ok by lia. simpl. eexists. split; [done|]. split; [|done].
  rewrite uwrap_small by (unfold in_u; lia).
  split; simpl; [done..|by rewrite length_insert|lia|].
  replace (Z.to_nat (top_index p + 1)) with (S (Z.to_nat (top_index p))) by lia.
  rewrite (take_S_r _ _ i) by (apply list_lookup_insert_eq; lia).
  rewrite take_insert_ge, <- app_assoc by lia. done.
Qed.

(** An exhausted pool: [--top_index] wraps and the stack is read out of range. *)
Lemma allocate_exhausted p A o : inv p A → Z.of_nat (length A) = CAPACITY →
  allocate p o = Undefined.
Proof.
  intros Hinv Hlen. pose proof (inv_size p A Hinv).
  destruct Hinv as [Hc Ho Hs Ht Hperm]. unfold allocate.
  replace (top_index p) with 0 by lia. change (u32 (0 - 1)) with (2 ^ 32 - 1).
  unfold array_get. rewrite lookup_ge_None_2 by (rewrite Hs; lia). done.
Qed.

Lemma get_Ok p i o : get p i = Ok o ↔ 0 ≤ i ∧ orders p !! Z.to_nat i = Some (Some o).
Proof.
  unfold get. split.
  - intros Hg. destruct (array_get (orders p) i) as [[o'|]| |] eqn:E; simplify_eq/=.
    by apply array_get_Ok in E.
  - intros Ho. apply array_get_Ok in Ho. rewrite Ho. done.
Qed.

Lemma update_spec p A i o f : inv p A → i ∈ A → get p i = Ok o →
  ∃ p', update p i f = Ok p' ∧ inv p' A ∧
    orders p' = <[Z.to_nat i := Some (f o)]> (orders p).
Proof.
  intros Hinv Hi Hg. pose proof (inv_range p A i Hinv Hi). pose proof Hinv as [Hc Ho Hs Ht Hperm].
  unfold update. rewrite Hg. simpl. rewrite array_set_Ok by lia. simpl.
  eexists. split; [done|]. split; [|done]. split; simpl; [done|by rewrite length_insert|done..].
Qed.

(** The order pool never hands out a live slot.  From any state with live
    indices [A]: while fewer than CAPACITY are live, [allocate] succeeds, its
    index is in range and not live, every other slot keeps its order, and
    freeing that index again restores the live set; once all CAPACITY are live,
    [allocate] is undefined behaviour (it is not a checked error). *)
Theorem order_pool_allocate_fresh p A o : inv p A →
  (Z.of_nat (length A) < CAPACITY →
     ∃ i p' p'', allocate p o = Ok (i, p') ∧ 0 ≤ i < CAPACITY ∧ (i ∉ A) ∧ inv p' (i :: A) ∧
       get p' i = Ok o ∧ (∀ j, j ≠ i → 0 ≤ j → get p' j = get p j) ∧
       free p' i = Ok p'' ∧ inv p'' A) ∧
  (Z.of_nat (length A) = CAPACITY → allocate p o = Undefined).
Proof.
  intros Hinv. split; [intros Hlen|by apply allocate_exhausted].
  destruct (allocate_spec p A o Hinv Hlen) as (i & p' & Ha & Hfresh & Hinv' & Ho).
  destruct (free_spec p' A i Hinv') as (p'' & Hf & Hinv'' & _).
  pose proof (inv_range p' _ i Hinv' ltac:(set_solver)) as Hir.
  exists i, p', p''. split_and!; [done|lia|lia|done|done| | |done|done].
  - apply get_Ok. split; [lia|]. rewrite Ho. apply list_lookup_insert_eq.
    rewrite (inv_orders p A) by done. lia.
  - intros j Hj Hj0. unfold get, array_get. rewrite Ho.
    rewrite list_lookup_insert_ne by lia. done.
Qed.

End Proofs.

Lemma order_pool_allocate_fresh_witness :
  let o := {| RestingOrder.order := Order.zero; RestingOrder.previous := 0; RestingOrder.next := 0 |} in
  ∃ i p' p'', allocate (init 2) o = Ok (i, p') ∧ 0 ≤ i < 2 ∧ (i ∉ []) ∧ inv 2 p' [i] ∧
     get p' i = Ok o ∧ (∀ j, j ≠ i → 0 ≤ j → get p' j = get (init 2) j) ∧
     free p' i = Ok p'' ∧ inv 2 p'' [].
Proof.
  intros o. apply (order_pool_allocate_fresh 2 (init 2) [] o); [|reflexivity].
  apply pool_init_inv. split; [discriminate|reflexivity].
Defined.
End OrderPool.
