(* ===== verification/PriceSet.v ===== *)
(** * std::set<Order::Price, Compare>

    The ordered price sets of [BookState] ([bids] with [std::greater<>],
    [offers] with the default [std::less]): a duplicate-free list sorted by the
    comparator, which is the iteration order of the C++ container. *)

From Stdlib Require Import Sorted.
From S2P Require Import Prelude.

(** A comparator: a strict total order on prices. *)
Class Comparator (lt : Z → Z → bool) : Prop := {
  cmp_irrefl x : lt x x = false;
  cmp_trans x y z : lt x y = true → lt y z = true → lt x z = true;
  cmp_total x y : lt x y = false → lt y x = false → x = y;
}.

#[global] Instance comparator_less : Comparator Z.ltb.
Proof. split; intros; lia. Qed.
#[global] Instance comparator_greater : Comparator Z.gtb.
Proof. split; intros; lia. Qed.

Module PriceSet.
Section Definitions.
Context (lt : Z → Z → bool).

Fixpoint insert (x : Z) (s : list Z) : list Z :=
  match s with
  | [] => [x]
  | y :: s' => if lt x y then x :: s else if lt y x then y :: insert x s' else s
  end.

Fixpoint erase (x : Z) (s : list Z) : list Z :=
  match s with
  | [] => []
  | y :: s' => if lt x y then s else if lt y x then y :: erase x s' else s'
  end.

(** [*set.begin()], [None] when the set is empty. *)
Definition begin (s : list Z) : option Z := head s.
End Definitions.

Section Proofs.
Context (lt : Z → Z → bool) {Hlt : Comparator lt}.
Implicit Types (s : list Z) (x y : Z).

Definition sorted s : Prop := StronglySorted (λ x y, lt x y = true) s.

Lemma elem_insert x s y : y ∈ insert lt x s ↔ y = x ∨ y ∈ s.
Proof.
  induction s as [|z s IH]; simpl; [set_solver|].
  destruct (lt x z) eqn:E1; [set_solver|]. destruct (lt z x) eqn:E2; [set_solver|].
  assert (x = z) as -> by (by apply cmp_total). set_solver.
Qed.

Lemma sorted_insert x s : sorted s → sorted (insert lt x s).
Proof.
  intros Hs. induction Hs as [|z s Hs IH Hz]; simpl; [repeat constructor|].
  rewrite Forall_forall in Hz.
  destruct (lt x z) eqn:E1.
  - constructor; [by constructor; [|apply Forall_forall]|].
    apply Forall_forall. intros y [->|Hy]%elem_of_cons; [done|]. eapply cmp_trans; eauto.
  - destruct (lt z x) eqn:E2; [|by constructor; [|apply Forall_forall]].
    constructor; [done|]. apply Forall_forall. intros y Hy. apply elem_insert in Hy as [->|?]; auto.
Qed.

Lemma elem_erase x s y : sorted s → y ∈ erase lt x s ↔ y ≠ x ∧ y ∈ s.
Proof.
  intros Hs. induction Hs as [|z s Hs IH Hz]; simpl; [set_solver|].
  rewrite Forall_forall in Hz.
  assert (∀ w, w ∈ s → w ≠ z) as Hne.
  { intros w Hw ->. apply Hz in Hw. by rewrite cmp_irrefl in Hw. }
  destruct (lt x z) eqn:E1.
  - split; [|set_solver]. intros Hy. split; [|done]. intros ->.
    apply elem_of_cons in Hy as [->|Hy]; [by rewrite cmp_irrefl in E1|].
    pose proof (cmp_trans _ _ _ E1 (Hz _ Hy)) as Hxx. by rewrite cmp_irrefl in Hxx.
  - destruct (lt z x) eqn:E2.
    + rewrite !elem_of_cons, IH. split; [|naive_solver].
      intros [->|]; [|naive_solver]. split; [|by left]. intros ->. by rewrite cmp_irrefl in E2.
    + assert (x = z) as -> by (by apply cmp_total). set_solver.
Qed.

Lemma sorted_erase x s : sorted s → sorted (erase lt x s).
Proof.
  intros Hs. induction Hs as [|z s Hs IH Hz]; simpl; [constructor|].
  destruct (lt x z); [by constructor|]. destruct (lt z x); [|done].
  constructor; [done|]. rewrite Forall_forall in *. intros y Hy.
  apply elem_erase in Hy as [_ ?]; auto.
Qed.

Lemma begin_None s : begin s = None ↔ s = [].
Proof. by destruct s. Qed.

Lemma begin_Some s x : sorted s → begin s = Some x ↔ x ∈ s ∧ ∀ y, y ∈ s → y ≠ x → lt x y = true.
Proof.
  intros Hs. destruct Hs as [|z s Hs Hz]; simpl; [set_solver|].
  rewrite Forall_forall in Hz. split.
  - intros [= ->]. split; [by left|]. intros y [->|]%elem_of_cons; naive_solver.
  - intros [Hx Hmin]. apply elem_of_cons in Hx as [->|Hx]; [done|exfalso].
    assert (z ≠ x) as Hne.
    { intros ->. apply Hz in Hx. by rewrite cmp_irrefl in Hx. }
    pose proof (Hmin z ltac:(by left) Hne) as Hxz.
    pose proof (cmp_trans _ _ _ Hxz (Hz _ Hx)) as Hxx. by rewrite cmp_irrefl in Hxx.
Qed.
End Proofs.
End PriceSet.
