(* ===== verification/OrderQueue.v ===== *)
(** * Intrusive order queues

    A price level of [BookState] is a doubly linked list threaded through the
    pool by [previous] and [next].  [dseg] relates a pool to the list of nodes
    (index, order) of a segment, oldest order first; the two lemmas at the end
    are the append of [BookState::add] and the unlinking of
    [BookState::detach]. *)

From S2P Require Import Prelude Types OrderPool.
Import OrderPool.

Abbreviation NULL := RestingOrder.NULL_INDEX.
Abbreviation node := (Z * Order.t)%type.

Definition first_index (L : list node) (d : Z) : Z :=
  match L with [] => d | (i, _) :: _ => i end.
Definition last_index (L : list node) (d : Z) : Z :=
  match last L with None => d | Some (i, _) => i end.

Definition node_at (P : list (option RestingOrder.t)) (i : Z) (r : RestingOrder.t) : Prop :=
  0 ≤ i ∧ P !! Z.to_nat i = Some (Some r).

(** The segment [L], entered from [prev] and followed by [nxt]. *)
Fixpoint dseg (P : list (option RestingOrder.t)) (prev : Z) (L : list node) (nxt : Z) : Prop :=
  match L with
  | [] => True
  | (i, o) :: L' =>
      node_at P i {| RestingOrder.order := o; RestingOrder.previous := prev;
                     RestingOrder.next := first_index L' nxt |} ∧
      dseg P i L' nxt
  end.

Section Segments.
Implicit Types (P : list (option RestingOrder.t)) (L : list node) (a b i j : Z).

Lemma first_index_app L1 L2 d : first_index (L1 ++ L2) d = first_index L1 (first_index L2 d).
Proof. by destruct L1 as [|[??]]. Qed.

Lemma last_index_snoc L i o d : last_index (L ++ [(i, o)]) d = i.
Proof. unfold last_index. by rewrite last_snoc. Qed.

Lemma last_index_cons L i o d : last_index ((i, o) :: L) d = last_index L i.
Proof.
  unfold last_index. rewrite last_cons. by destruct (last L) as [[]|].
Qed.

Lemma last_index_app L1 L2 d : last_index (L1 ++ L2) d = last_index L2 (last_index L1 d).
Proof. unfold last_index. rewrite last_app. by destruct (last L2). Qed.

Lemma last_index_in L d : L ≠ [] → last_index L d ∈ L.*1.
Proof.
  destruct L as [|[i o] L _] using rev_ind; [done|]. intros _.
  rewrite last_index_snoc, fmap_app. set_solver.
Qed.

Lemma first_index_in L d : L ≠ [] → first_index L d ∈ L.*1.
Proof. destruct L as [|[i o] L]; [done|]. intros _. set_solver. Qed.

Lemma dseg_app P a L1 L2 b :
  dseg P a (L1 ++ L2) b ↔
  dseg P a L1 (first_index L2 b) ∧ dseg P (last_index L1 a) L2 b.
Proof.
  revert a. induction L1 as [|[i o] L1 IH]; intros a; simpl; [naive_solver|].
  rewrite IH, first_index_app, last_index_cons. naive_solver.
Qed.

Lemma dseg_node P a L1 i o L2 b : dseg P a (L1 ++ (i, o) :: L2) b →
  node_at P i {| RestingOrder.order := o; RestingOrder.previous := last_index L1 a;
                 RestingOrder.next := first_index L2 b |}.
Proof. intros Hd. apply dseg_app in Hd as [_ [? _]]. done. Qed.

Lemma dseg_nonneg P a L b i : dseg P a L b → i ∈ L.*1 → 0 ≤ i.
Proof.
  revert a. induction L as [|[j o] L IH]; intros a; simpl; [set_solver|].
  intros [[? _] Hd] [->|Hi]%elem_of_cons; [done|by eapply IH].
Qed.

(** A segment only depends on its own nodes. *)
Lemma dseg_frame P P' a L b :
  (∀ i, 0 ≤ i → i ∈ L.*1 → P' !! Z.to_nat i = P !! Z.to_nat i) → dseg P a L b → dseg P' a L b.
Proof.
  revert a. induction L as [|[j o] L IH]; intros a Heq; simpl; [done|].
  intros [[? Hj] Hd]. split.
  - split; [done|]. rewrite Heq; [done..|]. simpl. by left.
  - apply IH; [|done]. intros. apply Heq; [done|]. simpl. by right.
Qed.

Lemma dseg_insert P a L b i r :
  0 ≤ i → i ∉ L.*1 → dseg P a L b → dseg (<[Z.to_nat i := r]> P) a L b.
Proof.
  intros Hi Hni. apply dseg_frame. intros j Hj Hjl.
  apply list_lookup_insert_ne. intros ?. assert (i = j) by lia. by subst.
Qed.

Lemma node_at_insert P i r : 0 ≤ i < Z.of_nat (length P) →
  node_at (<[Z.to_nat i := Some r]> P) i r.
Proof. intros. split; [lia|]. apply list_lookup_insert_eq. lia. Qed.

(** Changing the order field of one node. *)
Lemma dseg_set_order P a L1 i o L2 b o' :
  NoDup (L1 ++ (i, o) :: L2).*1 → i < Z.of_nat (length P) →
  dseg P a (L1 ++ (i, o) :: L2) b →
  dseg (<[Z.to_nat i := Some {| RestingOrder.order := o';
                                RestingOrder.previous := last_index L1 a;
                                RestingOrder.next := first_index L2 b |}]> P)
    a (L1 ++ (i, o') :: L2) b.
Proof.
  intros Hnd Hlen Hd. apply dseg_app in Hd as [Hd1 [[Hi Hn] Hd2]].
  rewrite fmap_app in Hnd. simpl in Hnd. apply NoDup_app in Hnd as (_ & Hdisj & Hnd2).
  apply NoDup_cons in Hnd2 as [Hni _].
  apply dseg_app. simpl. split; [|split].
  - apply dseg_insert; [done| |done]. intros Hin. apply (Hdisj i Hin). by left.
  - apply node_at_insert. lia.
  - by apply dseg_insert.
Qed.
End Segments.

Section PoolQueues.
Context (CAPACITY : Z).
Implicit Types (p : OrderPool.t) (A : list Z) (L : list node) (i : Z).

Lemma index_not_NULL p A i : inv CAPACITY p A → i ∈ A → i ≠ NULL.
Proof.
  intros Hinv Hi. pose proof (inv_range CAPACITY p A i Hinv Hi).
  pose proof (inv_capacity CAPACITY p A Hinv). unfold NULL, UINT32_MAX. lia.
Qed.

Lemma update_node p A i r f : inv CAPACITY p A → i ∈ A → node_at (orders p) i r →
  ∃ p', update p i f = Ok p' ∧ inv CAPACITY p' A ∧
    orders p' = <[Z.to_nat i := Some (f r)]> (orders p).
Proof. intros Hinv Hi Hn. apply (update_spec CAPACITY p A i r f); [done|done|by apply get_Ok]. Qed.

Lemma node_at_insert_ne P i j r r' : 0 ≤ j → i ≠ j →
  node_at P i r → node_at (<[Z.to_nat j := r']> P) i r.
Proof.
  intros Hj Hij [Hi Hr]. split; [done|]. rewrite list_lookup_insert_ne by lia. done.
Qed.

(** [BookState::add] on an existing level: link the new node after the tail. *)
Lemma queue_append p A L i o :
  inv CAPACITY p A → L ≠ [] → L.*1 ⊆ A → i ∈ A → (i ∉ L.*1) → NoDup L.*1 →
  node_at (orders p) i {| RestingOrder.order := o; RestingOrder.previous := NULL;
                          RestingOrder.next := NULL |} →
  dseg (orders p) NULL L NULL →
  ∃ p1 p2,
    update p (last_index L NULL) (RestingOrder.set_next i) = Ok p1 ∧
    update p1 i (RestingOrder.set_previous (last_index L NULL)) = Ok p2 ∧
    inv CAPACITY p2 A ∧
    dseg (orders p2) NULL (L ++ [(i, o)]) NULL ∧
    (∀ j, 0 ≤ j → j ∉ (L ++ [(i, o)]).*1 → orders p2 !! Z.to_nat j = orders p !! Z.to_nat j).
Proof.
  intros Hinv Hne HLA HiA HiL Hnd Hnode Hd.
  destruct L as [|[t ot] L0 _] using rev_ind; [done|]. clear Hne.
  rewrite last_index_snoc. rewrite fmap_app in *. simpl in *.
  apply NoDup_app in Hnd as (Hnd0 & Hdisj & _).
  assert (t ∈ A ∧ (t ∉ L0.*1) ∧ t ≠ i) as (HtA & HtL & Hti) by set_solver.
  apply dseg_app in Hd as [Hd0 [Ht _]]. simpl in Ht.
  pose proof (inv_range _ _ _ _ Hinv HtA). pose proof (inv_range _ _ _ _ Hinv HiA).
  destruct (update_node p A t _ (RestingOrder.set_next i) Hinv HtA Ht) as (p1 & Hu1 & Hinv1 & Ho1).
  assert (node_at (orders p1) i {| RestingOrder.order := o; RestingOrder.previous := NULL;
    RestingOrder.next := NULL |}) as Hnode1.
  { rewrite Ho1. apply node_at_insert_ne; [lia|done|done]. }
  destruct (update_node p1 A i _ (RestingOrder.set_previous t) Hinv1 HiA Hnode1)
    as (p2 & Hu2 & Hinv2 & Ho2).
  exists p1, p2. pose proof (inv_orders _ _ _ Hinv). pose proof (inv_orders _ _ _ Hinv1).
  split_and!; [done..| |].
  - rewrite <- app_assoc. apply dseg_app. simpl. rewrite Ho2, Ho1. split_and!; [| | |done].
    + apply dseg_insert; [lia|set_solver|]. apply dseg_insert; [lia|done|done].
    + apply node_at_insert_ne; [lia|done|]. apply node_at_insert. lia.
    + apply node_at_insert. rewrite length_insert. lia.
  - intros j Hj Hjn. rewrite Ho2, Ho1. rewrite !fmap_app in Hjn. simpl in Hjn.
    rewrite !list_lookup_insert_ne; [done| |].
    all: intros ?; apply Hjn; rewrite !elem_of_app, !list_elem_of_singleton; lia.
Qed.

Lemma last_index_NULL p A L : inv CAPACITY p A → L.*1 ⊆ A → last_index L NULL = NULL ↔ L = [].
Proof.
  intros Hinv HLA. split; [|by intros ->]. intros Heq. destruct (decide (L = [])) as [|Hne]; [done|].
  eapply index_not_NULL in Heq as []; [done|]. pose proof (last_index_in L NULL Hne). set_solver.
Qed.

Lemma first_index_NULL p A L : inv CAPACITY p A → L.*1 ⊆ A → first_index L NULL = NULL ↔ L = [].
Proof.
  intros Hinv HLA. split; [|by intros ->]. intros Heq. destruct (decide (L = [])) as [|Hne]; [done|].
  eapply index_not_NULL in Heq as []; [done|]. pose proof (first_index_in L NULL Hne). set_solver.
Qed.

(** The end of a segment is linked to another node, where there is an end. *)
Lemma relink_tail p A L b nx : inv CAPACITY p A → L.*1 ⊆ A → NoDup L.*1 → dseg (orders p) NULL L b →
  ∃ p1, (if negb (last_index L NULL =? NULL) then update p (last_index L NULL) (RestingOrder.set_next nx) else Ok p) = Ok p1 ∧
    inv CAPACITY p1 A ∧ dseg (orders p1) NULL L nx ∧
    (∀ j, 0 ≤ j → j ∉ L.*1 → orders p1 !! Z.to_nat j = orders p !! Z.to_nat j).
Proof.
  intros Hinv HLA Hnd Hd. destruct (Z.eqb_spec (last_index L NULL) NULL) as [Heq|Hne]; simpl.
  { apply (last_index_NULL p A L Hinv HLA) in Heq as ->. by exists p. }
  destruct L as [|[t ot] L0 _] using rev_ind; [by destruct Hne|].
  rewrite last_index_snoc, fmap_app in *. simpl in *. apply NoDup_app in Hnd as (_ & Hdt & _).
  apply dseg_app in Hd as [Hd0 [Ht _]].
  destruct (update_node p A t _ (RestingOrder.set_next nx) Hinv ltac:(set_solver) Ht) as (p1 & Hu1 & Hinv1 & Ho1).
  pose proof (inv_range _ _ _ t Hinv ltac:(set_solver)). pose proof (inv_orders _ _ _ Hinv).
  exists p1. rewrite Ho1. split_and!; [done|done| |].
  - apply dseg_app. simpl. split_and!; [apply dseg_insert; [lia|set_solver|done]| |done]. apply node_at_insert. lia.
  - intros j Hj Hjn. apply list_lookup_insert_ne. intros ?. apply Hjn. rewrite elem_of_app, list_elem_of_singleton. lia.
Qed.

(** So is its beginning. *)
Lemma relink_head p A L a pv : inv CAPACITY p A → L.*1 ⊆ A → NoDup L.*1 → dseg (orders p) a L NULL →
  ∃ p1, (if negb (first_index L NULL =? NULL) then update p (first_index L NULL) (RestingOrder.set_previous pv) else Ok p) = Ok p1 ∧
    inv CAPACITY p1 A ∧ dseg (orders p1) pv L NULL ∧
    (∀ j, 0 ≤ j → j ∉ L.*1 → orders p1 !! Z.to_nat j = orders p !! Z.to_nat j).
Proof.
  intros Hinv HLA Hnd Hd. destruct (Z.eqb_spec (first_index L NULL) NULL) as [Heq|Hne]; simpl.
  { apply (first_index_NULL p A L Hinv HLA) in Heq as ->. by exists p. }
  destruct L as [|[u ou] L0]; [by destruct Hne|]. simpl in *. apply NoDup_cons in Hnd as [Hu Hnd]. destruct Hd as [Hnode Hd].
  destruct (update_node p A u _ (RestingOrder.set_previous pv) Hinv ltac:(set_solver) Hnode) as (p1 & Hu1 & Hinv1 & Ho1).
  pose proof (inv_range _ _ _ u Hinv ltac:(set_solver)). pose proof (inv_orders _ _ _ Hinv).
  exists p1. rewrite Ho1. split_and!; [done|done| | |].
  - apply node_at_insert. lia.
  - apply dseg_insert; [lia|done|done].
  - intros j Hj Hjn. apply list_lookup_insert_ne. intros ?. apply Hjn. assert (j = u) as -> by lia. by left.
Qed.

(** [BookState::detach]: unlink a node from its neighbours. *)
Lemma queue_unlink p A L1 i o L2 :
  let pv := last_index L1 NULL in
  let nx := first_index L2 NULL in
  inv CAPACITY p A → (L1 ++ (i, o) :: L2).*1 ⊆ A → NoDup (L1 ++ (i, o) :: L2).*1 →
  dseg (orders p) NULL (L1 ++ (i, o) :: L2) NULL →
  (pv = NULL ↔ L1 = []) ∧ (nx = NULL ↔ L2 = []) ∧
  ∃ p1 p2,
    (if negb (pv =? NULL) then update p pv (RestingOrder.set_next nx) else Ok p) = Ok p1 ∧
    (if negb (nx =? NULL) then update p1 nx (RestingOrder.set_previous pv) else Ok p1) = Ok p2 ∧
    inv CAPACITY p2 A ∧
    dseg (orders p2) NULL (L1 ++ L2) NULL ∧
    (∀ j, 0 ≤ j → j ∉ (L1 ++ L2).*1 → orders p2 !! Z.to_nat j = orders p !! Z.to_nat j).
Proof.
  intros pv nx Hinv HLA Hnd Hd. rewrite fmap_app in HLA, Hnd. simpl in HLA, Hnd.
  apply NoDup_app in Hnd as (Hnd1 & Hdisj & Hnd2). apply NoDup_cons in Hnd2 as [HiL2 Hnd2].
  assert (L1.*1 ⊆ A ∧ L2.*1 ⊆ A) as [HL1 HL2] by set_solver. apply dseg_app in Hd as [Hd1 [Hi Hd2]].
  split; [by eapply last_index_NULL|]. split; [by eapply first_index_NULL|].
  destruct (relink_tail p A L1 _ nx Hinv HL1 Hnd1 Hd1) as (p1 & Hu1 & Hinv1 & Hd1' & Hfr1).
  assert (dseg (orders p1) i L2 NULL) as Hd2'.
  { eapply dseg_frame; [|exact Hd2]. intros j Hj HjL. apply Hfr1; [done|]. intros HjL1. apply (Hdisj j HjL1). by right. }
  destruct (relink_head p1 A L2 i pv Hinv1 HL2 Hnd2 Hd2') as (p2 & Hu2 & Hinv2 & Hd2'' & Hfr2).
  exists p1, p2. split_and!; [done|done|done| |].
  - apply dseg_app. split; [|done]. eapply dseg_frame; [|exact Hd1']. intros j Hj HjL. apply Hfr2; [done|].
    intros HjL2. apply (Hdisj j HjL). by right.
  - intros j Hj Hjn. rewrite fmap_app in Hjn. rewrite Hfr2, Hfr1; [done|done|set_solver|done|set_solver].
Qed.
End PoolQueues.
