(* ===== verification/OrderBook.v ===== *)
(** * BookState ([includes/order-book/book-state.hpp], [src/order-book/book-state.cpp])

    The limit order book shared by the exchange and the strategy process: an
    order pool with intrusive per-price linked lists, two hash maps, two price
    sets and the cached best bid and offer.  The two maps are used through the
    [KeyedStore] interface.  [Undefined] is returned where the C++ code would
    dereference an empty optional or index out of range. *)

From S2P Require Import Prelude Types Interfaces OrderPool PriceSet.

Module BookState.

Definition NO_BID : Z := INT32_MIN.
Definition NO_OFFER : Z := INT32_MAX.

Inductive Update : Type := NoChange | NewBestBid | NewBestOffer.
#[global] Instance update_eq_dec : EqDecision Update.
Proof. solve_decision. Defined.

Record BestOrderInfo : Type := { price : Z; quantity : Z }.
#[global] Instance info_eq_dec : EqDecision BestOrderInfo.
Proof. solve_decision. Defined.

Record OrderSnapshot : Type := { best_bid : BestOrderInfo; best_offer : BestOrderInfo }.
#[global] Instance snapshot_eq_dec : EqDecision OrderSnapshot.
Proof. solve_decision. Defined.

Record PriceLevel : Type := { head : Z; tail : Z; total_quantity : Z }.
Definition set_head (i : Z) (l : PriceLevel) : PriceLevel :=
  {| head := i; tail := tail l; total_quantity := total_quantity l |}.
Definition set_tail (i : Z) (l : PriceLevel) : PriceLevel :=
  {| head := head l; tail := i; total_quantity := total_quantity l |}.
(** [price_level.total_quantity += q] on [uint64_t]; a negative [q] is [-=]. *)
Definition add_total (q : Z) (l : PriceLevel) : PriceLevel :=
  {| head := head l; tail := tail l; total_quantity := u64 (total_quantity l + q) |}.

Record t (PL OM : Type) : Type := {
  order_pool : OrderPool.t;
  price_levels : PL;
  order_map : OM;
  bids : list Z;
  offers : list Z;
  bbo : OrderSnapshot;
}.
Arguments order_pool {PL OM}.
Arguments price_levels {PL OM}.
Arguments order_map {PL OM}.
Arguments bids {PL OM}.
Arguments offers {PL OM}.
Arguments bbo {PL OM}.

Section Definitions.
Context {PL OM : Type} {pl_ops : KeyedStore PL Z PriceLevel} {om_ops : KeyedStore OM Z Z}.
Abbreviation state := (t PL OM).

Definition set_pool (p : OrderPool.t) (s : state) : state :=
  {| order_pool := p; price_levels := price_levels s; order_map := order_map s;
     bids := bids s; offers := offers s; bbo := bbo s |}.
Definition set_levels (m : PL) (s : state) : state :=
  {| order_pool := order_pool s; price_levels := m; order_map := order_map s;
     bids := bids s; offers := offers s; bbo := bbo s |}.
Definition set_map (m : OM) (s : state) : state :=
  {| order_pool := order_pool s; price_levels := price_levels s; order_map := m;
     bids := bids s; offers := offers s; bbo := bbo s |}.
Definition set_bids (l : list Z) (s : state) : state :=
  {| order_pool := order_pool s; price_levels := price_levels s; order_map := order_map s;
     bids := l; offers := offers s; bbo := bbo s |}.
Definition set_offers (l : list Z) (s : state) : state :=
  {| order_pool := order_pool s; price_levels := price_levels s; order_map := order_map s;
     bids := bids s; offers := l; bbo := bbo s |}.
Definition set_best_bid (p q : Z) (s : state) : state :=
  {| order_pool := order_pool s; price_levels := price_levels s; order_map := order_map s;
     bids := bids s; offers := offers s;
     bbo := {| best_bid := {| price := p; quantity := q |}; best_offer := best_offer (bbo s) |} |}.
Definition set_best_offer (p q : Z) (s : state) : state :=
  {| order_pool := order_pool s; price_levels := price_levels s; order_map := order_map s;
     bids := bids s; offers := offers s;
     bbo := {| best_bid := best_bid (bbo s); best_offer := {| price := p; quantity := q |} |} |}.

(** The initial members, with empty maps and sets. *)
Definition init (capacity : Z) (pl : PL) (om : OM) : state := {|
  order_pool := OrderPool.init capacity;
  price_levels := pl;
  order_map := om;
  bids := [];
  offers := [];
  bbo := {| best_bid := {| price := NO_BID; quantity := 0 |};
            best_offer := {| price := NO_OFFER; quantity := 0 |} |};
|}.

Definition snapshot (s : state) : OrderSnapshot := bbo s.

Definition best_opposing_order (s : state) (side : Side.t) : outcome Order.t :=
  let bid := price (best_bid (bbo s)) in
  let offer := price (best_offer (bbo s)) in
  if bool_decide (side = Side.Sell) && (bid =? NO_BID) then
    Ok {| Order.order_id := Order.INVALID_ORDER_ID; Order.price := NO_BID;
          Order.quantity := 0; Order.side := Side.Buy |}
  else if bool_decide (side = Side.Buy) && (offer =? NO_OFFER) then
    Ok {| Order.order_id := Order.INVALID_ORDER_ID; Order.price := NO_OFFER;
          Order.quantity := 0; Order.side := Side.Sell |}
  else if bool_decide (side = Side.Sell) then
    level ← deref (ks_find (price_levels s) bid);
    node ← OrderPool.get (order_pool s) (head level);
    let head_order := RestingOrder.order node in
    Ok {| Order.order_id := Order.order_id head_order; Order.price := bid;
          Order.quantity := Order.quantity head_order; Order.side := Side.Buy |}
  else
    level ← deref (ks_find (price_levels s) offer);
    node ← OrderPool.get (order_pool s) (head level);
    let head_order := RestingOrder.order node in
    Ok {| Order.order_id := Order.order_id head_order; Order.price := offer;
          Order.quantity := Order.quantity head_order; Order.side := Side.Sell |}.

Definition order_exists (s : state) (order_id : Z) : bool :=
  bool_decide (is_Some (ks_find (order_map s) order_id)).

(** ** The cached best bid and offer *)

Definition update_best_bid_add (s : state) (order : Order.t) : state * Update :=
  let best := best_bid (bbo s) in
  if price best <? Order.price order then
    (set_best_bid (Order.price order) (Order.quantity order) s, NewBestBid)
  else if Order.price order =? price best then
    (set_best_bid (price best) (u32 (quantity best + Order.quantity order)) s, NewBestBid)
  else (s, NoChange).

Definition update_best_offer_add (s : state) (order : Order.t) : state * Update :=
  let best := best_offer (bbo s) in
  if Order.price order <? price best then
    (set_best_offer (Order.price order) (Order.quantity order) s, NewBestOffer)
  else if Order.price order =? price best then
    (set_best_offer (price best) (u32 (quantity best + Order.quantity order)) s, NewBestOffer)
  else (s, NoChange).

Definition update_bbo_add (s : state) (order : Order.t) : state * Update :=
  match Order.side order with
  | Side.Buy => update_best_bid_add s order
  | Side.Sell => update_best_offer_add s order
  end.

Definition update_best_bid_reduce (s : state) (order : Order.t) : outcome (state * Update) :=
  let best := best_bid (bbo s) in
  if (Order.price order =? price best) && (Order.quantity order =? quantity best) then
    match PriceSet.begin (bids s) with
    | Some p =>
        level ← deref (ks_find (price_levels s) p);
        Ok (set_best_bid p (u32 (total_quantity level)) s, NewBestBid)
    | None => Ok (set_best_bid NO_BID 0 s, NewBestBid)
    end
  else if Order.price order =? price best then
    Ok (set_best_bid (price best) (u32 (quantity best - Order.quantity order)) s, NewBestBid)
  else Ok (s, NoChange).

Definition update_best_offer_reduce (s : state) (order : Order.t) : outcome (state * Update) :=
  let best := best_offer (bbo s) in
  if (Order.price order =? price best) && (Order.quantity order =? quantity best) then
    match PriceSet.begin (offers s) with
    | Some p =>
        level ← deref (ks_find (price_levels s) p);
        Ok (set_best_offer p (u32 (total_quantity level)) s, NewBestOffer)
    | None => Ok (set_best_offer NO_OFFER 0 s, NewBestOffer)
    end
  else if Order.price order =? price best then
    Ok (set_best_offer (price best) (u32 (quantity best - Order.quantity order)) s, NewBestOffer)
  else Ok (s, NoChange).

Definition update_bbo_reduce (s : state) (order : Order.t) : outcome (state * Update) :=
  match Order.side order with
  | Side.Buy => update_best_bid_reduce s order
  | Side.Sell => update_best_offer_reduce s order
  end.

Definition add_bid_or_offer (order : Order.t) (s : state) : state :=
  match Order.side order with
  | Side.Buy => set_bids (PriceSet.insert Z.gtb (Order.price order) (bids s)) s
  | Side.Sell => set_offers (PriceSet.insert Z.ltb (Order.price order) (offers s)) s
  end.

Definition remove_bid_or_offer (order : Order.t) (s : state) : state :=
  match Order.side order with
  | Side.Buy => set_bids (PriceSet.erase Z.gtb (Order.price order) (bids s)) s
  | Side.Sell => set_offers (PriceSet.erase Z.ltb (Order.price order) (offers s)) s
  end.

(** ** Operations *)

Definition add (s : state) (event : MarketEvent.t) : outcome (state * Update) :=
  let order := MarketEvent.order event in
  let p := Order.price order in
  let resting_order := {| RestingOrder.order := order;
                          RestingOrder.previous := RestingOrder.NULL_INDEX;
                          RestingOrder.next := RestingOrder.NULL_INDEX |} in
  '(order_index, pool) ← OrderPool.allocate (order_pool s) resting_order;
  om ← ks_add (order_map s) (Order.order_id order) order_index;
  let s := set_map om (set_pool pool s) in
  s ← match ks_find (price_levels s) p with
      | None =>
          pl ← ks_add (price_levels s) p
                 {| head := order_index; tail := order_index;
                    total_quantity := Order.quantity order |};
          Ok (add_bid_or_offer order (set_levels pl s))
      | Some price_level =>
          pl ← ks_modify (price_levels s) p (add_total (Order.quantity order));
          pool ← OrderPool.update (order_pool s) (tail price_level)
                   (RestingOrder.set_next order_index);
          pool ← OrderPool.update pool order_index
                   (RestingOrder.set_previous (tail price_level));
          pl ← ks_modify pl p (set_tail order_index);
          Ok (set_levels pl (set_pool pool s))
      end;
  Ok (update_bbo_add s order).

(** [detach(order, price_level)]; the price level is the one found under [p]. *)
Definition detach (s : state) (order : RestingOrder.t) (p : Z) : outcome state :=
  s ← (if negb (RestingOrder.previous order =? RestingOrder.NULL_INDEX) then
         pool ← OrderPool.update (order_pool s) (RestingOrder.previous order)
                  (RestingOrder.set_next (RestingOrder.next order));
         Ok (set_pool pool s)
       else
         pl ← ks_modify (price_levels s) p (set_head (RestingOrder.next order));
         Ok (set_levels pl s));
  if negb (RestingOrder.next order =? RestingOrder.NULL_INDEX) then
    pool ← OrderPool.update (order_pool s) (RestingOrder.next order)
             (RestingOrder.set_previous (RestingOrder.previous order));
    Ok (set_pool pool s)
  else
    pl ← ks_modify (price_levels s) p (set_tail (RestingOrder.previous order));
    Ok (set_levels pl s).

(** [purge_order(order_index, resting_order)].  [resting_order] refers to the
    pool slot [order_index], whose [order] member nothing writes in between. *)
Definition purge_order (s : state) (order_index : Z) (resting_order : RestingOrder.t) :
    outcome (state * Update) :=
  let order := RestingOrder.order resting_order in
  let p := Order.price order in
  pl ← ks_modify (price_levels s) p (add_total (- Order.quantity order));
  price_level ← deref (ks_find pl p);
  s ← (if total_quantity price_level =? 0 then
         let '(_, pl) := ks_remove pl p in
         Ok (remove_bid_or_offer order (set_levels pl s))
       else detach (set_levels pl s) resting_order p);
  let '(_, om) := ks_remove (order_map s) (Order.order_id order) in
  '(s, update) ← update_bbo_reduce (set_map om s) order;
  pool ← OrderPool.free (order_pool s) order_index;
  Ok (set_pool pool s, update).

Definition cancel_id (s : state) (resting_order_id : Z) : outcome (state * Update) :=
  order_index ← deref (ks_find (order_map s) resting_order_id);
  order ← OrderPool.get (order_pool s) order_index;
  purge_order s order_index order.

Definition trade_id (s : state) (resting_order_id quantity : Z) : outcome (state * Update) :=
  order_index ← deref (ks_find (order_map s) resting_order_id);
  resting_order ← OrderPool.get (order_pool s) order_index;
  let order := RestingOrder.order resting_order in
  if Order.quantity order =? quantity then purge_order s order_index resting_order
  else
    let new_order_quantity := u32 (Order.quantity order - quantity) in
    pl ← ks_modify (price_levels s) (Order.price order) (add_total (- quantity));
    let delta := Order.set_quantity quantity order in
    pool ← OrderPool.update (order_pool s) order_index (RestingOrder.set_order delta);
    '(s, update) ← update_bbo_reduce (set_pool pool (set_levels pl s)) delta;
    pool ← OrderPool.update (order_pool s) order_index
             (RestingOrder.set_order (Order.set_quantity new_order_quantity order));
    Ok (set_pool pool s, update).

Definition update_quantity (s : state) (resting_order_id new_quantity : Z) :
    outcome (state * Update) :=
  order_index ← deref (ks_find (order_map s) resting_order_id);
  resting_order ← OrderPool.get (order_pool s) order_index;
  let order := RestingOrder.order resting_order in
  if new_quantity =? 0 then purge_order s order_index resting_order
  else
    '(s, update) ←
      (if new_quantity <? Order.quantity order then
         let delta := u32 (Order.quantity order - new_quantity) in
         pl ← ks_modify (price_levels s) (Order.price order) (add_total (- delta));
         let marked := Order.set_quantity delta order in
         pool ← OrderPool.update (order_pool s) order_index (RestingOrder.set_order marked);
         Ok (update_bbo_add (set_pool pool (set_levels pl s)) marked)
       else
         let delta := u32 (new_quantity - Order.quantity order) in
         pl ← ks_modify (price_levels s) (Order.price order) (add_total delta);
         let marked := Order.set_quantity delta order in
         pool ← OrderPool.update (order_pool s) order_index (RestingOrder.set_order marked);
         update_bbo_reduce (set_pool pool (set_levels pl s)) marked);
    pool ← OrderPool.update (order_pool s) order_index
             (RestingOrder.set_order (Order.set_quantity new_quantity order));
    Ok (set_pool pool s, update).

Definition cancel (s : state) (event : MarketEvent.t) : outcome (state * Update) :=
  cancel_id s (Order.order_id (MarketEvent.order event)).
Definition trade (s : state) (event : MarketEvent.t) : outcome (state * Update) :=
  trade_id s (Order.order_id (MarketEvent.order event)) (Order.quantity (MarketEvent.order event)).
Definition update (s : state) (event : MarketEvent.t) : outcome (state * Update) :=
  update_quantity s (Order.order_id (MarketEvent.order event))
    (Order.quantity (MarketEvent.order event)).

Definition execute (s : state) (event : MarketEvent.t) : outcome (state * Update) :=
  match MarketEvent.type event with
  | MarketEvent.Add => add s event
  | MarketEvent.Cancel => cancel s event
  | MarketEvent.Trade => trade s event
  | MarketEvent.Update => update s event
  end.
End Definitions.
End BookState.
