(* ===== verification/BookSpec.v ===== *)
(** * The abstract order book

    The specification [BookState] is proved to implement: the resting orders as
    one list in arrival order (time priority), with the best price of a side
    computed from scratch. *)

From S2P Require Import Prelude Types OrderBook.
Import BookState.

Module Book.

(** [better sd p q]: price [p] has priority over [q] on side [sd]. *)
Definition better (sd : Side.t) (p q : Z) : bool :=
  match sd with Side.Buy => Z.gtb p q | Side.Sell => Z.ltb p q end.

Definition no_price (sd : Side.t) : Z :=
  match sd with Side.Buy => NO_BID | Side.Sell => NO_OFFER end.

Definition opposite (sd : Side.t) : Side.t :=
  match sd with Side.Buy => Side.Sell | Side.Sell => Side.Buy end.

Definition at_price (p : Z) (os : list Order.t) : list Order.t :=
  filter (λ o, Order.price o = p) os.

Definition total (os : list Order.t) : Z := zsum (Order.quantity <$> os).

(** The best price among the resting orders of a side. *)
Fixpoint best (sd : Side.t) (os : list Order.t) : option Z :=
  match os with
  | [] => None
  | o :: os =>
      if decide (Order.side o = sd) then
        match best sd os with
        | None => Some (Order.price o)
        | Some p => Some (if better sd (Order.price o) p then Order.price o else p)
        end
      else best sd os
  end.

(** What the cached best bid or offer must be; the cache holds the level's
    total modulo [2^32]. *)
Definition best_info (sd : Side.t) (os : list Order.t) : BestOrderInfo :=
  match best sd os with
  | None => {| price := no_price sd; quantity := 0 |}
  | Some p => {| price := p; quantity := u32 (total (at_price p os)) |}
  end.

Definition bbo_of (os : list Order.t) : OrderSnapshot :=
  {| best_bid := best_info Side.Buy os; best_offer := best_info Side.Sell os |}.

Definition info (sd : Side.t) (b : OrderSnapshot) : BestOrderInfo :=
  match sd with Side.Buy => best_bid b | Side.Sell => best_offer b end.

Definition new_best (sd : Side.t) : Update :=
  match sd with Side.Buy => NewBestBid | Side.Sell => NewBestOffer end.

Definition find (id : Z) (os : list Order.t) : option Order.t :=
  List.find (λ o, Order.order_id o =? id) os.
Definition remove (id : Z) (os : list Order.t) : list Order.t :=
  filter (λ o, Order.order_id o ≠ id) os.
Definition set_quantity (id q : Z) (os : list Order.t) : list Order.t :=
  (λ o, if Order.order_id o =? id then Order.set_quantity q o else o) <$> os.

Definition add (o : Order.t) (os : list Order.t) : list Order.t := os ++ [o].
Definition cancel (id : Z) (os : list Order.t) : list Order.t := remove id os.
(** Fill [q] of a resting order. *)
Definition trade (id q : Z) (os : list Order.t) : list Order.t :=
  match find id os with
  | None => os
  | Some o => if Order.quantity o =? q then remove id os
              else set_quantity id (Order.quantity o - q) os
  end.
Definition update (id q : Z) (os : list Order.t) : list Order.t :=
  if q =? 0 then remove id os else set_quantity id q os.

(** The order of a side that trades first: best price, then earliest. *)
Definition first_best (sd : Side.t) (os : list Order.t) : option Order.t :=
  p ← best sd os; List.head (filter (λ o, Order.side o = sd ∧ Order.price o = p) os).

(** What the exchange guarantees of the orders it rests. *)
Definition valid_order (o : Order.t) : Prop :=
  Order.wf o ∧ 0 < Order.quantity o ∧ NO_BID < Order.price o < NO_OFFER.
#[global] Instance valid_order_dec o : Decision (valid_order o).
Proof. unfold valid_order. apply _. Defined.

(** Resting orders never share a price across sides, and ids are unique. *)
Record valid (os : list Order.t) : Prop := {
  valid_orders : Forall valid_order os;
  valid_ids : NoDup (Order.order_id <$> os);
  valid_sides o o' : o ∈ os → o' ∈ os → Order.price o = Order.price o' →
    Order.side o = Order.side o';
}.

(** No bid reaches an offer. *)
Definition uncrossed (os : list Order.t) : Prop :=
  ∀ b a, b ∈ os → a ∈ os → Order.side b = Side.Buy → Order.side a = Side.Sell →
    Order.price b < Order.price a.

(** The distinct prices of the book. *)
Definition prices (os : list Order.t) : gset Z := list_to_set (Order.price <$> os).

(** ** Best prices *)

Lemma better_irrefl sd p : better sd p p = false.
Proof. destruct sd; simpl; lia. Qed.
Lemma better_trans sd p q r : better sd p q = true → better sd q r = true → better sd p r = true.
Proof. destruct sd; simpl; lia. Qed.
Lemma better_total sd p q : better sd p q = false → better sd q p = false → p = q.
Proof. destruct sd; simpl; lia. Qed.

Lemma best_None sd os : best sd os = None ↔ ∀ o, o ∈ os → Order.side o ≠ sd.
Proof.
  induction os as [|o os IH]; simpl; [split; [set_solver|done]|].
  case_decide as Hs.
  - split; [by destruct (best sd os)|]. intros Hn. exfalso. apply (Hn o); [by left|done].
  - rewrite IH. split; intros Hn o' Ho'; [apply elem_of_cons in Ho' as [->|?]; auto|].
    apply Hn. by right.
Qed.

Lemma best_Some sd os p :
  best sd os = Some p ↔
  (∃ o, o ∈ os ∧ Order.side o = sd ∧ Order.price o = p) ∧
  (∀ o, o ∈ os → Order.side o = sd → better sd (Order.price o) p = false).
Proof.
  revert p. induction os as [|o os IH]; simpl; intros p; [set_solver|].
  case_decide as Hs.
  - destruct (best sd os) as [q|] eqn:Hb.
    + destruct (proj1 (IH q) eq_refl) as [(o' & Ho' & Hs' & <-) Hbest].
      split.
      * intros [= <-]. destruct (better sd (Order.price o) (Order.price o')) eqn:Hbt.
        -- split; [exists o; set_solver|]. intros o2 [->|Ho2]%elem_of_cons Hs2; [apply better_irrefl|].
           destruct (better sd (Order.price o2) (Order.price o)) eqn:E; [|done].
           rewrite <- (Hbest o2 Ho2 Hs2). symmetry. by eapply better_trans.
        -- split; [exists o'; set_solver|]. intros o2 [->|Ho2]%elem_of_cons Hs2; auto.
      * intros [(o2 & Ho2 & Hs2 & <-) Hmin]. f_equal.
        assert (better sd (Order.price o) (Order.price o2) = false) by (apply Hmin; [by left|done]).
        assert (better sd (Order.price o') (Order.price o2) = false) by (apply Hmin; [by right|done]).
        apply elem_of_cons in Ho2 as [->|Ho2].
        -- destruct (better sd (Order.price o) (Order.price o')) eqn:E; [done|].
           by apply (better_total sd).
        -- pose proof (Hbest o2 Ho2 Hs2) as Hb2.
           pose proof (better_total sd _ _ Hb2 ltac:(done)) as Heq.
           rewrite Heq in *. by destruct (better sd (Order.price o) (Order.price o')).
    + rewrite best_None in Hb. split.
      * intros [= <-]. split; [exists o; set_solver|].
        intros o2 [->|Ho2]%elem_of_cons Hs2; [apply better_irrefl|by apply Hb in Ho2].
      * intros [(o2 & Ho2 & Hs2 & <-) _]. apply elem_of_cons in Ho2 as [->|Ho2]; [done|].
        by apply Hb in Ho2.
  - rewrite IH. split; intros [(o2 & Ho2 & Hs2 & <-) Hmin].
    + split; [exists o2; set_solver|]. intros o3 [->|Ho3]%elem_of_cons Hs3; [done|auto].
    + split; [exists o2; set_solver|]. intros o3 Ho3 Hs3. apply Hmin; [by right|done].
Qed.

Lemma total_app os os' : total (os ++ os') = total os + total os'.
Proof. unfold total. by rewrite fmap_app, zsum_app. Qed.

Lemma total_cons o os : total (o :: os) = Order.quantity o + total os.
Proof. done. Qed.

Lemma total_pos os : Forall valid_order os → os ≠ [] → 0 < total os.
Proof.
  intros Hv Hne. apply zsum_pos; [|by destruct os].
  apply Forall_fmap. eapply Forall_impl; [done|]. by intros o (_ & ? & _).
Qed.

Lemma total_nonneg os : Forall valid_order os → 0 ≤ total os.
Proof.
  intros Hv. destruct os; [done|]. apply Z.lt_le_incl, total_pos; done.
Qed.

Lemma total_bound os : Forall valid_order os → total os ≤ 2 ^ 32 * Z.of_nat (length os).
Proof.
  intros Hv. unfold total. rewrite <- (length_fmap Order.quantity os).
  apply zsum_le_bound, Forall_fmap. eapply Forall_impl; [done|].
  intros o [(_ & _ & Hq) _]. unfold in_u in Hq. simpl. lia.
Qed.

Lemma at_price_app p os os' : at_price p (os ++ os') = at_price p os ++ at_price p os'.
Proof. apply filter_app. Qed.
End Book.
