(* ===== verification/BookRep.v ===== *)
(** * The representation invariant of BookState

    [core s N gpl gom] relates a concrete book to its nodes [N] (pool index and
    order, in arrival order): pool, order map, price levels, intrusive queues
    and price sets all describe [N].  It says nothing of the cached best prices,
    so that it also holds in states where the cache is wrong.  The
    lemmas here are the structural half of every operation. *)

From Stdlib Require Import Sorted.
From S2P Require Import Prelude Types Interfaces OrderPool OrderQueue PriceSet OrderBook BookSpec.
Import BookState.

(** The nodes at a price, oldest first, and the level that describes them. *)
Definition level (p : Z) (N : list node) : list node := filter (λ n, Order.price n.2 = p) N.
Definition level_value (L : list node) : option PriceLevel :=
  match L with
  | [] => None
  | (i, _) :: _ => Some {| head := i; tail := last_index L NULL; total_quantity := Book.total L.*2 |}
  end.

Section Levels.
Implicit Types (N L : list node) (n : node) (i p : Z) (o : Order.t).

Lemma level_app p N1 N2 : level p (N1 ++ N2) = level p N1 ++ level p N2.
Proof. apply filter_app. Qed.

Lemma level_here N1 i o N2 :
  level (Order.price o) (N1 ++ (i, o) :: N2) =
  level (Order.price o) N1 ++ (i, o) :: level (Order.price o) N2.
Proof. rewrite level_app. unfold level. by rewrite (filter_cons_True _ _ N2). Qed.

Lemma level_other p N1 i o N2 : p ≠ Order.price o →
  level p (N1 ++ (i, o) :: N2) = level p (N1 ++ N2).
Proof.
  intros Hp. rewrite !level_app. unfold level.
  rewrite (filter_cons_False _ _ N2); [done|]. simpl. congruence.
Qed.

Lemma level_orders p N : (level p N).*2 = Book.at_price p N.*2.
Proof.
  unfold level, Book.at_price. induction N as [|[i o] N IH]; [done|].
  rewrite filter_cons, fmap_cons, filter_cons. simpl.
  case_decide; csimpl; by f_equal.
Qed.

Lemma level_indices p N : (level p N).*1 ⊆ N.*1.
Proof.
  intros i. rewrite !list_elem_of_fmap. intros (n & -> & Hn).
  apply list_elem_of_filter in Hn as [_ Hn]. by exists n.
Qed.

Lemma level_NoDup p N : NoDup N.*1 → NoDup (level p N).*1.
Proof.
  induction N as [|n N IH]; [done|]. rewrite fmap_cons. intros [Hn Hnd]%NoDup_cons.
  unfold level. rewrite filter_cons. case_decide; [|by apply IH].
  rewrite fmap_cons. constructor; [|by apply IH]. intros Hin. apply Hn. by eapply level_indices.
Qed.

Lemma level_value_Some L i o : level_value (L ++ [(i, o)]) =
  Some {| head := first_index L i; tail := i; total_quantity := Book.total (L ++ [(i, o)]).*2 |}.
Proof.
  assert (level_value (L ++ [(i, o)]) = Some {| head := first_index (L ++ [(i, o)]) NULL;
    tail := last_index (L ++ [(i, o)]) NULL; total_quantity := Book.total (L ++ [(i, o)]).*2 |}) as ->.
  { destruct L as [|[]]; done. }
  rewrite last_index_snoc, first_index_app. done.
Qed.

Lemma level_value_ne L : L ≠ [] → level_value L =
  Some {| head := first_index L NULL; tail := last_index L NULL; total_quantity := Book.total L.*2 |}.
Proof. by destruct L as [|[]]. Qed.

Lemma level_value_None L : level_value L = None ↔ L = [].
Proof. by destruct L as [|[]]. Qed.

Lemma node_unique N i o o' : NoDup N.*1 → (i, o) ∈ N → (i, o') ∈ N → o = o'.
Proof.
  intros Hnd. induction N as [|[j o2] N IH]; [set_solver|].
  rewrite fmap_cons in Hnd. apply NoDup_cons in Hnd as [Hj Hnd]. simpl in Hj.
  assert (∀ o, (j, o) ∉ N) as Hnj.
  { intros o3 Hin. apply Hj. apply list_elem_of_fmap. by exists (j, o3). }
  rewrite !elem_of_cons. intros [[= -> ->]|H1] [[= Heq]|H2]; subst; try done.
  - by apply Hnj in H2.
  - by apply Hnj in H1.
  - by apply IH.
Qed.

Lemma not_in_other_level N i o p : NoDup N.*1 → (i, o) ∈ N → p ≠ Order.price o →
  i ∉ (level p N).*1.
Proof.
  intros Hnd Hin Hp Hi. apply list_elem_of_fmap in Hi as ([j o'] & Heq & Hj). simpl in Heq. subst j.
  apply list_elem_of_filter in Hj as [Hpr Hj]. simpl in Hpr.
  by rewrite (node_unique N i o o') in Hp.
Qed.

Lemma elem_level n p N : n ∈ level p N ↔ Order.price n.2 = p ∧ n ∈ N.
Proof. unfold level. by rewrite list_elem_of_filter. Qed.

Lemma level_nil p N : level p N = [] ↔ ∀ o, o ∈ N.*2 → Order.price o ≠ p.
Proof.
  split.
  - intros Hl o Ho Hp. apply list_elem_of_fmap in Ho as ([i o'] & -> & Hin).
    assert ((i, o') ∈ level p N) as Hin' by (apply elem_level; done). rewrite Hl in Hin'. set_solver.
  - intros Hno. destruct (level p N) as [|n L] eqn:E; [done|exfalso].
    assert (n ∈ level p N) as Hn by (rewrite E; by left).
    apply elem_level in Hn as [Hp Hn]. apply (Hno n.2); [|done].
    apply list_elem_of_fmap. by exists n.
Qed.
End Levels.

Definition side_set {PL OM} (sd : Side.t) (s : t PL OM) : list Z :=
  match sd with Side.Buy => bids s | Side.Sell => offers s end.

#[global] Instance comparator_better sd : Comparator (Book.better sd).
Proof.
  split; [apply Book.better_irrefl|apply Book.better_trans|apply Book.better_total].
Qed.

(** ** The invariant *)

Section Core.
Context {PL OM : Type} {pl_ops : KeyedStore PL Z PriceLevel} {om_ops : KeyedStore OM Z Z}.
Context (pl_cap om_cap : Z) (pl_repr : PL → gmap Z PriceLevel → Prop) (om_repr : OM → gmap Z Z → Prop).
Context {pl_laws : KeyedStoreLaws PL Z PriceLevel pl_cap pl_repr}.
Context {om_laws : KeyedStoreLaws OM Z Z om_cap om_repr}.
Context (CAPACITY : Z).
Abbreviation state := (t PL OM).
Implicit Types (s : state) (N : list node) (o : Order.t) (i p : Z).

(** Price levels and price sets describe the orders [N]. *)
Record levels s N (gpl : gmap Z PriceLevel) : Prop := {
  lv_repr : pl_repr (price_levels s) gpl;
  lv_lookup p : gpl !! p = level_value (level p N);
  lv_sorted sd : PriceSet.sorted (Book.better sd) (side_set sd s);
  lv_elem sd p : p ∈ side_set sd s ↔ ∃ o, o ∈ N.*2 ∧ Order.side o = sd ∧ Order.price o = p;
}.

Record core s N (gpl : gmap Z PriceLevel) (gom : gmap Z Z) : Prop := {
  core_pool : OrderPool.inv CAPACITY (order_pool s) N.*1;
  core_om : om_repr (order_map s) gom;
  core_om_lookup id i : gom !! id = Some i ↔ ∃ o, (i, o) ∈ N ∧ Order.order_id o = id;
  core_queues p : dseg (OrderPool.orders (order_pool s)) NULL (level p N) NULL;
  core_levels : levels s N gpl;
  core_valid : Book.valid N.*2;
}.

Lemma core_NoDup s N gpl gom : core s N gpl gom → NoDup N.*1.
Proof. intros Hc. by eapply OrderPool.inv_NoDup, core_pool. Qed.

Lemma core_length s N gpl gom : core s N gpl gom → Z.of_nat (length N) ≤ CAPACITY < 2 ^ 32.
Proof.
  intros Hc. pose proof (OrderPool.inv_size _ _ _ (core_pool _ _ _ _ Hc)) as Hs.
  pose proof (OrderPool.inv_top _ _ _ (core_pool _ _ _ _ Hc)).
  pose proof (OrderPool.inv_capacity _ _ _ (core_pool _ _ _ _ Hc)).
  rewrite length_fmap in Hs. lia.
Qed.

(** No level total wraps: [2^32] orders of less than [2^32] each. *)
Lemma level_total_u64 s N gpl gom p : core s N gpl gom →
  in_u 64 (Book.total (Book.at_price p N.*2)).
Proof.
  intros Hc. pose proof (core_length _ _ _ _ Hc) as Hl.
  assert (Forall Book.valid_order (Book.at_price p N.*2)) as Hv.
  { apply Forall_filter_keep, Book.valid_orders, (core_valid _ _ _ _ Hc). }
  split; [by apply Book.total_nonneg|].
  pose proof (Book.total_bound _ Hv) as Hb.
  assert (length (Book.at_price p N.*2) ≤ length N)%nat as Hle.
  { unfold Book.at_price. rewrite <- (length_fmap snd N). apply length_filter. }
  change (2 ^ 64) with (2 ^ 32 * 2 ^ 32). nia.
Qed.

Lemma begin_best s N gpl sd : levels s N gpl → PriceSet.begin (side_set sd s) = Book.best sd N.*2.
Proof.
  intros Hl. pose proof (lv_sorted _ _ _ Hl sd) as Hs.
  destruct (Book.best sd N.*2) as [p|] eqn:Hb.
  - apply Book.best_Some in Hb as [(o & Ho & Hsd & Hp) Hmin].
    apply (PriceSet.begin_Some (Book.better sd)); [done|]. split.
    + apply (lv_elem _ _ _ Hl). by exists o.
    + intros q Hq Hne. apply (lv_elem _ _ _ Hl) in Hq as (o' & Ho' & Hsd' & <-).
      destruct (Book.better sd p (Order.price o')) eqn:E; [done|].
      exfalso. apply Hne. apply (Book.better_total sd); [|done]. by apply Hmin.
  - rewrite Book.best_None in Hb. apply PriceSet.begin_None.
    destruct (side_set sd s) as [|q l] eqn:E; [done|exfalso].
    assert (q ∈ side_set sd s) as Hq by (rewrite E; by left).
    apply (lv_elem _ _ _ Hl) in Hq as (o & Ho & Hsd & _). by apply (Hb o).
Qed.

Lemma find_level s N gpl p : levels s N gpl →
  ks_find (price_levels s) p = level_value (level p N).
Proof. intros Hl. rewrite (ks_find_spec _ _ _ (lv_repr _ _ _ Hl)). apply Hl. Qed.

(** Looking an order up by id. *)
Lemma core_find s N1 i o N2 gpl gom : core s (N1 ++ (i, o) :: N2) gpl gom →
  ks_find (order_map s) (Order.order_id o) = Some i ∧
  OrderPool.get (order_pool s) i =
    Ok {| RestingOrder.order := o;
          RestingOrder.previous := last_index (level (Order.price o) N1) NULL;
          RestingOrder.next := first_index (level (Order.price o) N2) NULL |}.
Proof.
  intros Hc. split.
  - rewrite (ks_find_spec _ _ _ (core_om _ _ _ _ Hc)). apply (core_om_lookup _ _ _ _ Hc).
    exists o. split; [set_solver|done].
  - pose proof (core_queues _ _ _ _ Hc (Order.price o)) as Hq. rewrite level_here in Hq.
    apply dseg_node in Hq. by apply OrderPool.get_Ok.
Qed.
End Core.
