(* ===== verification/BookOps.v ===== *)
(** * The operations of BookState preserve the representation

    One lemma per structural change: a new order, a purged order, a changed
    quantity; and the two cache updates [update_bbo_add] and
    [update_bbo_reduce]. *)

From Stdlib Require Import Sorted.
From S2P Require Import Prelude Types Interfaces OrderPool OrderQueue PriceSet OrderBook BookSpec BookRep.
Import BookState.

Section Ops.
Context {PL OM : Type} {pl_ops : KeyedStore PL Z PriceLevel} {om_ops : KeyedStore OM Z Z}.
Context (pl_cap om_cap : Z) (pl_repr : PL → gmap Z PriceLevel → Prop) (om_repr : OM → gmap Z Z → Prop).
Context {pl_laws : KeyedStoreLaws PL Z PriceLevel pl_cap pl_repr}.
Context {om_laws : KeyedStoreLaws OM Z Z om_cap om_repr}.
Context (CAPACITY : Z).
Abbreviation state := (t PL OM).
Abbreviation core := (core pl_repr om_repr CAPACITY).
Abbreviation levels := (levels pl_repr).
Implicit Types (s : state) (N : list node) (o : Order.t) (i p : Z).

(** ** Sizes of the two maps *)

Lemma core_om_size s N gpl gom : core s N gpl gom → (size gom ≤ length N)%nat.
Proof.
  intros Hc. rewrite <- size_dom.
  assert (dom gom ⊆ list_to_set (C := gset Z) (Order.order_id <$> N.*2)) as Hsub.
  { intros id Hid. apply elem_of_dom in Hid as [i Hi].
    apply (core_om_lookup _ _ _ _ _ _ _ Hc) in Hi as (o & Hin & <-).
    apply elem_of_list_to_set, list_elem_of_fmap_2, list_elem_of_fmap.
    by exists (i, o). }
  apply subseteq_size in Hsub.
  rewrite size_list_to_set in Hsub by (by apply Book.valid_ids, (core_valid _ _ _ _ _ _ _ Hc)).
  by rewrite !length_fmap in Hsub.
Qed.

Lemma levels_size s N gpl : levels s N gpl → size gpl = size (Book.prices N.*2).
Proof.
  intros Hl. rewrite <- size_dom. f_equal. apply set_eq. intros p.
  rewrite elem_of_dom, (lv_lookup _ _ _ _ Hl). unfold Book.prices.
  rewrite elem_of_list_to_set, list_elem_of_fmap. split.
  - intros Hs. destruct (decide (level p N = [])) as [Hn|Hn].
    { apply level_value_None in Hn. rewrite Hn in Hs. by apply is_Some_None in Hs. }
    destruct (level p N) as [|n L] eqn:E; [done|].
    assert (n ∈ level p N) as Hin by (rewrite E; by left). apply elem_level in Hin as [Hp Hin].
    exists n.2. split; [done|]. by apply list_elem_of_fmap_2.
  - intros (o & -> & Ho). destruct (level (Order.price o) N) as [|n L] eqn:E.
    + rewrite level_nil in E. by destruct (E o).
    + rewrite level_value_ne by done. by eexists.
Qed.

(** ** Adding an order *)

(** The new order may be added: it is valid, its id is fresh and the other side
    does not rest at its price. *)
Definition can_add (o : Order.t) (os : list Order.t) : Prop :=
  Book.valid_order o ∧ (Order.order_id o ∉ Order.order_id <$> os) ∧
  (∀ o', o' ∈ os → Order.price o' = Order.price o → Order.side o' = Order.side o).

(** There is room for a level at price [p]. *)
Definition level_room (p : Z) (os : list Order.t) : Prop :=
  p ∈ Book.prices os ∨ Z.of_nat (size (Book.prices os)) < pl_cap.

Lemma valid_add o os : Book.valid os → can_add o os → Book.valid (os ++ [o]).
Proof.
  intros [Hv Hid Hsd] (Ho & Hfresh & Hside). split.
  - apply Forall_app. split; [done|]. by constructor.
  - rewrite fmap_app. apply NoDup_app. split_and!; [done| |apply NoDup_singleton].
    set_solver.
  - intros a b. rewrite !elem_of_app, !list_elem_of_singleton.
    intros [Ha| ->] [Hb| ->] Hp; auto. symmetry. auto.
Qed.

Lemma level_snoc_here N i o : level (Order.price o) (N ++ [(i, o)]) = level (Order.price o) N ++ [(i, o)].
Proof. rewrite (level_here N i o []). done. Qed.
Lemma level_snoc_other p N i o : p ≠ Order.price o → level p (N ++ [(i, o)]) = level p N.
Proof. intros. rewrite level_other by done. by rewrite app_nil_r. Qed.

(** Price sets and levels after adding [o], given the level map. *)
Lemma levels_add s s1 N i o gpl gpl' :
  levels s N gpl → pl_repr (price_levels s1) gpl' →
  (∀ o', o' ∈ N.*2 → Order.price o' = Order.price o → Order.side o' = Order.side o) →
  gpl' = <[Order.price o := {| head := first_index (level (Order.price o) N) i; tail := i;
             total_quantity := Book.total (level (Order.price o) (N ++ [(i, o)])).*2 |}]> gpl →
  (∀ sd, side_set sd s1 =
     if decide (sd = Order.side o ∧ level (Order.price o) N = [])
     then PriceSet.insert (Book.better sd) (Order.price o) (side_set sd s) else side_set sd s) →
  levels s1 (N ++ [(i, o)]) gpl'.
Proof.
  intros Hl Hr Hsides -> Hset. split; [done|..].
  - intros p. rewrite lookup_insert. case_decide as Hp; subst.
    + rewrite level_snoc_here. by rewrite level_value_Some.
    + rewrite level_snoc_other by done. apply Hl.
  - intros sd. rewrite Hset. case_decide; [apply PriceSet.sorted_insert; [apply _|]|]; apply Hl.
  - intros sd p. rewrite Hset. rewrite fmap_app.
    assert ((∃ o0, o0 ∈ N.*2 ++ [(i, o)].*2 ∧ Order.side o0 = sd ∧ Order.price o0 = p) ↔
      p ∈ side_set sd s ∨ (Order.side o = sd ∧ Order.price o = p)) as ->.
    { rewrite (lv_elem _ _ _ _ Hl). setoid_rewrite elem_of_app.
      setoid_rewrite list_elem_of_singleton. naive_solver. }
    case_decide as Hd.
    + destruct Hd as [-> Hnil]. rewrite (PriceSet.elem_insert _). naive_solver.
    + split; [by left|]. intros [|[<- <-]]; [done|].
      destruct (level (Order.price o) N) as [|n L] eqn:E; [by destruct Hd|].
      assert (n ∈ level (Order.price o) N) as Hn by (rewrite E; by left).
      apply elem_level in Hn as [Hp Hn]. apply (lv_elem _ _ _ _ Hl). exists n.2.
      assert (n.2 ∈ N.*2) by (by apply list_elem_of_fmap_2). auto.
Qed.

Lemma om_add s N gpl gom i o om' gom' :
  core s N gpl gom → gom' = <[Order.order_id o := i]> gom → om_repr om' gom' →
  (Order.order_id o ∉ Order.order_id <$> N.*2) →
  ∀ id j, gom' !! id = Some j ↔ ∃ o', (j, o') ∈ N ++ [(i, o)] ∧ Order.order_id o' = id.
Proof.
  intros Hc -> Hr Hfresh id j. rewrite lookup_insert. case_decide as Hid; subst.
  - split; [intros [= <-]; exists o; set_solver|]. intros (o' & Hin & Hid).
    apply elem_of_app in Hin as [Hin|Hin]; [|by apply list_elem_of_singleton in Hin; simplify_eq].
    destruct Hfresh. rewrite <- Hid. apply list_elem_of_fmap_2, list_elem_of_fmap. by exists (j, o').
  - rewrite (core_om_lookup _ _ _ _ _ _ _ Hc). split; intros (o' & Hin & Hid'); exists o'.
    + set_solver.
    + split; [|done]. apply elem_of_app in Hin as [|Hin]; [done|].
      apply list_elem_of_singleton in Hin. simplify_eq.
Qed.

(** The level found at a non-empty price, and a write to it. *)
Definition the_level p N : PriceLevel :=
  {| head := first_index (level p N) NULL; tail := last_index (level p N) NULL;
     total_quantity := Book.total (level p N).*2 |}.

Lemma find_the_level s N gpl p : levels s N gpl → level p N ≠ [] →
  ks_find (price_levels s) p = Some (the_level p N).
Proof. intros Hl Hne. rewrite (find_level _ _ _ _ _ _ Hl). by apply level_value_ne. Qed.

Lemma modify_level s N gpl p f : levels s N gpl → level p N ≠ [] →
  ∃ pl, ks_modify (price_levels s) p f = Ok pl ∧ pl_repr pl (<[p := f (the_level p N)]> gpl).
Proof.
  intros Hl Hne. apply (ks_modify_spec (price_levels s) gpl p); [apply Hl|].
  rewrite (lv_lookup _ _ _ _ Hl). by apply level_value_ne.
Qed.

Lemma modify_twice pl g p v f : pl_repr pl (<[p := v]> g) →
  ∃ pl', ks_modify pl p f = Ok pl' ∧ pl_repr pl' (<[p := f v]> g).
Proof.
  intros Hr. destruct (ks_modify_spec pl _ p v f Hr) as (pl' & ? & Hr'); [apply lookup_insert_eq|].
  exists pl'. by rewrite insert_insert_eq in Hr'.
Qed.

Lemma find_inserted pl g p v : pl_repr pl (<[p := v]> g) → ks_find pl p = Some v.
Proof. intros Hr. rewrite (ks_find_spec pl _ p Hr). apply lookup_insert_eq. Qed.

Lemma valid_length_at_price p N : (length (Book.at_price p N.*2) ≤ length N)%nat.
Proof. unfold Book.at_price. rewrite <- (length_fmap snd N). apply length_filter. Qed.

(** Adding an order does not wrap the total of its level. *)
Lemma total_add_u64 s N gpl gom o : core s N gpl gom → Book.valid_order o →
  in_u 64 (Book.total (Book.at_price (Order.price o) N.*2) + Order.quantity o).
Proof.
  intros Hc ([_ [_ Hoq]] & Hoq0 & _). unfold in_u in Hoq.
  pose proof (level_total_u64 _ _ _ _ _ _ _ (Order.price o) Hc) as [? _].
  pose proof (core_length _ _ _ _ _ _ _ Hc).
  assert (Forall Book.valid_order (Book.at_price (Order.price o) N.*2)) as Hv.
  { apply Forall_filter_keep, Book.valid_orders, (core_valid _ _ _ _ _ _ _ Hc). }
  pose proof (Book.total_bound _ Hv) as Hb. pose proof (valid_length_at_price (Order.price o) N).
  split; [lia|]. change (2 ^ 64) with (2 ^ 32 * 2 ^ 32). nia.
Qed.

Lemma elem_index N i o : (i, o) ∈ N → o ∈ N.*2.
Proof. intros Hin. apply list_elem_of_fmap. by exists (i, o). Qed.

Lemma fresh_gom s N gpl gom o : core s N gpl gom →
  (Order.order_id o ∉ Order.order_id <$> N.*2) → gom !! Order.order_id o = None.
Proof.
  intros Hc Hfresh. apply eq_None_not_Some. intros [j Hj].
  apply (core_om_lookup _ _ _ _ _ _ _ Hc) in Hj as (o' & Hin & Hid).
  apply Hfresh. rewrite <- Hid. by eapply list_elem_of_fmap_2, elem_index.
Qed.

(** Step 1 of [add]: allocate the node and register its id. *)
Lemma add_allocate s N gpl gom o :
  core s N gpl gom → (Order.order_id o ∉ Order.order_id <$> N.*2) →
  Z.of_nat (length N) < CAPACITY → CAPACITY ≤ om_cap →
  ∃ i pool om,
    OrderPool.allocate (order_pool s) {| RestingOrder.order := o; RestingOrder.previous := NULL;
      RestingOrder.next := NULL |} = Ok (i, pool) ∧
    ks_add (order_map s) (Order.order_id o) i = Ok om ∧
    om_repr om (<[Order.order_id o := i]> gom) ∧
    (i ∉ N.*1) ∧ OrderPool.inv CAPACITY pool (N ++ [(i, o)]).*1 ∧
    node_at (OrderPool.orders pool) i {| RestingOrder.order := o; RestingOrder.previous := NULL;
      RestingOrder.next := NULL |} ∧
    (∀ p, dseg (OrderPool.orders pool) NULL (level p N) NULL).
Proof.
  intros Hc Hfresh Hlen Hcap.
  destruct (OrderPool.allocate_spec CAPACITY (order_pool s) N.*1
    {| RestingOrder.order := o; RestingOrder.previous := NULL; RestingOrder.next := NULL |})
    as (i & pool & Ha & HiN & Hinv & Hord); [apply Hc|by rewrite length_fmap|].
  destruct (ks_add_spec (order_map s) gom (Order.order_id o) i) as (om & Hom & Hom');
    [apply Hc|by eapply fresh_gom|pose proof (core_om_size _ _ _ _ Hc); lia|].
  assert (0 ≤ i < Z.of_nat (length (OrderPool.orders (order_pool s)))) as Hir.
  { pose proof (OrderPool.inv_range _ _ _ i Hinv ltac:(by left)).
    rewrite (OrderPool.inv_orders _ _ _ (core_pool _ _ _ _ _ _ _ Hc)). lia. }
  exists i, pool, om. split_and!; [done..| | |].
  - eapply OrderPool.inv_Permutation; [|done].
    rewrite fmap_app. simpl. by rewrite Permutation_cons_append.
  - rewrite Hord. by apply node_at_insert.
  - intros p. rewrite Hord. apply dseg_insert; [lia| |by eapply core_queues].
    intros Hin. apply HiN. by eapply level_indices.
Qed.

(** Step 2, a price with no level yet. *)
Lemma add_new_level s N gpl o :
  levels s N gpl → level_room (Order.price o) N.*2 → level (Order.price o) N = [] →
  ∀ i, ∃ pl gpl',
    ks_find (price_levels s) (Order.price o) = None ∧
    ks_add (price_levels s) (Order.price o)
      {| head := i; tail := i; total_quantity := Order.quantity o |} = Ok pl ∧
    ∀ s1, price_levels s1 = pl → bids s1 = bids s → offers s1 = offers s →
      levels (add_bid_or_offer o s1) (N ++ [(i, o)]) gpl'.
Proof.
  intros Hl Hroom Hnil i.
  assert (gpl !! Order.price o = None) as Hg by (by rewrite (lv_lookup _ _ _ _ Hl), Hnil).
  destruct (ks_add_spec (price_levels s) gpl (Order.price o)
    {| head := i; tail := i; total_quantity := Order.quantity o |}) as (pl & Hpl & Hpl').
  { apply Hl. } { done. }
  { rewrite (levels_size _ _ _ Hl). destruct Hroom as [Hin|]; [|done]. exfalso.
    unfold Book.prices in Hin. rewrite elem_of_list_to_set, list_elem_of_fmap in Hin.
    destruct Hin as (o' & Hp & Ho'). rewrite level_nil in Hnil. by destruct (Hnil o'). }
  exists pl; eexists. split; [by rewrite (find_level _ _ _ _ _ _ Hl), Hnil|]. split; [done|].
  intros s1 Hs1 Hb Hs. eapply (levels_add s); [done| | | |].
  - unfold add_bid_or_offer. destruct (Order.side o); simpl; rewrite Hs1; exact Hpl'.
  - intros o' Ho' Hp. rewrite level_nil in Hnil. by destruct (Hnil o').
  - f_equal. rewrite level_snoc_here, Hnil. simpl. unfold Book.total. simpl. by rewrite Z.add_0_r.
  - intros sd. rewrite Hnil. unfold add_bid_or_offer.
    destruct (Order.side o), sd; simpl; by rewrite ?Hb, ?Hs.
Qed.

(** The other queues are untouched by writes to the nodes of one queue. *)
Lemma other_queue P P' N i o p :
  NoDup (N ++ [(i, o)]).*1 → p ≠ Order.price o →
  (∀ j, 0 ≤ j → j ∉ (level (Order.price o) N ++ [(i, o)]).*1 → P' !! Z.to_nat j = P !! Z.to_nat j) →
  dseg P NULL (level p N) NULL → dseg P' NULL (level p N) NULL.
Proof.
  intros Hnd Hp Hfr. apply dseg_frame. intros j Hj Hin. apply Hfr; [done|].
  rewrite <- level_snoc_here. apply list_elem_of_fmap in Hin as ([j' oj] & -> & Hoj).
  apply elem_level in Hoj as [Hpj Hoj].
  apply (not_in_other_level _ _ oj); [done|set_solver|]. simpl in Hpj. congruence.
Qed.

Lemma add_core s N gpl gom e :
  let o := MarketEvent.order e in
  core s N gpl gom → can_add o N.*2 → level_room (Order.price o) N.*2 →
  Z.of_nat (length N) < CAPACITY → CAPACITY ≤ om_cap →
  ∃ s1 i gpl' gom',
    add s e = Ok (update_bbo_add s1 o) ∧ bbo s1 = bbo s ∧ core s1 (N ++ [(i, o)]) gpl' gom'.
Proof.
  intros o Hc Hcan Hroom Hlen Hcap. pose proof Hcan as (Ho & Hfresh & Hsides).
  pose proof (core_levels _ _ _ _ _ _ _ Hc) as Hl.
  destruct (add_allocate s N gpl gom o Hc Hfresh Hlen Hcap)
    as (i & pool & om & Ha & Hom & Hom' & HiN & Hinv & Hnode & Hq).
  assert (Book.valid (N ++ [(i, o)]).*2) as Hvalid.
  { rewrite fmap_app. apply valid_add; [apply Hc|done]. }
  unfold add. fold o. rewrite Ha. simpl. rewrite Hom. simpl.
  destruct (decide (level (Order.price o) N = [])) as [Hnil|Hne].
  - destruct (add_new_level s N gpl o Hl Hroom Hnil i) as (pl & gpl' & -> & -> & Hlev). simpl.
    eexists _, i, gpl', _. split; [done|].
    split; [by unfold add_bid_or_offer; destruct (Order.side o)|].
    split; [..|by apply Hlev|done].
    + unfold add_bid_or_offer. by destruct (Order.side o).
    + unfold add_bid_or_offer. destruct (Order.side o); exact Hom'.
    + by eapply om_add.
    + unfold add_bid_or_offer. intros p. replace (order_pool _) with pool by (by destruct (Order.side o)).
      destruct (decide (p = Order.price o)) as [->|Hp]; [|by rewrite level_snoc_other].
      rewrite level_snoc_here, Hnil. by split.
  - rewrite (find_the_level _ _ _ _ Hl Hne).
    destruct (modify_level s N gpl _ (add_total (Order.quantity o)) Hl Hne) as (pl & -> & Hpl). simpl.
    destruct (queue_append CAPACITY pool _ (level (Order.price o) N) i o Hinv)
      as (p1 & p2 & -> & Hu2 & Hinv2 & Hd2 & Hfr); [done| | | | |done|done|].
    { rewrite fmap_app. pose proof (level_indices (Order.price o) N). set_solver. }
    { rewrite fmap_app. set_solver. }
    { intros Hin. apply HiN. by eapply level_indices. }
    { by eapply level_NoDup, core_NoDup. }
    simpl. rewrite Hu2. simpl.
    destruct (modify_twice _ _ _ _ (set_tail i) Hpl) as (pl2 & -> & Hpl2). simpl.
    eexists _, i, _, _. split; [done|]. split; [done|]. split; [done|exact Hom'|by eapply om_add| | |done].
    + intros p. destruct (decide (p = Order.price o)) as [->|Hp]; [by rewrite level_snoc_here|].
      rewrite level_snoc_other by done.
      eapply other_queue; [by eapply OrderPool.inv_NoDup|done|exact Hfr|apply Hq].
    + eapply (levels_add s); [done|exact Hpl2|done| |].
      * f_equal. unfold set_tail, add_total. simpl. f_equal.
        -- by destruct (level (Order.price o) N) as [|[]].
        -- rewrite level_snoc_here, fmap_app, Book.total_app, level_orders.
           unfold Book.total at 3. simpl. rewrite Z.add_0_r.
           apply uwrap_small. by eapply total_add_u64.
      * intros sd. rewrite decide_False; [done|]. intros [_ ?]. done.
Qed.
End Ops.
