(* ===== verification/BookCache.v ===== *)
(** * The cached best bid and offer

    [update_bbo_add] and [update_bbo_reduce] maintain [bbo_of] of the resting
    orders when they are told what was added or removed. *)

From Stdlib Require Import Sorted.
From S2P Require Import Prelude Types Interfaces OrderPool OrderQueue PriceSet OrderBook BookSpec BookRep BookOps.
Import BookState.

Definition set_bbo {PL OM} (b : OrderSnapshot) (s : t PL OM) : t PL OM :=
  {| order_pool := order_pool s; price_levels := price_levels s; order_map := order_map s;
     bids := bids s; offers := offers s; bbo := b |}.

Definition set_info (sd : Side.t) (i : BestOrderInfo) (b : OrderSnapshot) : OrderSnapshot :=
  match sd with
  | Side.Buy => {| best_bid := i; best_offer := best_offer b |}
  | Side.Sell => {| best_bid := best_bid b; best_offer := i |}
  end.

Lemma set_bbo_id {PL OM} (s : t PL OM) : set_bbo (bbo s) s = s.
Proof. by destruct s. Qed.

Lemma info_set_info sd i b : Book.info sd (set_info sd i b) = i.
Proof. by destruct sd. Qed.

Lemma info_bbo_of sd os : Book.info sd (Book.bbo_of os) = Book.best_info sd os.
Proof. by destruct sd. Qed.

Lemma set_info_bbo_of sd i os os' :
  i = Book.best_info sd os' →
  Book.best_info (Book.opposite sd) os = Book.best_info (Book.opposite sd) os' →
  set_info sd i (Book.bbo_of os) = Book.bbo_of os'.
Proof. intros -> Ho. unfold Book.bbo_of. destruct sd; simpl in *; by rewrite Ho. Qed.

(** ** Best prices when the book changes *)

(** [best] only depends on which (side, price) pairs occur. *)
Lemma best_ext sd os os' :
  (∀ p, (∃ o, o ∈ os ∧ Order.side o = sd ∧ Order.price o = p) ↔
        (∃ o, o ∈ os' ∧ Order.side o = sd ∧ Order.price o = p)) →
  Book.best sd os = Book.best sd os'.
Proof.
  intros Heq. destruct (Book.best sd os') as [p|] eqn:Hb.
  - apply Book.best_Some in Hb as [Hex Hmin]. apply Book.best_Some.
    split; [by apply Heq|]. intros o Ho Hsd.
    destruct (proj1 (Heq (Order.price o)) ltac:(by exists o)) as (o' & Ho' & Hsd' & <-). by apply Hmin.
  - apply Book.best_None. rewrite Book.best_None in Hb. intros o Ho Hsd.
    destruct (proj1 (Heq (Order.price o)) ltac:(by exists o)) as (o' & Ho' & Hsd' & _). by apply (Hb o').
Qed.

Lemma best_snoc_other sd os o : Order.side o ≠ sd → Book.best sd (os ++ [o]) = Book.best sd os.
Proof.
  intros Hne. apply best_ext. intros p. setoid_rewrite elem_of_app.
  setoid_rewrite list_elem_of_singleton. naive_solver.
Qed.

Lemma best_snoc os o :
  Book.best (Order.side o) (os ++ [o]) =
  Some match Book.best (Order.side o) os with
       | None => Order.price o
       | Some p => if Book.better (Order.side o) (Order.price o) p then Order.price o else p
       end.
Proof.
  apply Book.best_Some. setoid_rewrite elem_of_app. setoid_rewrite list_elem_of_singleton.
  destruct (Book.best (Order.side o) os) as [p|] eqn:Hb.
  - apply Book.best_Some in Hb as [(o' & Ho' & Hsd & <-) Hmin].
    destruct (Book.better (Order.side o) (Order.price o) (Order.price o')) eqn:E.
    + split; [naive_solver|]. intros o2 [Ho2| ->] Hs; [|apply Book.better_irrefl].
      destruct (Book.better (Order.side o) (Order.price o2) (Order.price o)) eqn:E2; [|done].
      rewrite <- (Hmin o2) by done. symmetry. by eapply Book.better_trans.
    + split; [naive_solver|]. intros o2 [Ho2| ->] Hs; [by apply Hmin|done].
  - rewrite Book.best_None in Hb. split; [naive_solver|].
    intros o2 [Ho2| ->] Hs; [by apply Hb in Ho2|apply Book.better_irrefl].
Qed.

Lemma best_price_of sd os p : Book.valid os → Book.best sd os = Some p →
  ∀ o, o ∈ os → Order.price o = p → Order.side o = sd.
Proof.
  intros Hv Hb o Ho Hp. apply Book.best_Some in Hb as [(o' & Ho' & <- & <-) _].
  by apply (Book.valid_sides os Hv).
Qed.

(** A best price is a real price, never the sentinel. *)
Lemma best_valid sd os p : Forall Book.valid_order os → Book.best sd os = Some p → NO_BID < p < NO_OFFER.
Proof.
  intros Hv Hb. apply Book.best_Some in Hb as [(o & Ho & _ & <-) _].
  rewrite Forall_forall in Hv. by destruct (Hv o Ho) as (_ & _ & ?).
Qed.

Lemma best_info_other sd sd' os os' : sd' ≠ sd →
  (∀ p, Book.best sd' os = Some p → Book.total (Book.at_price p os) = Book.total (Book.at_price p os')) →
  Book.best sd' os = Book.best sd' os' →
  Book.best_info sd' os = Book.best_info sd' os'.
Proof.
  intros _ Ht Hb. unfold Book.best_info. rewrite <- Hb.
  destruct (Book.best sd' os) as [p|]; [|done]. by rewrite Ht.
Qed.

Lemma opposite_ne sd : Book.opposite sd ≠ sd.
Proof. by destruct sd. Qed.

Section Cache.
Context {PL OM : Type} {pl_ops : KeyedStore PL Z PriceLevel} {om_ops : KeyedStore OM Z Z}.
Context (pl_cap : Z) (pl_repr : PL → gmap Z PriceLevel → Prop).
Context {pl_laws : KeyedStoreLaws PL Z PriceLevel pl_cap pl_repr}.
Abbreviation state := (t PL OM).
Abbreviation levels := (levels pl_repr).
Implicit Types (s : state) (N : list node) (o : Order.t) (sd : Side.t).

(** ** After an addition *)

(** The four copies of the code, for either side. *)
Lemma update_bbo_add_eq s o :
  let sd := Order.side o in
  let b := Book.info sd (bbo s) in
  update_bbo_add s o =
    if Book.better sd (Order.price o) (price b) then
      (set_bbo (set_info sd {| price := Order.price o; quantity := Order.quantity o |} (bbo s)) s,
       Book.new_best sd)
    else if Order.price o =? price b then
      (set_bbo (set_info sd {| price := price b; quantity := u32 (quantity b + Order.quantity o) |} (bbo s)) s,
       Book.new_best sd)
    else (s, NoChange).
Proof.
  unfold update_bbo_add. destruct (Order.side o); simpl; [|done].
  unfold update_best_bid_add. rewrite Z.gtb_ltb. done.
Qed.

(** What [add] reports: a change unless the best price stays strictly better. *)
Definition add_report (o : Order.t) (os : list Order.t) : Update :=
  match Book.best (Order.side o) os with
  | Some p => if Book.better (Order.side o) p (Order.price o) then NoChange
              else Book.new_best (Order.side o)
  | None => Book.new_best (Order.side o)
  end.

Lemma at_price_snoc p os o :
  Book.at_price p (os ++ [o]) = Book.at_price p os ++ (if decide (Order.price o = p) then [o] else []).
Proof. by rewrite Book.at_price_app. Qed.

Lemma at_price_nil p os : (∀ o, o ∈ os → Order.price o ≠ p) → Book.at_price p os = [].
Proof.
  intros Hno. unfold Book.at_price. induction os as [|o os IH]; [done|].
  rewrite filter_cons_False by (apply Hno; by left). apply IH. intros. apply Hno. by right.
Qed.

Lemma best_info_snoc_other os o : Book.valid os → can_add o os →
  Book.best_info (Book.opposite (Order.side o)) os =
  Book.best_info (Book.opposite (Order.side o)) (os ++ [o]).
Proof.
  intros Hv (_ & _ & Hsides). pose proof (opposite_ne (Order.side o)) as Hne.
  apply (best_info_other (Order.side o)); [done| |by rewrite best_snoc_other].
  intros p Hb. rewrite at_price_snoc. rewrite decide_False; [by rewrite app_nil_r|].
  intros <-. pose proof (best_price_of _ _ _ Hv Hb) as Hp.
  apply Book.best_Some in Hb as [(o' & Ho' & Hs & Hpr) _].
  apply Hne. rewrite <- Hs. by apply Hsides.
Qed.

Lemma bbo_add_correct s os o :
  bbo s = Book.bbo_of os → Book.valid os → can_add o os →
  update_bbo_add s o = (set_bbo (Book.bbo_of (os ++ [o])) s, add_report o os).
Proof.
  intros Hbbo Hv Hcan. pose proof Hcan as (Ho & _ & Hsides).
  assert (∀ i (u : Update), i = Book.best_info (Order.side o) (os ++ [o]) →
    (set_bbo (set_info (Order.side o) i (bbo s)) s, u) = (set_bbo (Book.bbo_of (os ++ [o])) s, u)) as Hset.
  { intros i u Hi. do 2 f_equal. rewrite Hbbo. apply set_info_bbo_of; [done|].
    by apply best_info_snoc_other. }
  assert (u32 (Order.quantity o) = Order.quantity o) as Hqo.
  { apply uwrap_small. by destruct Ho as ([_ [_ ?]] & _). }
  rewrite update_bbo_add_eq. cbv zeta. unfold add_report.
  assert (Book.info (Order.side o) (bbo s) = Book.best_info (Order.side o) os) as ->
    by (rewrite Hbbo; apply info_bbo_of).
  unfold Book.best_info at 1 2 3 4.
  pose proof (best_snoc os o) as Hsn.
  destruct (Book.best (Order.side o) os) as [p|] eqn:Hb; cbn [price quantity].
  - pose proof (best_valid _ _ _ (Book.valid_orders _ Hv) Hb) as Hp.
    destruct (Book.better (Order.side o) (Order.price o) p) eqn:E1.
    + replace (Book.better (Order.side o) p (Order.price o)) with false
        by (destruct (Order.side o); simpl in *; lia).
      apply Hset. unfold Book.best_info. rewrite Hsn. f_equal.
      rewrite at_price_snoc, decide_True by done. rewrite at_price_nil.
      * unfold Book.total. simpl. by rewrite Z.add_0_r.
      * intros o' Ho' Hpo. apply Book.best_Some in Hb as [_ Hmin].
        specialize (Hmin o' Ho' (Hsides o' Ho' Hpo)). rewrite Hpo in Hmin. congruence.
    + destruct (Z.eqb_spec (Order.price o) p) as [Heq|Hne].
      * subst p. rewrite Book.better_irrefl. apply Hset. unfold Book.best_info. rewrite Hsn. f_equal.
        rewrite at_price_snoc, decide_True by done. rewrite Book.total_app.
        unfold Book.total at 3. simpl. rewrite Z.add_0_r. by zsimpl.
      * replace (Book.better (Order.side o) p (Order.price o)) with true
          by (destruct (Order.side o); simpl in *; lia).
        f_equal. rewrite <- (set_bbo_id s) at 1. f_equal. rewrite Hbbo.
        rewrite <- (set_info_bbo_of (Order.side o) (Book.best_info (Order.side o) os) os (os ++ [o]));
          [by destruct (Order.side o)| |by apply best_info_snoc_other].
        unfold Book.best_info. rewrite Hb, Hsn. rewrite at_price_snoc, decide_False by done.
        by rewrite app_nil_r.
  - replace (Book.better (Order.side o) (Order.price o) (Book.no_price (Order.side o))) with true.
    + apply Hset. unfold Book.best_info. rewrite Hsn. f_equal.
      rewrite at_price_snoc, decide_True by done. rewrite at_price_nil.
      * unfold Book.total. simpl. by rewrite Z.add_0_r.
      * intros o' Ho' Hpo. rewrite Book.best_None in Hb. by apply (Hb o'), Hsides.
    + destruct Ho as (_ & _ & Hp). destruct (Order.side o); simpl; unfold NO_BID, NO_OFFER in *; lia.
Qed.

(** ** After a reduction *)

(** With consistent levels [update_bbo_reduce] is always defined, whatever the
    cache holds. *)
Lemma update_bbo_reduce_eq s N gpl o :
  levels s N gpl →
  let sd := Order.side o in
  let b := Book.info sd (bbo s) in
  update_bbo_reduce s o = Ok
    (if (Order.price o =? price b) && (Order.quantity o =? quantity b) then
       (set_bbo (set_info sd (Book.best_info sd N.*2) (bbo s)) s, Book.new_best sd)
     else if Order.price o =? price b then
       (set_bbo (set_info sd {| price := price b; quantity := u32 (quantity b - Order.quantity o) |} (bbo s)) s,
        Book.new_best sd)
     else (s, NoChange)).
Proof.
  intros Hl sd b.
  assert (update_bbo_reduce s o =
    if (Order.price o =? price b) && (Order.quantity o =? quantity b) then
      match PriceSet.begin (side_set sd s) with
      | Some p => level ← deref (ks_find (price_levels s) p);
          Ok (set_bbo (set_info sd {| price := p; quantity := u32 (total_quantity level) |} (bbo s)) s,
              Book.new_best sd)
      | None => Ok (set_bbo (set_info sd {| price := Book.no_price sd; quantity := 0 |} (bbo s)) s,
                    Book.new_best sd)
      end
    else if Order.price o =? price b then
      Ok (set_bbo (set_info sd {| price := price b; quantity := u32 (quantity b - Order.quantity o) |} (bbo s)) s,
          Book.new_best sd)
    else Ok (s, NoChange)) as ->.
  { unfold update_bbo_reduce, sd, b. by destruct (Order.side o). }
  rewrite (begin_best _ _ _ _ sd Hl). unfold Book.best_info.
  destruct (_ && _); [|by destruct (_ =? _)].
  destruct (Book.best sd N.*2) as [p|] eqn:Hb; [|done].
  apply Book.best_Some in Hb as [(o' & Ho' & _ & Hp) _].
  rewrite (find_level _ _ _ _ _ p Hl), level_value_ne.
  - simpl. by rewrite level_orders.
  - intros Hnil. rewrite level_nil in Hnil. by apply (Hnil o').
Qed.

(** [os'] is [os] with [d] less quantity resting at price [p] of side [sd]. *)
Record reduced (sd : Side.t) (p d : Z) (os os' : list Order.t) : Prop := {
  red_pairs sd' q : ¬ (sd' = sd ∧ q = p) →
    (∃ o, o ∈ os ∧ Order.side o = sd' ∧ Order.price o = q) ↔
    (∃ o, o ∈ os' ∧ Order.side o = sd' ∧ Order.price o = q);
  red_has : ∃ o, o ∈ os ∧ Order.side o = sd ∧ Order.price o = p;
  red_side o : o ∈ os' → Order.price o = p → Order.side o = sd;
  red_total : Book.total (Book.at_price p os) = Book.total (Book.at_price p os') + d;
  red_other q : q ≠ p → Book.total (Book.at_price q os) = Book.total (Book.at_price q os');
}.

Definition reduce_report sd (p : Z) (os : list Order.t) : Update :=
  if decide (Book.best sd os = Some p) then Book.new_best sd else NoChange.

Lemma reduced_info_other sd p d os os' : Book.valid os → reduced sd p d os os' →
  Book.best_info (Book.opposite sd) os = Book.best_info (Book.opposite sd) os'.
Proof.
  intros Hv Hr. apply (best_info_other sd); [apply opposite_ne| |].
  - intros q Hb. apply (red_other _ _ _ _ _ Hr). intros ->.
    destruct (red_has _ _ _ _ _ Hr) as (o & Ho & Hs & Hp).
    apply (opposite_ne sd). rewrite <- Hs at 2. symmetry. by eapply best_price_of.
  - apply best_ext. intros q. apply (red_pairs _ _ _ _ _ Hr). intros [Hs _]. by eapply opposite_ne.
Qed.

(** The best price survives unless the reduced level was the best and is gone. *)
Lemma reduced_best sd p d os os' b : reduced sd p d os os' → Book.best sd os = Some b →
  b ≠ p ∨ Book.at_price p os' ≠ [] → Book.best sd os' = Some b.
Proof.
  intros Hr Hb Hkeep. apply Book.best_Some in Hb as [Hex Hmin]. apply Book.best_Some. split.
  - destruct (decide (b = p)) as [->|Hne]; [|apply (red_pairs _ _ _ _ _ Hr); naive_solver].
    destruct Hkeep as [|Hne]; [done|]. destruct (Book.at_price p os') as [|o l] eqn:E; [done|].
    assert (o ∈ Book.at_price p os') as Ho by (rewrite E; by left).
    apply list_elem_of_filter in Ho as [Hp Ho]. exists o. split_and!; [done| |done].
    by apply (red_side _ _ _ _ _ Hr).
  - intros o Ho Hs. destruct (decide (Order.price o = p)) as [Hp|Hp].
    + destruct (red_has _ _ _ _ _ Hr) as (o' & Ho' & Hs' & Hp'). rewrite Hp, <- Hp'. by apply Hmin.
    + destruct (proj2 (red_pairs _ _ _ _ _ Hr sd (Order.price o) ltac:(naive_solver)))
        as (o' & Ho' & Hs' & <-); [by exists o|by apply Hmin].
Qed.

Lemma bbo_reduce_correct s N gpl os o :
  levels s N gpl → bbo s = Book.bbo_of os → Book.valid os → Book.valid N.*2 →
  in_u 32 (Order.quantity o) →
  reduced (Order.side o) (Order.price o) (Order.quantity o) os N.*2 →
  update_bbo_reduce s o =
    Ok (set_bbo (Book.bbo_of N.*2) s, reduce_report (Order.side o) (Order.price o) os).
Proof.
  intros Hl Hbbo Hv Hv' Hq Hr. rewrite (update_bbo_reduce_eq s N gpl o Hl). cbv zeta. f_equal.
  set (sd := Order.side o) in *. set (p := Order.price o) in *. set (d := Order.quantity o) in *.
  assert (∀ i (u : Update), i = Book.best_info sd N.*2 →
    (set_bbo (set_info sd i (bbo s)) s, u) = (set_bbo (Book.bbo_of N.*2) s, u)) as Hset.
  { intros i u Hi. do 2 f_equal. rewrite Hbbo. apply set_info_bbo_of; [done|].
    by eapply reduced_info_other. }
  assert (Book.info sd (bbo s) = Book.best_info sd os) as -> by (rewrite Hbbo; apply info_bbo_of).
  destruct (Book.best sd os) as [b|] eqn:Hb.
  2:{ rewrite Book.best_None in Hb. destruct (red_has _ _ _ _ _ Hr) as (o' & Ho' & Hs & _).
      by destruct (Hb o'). }
  assert (Book.best_info sd os = {| price := b; quantity := u32 (Book.total (Book.at_price b os)) |}) as ->
    by (unfold Book.best_info; by rewrite Hb).
  unfold reduce_report. rewrite Hb. cbn [price quantity].
  destruct (Z.eqb_spec p b) as [<-|Hne]; simpl.
  - rewrite decide_True by done.
    destruct (Z.eqb_spec d (u32 (Book.total (Book.at_price p os)))) as [Heq|Hdiff].
    + by apply Hset.
    + apply Hset. unfold Book.best_info. rewrite (reduced_best _ _ _ _ _ p Hr Hb).
      * f_equal. rewrite (red_total _ _ _ _ _ Hr). zsimpl. f_equal. lia.
      * right. intros Hnil. apply Hdiff. rewrite (red_total _ _ _ _ _ Hr), Hnil.
        unfold Book.total. simpl. by rewrite uwrap_small.
  - rewrite decide_False by congruence. f_equal. rewrite <- (set_bbo_id s) at 1. f_equal. rewrite Hbbo.
    rewrite <- (set_info_bbo_of sd (Book.best_info sd os) os N.*2);
      [by destruct sd| |by eapply reduced_info_other].
    unfold Book.best_info. rewrite Hb, (reduced_best _ _ _ _ _ b Hr Hb) by (left; congruence).
    by rewrite (red_other _ _ _ _ _ Hr) by congruence.
Qed.
End Cache.
