(* ===== verification/BookPurge.v ===== *)
(** * Purging an order and changing its quantity

    The structural half of [purge_order], [trade] and [update_quantity]. *)

From Stdlib Require Import Sorted.
From S2P Require Import Prelude Types Interfaces OrderPool OrderQueue PriceSet OrderBook BookSpec BookRep BookOps BookCache.
Import BookState.

Section Facts.
Implicit Types (N : list node) (o : Order.t) (i q : Z).

(** ** Facts about the orders *)

Lemma split_orders N1 i o N2 : (N1 ++ (i, o) :: N2).*2 = N1.*2 ++ o :: N2.*2.
Proof. by rewrite fmap_app. Qed.

Lemma valid_split N1 i o N2 : Book.valid (N1 ++ (i, o) :: N2).*2 →
  Book.valid_order o ∧ Book.valid (N1 ++ N2).*2 ∧
  (Order.order_id o ∉ Order.order_id <$> (N1 ++ N2).*2).
Proof.
  rewrite split_orders, (fmap_app snd). intros [Hv Hid Hsd].
  rewrite fmap_app, fmap_cons, NoDup_app, NoDup_cons in Hid.
  destruct Hid as (Hn1 & Hd & Hn & Hn2).
  apply Forall_app in Hv as [Hv1 Hv]. apply Forall_cons in Hv as [Ho Hv2].
  split; [done|split].
  - split.
    + by apply Forall_app.
    + rewrite fmap_app, NoDup_app. split_and!; [done| |done]. set_solver.
    + intros a b Ha Hb. apply Hsd; set_solver.
  - rewrite fmap_app, elem_of_app. intros [Hin|]; [|done]. apply (Hd _ Hin). by left.
Qed.

Lemma elem_split N1 i o N2 o' : o' ∈ (N1 ++ (i, o) :: N2).*2 ↔ o' = o ∨ o' ∈ (N1 ++ N2).*2.
Proof. rewrite split_orders, (fmap_app snd). set_solver. Qed.

Lemma total_cons_price q o os : Book.total (Book.at_price q (o :: os)) =
  (if decide (Order.price o = q) then Order.quantity o else 0) + Book.total (Book.at_price q os).
Proof. unfold Book.at_price. rewrite filter_cons. by case_decide. Qed.

Lemma total_split N1 i o N2 q :
  Book.total (Book.at_price q (N1 ++ (i, o) :: N2).*2) =
  Book.total (Book.at_price q (N1 ++ N2).*2) + (if decide (Order.price o = q) then Order.quantity o else 0).
Proof.
  rewrite split_orders, (fmap_app snd), !Book.at_price_app, !Book.total_app, total_cons_price. lia.
Qed.

Lemma reduced_purge N1 i o N2 :
  Book.valid (N1 ++ (i, o) :: N2).*2 →
  reduced (Order.side o) (Order.price o) (Order.quantity o) (N1 ++ (i, o) :: N2).*2 (N1 ++ N2).*2.
Proof.
  intros Hv. pose proof (elem_split N1 i o N2) as Hin.
  assert (o ∈ (N1 ++ (i, o) :: N2).*2) as Ho by (apply Hin; by left).
  split.
  - intros sd q Hne. setoid_rewrite Hin. naive_solver.
  - by exists o.
  - intros o' Ho' Hp. eapply (Book.valid_sides _ Hv); [by apply Hin; right|done|done].
  - rewrite total_split. by rewrite decide_True.
  - intros q Hq. rewrite total_split, decide_False by congruence. lia.
Qed.

End Facts.

Section Purge.
Context {PL OM : Type} {pl_ops : KeyedStore PL Z PriceLevel} {om_ops : KeyedStore OM Z Z}.
Context (pl_cap om_cap : Z) (pl_repr : PL → gmap Z PriceLevel → Prop) (om_repr : OM → gmap Z Z → Prop).
Context {pl_laws : KeyedStoreLaws PL Z PriceLevel pl_cap pl_repr}.
Context {om_laws : KeyedStoreLaws OM Z Z om_cap om_repr}.
Context (CAPACITY : Z).
Abbreviation state := (t PL OM).
Abbreviation core := (core pl_repr om_repr CAPACITY).
Abbreviation levels := (levels pl_repr).
Implicit Types (s : state) (N L : list node) (o : Order.t) (i p : Z).

(** ** The price level *)

Lemma level_remove_here N1 i o N2 :
  level (Order.price o) (N1 ++ N2) = level (Order.price o) N1 ++ level (Order.price o) N2.
Proof. apply level_app. Qed.

Lemma total_zero_iff s N1 i o N2 gpl gom :
  core s (N1 ++ (i, o) :: N2) gpl gom →
  let total := u64 (Book.total (level (Order.price o) (N1 ++ (i, o) :: N2)).*2 - Order.quantity o) in
  total = Book.total (level (Order.price o) (N1 ++ N2)).*2 ∧
  (total = 0 ↔ level (Order.price o) (N1 ++ N2) = []).
Proof.
  intros Hc. rewrite !level_orders, total_split, decide_True by done. cbv zeta.
  pose proof (level_total_u64 _ _ _ _ _ _ _ (Order.price o) Hc) as Hu.
  destruct (valid_split _ _ _ _ (core_valid _ _ _ _ _ _ _ Hc)) as (Ho & Hv' & _).
  rewrite total_split, decide_True in Hu by done.
  assert (Forall Book.valid_order (Book.at_price (Order.price o) (N1 ++ N2).*2)) as Hf
    by (by apply Forall_filter_keep, Book.valid_orders).
  pose proof (Book.total_nonneg _ Hf). destruct Ho as ([_ [_ Hq]] & Hq0 & _).
  rewrite Z.add_simpl_r, uwrap_small by (unfold in_u in *; lia).
  split; [done|]. split.
  - intros Ht. destruct (level (Order.price o) (N1 ++ N2)) as [|n L] eqn:E; [done|exfalso].
    assert (Book.at_price (Order.price o) (N1 ++ N2).*2 ≠ []) as Hne by (rewrite <- level_orders, E; done).
    pose proof (Book.total_pos _ Hf Hne). lia.
  - intros Hnil. by rewrite <- level_orders, Hnil.
Qed.

(** Price sets and levels after removing [o]. *)
Lemma levels_remove s s1 N1 i o N2 gpl gpl' :
  levels s (N1 ++ (i, o) :: N2) gpl → pl_repr (price_levels s1) gpl' →
  Book.valid (N1 ++ (i, o) :: N2).*2 →
  gpl' !! Order.price o = level_value (level (Order.price o) (N1 ++ N2)) →
  (∀ p, p ≠ Order.price o → gpl' !! p = gpl !! p) →
  (∀ sd, side_set sd s1 =
     if decide (sd = Order.side o ∧ level (Order.price o) (N1 ++ N2) = [])
     then PriceSet.erase (Book.better sd) (Order.price o) (side_set sd s) else side_set sd s) →
  levels s1 (N1 ++ N2) gpl'.
Proof.
  intros Hl Hr Hv Hhere Hother Hset.
  pose proof (elem_split N1 i o N2) as Hin.
  split; [done|..].
  - intros p. destruct (decide (p = Order.price o)) as [->|Hp]; [done|].
    rewrite Hother, (lv_lookup _ _ _ _ Hl), level_other; done.
  - intros sd. rewrite Hset. case_decide; [apply PriceSet.sorted_erase; [apply _|]|]; apply Hl.
  - intros sd p. rewrite Hset.
    assert (p ∈ side_set sd s ↔ (∃ o', (o' = o ∨ o' ∈ (N1 ++ N2).*2) ∧ Order.side o' = sd ∧ Order.price o' = p))
      as Hels by (rewrite (lv_elem _ _ _ _ Hl); by setoid_rewrite Hin).
    case_decide as Hd.
    + destruct Hd as [-> Hnil]. rewrite (PriceSet.elem_erase _) by apply (lv_sorted _ _ _ _ Hl). rewrite Hels.
      rewrite level_nil in Hnil. naive_solver.
    + rewrite Hels. split; [|naive_solver]. intros (o' & [->|Ho'] & <- & <-); [|by exists o'].
      assert (level (Order.price o) (N1 ++ N2) ≠ []) as Hne by naive_solver.
      destruct (level (Order.price o) (N1 ++ N2)) as [|[j o2] L] eqn:E; [done|].
      assert ((j, o2) ∈ level (Order.price o) (N1 ++ N2)) as Hj by (rewrite E; by left).
      apply elem_level in Hj as [Hp Hj]. apply elem_index in Hj. simpl in Hp.
      exists o2. split_and!; [done| |done]. apply (Book.valid_sides _ Hv); [by apply Hin; right|by apply Hin; left|done].
Qed.

(** [detach] on a level that keeps some order. *)
Lemma detach_spec s1 N1 i o N2 gpl tot r :
  let p := Order.price o in
  let L1 := level p N1 in
  let L2 := level p N2 in
  OrderPool.inv CAPACITY (order_pool s1) (N1 ++ (i, o) :: N2).*1 →
  dseg (OrderPool.orders (order_pool s1)) NULL (level p (N1 ++ (i, o) :: N2)) NULL →
  pl_repr (price_levels s1)
    (<[p := {| head := first_index (level p (N1 ++ (i, o) :: N2)) NULL;
               tail := last_index (level p (N1 ++ (i, o) :: N2)) NULL; total_quantity := tot |}]> gpl) →
  RestingOrder.previous r = last_index L1 NULL → RestingOrder.next r = first_index L2 NULL →
  ∃ pool pl,
    detach s1 r p = Ok (set_levels pl (set_pool pool s1)) ∧
    OrderPool.inv CAPACITY pool (N1 ++ (i, o) :: N2).*1 ∧
    dseg (OrderPool.orders pool) NULL (level p (N1 ++ N2)) NULL ∧
    pl_repr pl (<[p := {| head := first_index (level p (N1 ++ N2)) NULL;
                          tail := last_index (level p (N1 ++ N2)) NULL; total_quantity := tot |}]> gpl) ∧
    (∀ j, 0 ≤ j → j ∉ (level p (N1 ++ N2)).*1 →
       OrderPool.orders pool !! Z.to_nat j = OrderPool.orders (order_pool s1) !! Z.to_nat j).
Proof.
  intros p L1 L2 Hinv Hd Hpl Hprev Hnext.
  unfold p in *. rewrite (level_here N1 i o N2) in *. fold L1 L2 in Hd, Hpl. rewrite level_app. fold L1 L2.
  pose proof (OrderPool.inv_NoDup _ _ _ Hinv) as Hnd.
  destruct (queue_unlink CAPACITY (order_pool s1) _ L1 i o L2 Hinv) as (Hpv & Hnx & p1 & p2 & Hu1 & Hu2 & Hinv2 & Hd2 & Hfr);
    [subst L1 L2; rewrite <- (level_here N1 i o N2); apply level_indices
    |subst L1 L2; rewrite <- (level_here N1 i o N2); by apply level_NoDup|done|].
  assert (∃ pl1,
    (if negb (last_index L1 NULL =? NULL) then Ok (price_levels s1)
     else ks_modify (price_levels s1) (Order.price o) (set_head (first_index L2 NULL))) = Ok pl1 ∧
    pl_repr pl1 (<[Order.price o := {| head := first_index (L1 ++ L2) NULL;
      tail := last_index (L1 ++ (i, o) :: L2) NULL; total_quantity := tot |}]> gpl)) as (pl1 & Hpl1 & Hr1).
  { destruct (Z.eqb_spec (last_index L1 NULL) NULL) as [Heq|Hne]; simpl.
    - apply Hpv in Heq. destruct (modify_twice _ _ _ _ _ _ (set_head (first_index L2 NULL)) Hpl) as (pl1 & -> & Hr).
      exists pl1. split; [done|]. rewrite Heq in *. exact Hr.
    - exists (price_levels s1). split; [done|]. destruct L1 as [|[]]; [by destruct Hne|]. exact Hpl. }
  assert (∃ pl2,
    (if negb (first_index L2 NULL =? NULL) then Ok pl1
     else ks_modify pl1 (Order.price o) (set_tail (last_index L1 NULL))) = Ok pl2 ∧
    pl_repr pl2 (<[Order.price o := {| head := first_index (L1 ++ L2) NULL;
      tail := last_index (L1 ++ L2) NULL; total_quantity := tot |}]> gpl)) as (pl2 & Hpl2 & Hr2).
  { destruct (Z.eqb_spec (first_index L2 NULL) NULL) as [Heq|Hne]; simpl.
    - apply Hnx in Heq. destruct (modify_twice _ _ _ _ _ _ (set_tail (last_index L1 NULL)) Hr1) as (pl2 & -> & Hr).
      exists pl2. split; [done|]. rewrite Heq in *. rewrite app_nil_r. unfold set_tail in Hr. simpl in Hr.
      by rewrite app_nil_r in Hr.
    - exists pl1. split; [done|]. rewrite last_index_app, last_index_cons in Hr1. rewrite last_index_app.
      destruct L2 as [|[j oj] L2']; [by destruct Hne|]. by rewrite last_index_cons in *. }
  exists p2, pl2. split_and!; [|done..]. unfold detach. rewrite Hprev, Hnext. fold L1 L2.
  destruct (negb (last_index L1 NULL =? NULL)); [rewrite Hu1|rewrite Hpl1]; simplify_eq/=;
    (destruct (negb (first_index L2 NULL =? NULL)); [rewrite Hu2|rewrite Hpl2]; simplify_eq/=; by destruct s1).
Qed.

(** The queues of the other prices survive writes to one queue. *)
Lemma queues_remove P P' N1 i o N2 p :
  NoDup (N1 ++ (i, o) :: N2).*1 → p ≠ Order.price o →
  (∀ j, 0 ≤ j → j ∉ (level (Order.price o) (N1 ++ N2)).*1 → P' !! Z.to_nat j = P !! Z.to_nat j) →
  dseg P NULL (level p (N1 ++ (i, o) :: N2)) NULL → dseg P' NULL (level p (N1 ++ N2)) NULL.
Proof.
  intros Hnd Hp Hfr. rewrite level_other by done. apply dseg_frame. intros j Hj Hin. apply Hfr; [done|].
  apply list_elem_of_fmap in Hin as ([j' oj] & -> & Hoj). apply elem_level in Hoj as [Hpj Hoj].
  simpl in Hpj. apply (not_in_other_level _ _ oj); [|done|congruence].
  rewrite fmap_app in *. simpl in Hnd. apply NoDup_app in Hnd as (? & Hd & [_ ?]%NoDup_cons).
  apply NoDup_app. split_and!; [done| |done]. intros k Hk Hk'. apply (Hd k Hk). by right.
Qed.

(** The first half of [purge_order]: the price level. *)
Lemma purge_level s N1 i o N2 gpl gom r :
  let p := Order.price o in
  core s (N1 ++ (i, o) :: N2) gpl gom →
  RestingOrder.previous r = last_index (level p N1) NULL →
  RestingOrder.next r = first_index (level p N2) NULL →
  ∃ s1 gpl',
    (∀ B (k : state → outcome B),
      (pl ← ks_modify (price_levels s) p (add_total (- Order.quantity o));
       price_level ← deref (ks_find pl p);
       s' ← (if total_quantity price_level =? 0 then
               let '(_, pl) := ks_remove pl p in Ok (remove_bid_or_offer o (set_levels pl s))
             else detach (set_levels pl s) r p);
       k s') = k s1) ∧
    levels s1 (N1 ++ N2) gpl' ∧
    OrderPool.inv CAPACITY (order_pool s1) (N1 ++ (i, o) :: N2).*1 ∧
    (∀ q, dseg (OrderPool.orders (order_pool s1)) NULL (level q (N1 ++ N2)) NULL) ∧
    order_map s1 = order_map s ∧ bbo s1 = bbo s.
Proof.
  intros p Hc Hprev Hnext. unfold p in *.
  assert (level (Order.price o) (N1 ++ (i, o) :: N2) ≠ []) as Hne.
  { rewrite level_here. by destruct (level (Order.price o) N1). }
  destruct (modify_level _ _ s _ _ _ (add_total (- Order.quantity o)) (core_levels _ _ _ _ _ _ _ Hc) Hne)
    as (pl & Hmod & Hpl).
  pose proof (total_zero_iff s N1 i o N2 gpl gom Hc) as [Htot Hzero].
  pose proof (core_valid _ _ _ _ _ _ _ Hc) as Hv. pose proof (core_NoDup _ _ _ _ _ _ _ Hc) as Hnd.
  pose proof (core_queues _ _ _ _ _ _ _ Hc) as Hq.
  destruct (decide (level (Order.price o) (N1 ++ N2) = [])) as [Hnil|Hkeep].
  - destruct (ks_remove_spec pl _ (Order.price o) Hpl) as (pl' & Hrem & Hpl').
    exists (remove_bid_or_offer o (set_levels pl' s)), (delete (Order.price o) gpl).
    assert (order_pool (remove_bid_or_offer o (set_levels pl' s)) = order_pool s) as Hpool
      by (unfold remove_bid_or_offer; by destruct (Order.side o)).
    rewrite Hpool.
    split_and!; try (unfold remove_bid_or_offer; by destruct (Order.side o)).
    + intros B k. rewrite Hmod. simpl. rewrite (find_inserted _ _ _ _ _ _ Hpl). simpl.
      rewrite Z.add_opp_r, (proj2 (Z.eqb_eq _ _)) by (by apply Hzero). by rewrite Hrem.
    + rewrite delete_insert_eq in Hpl'. eapply (levels_remove s); [apply Hc| |done| | |].
      * unfold remove_bid_or_offer. destruct (Order.side o); exact Hpl'.
      * rewrite lookup_delete_eq. by rewrite Hnil.
      * intros q Hqp. by rewrite lookup_delete_ne.
      * intros sd. rewrite Hnil. unfold remove_bid_or_offer. by destruct (Order.side o), sd.
    + apply Hc.
    + intros q. destruct (decide (q = Order.price o)) as [->|Hqp]; [by rewrite Hnil|].
      by rewrite <- (level_other q _ i o).
  - destruct (detach_spec (set_levels pl s) N1 i o N2 gpl
      (u64 (Book.total (level (Order.price o) (N1 ++ (i, o) :: N2)).*2 - Order.quantity o)) r)
      as (pool & pl' & Hdet & Hinv & Hdseg & Hpl' & Hfr); [apply Hc|apply Hq| |done|done|].
    { unfold the_level, add_total in Hpl. rewrite Z.add_opp_r in Hpl. exact Hpl. }
    exists (set_levels pl' (set_pool pool (set_levels pl s))); eexists.
    split_and!; [|eapply (levels_remove s); [apply Hc|exact Hpl'|done| | |]|exact Hinv| |done..].
    + intros B k. rewrite Hmod. simpl. rewrite (find_inserted _ _ _ _ _ _ Hpl). simpl.
      rewrite Z.add_opp_r, (proj2 (Z.eqb_neq _ _)) by (by intros ?%Hzero). by rewrite Hdet.
    + rewrite lookup_insert_eq, level_value_ne by done. by rewrite Htot.
    + intros q Hqp. by rewrite lookup_insert_ne.
    + intros sd. rewrite decide_False by naive_solver. by destruct sd.
    + intros q. destruct (decide (q = Order.price o)) as [->|Hqp]; [done|].
      eapply queues_remove; [exact Hnd|done|exact Hfr|apply Hq].
Qed.

Lemma om_remove s N1 i o N2 gpl gom :
  core s (N1 ++ (i, o) :: N2) gpl gom →
  ∀ id j, delete (Order.order_id o) gom !! id = Some j ↔ ∃ o', (j, o') ∈ N1 ++ N2 ∧ Order.order_id o' = id.
Proof.
  intros Hc id j. destruct (valid_split _ _ _ _ (core_valid _ _ _ _ _ _ _ Hc)) as (_ & _ & Hfresh).
  rewrite lookup_delete. case_decide as Hid; subst.
  - split; [done|]. intros (o' & Hin & Hid). destruct Hfresh. rewrite <- Hid.
    by eapply list_elem_of_fmap_2, elem_index.
  - rewrite (core_om_lookup _ _ _ _ _ _ _ Hc). split; intros (o' & Hin & Hid'); exists o';
      (split; [|done]); set_solver.
Qed.

Lemma core_set_bbo b s N gpl gom : core s N gpl gom → core (set_bbo b s) N gpl gom.
Proof. intros [? ? ? ? Hl ?]. split; try done. by destruct Hl. Qed.

(** [purge_order] takes the order out of every structure; the cache is what
    [update_bbo_reduce] makes of it. *)
Lemma purge_core s N1 i o N2 gpl gom r :
  let p := Order.price o in
  core s (N1 ++ (i, o) :: N2) gpl gom →
  RestingOrder.order r = o →
  RestingOrder.previous r = last_index (level p N1) NULL →
  RestingOrder.next r = first_index (level p N2) NULL →
  ∃ s1 s2 gpl' gom',
    levels s1 (N1 ++ N2) gpl' ∧ bbo s1 = bbo s ∧ core s2 (N1 ++ N2) gpl' gom' ∧
    ∀ b u, update_bbo_reduce s1 o = Ok (set_bbo b s1, u) →
      purge_order s i r = Ok (set_bbo b s2, u).
Proof.
  intros p Hc Ho Hprev Hnext.
  destruct (purge_level s N1 i o N2 gpl gom r Hc Hprev Hnext)
    as (s1 & gpl' & Hrun & Hl & Hinv & Hq & Hmap & Hbbo).
  destruct (ks_remove_spec (order_map s) gom (Order.order_id o)) as (om & Hrem & Hom); [apply Hc|].
  destruct (OrderPool.free_spec CAPACITY (order_pool s1) (N1 ++ N2).*1 i) as (pool & Hfree & Hinv' & Hord).
  { eapply OrderPool.inv_Permutation; [|exact Hinv]. rewrite !fmap_app. simpl.
    by rewrite <- Permutation_middle. }
  exists (set_map om s1), (set_pool pool (set_map om s1)), gpl', (delete (Order.order_id o) gom).
  split_and!; [by destruct Hl|done| |].
  - split; [done|exact Hom|by eapply om_remove| |by destruct Hl|].
    + intros q. simpl. rewrite Hord. apply Hq.
    + by destruct (valid_split _ _ _ _ (core_valid _ _ _ _ _ _ _ Hc)) as (_ & ? & _).
  - intros b u Hred. unfold purge_order. cbv zeta. rewrite Ho, Hrun, Hmap, Hrem, Hred. simpl.
    by rewrite Hfree.
Qed.
End Purge.
