(* ===== verification/BookResize.v ===== *)
(** * Changing the quantity of a resting order

    The structural half of a partial [trade] and of [update_quantity]: the
    level total and the node change, every link stays. *)

From Stdlib Require Import Sorted.
From S2P Require Import Prelude Types Interfaces OrderPool OrderQueue PriceSet OrderBook BookSpec BookRep BookOps BookCache BookPurge.
Import BookState.

Section Facts.
Implicit Types (N : list node) (o : Order.t) (i p q : Z).

Lemma valid_total_u64 os p : Forall Book.valid_order os → Z.of_nat (length os) ≤ 2 ^ 32 →
  in_u 64 (Book.total (Book.at_price p os)).
Proof.
  intros Hv Hl.
  assert (Forall Book.valid_order (Book.at_price p os)) as Hv' by (by apply Forall_filter_keep).
  split; [by apply Book.total_nonneg|]. pose proof (Book.total_bound _ Hv') as Hb.
  assert (length (Book.at_price p os) ≤ length os)%nat as Hle by apply length_filter.
  change (2 ^ 64) with (2 ^ 32 * 2 ^ 32).
  assert (Forall (λ x, x ≤ 2 ^ 32 - 1) (Order.quantity <$> Book.at_price p os)) as Hq.
  { apply Forall_fmap. eapply Forall_impl; [done|]. intros o [(_ & _ & Hq) _].
    unfold in_u in Hq. simpl. lia. }
  apply zsum_le_bound in Hq. rewrite length_fmap in Hq. unfold Book.total in *. nia.
Qed.

Lemma valid_resized o q : Book.valid_order o → 0 < q < 2 ^ 32 → Book.valid_order (Order.set_quantity q o).
Proof. unfold Book.valid_order, Order.wf, in_u. simpl. intros ([? [? ?]] & ? & ?) ?.
  split_and!; try done; lia.
Qed.

Lemma valid_resize N1 i o N2 q : Book.valid (N1 ++ (i, o) :: N2).*2 → 0 < q < 2 ^ 32 →
  Book.valid (N1 ++ (i, Order.set_quantity q o) :: N2).*2.
Proof.
  rewrite !split_orders. intros [Hv Hid Hsd] Hq. apply Forall_app in Hv as [Hv1 Hv].
  apply Forall_cons in Hv as [Ho Hv2]. split.
  - apply Forall_app. split; [done|]. constructor; [by apply valid_resized|done].
  - rewrite fmap_app, fmap_cons in *. done.
  - assert (∀ a, a ∈ N1.*2 ++ Order.set_quantity q o :: N2.*2 →
      ∃ b, b ∈ N1.*2 ++ o :: N2.*2 ∧ Order.price b = Order.price a ∧ Order.side b = Order.side a) as Hex.
    { intros a. rewrite elem_of_app, elem_of_cons. intros [|[->|]]; [exists a|exists o|exists a]; set_solver. }
    intros a b (a' & Ha & <- & <-)%Hex (b' & Hb & <- & <-)%Hex. by apply Hsd.
Qed.

Lemma level_resize_here N1 i o N2 q :
  level (Order.price o) (N1 ++ (i, Order.set_quantity q o) :: N2) =
  level (Order.price o) N1 ++ (i, Order.set_quantity q o) :: level (Order.price o) N2.
Proof. apply (level_here N1 i (Order.set_quantity q o) N2). Qed.

Lemma level_resize_other p N1 i o N2 q : p ≠ Order.price o →
  level p (N1 ++ (i, Order.set_quantity q o) :: N2) = level p (N1 ++ (i, o) :: N2).
Proof. intros Hp. rewrite !level_other by done. done. Qed.

Lemma total_resize N1 i o N2 q p :
  Book.total (Book.at_price p (N1 ++ (i, Order.set_quantity q o) :: N2).*2) =
  Book.total (Book.at_price p (N1 ++ (i, o) :: N2).*2) +
    (if decide (Order.price o = p) then q - Order.quantity o else 0).
Proof. rewrite !total_split. simpl. case_decide; lia. Qed.

Lemma pairs_resize N1 i o N2 q sd p :
  (∃ o', o' ∈ (N1 ++ (i, Order.set_quantity q o) :: N2).*2 ∧ Order.side o' = sd ∧ Order.price o' = p) ↔
  (∃ o', o' ∈ (N1 ++ (i, o) :: N2).*2 ∧ Order.side o' = sd ∧ Order.price o' = p).
Proof.
  setoid_rewrite elem_split. split; intros (o' & [->|Ho'] & <- & <-).
  - exists o. auto.
  - exists o'. auto.
  - exists (Order.set_quantity q o). auto.
  - exists o'. auto.
Qed.

End Facts.

Section Resize.
Context {PL OM : Type} {pl_ops : KeyedStore PL Z PriceLevel} {om_ops : KeyedStore OM Z Z}.
Context (pl_cap om_cap : Z) (pl_repr : PL → gmap Z PriceLevel → Prop) (om_repr : OM → gmap Z Z → Prop).
Context {pl_laws : KeyedStoreLaws PL Z PriceLevel pl_cap pl_repr}.
Context {om_laws : KeyedStoreLaws OM Z Z om_cap om_repr}.
Context (CAPACITY : Z).
Abbreviation state := (t PL OM).
Abbreviation core := (core pl_repr om_repr CAPACITY).
Abbreviation levels := (levels pl_repr).
Implicit Types (s : state) (N L : list node) (o : Order.t) (i p q d : Z).

Lemma level_value_resize s N1 i o N2 gpl gom q :
  core s (N1 ++ (i, o) :: N2) gpl gom → 0 < q < 2 ^ 32 →
  level_value (level (Order.price o) (N1 ++ (i, Order.set_quantity q o) :: N2)) =
  Some (add_total (q - Order.quantity o) (the_level (Order.price o) (N1 ++ (i, o) :: N2))).
Proof.
  intros Hc Hq. rewrite level_value_ne.
  2:{ rewrite level_resize_here. by destruct (level (Order.price o) N1). }
  unfold add_total, the_level. simpl. f_equal. f_equal.
  - rewrite level_resize_here, level_here. by destruct (level (Order.price o) N1).
  - rewrite level_resize_here, level_here, !last_index_app. by rewrite !last_index_cons.
  - rewrite !level_orders, total_resize, decide_True by done. symmetry. apply uwrap_small.
    replace (_ + _) with
      (Book.total (Book.at_price (Order.price o) (N1 ++ (i, Order.set_quantity q o) :: N2).*2))
      by (rewrite total_resize, decide_True by done; done).
    apply valid_total_u64; [apply Book.valid_orders, valid_resize; [apply Hc|done]|].
    pose proof (core_length _ _ _ _ _ _ _ Hc) as Hl. rewrite !length_app in Hl. simpl in Hl.
    rewrite length_fmap, length_app. simpl. lia.
Qed.

(** Change the quantity of [o] to [q]; the node passes through a value [marked]
    that only the cache update reads. *)
Lemma resize_core s N1 i o N2 gpl gom q marked :
  let p := Order.price o in
  let N' := N1 ++ (i, Order.set_quantity q o) :: N2 in
  core s (N1 ++ (i, o) :: N2) gpl gom → 0 < q < 2 ^ 32 →
  ∃ pl pool1 pool2 gpl',
    ks_modify (price_levels s) p (add_total (q - Order.quantity o)) = Ok pl ∧
    OrderPool.update (order_pool s) i (RestingOrder.set_order marked) = Ok pool1 ∧
    OrderPool.update pool1 i (RestingOrder.set_order (Order.set_quantity q o)) = Ok pool2 ∧
    levels (set_pool pool1 (set_levels pl s)) N' gpl' ∧
    core (set_pool pool2 (set_levels pl s)) N' gpl' gom.
Proof.
  intros p N' Hc Hq. unfold p, N' in *.
  pose proof (core_NoDup _ _ _ _ _ _ _ Hc) as Hnd. pose proof (core_pool _ _ _ _ _ _ _ Hc) as Hinv.
  destruct (core_find _ _ _ _ _ _ _ _ _ _ _ _ Hc) as [_ Hget].
  assert (i ∈ (N1 ++ (i, o) :: N2).*1) as Hi by (rewrite fmap_app; set_solver).
  destruct (modify_level _ _ s _ _ (Order.price o) (add_total (q - Order.quantity o))
    (core_levels _ _ _ _ _ _ _ Hc)) as (pl & Hmod & Hpl).
  { rewrite level_here. by destruct (level (Order.price o) N1). }
  destruct (OrderPool.update_spec CAPACITY _ _ i _ (RestingOrder.set_order marked) Hinv Hi Hget)
    as (pool1 & Hu1 & Hinv1 & Ho1).
  pose proof (OrderPool.inv_range _ _ _ _ Hinv Hi) as Hir. pose proof (OrderPool.inv_orders _ _ _ Hinv) as Hlen.
  assert (OrderPool.get pool1 i = Ok (RestingOrder.set_order marked {| RestingOrder.order := o;
      RestingOrder.previous := last_index (level (Order.price o) N1) NULL;
      RestingOrder.next := first_index (level (Order.price o) N2) NULL |})) as Hget1.
  { apply OrderPool.get_Ok. split; [lia|]. rewrite Ho1. apply list_lookup_insert_eq. lia. }
  destruct (OrderPool.update_spec CAPACITY _ _ i _ (RestingOrder.set_order (Order.set_quantity q o))
    Hinv1 Hi Hget1) as (pool2 & Hu2 & Hinv2 & Ho2).
  rewrite Ho1, list_insert_insert_eq in Ho2.
  exists pl, pool1, pool2; eexists. split_and!; [done..| |].
  all: assert (levels (set_pool pool1 (set_levels pl s)) (N1 ++ (i, Order.set_quantity q o) :: N2)
    (<[Order.price o := add_total (q - Order.quantity o) (the_level (Order.price o) (N1 ++ (i, o) :: N2))]> gpl))
    as Hl; [|try exact Hl].
  1, 2: split; [exact Hpl| |intros sd; by apply (lv_sorted _ _ _ _ (core_levels _ _ _ _ _ _ _ Hc))
    |intros sd p'; rewrite pairs_resize; apply (lv_elem _ _ _ _ (core_levels _ _ _ _ _ _ _ Hc))].
  1, 2: intros p'; rewrite lookup_insert; case_decide; subst;
    [symmetry; by eapply level_value_resize|
     rewrite level_resize_other by done; apply (lv_lookup _ _ _ _ (core_levels _ _ _ _ _ _ _ Hc))].
  split; [..|by destruct Hl|apply valid_resize; [apply Hc|done]].
  - rewrite fmap_app in *. exact Hinv2.
  - apply Hc.
  - intros id j. rewrite (core_om_lookup _ _ _ _ _ _ _ Hc).
    split; intros (o' & Hin & <-); apply elem_of_app in Hin as [Hin|[[= -> ->]|Hin]%elem_of_cons].
    all: try (exists o'; split; [set_solver|done]).
    + exists (Order.set_quantity q o). split; [set_solver|done].
    + exists o. split; [set_solver|done].
  - intros p'. simpl. rewrite Ho2. pose proof (core_queues _ _ _ _ _ _ _ Hc p') as Hd.
    destruct (decide (p' = Order.price o)) as [->|Hp].
    + rewrite level_resize_here. rewrite level_here in Hd.
      apply (dseg_set_order _ _ _ _ _ _ _ (Order.set_quantity q o)) in Hd; [exact Hd| |lia].
      rewrite <- (level_here N1 i o N2). by apply level_NoDup.
    + rewrite level_resize_other by done. apply dseg_insert; [lia| |done].
      apply (not_in_other_level _ _ o); [done|set_solver|done].
Qed.
End Resize.
