(* ===== verification/BookRefine.v ===== *)
(** * BookState implements the abstract book

    [rep s os]: the structures of [s] hold exactly the orders [os].
    [Rep s os]: in addition the cached best bid and offer are those of [os].
    Adding, cancelling and trading preserve [Rep] and report the right change;
    [update_quantity] preserves [rep] only. *)

From Stdlib Require Import Sorted.
From S2P Require Import Prelude Types Interfaces OrderPool OrderQueue PriceSet OrderBook BookSpec BookRep BookOps BookCache BookPurge BookResize.
Import BookState.

(** ** The abstract operations at a position *)

Section Positions.
Implicit Types (os : list Order.t) (o : Order.t) (id q : Z).

Lemma find_Some id os o : Book.find id os = Some o → o ∈ os ∧ Order.order_id o = id.
Proof.
  unfold Book.find. intros [Hin Heq]%List.find_some. split; [by apply list_elem_of_In|]. lia.
Qed.

Lemma find_None id os : Book.find id os = None ↔ id ∉ Order.order_id <$> os.
Proof.
  unfold Book.find. induction os as [|o os IH]; simpl; [set_solver|].
  rewrite not_elem_of_cons. destruct (Z.eqb_spec (Order.order_id o) id) as [->|Hne]; [naive_solver|].
  rewrite IH. naive_solver.
Qed.

Lemma find_unique os o : NoDup (Order.order_id <$> os) → o ∈ os → Book.find (Order.order_id o) os = Some o.
Proof.
  unfold Book.find. intros Hnd. induction os as [|o' os IH]; [set_solver|]. simpl.
  rewrite fmap_cons in Hnd. apply NoDup_cons in Hnd as [Hn Hnd].
  intros [->|Ho]%elem_of_cons; [by rewrite Z.eqb_refl|].
  destruct (Z.eqb_spec (Order.order_id o') (Order.order_id o)) as [Heq|]; [|by apply IH].
  destruct Hn. rewrite Heq. by apply list_elem_of_fmap_2.
Qed.

Lemma remove_here id os1 o os2 : NoDup (Order.order_id <$> os1 ++ o :: os2) → Order.order_id o = id →
  Book.remove id (os1 ++ o :: os2) = os1 ++ os2.
Proof.
  intros Hnd <-. unfold Book.remove. rewrite filter_app, filter_cons_False by naive_solver.
  rewrite fmap_app, fmap_cons in Hnd. apply NoDup_app in Hnd as (_ & Hd & [Hn _]%NoDup_cons).
  assert (∀ os, (Order.order_id o ∉ Order.order_id <$> os) →
    filter (λ o', Order.order_id o' ≠ Order.order_id o) os = os) as Hid.
  { induction os as [|a os IH]; [done|]. rewrite fmap_cons, not_elem_of_cons. intros [??].
    rewrite filter_cons_True by done. by rewrite IH. }
  rewrite !Hid; [done|done|]. intros Hin. apply (Hd _ Hin). by left.
Qed.

Lemma set_quantity_here id q os1 o os2 :
  NoDup (Order.order_id <$> os1 ++ o :: os2) → Order.order_id o = id →
  Book.set_quantity id q (os1 ++ o :: os2) = os1 ++ Order.set_quantity q o :: os2.
Proof.
  intros Hnd <-. unfold Book.set_quantity. rewrite fmap_app, fmap_cons, Z.eqb_refl.
  rewrite fmap_app, fmap_cons in Hnd. apply NoDup_app in Hnd as (_ & Hd & [Hn _]%NoDup_cons).
  assert (∀ os, (Order.order_id o ∉ Order.order_id <$> os) →
    (λ o', if Order.order_id o' =? Order.order_id o then Order.set_quantity q o' else o') <$> os = os) as Hid.
  { induction os as [|a os IH]; [done|]. rewrite !fmap_cons, not_elem_of_cons. intros [??].
    destruct (Z.eqb_spec (Order.order_id a) (Order.order_id o)); [congruence|]. by rewrite IH. }
  rewrite !Hid; [done|done|]. intros Hin. apply (Hd _ Hin). by left.
Qed.

(** The abstract [first_best] finds a head of the best level. *)
Lemma first_best_level sd (N : list node) p : Book.valid N.*2 → Book.best sd N.*2 = Some p →
  ∃ i o L, level p N = (i, o) :: L ∧ Book.first_best sd N.*2 = Some o ∧
    Order.price o = p ∧ Order.side o = sd.
Proof.
  intros Hv Hb. unfold Book.first_best. rewrite Hb. simpl.
  assert (filter (λ o, Order.side o = sd ∧ Order.price o = p) N.*2 = (level p N).*2) as ->.
  { rewrite level_orders. unfold Book.at_price. apply filter_ext_in. intros o Ho.
    split; [naive_solver|]. intros Hp. split; [|done]. by eapply best_price_of. }
  destruct (level p N) as [|[i o] L] eqn:E.
  - apply Book.best_Some in Hb as [(o & Ho & _ & Hp) _]. rewrite level_nil in E. by destruct (E o).
  - assert ((i, o) ∈ level p N) as Hin by (rewrite E; by left).
    apply elem_level in Hin as [Hp Hin]. simpl in Hp.
    exists i, o, L. split_and!; [done..|]. eapply best_price_of; [done|done| |done].
    by eapply elem_index.
Qed.
End Positions.

Section Refine.
Context {PL OM : Type} {pl_ops : KeyedStore PL Z PriceLevel} {om_ops : KeyedStore OM Z Z}.
Context (pl_cap om_cap : Z) (pl_repr : PL → gmap Z PriceLevel → Prop) (om_repr : OM → gmap Z Z → Prop).
Context {pl_laws : KeyedStoreLaws PL Z PriceLevel pl_cap pl_repr}.
Context {om_laws : KeyedStoreLaws OM Z Z om_cap om_repr}.
Context (CAPACITY : Z).
Abbreviation state := (t PL OM).
Abbreviation core := (core pl_repr om_repr CAPACITY).
Implicit Types (s : state) (N : list node) (o : Order.t) (os : list Order.t) (i p q : Z) (e : MarketEvent.t).

Definition rep s os : Prop := ∃ N gpl gom, core s N gpl gom ∧ N.*2 = os.
Definition Rep s os : Prop := rep s os ∧ bbo s = Book.bbo_of os.

Lemma rep_valid s os : rep s os → Book.valid os.
Proof. intros (N & gpl & gom & Hc & <-). apply Hc. Qed.

Lemma rep_length s os : rep s os → Z.of_nat (length os) ≤ CAPACITY.
Proof.
  intros (N & gpl & gom & Hc & <-). rewrite length_fmap.
  pose proof (core_length _ _ _ _ _ _ _ Hc). lia.
Qed.

Lemma rep_set_bbo b s os : rep s os → rep (set_bbo b s) os.
Proof.
  intros (N & gpl & gom & Hc & Heq). exists N, gpl, gom. split; [|done]. by apply core_set_bbo.
Qed.

Lemma init_Rep pl om : 0 ≤ CAPACITY < 2 ^ 32 → pl_repr pl ∅ → om_repr om ∅ → Rep (init CAPACITY pl om) [].
Proof.
  intros Hcap Hpl Hom. split; [|done]. exists [], ∅, ∅. split; [|done].
  split; simpl; [by apply OrderPool.pool_init_inv|done| |done| |].
  - intros id i. split; [done|]. intros (? & ? & _). set_solver.
  - split; simpl; [done|done|intros sd; destruct sd; constructor|].
    intros sd p. destruct sd; simpl; set_solver.
  - split; [done|constructor|set_solver].
Qed.

(** The pool node of an order among its neighbours. *)
Definition linked N1 o N2 : RestingOrder.t :=
  {| RestingOrder.order := o;
     RestingOrder.previous := last_index (level (Order.price o) N1) NULL;
     RestingOrder.next := first_index (level (Order.price o) N2) NULL |}.

(** Locate an order by id. *)
Lemma locate s os id o : rep s os → Book.find id os = Some o →
  ∃ N1 i N2 gpl gom,
    core s (N1 ++ (i, o) :: N2) gpl gom ∧ os = (N1 ++ (i, o) :: N2).*2 ∧ Order.order_id o = id ∧
    NoDup (Order.order_id <$> N1.*2 ++ o :: N2.*2) ∧
    ks_find (order_map s) id = Some i ∧
    OrderPool.get (order_pool s) i = Ok (linked N1 o N2).
Proof.
  intros (N & gpl & gom & Hc & <-) [Ho Hid]%find_Some.
  apply list_elem_of_fmap in Ho as ([i o'] & Heq & Hin). simpl in Heq. subst o'.
  apply list_elem_of_split in Hin as (N1 & N2 & ->).
  destruct (core_find _ _ _ _ _ _ _ _ _ _ _ _ Hc) as [Hf Hg]. rewrite Hid in Hf.
  pose proof (Book.valid_ids _ (core_valid _ _ _ _ _ _ _ Hc)) as Hnd. rewrite split_orders in Hnd.
  exists N1, i, N2, gpl, gom. split_and!; done.
Qed.

Lemma unknown_id s os id : rep s os → Book.find id os = None → ks_find (order_map s) id = None.
Proof.
  intros (N & gpl & gom & Hc & <-) Hnone. rewrite (ks_find_spec _ _ _ (core_om _ _ _ _ _ _ _ Hc)).
  apply eq_None_not_Some. intros [j Hj]. apply (core_om_lookup _ _ _ _ _ _ _ Hc) in Hj as (o & Hin & Hid).
  rewrite find_None in Hnone. apply Hnone. rewrite <- Hid. by eapply list_elem_of_fmap_2, elem_index.
Qed.

Lemma order_exists_spec s os id : rep s os → order_exists s id = bool_decide (is_Some (Book.find id os)).
Proof.
  intros Hr. unfold order_exists. apply bool_decide_ext.
  destruct (Book.find id os) as [o|] eqn:Hf.
  - destruct (locate _ _ _ _ Hr Hf) as (? & ? & ? & ? & ? & _ & _ & _ & _ & -> & _).
    split; intros _; by eexists.
  - rewrite (unknown_id _ _ _ Hr Hf). by split; intros ?%is_Some_None.
Qed.

(** ** The best resting order *)

Definition no_order (sd : Side.t) : Order.t :=
  {| Order.order_id := Order.INVALID_ORDER_ID; Order.price := Book.no_price sd;
     Order.quantity := 0; Order.side := sd |}.

(** The two copies of [best_opposing_order]. *)
Lemma best_opposing_order_eq s side :
  best_opposing_order s side =
    let sd := Book.opposite side in
    let best := price (Book.info sd (bbo s)) in
    if best =? Book.no_price sd then Ok (no_order sd)
    else level ← deref (ks_find (price_levels s) best);
         node ← OrderPool.get (order_pool s) (head level);
         let o := RestingOrder.order node in
         Ok {| Order.order_id := Order.order_id o; Order.price := best;
               Order.quantity := Order.quantity o; Order.side := sd |}.
Proof. unfold best_opposing_order. by destruct side. Qed.

Lemma best_opposing_correct s os side : Rep s os →
  best_opposing_order s side =
    Ok match Book.first_best (Book.opposite side) os with
       | Some o => o
       | None => no_order (Book.opposite side)
       end.
Proof.
  intros [(N & gpl & gom & Hc & <-) Hbbo]. rewrite best_opposing_order_eq. cbv zeta.
  set (sd := Book.opposite side). rewrite Hbbo, info_bbo_of. unfold Book.best_info.
  pose proof (core_valid _ _ _ _ _ _ _ Hc) as Hv.
  destruct (Book.best sd N.*2) as [p|] eqn:Hb; simpl.
  - pose proof (best_valid _ _ _ (Book.valid_orders _ Hv) Hb) as Hp.
    replace (p =? Book.no_price sd) with false by (destruct sd; simpl; lia).
    destruct (first_best_level sd N p Hv Hb) as (i & o & L & Hlev & -> & Hpo & Hso).
    rewrite (find_level _ _ _ _ _ p (core_levels _ _ _ _ _ _ _ Hc)), Hlev. simpl.
    pose proof (core_queues _ _ _ _ _ _ _ Hc p) as Hd. rewrite Hlev in Hd.
    destruct Hd as [Hn _]. apply OrderPool.get_Ok in Hn. rewrite Hn. simpl. f_equal.
    destruct o; simpl in *; congruence.
  - rewrite Z.eqb_refl. unfold Book.first_best. by rewrite Hb.
Qed.

(** ** Operations *)

Lemma add_Rep s os e :
  let o := MarketEvent.order e in
  Rep s os → can_add o os → level_room pl_cap (Order.price o) os →
  Z.of_nat (length os) < CAPACITY → CAPACITY ≤ om_cap →
  ∃ s', add s e = Ok (s', add_report o os) ∧ Rep s' (Book.add o os).
Proof.
  intros o [(N & gpl & gom & Hc & <-) Hbbo] Hcan Hroom Hlen Hcap. rewrite length_fmap in Hlen.
  destruct (add_core _ _ _ _ _ s N gpl gom e Hc Hcan Hroom Hlen Hcap)
    as (s1 & i & gpl' & gom' & -> & Hb & Hc').
  rewrite (bbo_add_correct s1 N.*2); [|by rewrite Hb|apply Hc|done].
  eexists. split; [done|]. split; [|done]. apply rep_set_bbo.
  exists (N ++ [(i, o)]), gpl', gom'. split; [done|]. by rewrite fmap_app.
Qed.

Lemma purge_rep s N1 i o N2 gpl gom :
  let r := linked N1 o N2 in
  core s (N1 ++ (i, o) :: N2) gpl gom →
  (∃ s' u, purge_order s i r = Ok (s', u) ∧ rep s' (N1 ++ N2).*2) ∧
  (bbo s = Book.bbo_of (N1 ++ (i, o) :: N2).*2 →
   ∃ s', purge_order s i r =
      Ok (s', reduce_report (Order.side o) (Order.price o) (N1 ++ (i, o) :: N2).*2) ∧
    Rep s' (N1 ++ N2).*2).
Proof.
  intros r Hc. pose proof (core_valid _ _ _ _ _ _ _ Hc) as Hv.
  destruct (valid_split _ _ _ _ Hv) as (([_ [_ Hq]] & _ & _) & Hv' & _).
  destruct (purge_core _ _ _ _ _ s N1 i o N2 gpl gom r Hc eq_refl eq_refl eq_refl)
    as (s1 & s2 & gpl' & gom' & Hl & Hb1 & Hc2 & Hrun).
  assert (rep s2 (N1 ++ N2).*2) as Hrep by (by exists (N1 ++ N2), gpl', gom').
  split.
  - pose proof (update_bbo_reduce_eq _ _ s1 _ _ o Hl) as Hred. cbv zeta in Hred.
    destruct (_ && _); [|destruct (_ =? _)].
    + eexists _, _. split; [by eapply Hrun|by apply rep_set_bbo].
    + eexists _, _. split; [by eapply Hrun|by apply rep_set_bbo].
    + rewrite <- (set_bbo_id s1) in Hred at 2.
      eexists _, _. split; [by eapply Hrun|by apply rep_set_bbo].
  - intros Hbbo. eexists. split.
    + apply Hrun. eapply (bbo_reduce_correct pl_cap pl_repr); [exact Hl|by rewrite Hb1|done|done|done|].
      by apply reduced_purge.
    + split; [by apply rep_set_bbo|done].
Qed.

Lemma cancel_Rep s os id o : Rep s os → Book.find id os = Some o →
  ∃ s', cancel_id s id = Ok (s', reduce_report (Order.side o) (Order.price o) os) ∧
    Rep s' (Book.cancel id os).
Proof.
  intros [Hrep Hbbo] Hf.
  destruct (locate _ _ _ _ Hrep Hf) as (N1 & i & N2 & gpl & gom & Hc & Hos & Hid & Hnd & Hmap & Hget).
  unfold cancel_id, Book.cancel. rewrite Hmap. simpl. rewrite Hget. simpl. subst os.
  rewrite split_orders, remove_here by done.
  destruct (purge_rep s N1 i o N2 gpl gom Hc) as [_ Hp].
  destruct (Hp Hbbo) as (s' & Hrun & HR). rewrite split_orders in Hrun. rewrite (fmap_app snd) in HR.
  by exists s'.
Qed.

Lemma reduced_resize N1 i o N2 q : Book.valid (N1 ++ (i, o) :: N2).*2 →
  reduced (Order.side o) (Order.price o) (Order.quantity o - q)
    (N1 ++ (i, o) :: N2).*2 (N1 ++ (i, Order.set_quantity q o) :: N2).*2.
Proof.
  intros Hv. split.
  - intros sd p _. symmetry. apply pairs_resize.
  - exists o. rewrite elem_split. auto.
  - intros o' Ho' Hp. apply elem_split in Ho' as [->|Ho']; [done|].
    apply (Book.valid_sides _ Hv); [apply elem_split; by right|apply elem_split; by left|done].
  - rewrite total_resize, decide_True by done. lia.
  - intros p Hp. rewrite total_resize, decide_False by congruence. lia.
Qed.

Lemma trade_Rep s os id o q : Rep s os → Book.find id os = Some o → 0 < q ≤ Order.quantity o →
  ∃ s', trade_id s id q = Ok (s', reduce_report (Order.side o) (Order.price o) os) ∧
    Rep s' (Book.trade id q os).
Proof.
  intros [Hrep Hbbo] Hf Hq.
  destruct (locate _ _ _ _ Hrep Hf) as (N1 & i & N2 & gpl & gom & Hc & Hos & Hid & Hnd & Hmap & Hget).
  pose proof (core_valid _ _ _ _ _ _ _ Hc) as Hv.
  destruct (valid_split _ _ _ _ Hv) as (([_ [_ Hoq]] & _ & _) & _ & _). unfold in_u in Hoq.
  unfold trade_id, Book.trade. rewrite Hmap. simpl. rewrite Hget, Hf. simpl. subst os.
  destruct (Z.eqb_spec (Order.quantity o) q) as [Heq|Hne].
  - rewrite split_orders, remove_here by done.
    destruct (purge_rep s N1 i o N2 gpl gom Hc) as [_ Hp].
    destruct (Hp Hbbo) as (s' & Hrun & HR). rewrite split_orders in Hrun. rewrite (fmap_app snd) in HR.
    by exists s'.
  - rewrite (uwrap_small 32) by (unfold in_u; lia).
    rewrite !split_orders, set_quantity_here by done. rewrite <- !(split_orders _ i).
    destruct (resize_core _ _ _ _ _ s N1 i o N2 gpl gom (Order.quantity o - q)
      (Order.set_quantity q o) Hc ltac:(lia)) as (pl & pool1 & pool2 & gpl' & Hm & Hu1 & Hu2 & Hl & Hc').
    replace (Order.quantity o - q - Order.quantity o) with (- q) in Hm by lia.
    rewrite Hm. simpl. rewrite Hu1. simpl.
    rewrite (bbo_reduce_correct _ _ _ _ _ (N1 ++ (i, o) :: N2).*2 _ Hl Hbbo Hv); simpl.
    + rewrite Hu2. simpl. eexists. split; [done|]. split; [|done].
      exists (N1 ++ (i, Order.set_quantity (Order.quantity o - q) o) :: N2), gpl', gom. split; [|done].
      exact (core_set_bbo _ _ _ _ _ _ _ _ Hc').
    + apply Hc'.
    + unfold in_u. lia.
    + replace q with (Order.quantity o - (Order.quantity o - q)) at 1 by lia. by apply reduced_resize.
Qed.
End Refine.
