(* ===== verification/BookUpdate.v ===== *)
(** * [update_quantity]

    The structures follow every update; the cached best bid or offer does not.
    [update_quantity] hands a reduction to [update_bbo_add] and an increase to
    [update_bbo_reduce]. *)

From Stdlib Require Import Sorted.
From S2P Require Import Prelude Types Interfaces OrderPool OrderQueue PriceSet OrderBook BookSpec BookRep BookOps BookCache BookPurge BookResize BookRefine.
Import BookState.

Section Update.
Context {PL OM : Type} {pl_ops : KeyedStore PL Z PriceLevel} {om_ops : KeyedStore OM Z Z}.
Context (pl_cap om_cap : Z) (pl_repr : PL → gmap Z PriceLevel → Prop) (om_repr : OM → gmap Z Z → Prop).
Context {pl_laws : KeyedStoreLaws PL Z PriceLevel pl_cap pl_repr}.
Context {om_laws : KeyedStoreLaws OM Z Z om_cap om_repr}.
Context (CAPACITY : Z).
Abbreviation state := (t PL OM).
Abbreviation core := (core pl_repr om_repr CAPACITY).
Abbreviation rep := (rep pl_repr om_repr CAPACITY).
Abbreviation Rep := (Rep pl_repr om_repr CAPACITY).
Implicit Types (s : state) (N : list node) (o : Order.t) (os : list Order.t) (i p q : Z).

(** What the code does to the cache when the quantity of [o] becomes [q]: the
    cached quantity moves by the change with the wrong sign, except that an
    increase by exactly the cached quantity re-reads the level, whose new total
    is [total]. *)
Definition updated_info (o : Order.t) (q total : Z) (b : BestOrderInfo) : BestOrderInfo :=
  if Order.price o =? price b then
    if q <? Order.quantity o then {| price := price b; quantity := u32 (quantity b + (Order.quantity o - q)) |}
    else if q - Order.quantity o =? quantity b then {| price := price b; quantity := u32 total |}
    else {| price := price b; quantity := u32 (quantity b - (q - Order.quantity o)) |}
  else b.

(** One update of a resting order, to a positive quantity. *)
Lemma update_located s N1 i o N2 gpl gom q :
  core s (N1 ++ (i, o) :: N2) gpl gom →
  ks_find (order_map s) (Order.order_id o) = Some i →
  OrderPool.get (order_pool s) i = Ok (linked N1 o N2) →
  0 < q < 2 ^ 32 →
  ∃ s1 s2 gpl',
    levels pl_repr s1 (N1 ++ (i, Order.set_quantity q o) :: N2) gpl' ∧ bbo s1 = bbo s ∧
    core s2 (N1 ++ (i, Order.set_quantity q o) :: N2) gpl' gom ∧
    (q < Order.quantity o → ∀ b u,
       update_bbo_add s1 (Order.set_quantity (Order.quantity o - q) o) = (set_bbo b s1, u) →
       update_quantity s (Order.order_id o) q = Ok (set_bbo b s2, u)) ∧
    (Order.quantity o ≤ q → ∀ b u,
       update_bbo_reduce s1 (Order.set_quantity (q - Order.quantity o) o) = Ok (set_bbo b s1, u) →
       update_quantity s (Order.order_id o) q = Ok (set_bbo b s2, u)).
Proof.
  intros Hc Hmap Hget Hq.
  pose proof (core_valid _ _ _ _ _ _ _ Hc) as Hv.
  destruct (valid_split _ _ _ _ Hv) as (([_ [_ Hoq]] & Hoq0 & _) & _ & _). unfold in_u in Hoq.
  set (marked := Order.set_quantity
    (if q <? Order.quantity o then Order.quantity o - q else q - Order.quantity o) o).
  destruct (resize_core _ _ _ _ _ s N1 i o N2 gpl gom q marked Hc Hq)
    as (pl & pool1 & pool2 & gpl' & Hm & Hu1 & Hu2 & Hl & Hc').
  exists (set_pool pool1 (set_levels pl s)), (set_pool pool2 (set_levels pl s)), gpl'.
  split_and!; [done..| |].
  - intros Hlt b u Hadd. unfold update_quantity. rewrite Hmap. simpl. rewrite Hget. simpl.
    unfold marked in *. rewrite (proj2 (Z.ltb_lt _ _) Hlt) in *.
    rewrite (proj2 (Z.eqb_neq q 0)) by lia. rewrite uwrap_small by (unfold in_u; lia).
    replace (- (Order.quantity o - q)) with (q - Order.quantity o) by lia.
    rewrite Hm. simpl. rewrite Hu1. simpl. rewrite Hadd. simpl. by rewrite Hu2.
  - intros Hge b u Hred. unfold update_quantity. rewrite Hmap. simpl. rewrite Hget. simpl.
    unfold marked in *. rewrite (proj2 (Z.ltb_ge _ _) Hge) in *.
    rewrite (proj2 (Z.eqb_neq q 0)) by lia. rewrite uwrap_small by (unfold in_u; lia).
    rewrite Hm. simpl. rewrite Hu1. simpl. rewrite Hred. simpl. by rewrite Hu2.
Qed.

(** The structures always follow; in a state with a right cache the new cache
    is [updated_info]. *)
Lemma best_resize sd N1 i o N2 q : 
  Book.best sd (N1 ++ (i, Order.set_quantity q o) :: N2).*2 = Book.best sd (N1 ++ (i, o) :: N2).*2.
Proof. apply best_ext. intros p. apply pairs_resize. Qed.

Lemma set_info_id sd (x : OrderSnapshot) : set_info sd (Book.info sd x) x = x.
Proof. destruct x. by destruct sd. Qed.

(** The two cache updates, in one form. *)
Lemma update_bbo_add_form s o :
  let sd := Order.side o in
  let b := Book.info sd (bbo s) in
  Book.better sd (Order.price o) (price b) = false →
  update_bbo_add s o =
    (set_bbo (set_info sd
       (if Order.price o =? price b then {| price := price b; quantity := u32 (quantity b + Order.quantity o) |}
        else b) (bbo s)) s,
     if Order.price o =? price b then Book.new_best sd else NoChange).
Proof.
  intros sd b Hnb. rewrite update_bbo_add_eq. fold sd b. cbv zeta. rewrite Hnb.
  destruct (_ =? _); [done|]. unfold b. by rewrite set_info_id, set_bbo_id.
Qed.

Lemma update_bbo_reduce_form s N gpl o : levels pl_repr s N gpl →
  let sd := Order.side o in
  let b := Book.info sd (bbo s) in
  update_bbo_reduce s o = Ok
    (set_bbo (set_info sd
       (if Order.price o =? price b then
          if Order.quantity o =? quantity b then Book.best_info sd N.*2
          else {| price := price b; quantity := u32 (quantity b - Order.quantity o) |}
        else b) (bbo s)) s,
     if Order.price o =? price b then Book.new_best sd else NoChange).
Proof.
  intros Hl sd b. rewrite (update_bbo_reduce_eq _ _ s N gpl o Hl). fold sd b. cbv zeta.
  destruct (Order.price o =? price b); simpl; [by destruct (_ =? _)|].
  unfold b. by rewrite set_info_id, set_bbo_id.
Qed.

(** The price of a resting order is never better than the cached best. *)
Lemma resting_not_better os o s : bbo s = Book.bbo_of os → o ∈ os →
  ∃ p, Book.best (Order.side o) os = Some p ∧
    Book.info (Order.side o) (bbo s) = {| price := p; quantity := u32 (Book.total (Book.at_price p os)) |} ∧
    Book.better (Order.side o) (Order.price o) p = false.
Proof.
  intros Hbbo Ho. rewrite Hbbo, info_bbo_of. unfold Book.best_info.
  destruct (Book.best (Order.side o) os) as [p|] eqn:Hb.
  - exists p. split_and!; [done..|]. apply Book.best_Some in Hb as [_ Hmin]. by apply Hmin.
  - rewrite Book.best_None in Hb. by destruct (Hb o).
Qed.

Lemma update_bbo_add_set s o : ∃ b u, update_bbo_add s o = (set_bbo b s, u).
Proof.
  rewrite update_bbo_add_eq. cbv zeta. destruct (Book.better _ _ _); [eauto|]. destruct (_ =? _); [eauto|].
  exists (bbo s), NoChange. by rewrite set_bbo_id.
Qed.

(** Whatever the cache holds, the structures follow every operation. *)
Lemma add_rep s os e :
  let o := MarketEvent.order e in
  rep s os → can_add o os → level_room pl_cap (Order.price o) os →
  Z.of_nat (length os) < CAPACITY → CAPACITY ≤ om_cap →
  ∃ s' u, add s e = Ok (s', u) ∧ rep s' (Book.add o os).
Proof.
  intros o (N & gpl & gom & Hc & <-) Hcan Hroom Hlen Hcap. rewrite length_fmap in Hlen.
  destruct (add_core _ _ _ _ _ s N gpl gom e Hc Hcan Hroom Hlen Hcap)
    as (s1 & i & gpl' & gom' & -> & Hb & Hc').
  destruct (update_bbo_add_set s1 o) as (b & u & Hu). fold o. rewrite Hu. eexists _, _. split; [done|].
  apply rep_set_bbo. exists (N ++ [(i, o)]), gpl', gom'. split; [done|]. by rewrite fmap_app.
Qed.

Lemma purge_find_rep s os id o : rep s os → Book.find id os = Some o →
  ∃ i r s' u, ks_find (order_map s) id = Some i ∧ OrderPool.get (order_pool s) i = Ok r ∧
    RestingOrder.order r = o ∧ purge_order s i r = Ok (s', u) ∧ rep s' (Book.remove id os).
Proof.
  intros Hrep Hf.
  destruct (locate _ _ _ _ _ _ _ _ _ Hrep Hf) as (N1 & i & N2 & gpl & gom & Hc & -> & Hid & Hnd & Hmap & Hget).
  destruct (purge_rep _ _ _ _ _ s N1 i o N2 gpl gom Hc) as [(s' & u & Hrun & HR) _].
  rewrite split_orders, remove_here by done. rewrite (fmap_app snd) in HR.
  by exists i, (linked N1 o N2), s', u.
Qed.

Lemma cancel_rep s os id o : rep s os → Book.find id os = Some o →
  ∃ s' u, cancel_id s id = Ok (s', u) ∧ rep s' (Book.cancel id os).
Proof.
  intros Hrep Hf. destruct (purge_find_rep s os id o Hrep Hf) as (i & r & s' & u & Hm & Hg & _ & Hp & HR).
  unfold cancel_id. rewrite Hm. simpl. rewrite Hg. simpl. by exists s', u.
Qed.

Lemma trade_rep s os id o q : rep s os → Book.find id os = Some o → 0 < q ≤ Order.quantity o →
  ∃ s' u, trade_id s id q = Ok (s', u) ∧ rep s' (Book.trade id q os).
Proof.
  intros Hrep Hf Hq. unfold Book.trade, trade_id. rewrite Hf.
  destruct (Z.eqb_spec (Order.quantity o) q) as [Heq|Hne].
  { destruct (purge_find_rep s os id o Hrep Hf) as (i & r & s' & u & -> & Hg & Hr & Hp & HR). simpl.
    rewrite Hg. simpl. rewrite Hr, Heq, Z.eqb_refl. by exists s', u. }
  destruct (locate _ _ _ _ _ _ _ _ _ Hrep Hf) as (N1 & i & N2 & gpl & gom & Hc & -> & Hid & Hnd & Hmap & Hget).
  rewrite Hmap. simpl. rewrite Hget. simpl. rewrite (proj2 (Z.eqb_neq _ _) Hne).
  destruct (valid_split _ _ _ _ (core_valid _ _ _ _ _ _ _ Hc)) as (([_ [_ Hoq]] & _) & _ & _). unfold in_u in Hoq.
  rewrite (uwrap_small 32) by (unfold in_u; lia).
  destruct (resize_core _ _ _ _ _ s N1 i o N2 gpl gom (Order.quantity o - q)
    (Order.set_quantity q o) Hc ltac:(lia)) as (pl & pool1 & pool2 & gpl' & Hm & Hu1 & Hu2 & Hl & Hc').
  replace (Order.quantity o - q - Order.quantity o) with (- q) in Hm by lia.
  rewrite Hm. simpl. rewrite Hu1. simpl. rewrite (update_bbo_reduce_form _ _ _ _ Hl). simpl. rewrite Hu2. simpl.
  eexists _, _. split; [done|].
  exists (N1 ++ (i, Order.set_quantity (Order.quantity o - q) o) :: N2), gpl', gom. split.
  - exact (core_set_bbo _ _ _ _ _ _ _ _ Hc').
  - by rewrite !split_orders, set_quantity_here.
Qed.

Lemma update_rep s os id o q : rep s os → Book.find id os = Some o → 0 ≤ q < 2 ^ 32 →
  ∃ s' u, update_quantity s id q = Ok (s', u) ∧ rep s' (Book.update id q os).
Proof.
  intros Hrep Hf Hq. unfold Book.update. destruct (Z.eqb_spec q 0) as [->|Hq0].
  { destruct (purge_find_rep s os id o Hrep Hf) as (i & r & s' & u & Hm & Hg & _ & Hp & HR).
    unfold update_quantity. rewrite Hm. simpl. rewrite Hg. simpl. by exists s', u. }
  destruct (locate _ _ _ _ _ _ _ _ _ Hrep Hf) as (N1 & i & N2 & gpl & gom & Hc & -> & <- & Hnd & Hmap & Hget).
  destruct (update_located s N1 i o N2 gpl gom q Hc Hmap Hget ltac:(lia))
    as (s1 & s2 & gpl' & Hl & Hb1 & Hc2 & Hadd & Hred).
  rewrite split_orders, set_quantity_here, <- (split_orders _ i) by done.
  assert (∀ b, rep (set_bbo b s2) (N1 ++ (i, Order.set_quantity q o) :: N2).*2) as Hset.
  { intros b. apply rep_set_bbo. by eexists _, gpl', gom. }
  destruct (Z.ltb_spec q (Order.quantity o)) as [Hlt|Hge].
  - destruct (update_bbo_add_set s1 (Order.set_quantity (Order.quantity o - q) o)) as (b & u & Hu).
    eexists _, _. split; [by eapply Hadd|]. apply Hset.
  - eexists _, _. split; [apply Hred; [done|exact (update_bbo_reduce_form s1 _ _ _ Hl)]|]. apply Hset.
Qed.

(** From a right cache, the new cache is [updated_info]. *)
Lemma update_cache_located s N1 i o N2 gpl gom q :
  let os := (N1 ++ (i, o) :: N2).*2 in
  let os' := (N1 ++ (i, Order.set_quantity q o) :: N2).*2 in
  core s (N1 ++ (i, o) :: N2) gpl gom →
  ks_find (order_map s) (Order.order_id o) = Some i →
  OrderPool.get (order_pool s) i = Ok (linked N1 o N2) →
  0 < q < 2 ^ 32 → bbo s = Book.bbo_of os →
  ∃ s', update_quantity s (Order.order_id o) q =
      Ok (s', reduce_report (Order.side o) (Order.price o) os) ∧ rep s' os' ∧
    bbo s' = set_info (Order.side o)
      (updated_info o q (Book.total (Book.at_price (Order.price o) os')) (Book.info (Order.side o) (bbo s))) (bbo s).
Proof.
  intros os os' Hc Hmap Hget Hq Hbbo.
  destruct (resting_not_better os o s Hbbo ltac:(apply elem_split; by left)) as (p & Hb & Hbp & Hnb).
  destruct (update_located s N1 i o N2 gpl gom q Hc Hmap Hget Hq)
    as (s1 & s2 & gpl' & Hl & Hb1 & Hc2 & Hadd & Hred).
  assert (∀ b, rep (set_bbo b s2) os') as Hset.
  { intros b. apply rep_set_bbo. by eexists _, gpl', gom. }
  unfold reduce_report. rewrite Hb. unfold updated_info. rewrite Hbp. simpl.
  destruct (Z.ltb_spec q (Order.quantity o)) as [Hlt|Hge]; eexists.
  - split; [apply Hadd; [done|]|split; [apply Hset|done]].
    rewrite update_bbo_add_form; simpl; rewrite Hb1, Hbp; simpl; [|done].
    f_equal. destruct (Z.eqb_spec (Order.price o) p) as [->|?]; case_decide; congruence.
  - split; [apply Hred; [done|]|split; [apply Hset|done]].
    rewrite (update_bbo_reduce_form _ _ _ _ Hl). simpl. rewrite Hb1, Hbp. simpl. f_equal. f_equal.
    + destruct (Z.eqb_spec (Order.price o) p) as [Hp|?]; [|done].
      unfold Book.best_info. fold os'. unfold os'. rewrite best_resize. fold os. rewrite Hb.
      by rewrite Hp.
    + destruct (Z.eqb_spec (Order.price o) p) as [->|?]; case_decide; congruence.
Qed.

(** An update that does not touch the best price keeps the cache right. *)
Lemma update_other_Rep s os id o q : Rep s os → Book.find id os = Some o → 0 < q < 2 ^ 32 →
  Book.best (Order.side o) os ≠ Some (Order.price o) →
  ∃ s', update_quantity s id q = Ok (s', NoChange) ∧ Rep s' (Book.update id q os).
Proof.
  intros [Hrep Hbbo] Hf Hq Hother.
  destruct (locate _ _ _ _ _ _ _ _ _ Hrep Hf) as (N1 & i & N2 & gpl & gom & Hc & Hos & Hid & Hnd & Hmap & Hget).
  unfold Book.update. rewrite (proj2 (Z.eqb_neq q 0)) by lia. subst os id.
  assert (Book.set_quantity (Order.order_id o) q (N1 ++ (i, o) :: N2).*2 =
    (N1 ++ (i, Order.set_quantity q o) :: N2).*2) as -> by (by rewrite !split_orders, set_quantity_here).
  pose proof (core_valid _ _ _ _ _ _ _ Hc) as Hv.
  destruct (update_cache_located s N1 i o N2 gpl gom q Hc Hmap Hget Hq Hbbo) as (s' & Hrun & HR & Hb').
  unfold reduce_report in Hrun. rewrite decide_False in Hrun by done.
  exists s'. split; [done|]. split; [done|]. rewrite Hb', Hbbo.
  apply set_info_bbo_of.
  - rewrite info_bbo_of. unfold updated_info, Book.best_info.
    rewrite best_resize. destruct (Book.best (Order.side o) (N1 ++ (i, o) :: N2).*2) as [p|] eqn:Hb; simpl.
    + rewrite (proj2 (Z.eqb_neq _ _)) by congruence.
      by rewrite total_resize, decide_False, Z.add_0_r by congruence.
    + rewrite Book.best_None in Hb. destruct (Hb o); [|done]. apply elem_split. by left.
  - eapply reduced_info_other; [exact Hv|]. by apply reduced_resize.
Qed.
End Update.
