(* ===== verification/BookTrace.v ===== *)
(** * Event sequences applied to a BookState

    The exchange and every strategy process run the same [execute] on the same
    event stream.  The theorems here say what the book is after a stream. *)

From S2P Require Import Prelude Types Interfaces HashMap OrderPool OrderQueue PriceSet OrderBook BookSpec BookRep BookOps BookCache BookPurge BookResize BookRefine BookUpdate.
Import BookState.

#[global] Instance can_add_dec o os : Decision (can_add o os).
Proof.
  unfold can_add. refine (and_dec _ _).
  refine (cast_if (decide ((Order.order_id o ∉ Order.order_id <$> os) ∧
    Forall (λ o', Order.price o' = Order.price o → Order.side o' = Order.side o) os)));
    rewrite <- Forall_forall; done.
Defined.
#[global] Instance level_room_dec cap p os : Decision (level_room cap p os).
Proof. unfold level_room. apply _. Defined.

Section Trace.
Context (pl_cap CAPACITY : Z).
Implicit Types (os : list Order.t) (e : MarketEvent.t) (es : list MarketEvent.t).

(** ** The abstract book under an event *)

(** The orders after an event; [None] when the event breaks the contract of the
    book: a repeated or unknown id, an invalid order, a fill larger than the
    order, or no room. *)
Definition next_orders e os : option (list Order.t) :=
  let o := MarketEvent.order e in
  let id := Order.order_id o in
  let q := Order.quantity o in
  match MarketEvent.type e with
  | MarketEvent.Add =>
      if decide (can_add o os ∧ level_room pl_cap (Order.price o) os ∧ Z.of_nat (length os) < CAPACITY)
      then Some (Book.add o os) else None
  | MarketEvent.Cancel => _ ← Book.find id os; Some (Book.cancel id os)
  | MarketEvent.Trade =>
      r ← Book.find id os;
      if decide (0 < q ≤ Order.quantity r) then Some (Book.trade id q os) else None
  | MarketEvent.Update =>
      _ ← Book.find id os;
      if decide (0 ≤ q < 2 ^ 32) then Some (Book.update id q os) else None
  end.

(** The reported change; [None] for an update of an order at the best price to
    a positive quantity, after which the cache is wrong. *)
Definition report e os : option Update :=
  let o := MarketEvent.order e in
  let id := Order.order_id o in
  let reduced := r ← Book.find id os; Some (reduce_report (Order.side r) (Order.price r) os) in
  match MarketEvent.type e with
  | MarketEvent.Add => Some (add_report o os)
  | MarketEvent.Cancel | MarketEvent.Trade => reduced
  | MarketEvent.Update =>
      if decide (Order.quantity o = 0) then reduced
      else r ← Book.find id os;
           if decide (Book.best (Order.side r) os = Some (Order.price r)) then None else Some NoChange
  end.

Fixpoint spec_run (es : list MarketEvent.t) os : option (list Order.t * list Update) :=
  match es with
  | [] => Some (os, [])
  | e :: es => os' ← next_orders e os; u ← report e os; '(os'', us) ← spec_run es os'; Some (os'', u :: us)
  end.

Fixpoint orders_after (es : list MarketEvent.t) os : option (list Order.t) :=
  match es with [] => Some os | e :: es => os' ← next_orders e os; orders_after es os' end.

Section Concrete.
Context {PL OM : Type} {pl_ops : KeyedStore PL Z PriceLevel} {om_ops : KeyedStore OM Z Z}.
Context (om_cap : Z) (pl_repr : PL → gmap Z PriceLevel → Prop) (om_repr : OM → gmap Z Z → Prop).
Context {pl_laws : KeyedStoreLaws PL Z PriceLevel pl_cap pl_repr}.
Context {om_laws : KeyedStoreLaws OM Z Z om_cap om_repr}.
Abbreviation state := (t PL OM).
Abbreviation rep := (rep pl_repr om_repr CAPACITY).
Abbreviation Rep := (Rep pl_repr om_repr CAPACITY).
Implicit Types (s : state).

(** Executing a stream of events. *)
Fixpoint run (es : list MarketEvent.t) s : outcome (state * list Update) :=
  match es with
  | [] => Ok (s, [])
  | e :: es => '(s, u) ← execute s e; '(s, us) ← run es s; Ok (s, u :: us)
  end.

Lemma execute_Rep s os e os' u : CAPACITY ≤ om_cap →
  Rep s os → next_orders e os = Some os' → report e os = Some u →
  ∃ s', execute s e = Ok (s', u) ∧ Rep s' os'.
Proof.
  intros Hcap HR Hn Hu. unfold execute, next_orders, report in *.
  destruct (MarketEvent.type e).
  - case_decide as Hd; [|done]. destruct Hd as (? & ? & ?). simplify_eq. by eapply add_Rep.
  - destruct (Book.find _ os) as [o|] eqn:Hf; [|done]. simplify_eq/=. by eapply cancel_Rep.
  - destruct (Book.find _ os) as [o|] eqn:Hf; [|done]. simplify_eq/=.
    destruct (decide (0 < _ ≤ _)); simplify_eq. by eapply trade_Rep.
  - destruct (Book.find _ os) as [o|] eqn:Hf; [|done]. simplify_eq/=.
    destruct (decide (0 ≤ _ < _)); simplify_eq. unfold update.
    destruct (decide (Order.quantity (MarketEvent.order e) = 0)) as [Hq|Hq]; simplify_eq.
    + rewrite Hq. destruct (cancel_Rep _ _ _ _ _ _ _ _ _ HR Hf) as (s' & Hc & HR').
      unfold cancel_id in Hc. by exists s'.
    + destruct (decide (Book.best _ _ = _)); simplify_eq.
      apply (update_other_Rep pl_cap om_cap _ _ CAPACITY s os _ _ _ HR Hf); [lia|done].
Qed.

Lemma execute_rep s os e os' : CAPACITY ≤ om_cap → rep s os → next_orders e os = Some os' →
  ∃ s' u, execute s e = Ok (s', u) ∧ rep s' os'.
Proof.
  intros Hcap HR Hn. unfold execute, next_orders in *.
  destruct (MarketEvent.type e).
  1: case_decide as Hd; [|done]; destruct Hd as (? & ? & ?); simplify_eq; by eapply add_rep.
  all: destruct (Book.find _ os) as [o|] eqn:Hf; simplify_eq/=; repeat case_decide; simplify_eq.
  - by eapply cancel_rep.
  - by eapply trade_rep.
  - by eapply update_rep.
Qed.

Lemma run_Rep es s os os' us : CAPACITY ≤ om_cap → Rep s os → spec_run es os = Some (os', us) →
  ∃ s', run es s = Ok (s', us) ∧ Rep s' os'.
Proof.
  intros Hcap. revert s os us. induction es as [|e es IH]; intros s os us HR; simpl; [naive_solver|].
  destruct (next_orders e os) as [os1|] eqn:Hn; simpl; [|done].
  destruct (report e os) as [u|] eqn:Hu; simpl; [|done].
  destruct (spec_run es os1) as [[os2 us2]|] eqn:Hr; simpl; [|done]. intros [= -> <-].
  destruct (execute_Rep s os e os1 u Hcap HR Hn Hu) as (s1 & -> & HR1). simpl.
  destruct (IH s1 os1 us2 HR1 Hr) as (s2 & -> & HR2). by exists s2.
Qed.
End Concrete.
End Trace.

(** ** What an update report says *)

Section Reports.
Context {PL OM : Type} {pl_ops : KeyedStore PL Z PriceLevel} {om_ops : KeyedStore OM Z Z}.
Abbreviation state := (t PL OM).
Implicit Types (s : state).

(** [u] describes the difference of two snapshots: the other side is unchanged. *)
Definition report_describes (u : Update) (b b' : OrderSnapshot) : Prop :=
  match u with
  | NoChange => b' = b
  | NewBestBid => best_offer b' = best_offer b
  | NewBestOffer => best_bid b' = best_bid b
  end.

Lemma update_bbo_add_describes s o s' u :
  update_bbo_add s o = (s', u) → report_describes u (bbo s) (bbo s').
Proof.
  unfold update_bbo_add, update_best_bid_add, update_best_offer_add. intros H.
  destruct (Order.side o); repeat case_match; simplify_eq; done.
Qed.

Lemma update_bbo_reduce_describes s o s' u :
  update_bbo_reduce s o = Ok (s', u) → report_describes u (bbo s) (bbo s').
Proof.
  unfold update_bbo_reduce, update_best_bid_reduce, update_best_offer_reduce. intros H.
  destruct (Order.side o); repeat (outcome_step H); simplify_eq; done.
Qed.

Lemma detach_bbo s r p s' : detach s r p = Ok s' → bbo s' = bbo s.
Proof. unfold detach. intros H. outcome_all; done. Qed.

Lemma remove_bid_or_offer_bbo o s : bbo (remove_bid_or_offer o s) = bbo s.
Proof. unfold remove_bid_or_offer. by destruct (Order.side o). Qed.

Lemma add_bid_or_offer_bbo o s : bbo (add_bid_or_offer o s) = bbo s.
Proof. unfold add_bid_or_offer. by destruct (Order.side o). Qed.

Lemma purge_order_describes s i r s' u :
  purge_order s i r = Ok (s', u) → report_describes u (bbo s) (bbo s').
Proof.
  unfold purge_order. intros H.
  outcome_step H. outcome_step H. outcome_step H.
  assert (bbo a1 = bbo s) as <-.
  { destruct (_ =? 0); [destruct (ks_remove a _); simplify_eq; by rewrite remove_bid_or_offer_bbo|].
    match goal with H : detach _ _ _ = _ |- _ => by apply detach_bbo in H end. }
  destruct (ks_remove (order_map a1) _) as [b om]. clear E1. outcome_all.
  by match goal with H : update_bbo_reduce _ _ = _ |- _ => apply update_bbo_reduce_describes in H end.
Qed.

Lemma execute_describes s e s' u :
  execute s e = Ok (s', u) → report_describes u (bbo s) (bbo s').
Proof.
  unfold execute, add, cancel, trade, update, cancel_id, trade_id, update_quantity. intros H.
  destruct (MarketEvent.type e).
  - outcome_all;
      match goal with H : update_bbo_add _ _ = _ |- _ =>
        apply update_bbo_add_describes in H; by rewrite ?add_bid_or_offer_bbo in H end.
  - outcome_all. by eapply purge_order_describes.
  - outcome_all; [by eapply purge_order_describes|].
    by match goal with H : update_bbo_reduce _ _ = _ |- _ => apply update_bbo_reduce_describes in H end.
  - outcome_all; [by eapply purge_order_describes| |].
    + by match goal with H : update_bbo_add _ _ = _ |- _ => apply update_bbo_add_describes in H end.
    + by match goal with H : update_bbo_reduce _ _ = _ |- _ => apply update_bbo_reduce_describes in H end.
Qed.
End Reports.
