(* ===== verification/HashedBook.v ===== *)
(** * The book of the program

    [BookState] over the two [ClosedHashMap]s it is declared with, for any hash
    functions and any capacities that pass the static assertions.  These are
    the properties of the book as its clients see it. *)

From S2P Require Import Prelude Types Interfaces HashMap OrderPool OrderQueue PriceSet OrderBook BookSpec BookRep BookOps BookCache BookPurge BookResize BookRefine BookUpdate BookTrace.
Import BookState.

Section HashedBook.
Context (hash_price hash_id : Z → Z) (LEVELS ORDERS : Z).
Context {HL : PowerOfTwo (LEVELS * 2)} {HO : PowerOfTwo (ORDERS * 2)}.
Implicit Types (es : list MarketEvent.t) (os : list Order.t) (us : list Update) (side : Side.t).

Definition hashed_book : Type := t (ClosedHashMap.t Z PriceLevel) (ClosedHashMap.t Z Z).

(** [ClosedHashMap<Order::Price, PriceLevel, MAX_PRICE_LEVELS * 2>] and
    [ClosedHashMap<Order::ID, RestingOrder::Index, MAX_CONCURRENT_ORDERS * 2>]. *)
Definition level_store : KeyedStore (ClosedHashMap.t Z PriceLevel) Z PriceLevel :=
  ClosedHashMap.keyed_store hash_price (LEVELS * 2).
Definition order_store : KeyedStore (ClosedHashMap.t Z Z) Z Z :=
  ClosedHashMap.keyed_store hash_id (ORDERS * 2).
#[local] Existing Instance level_store.
#[local] Existing Instance order_store.

Definition empty_book : hashed_book :=
  init ORDERS (ClosedHashMap.init (LEVELS * 2)) (ClosedHashMap.init (ORDERS * 2)).

#[local] Instance level_store_laws :
  KeyedStoreLaws (ClosedHashMap.t Z PriceLevel) Z PriceLevel (LEVELS * 2)
    (ClosedHashMap.repr hash_price (LEVELS * 2)).
Proof. apply ClosedHashMap.keyed_store_laws; done. Qed.
#[local] Instance order_store_laws :
  KeyedStoreLaws (ClosedHashMap.t Z Z) Z Z (ORDERS * 2) (ClosedHashMap.repr hash_id (ORDERS * 2)).
Proof. apply ClosedHashMap.keyed_store_laws; done. Qed.

Definition book_rep (s : hashed_book) os : Prop :=
  rep (ClosedHashMap.repr hash_price (LEVELS * 2)) (ClosedHashMap.repr hash_id (ORDERS * 2)) ORDERS s os.
Definition book_Rep (s : hashed_book) os : Prop :=
  Rep (ClosedHashMap.repr hash_price (LEVELS * 2)) (ClosedHashMap.repr hash_id (ORDERS * 2)) ORDERS s os.

Lemma empty_book_Rep : ORDERS < 2 ^ 32 → book_Rep empty_book [].
Proof.
  intros Hcap. apply (init_Rep _ _ _ _ ORDERS); [|apply ClosedHashMap.init_repr..].
  pose proof (pot_pos (c := ORDERS * 2)). lia.
Qed.

(** Events the contract of the book allows, with the reports it gives; and the
    orders left by any such stream, updates of the best price included. *)
Definition book_spec es : option (list Order.t * list Update) := spec_run (LEVELS * 2) ORDERS es [].
Definition book_orders es : option (list Order.t) := orders_after (LEVELS * 2) ORDERS es [].
Definition book_run es : outcome (hashed_book * list Update) := run es empty_book.

Lemma orders_cap : ORDERS ≤ ORDERS * 2.
Proof. pose proof (pot_pos (c := ORDERS * 2)). lia. Qed.

Lemma run_rep es s os os' : book_rep s os → orders_after (LEVELS * 2) ORDERS es os = Some os' →
  ∃ s' us, run es s = Ok (s', us) ∧ book_rep s' os'.
Proof.
  revert s os. induction es as [|e es IH]; intros s os HR; simpl; [intros [= <-]; by exists s, []|].
  destruct (next_orders _ _ e os) as [os1|] eqn:Hn; simpl; [|done]. intros Hr.
  destruct (execute_rep _ _ (ORDERS * 2) _ _ s os e os1 orders_cap HR Hn) as (s1 & u & -> & HR1). simpl.
  destruct (IH s1 os1 HR1 Hr) as (s2 & us & -> & HR2). by exists s2, (u :: us).
Qed.

(** C1: [BookState] refines the list of resting orders.  For all hash functions
    and capacities, after any stream of events that respects the contract of
    the book (fresh ids, existing targets, fills no larger than the order, room)
    and updates no order at a best price to a positive quantity, every
    operation has succeeded and reported the right [Update]; the cached best bid
    and offer are the best prices of the orders left, with their total
    quantities modulo [2^32]; [best_opposing_order] is the order of the best
    price that arrived first; and [order_exists] decides membership. *)
Theorem book_state_refines_book es os us :
  ORDERS < 2 ^ 32 → book_spec es = Some (os, us) →
  ∃ s, book_run es = Ok (s, us) ∧
    snapshot s = Book.bbo_of os ∧
    (∀ side, best_opposing_order s side =
       Ok (match Book.first_best (Book.opposite side) os with
           | Some o => o
           | None => no_order (Book.opposite side)
           end)) ∧
    (∀ id, order_exists s id = bool_decide (is_Some (Book.find id os))).
Proof.
  intros Hcap Hs.
  destruct (run_Rep _ _ (ORDERS * 2) _ _ es empty_book [] os us orders_cap (empty_book_Rep Hcap) Hs)
    as (s & Hrun & HR).
  exists s. split_and!; [done|by apply HR| |].
  - intros side. apply (best_opposing_correct _ _ _ ORDERS s os side HR).
  - intros id. apply (order_exists_spec _ _ _ _ ORDERS s os id (proj1 HR)).
Qed.

(** C13: quantity updates never corrupt the book's structure, whatever they do to
    the cached best prices.  After any stream that respects the contract, with
    arbitrary updates, every operation has succeeded, the pool, the two maps,
    the price sets and the queues represent exactly the orders left in time
    order, [order_exists] is right, and an operation on an unknown id
    dereferences an empty optional. *)
Theorem book_structure_survives_updates es os :
  ORDERS < 2 ^ 32 → book_orders es = Some os →
  ∃ s us, book_run es = Ok (s, us) ∧ book_rep s os ∧
    (∀ id, order_exists s id = bool_decide (is_Some (Book.find id os))) ∧
    (∀ id q, Book.find id os = None →
       cancel_id s id = Undefined ∧ trade_id s id q = Undefined ∧ update_quantity s id q = Undefined).
Proof.
  intros Hcap Hs. destruct (run_rep es empty_book [] os (proj1 (empty_book_Rep Hcap)) Hs) as (s & us & Hrun & HR).
  exists s, us. split_and!; [done..| |].
  - intros id. apply (order_exists_spec _ _ _ _ ORDERS s os id HR).
  - intros id q Hnone. unfold cancel_id, trade_id, update_quantity.
    by rewrite (unknown_id _ _ _ ORDERS s os id HR Hnone).
Qed.

(** C31: reducing an order at the best price raises the cached best quantity.
    After any contract-respecting stream, if order [o] rests at the best price
    of its side and [update_quantity] gives it a smaller positive quantity [q],
    the new cached quantity of that price is the old total {e plus} the
    reduction, where the orders left hold the old total {e minus} the
    reduction. *)
Theorem update_reduction_inflates_best es os us o q :
  ORDERS < 2 ^ 32 → book_spec es = Some (os, us) → o ∈ os →
  Book.best (Order.side o) os = Some (Order.price o) → 0 < q < Order.quantity o →
  let total := Book.total (Book.at_price (Order.price o) os) in
  let cut := Order.quantity o - q in
  ∃ s s', book_run es = Ok (s, us) ∧
    update_quantity s (Order.order_id o) q = Ok (s', Book.new_best (Order.side o)) ∧
    Book.info (Order.side o) (snapshot s') = {| price := Order.price o; quantity := u32 (total + cut) |} ∧
    Book.best_info (Order.side o) (Book.update (Order.order_id o) q os) =
      {| price := Order.price o; quantity := u32 (total - cut) |}.
Proof.
  intros Hcap Hs Ho Hbest Hq total cut.
  destruct (run_Rep _ _ (ORDERS * 2) _ _ es empty_book [] os us orders_cap (empty_book_Rep Hcap) Hs)
    as (s & Hrun & HR).
  pose proof (rep_valid _ _ _ _ _ (proj1 HR)) as Hv.
  destruct (locate _ _ _ _ ORDERS s os _ o (proj1 HR) (find_unique _ _ (Book.valid_ids _ Hv) Ho))
    as (N1 & i & N2 & gpl & gom & Hc & -> & _ & Hnd & Hmap & Hget).
  assert (q < 2 ^ 32) as Hq32.
  { pose proof (Book.valid_orders _ Hv) as Hf. rewrite Forall_forall in Hf.
    destruct (Hf o Ho) as ([_ [_ Hoq]] & _). unfold in_u in Hoq. lia. }
  destruct (update_cache_located _ _ _ _ ORDERS s N1 i o N2 gpl gom q Hc Hmap Hget ltac:(lia) (proj2 HR))
    as (s' & Hup & _ & Hb').
  exists s, s'. unfold reduce_report in Hup. rewrite decide_True in Hup by done. split_and!; [done..| |].
  - unfold snapshot. rewrite Hb', info_set_info. unfold updated_info.
    rewrite (proj2 HR), info_bbo_of. unfold Book.best_info. rewrite Hbest. simpl.
    rewrite Z.eqb_refl, (proj2 (Z.ltb_lt _ _)) by lia. zsimpl. done.
  - unfold Book.update. rewrite (proj2 (Z.eqb_neq q 0)) by lia.
    rewrite split_orders, set_quantity_here, <- (split_orders _ i) by done.
    unfold Book.best_info. rewrite best_resize, Hbest, total_resize, decide_True by done.
    f_equal. unfold total, cut. f_equal. lia.
Qed.

(** C32: the [Update] returned by [execute] is what a client may rely on: when
    it is [NoChange] the snapshot is unchanged, and a new best bid (offer)
    leaves the best offer (bid) alone, in every state, reachable or not. *)
Theorem execute_report_describes_snapshot (s : hashed_book) e s' u :
  execute s e = Ok (s', u) → report_describes u (snapshot s) (snapshot s').
Proof. apply execute_describes. Qed.
End HashedBook.

(** ** Concrete streams *)

Section Examples.
#[local] Instance pot4 : PowerOfTwo (2 * 2).
Proof. by apply pot_check. Defined.
#[local] Instance pot8 : PowerOfTwo (4 * 2).
Proof. by apply pot_check. Defined.

Definition example_event (type : MarketEvent.Type_) (id p q : Z) (sd : Side.t) : MarketEvent.t :=
  {| MarketEvent.order := {| Order.order_id := id; Order.price := p; Order.quantity := q; Order.side := sd |};
     MarketEvent.type := type |}.
Definition example_add := example_event MarketEvent.Add.
Definition example_trade (id q : Z) := example_event MarketEvent.Trade id 0 q Side.Buy.
Definition example_cancel (id : Z) := example_event MarketEvent.Cancel id 0 0 Side.Buy.
Definition example_update (id q : Z) := example_event MarketEvent.Update id 0 q Side.Buy.

(** Two bids at 100, one at 99, an offer at 103; a partial fill, a full fill, a
    cancel that empties the best level and an update behind the best price. *)
Definition example_stream : list MarketEvent.t :=
  [ example_add 1 100 10 Side.Buy; example_add 2 100 5 Side.Buy; example_add 3 99 7 Side.Buy;
    example_add 4 103 9 Side.Sell; example_trade 1 4; example_trade 1 6; example_update 3 20; example_cancel 2 ].
Definition example_orders : list Order.t :=
  [ {| Order.order_id := 3; Order.price := 99; Order.quantity := 20; Order.side := Side.Buy |};
    {| Order.order_id := 4; Order.price := 103; Order.quantity := 9; Order.side := Side.Sell |} ].
Definition example_reports : list Update :=
  [ NewBestBid; NewBestBid; NoChange; NewBestOffer; NewBestBid; NewBestBid; NoChange; NewBestBid ].

Lemma book_state_refines_book_witness :
  ∃ s, book_run id id 2 4 example_stream = Ok (s, example_reports) ∧
    snapshot s = Book.bbo_of example_orders ∧
    (∀ side, best_opposing_order (pl_ops := level_store id 2) s side =
       Ok (match Book.first_best (Book.opposite side) example_orders with
           | Some o => o | None => no_order (Book.opposite side) end)) ∧
    (∀ i, order_exists (om_ops := order_store id 4) s i = bool_decide (is_Some (Book.find i example_orders))).
Proof.
  apply (book_state_refines_book id id 2 4 example_stream example_orders example_reports);
    [reflexivity|vm_compute; reflexivity].
Defined.

Lemma book_structure_survives_updates_witness :
  ∃ s us, book_run id id 2 4 [example_add 1 100 10 Side.Buy; example_update 1 4; example_update 1 30] = Ok (s, us) ∧
    book_rep id id 2 4 s
      [ {| Order.order_id := 1; Order.price := 100; Order.quantity := 30; Order.side := Side.Buy |} ] ∧
    (∀ i, order_exists (om_ops := order_store id 4) s i = bool_decide (is_Some (Book.find i
      [ {| Order.order_id := 1; Order.price := 100; Order.quantity := 30; Order.side := Side.Buy |} ]))) ∧
    (∀ i q, Book.find i
      [ {| Order.order_id := 1; Order.price := 100; Order.quantity := 30; Order.side := Side.Buy |} ] = None →
       cancel_id (pl_ops := level_store id 2) (om_ops := order_store id 4) s i = Undefined ∧
       trade_id (pl_ops := level_store id 2) (om_ops := order_store id 4) s i q = Undefined ∧
       update_quantity (pl_ops := level_store id 2) (om_ops := order_store id 4) s i q = Undefined).
Proof.
  apply (book_structure_survives_updates id id 2 4); [reflexivity|vm_compute; reflexivity].
Defined.

(** An order of 10 reduced to 4: the cache says 16. *)
Lemma update_reduction_inflates_best_witness :
  let o := {| Order.order_id := 1; Order.price := 100; Order.quantity := 10; Order.side := Side.Buy |} in
  ∃ s s', book_run id id 2 4 [example_add 1 100 10 Side.Buy] = Ok (s, [NewBestBid]) ∧
    update_quantity (pl_ops := level_store id 2) (om_ops := order_store id 4) s 1 4 = Ok (s', NewBestBid) ∧
    best_bid (snapshot s') = {| price := 100; quantity := 16 |} ∧
    Book.best_info Side.Buy (Book.update 1 4 [o]) = {| price := 100; quantity := 4 |}.
Proof.
  intros o.
  apply (update_reduction_inflates_best id id 2 4 [example_add 1 100 10 Side.Buy] [o] [NewBestBid] o 4);
    [reflexivity|vm_compute; reflexivity|by left|reflexivity|split; reflexivity].
Defined.

Lemma execute_report_describes_snapshot_witness :
  let s := set_best_bid 100 10 (empty_book 2 4) in
  let e := example_add 1 99 7 Side.Buy in
  ∃ s', execute (pl_ops := level_store id 2) (om_ops := order_store id 4) s e = Ok (s', NoChange) ∧
    report_describes NoChange (snapshot s) (snapshot s').
Proof.
  intros s e. eexists. split; [vm_compute; reflexivity|].
  apply (execute_report_describes_snapshot id id 2 4 s e). vm_compute. reflexivity.
Defined.
End Examples.
