(* ===== verification/Clob.v ===== *)
(** * CentralLimitOrderBook ([includes/exchange/clob.hpp], [src/exchange/clob.cpp])

    The matching engine.  The producer side of the market event buffer is the
    log of published events, oldest first.  A stop token is a poll budget:
    [None] never stops, [Some n] answers "not requested" [n] more times.
    [delays] says, for each claim of a buffer slot, how often the claim finds
    the buffer full before the consumer frees a slot. *)

From S2P Require Import Prelude Types Interfaces OrderPool PriceSet OrderBook.

Module Clob.

Record t (PL OM : Type) : Type := {
  next_order_id : Z;
  state : BookState.t PL OM;
  published : list MarketEvent.t;
  token : option nat;
  delays : list nat;
}.
Arguments next_order_id {PL OM}.
Arguments state {PL OM}.
Arguments published {PL OM}.
Arguments token {PL OM}.
Arguments delays {PL OM}.

Section Definitions.
Context {PL OM : Type} {pl_ops : KeyedStore PL Z BookState.PriceLevel} {om_ops : KeyedStore OM Z Z}.
Context (MAX_CONCURRENT_ORDERS : Z).
Abbreviation clob := (t PL OM).

Definition init (s : BookState.t PL OM) (token : option nat) (delays : list nat) : clob := {|
  next_order_id := 1; state := s; published := []; token := token; delays := delays |}.

Definition set_state (s : BookState.t PL OM) (c : clob) : clob :=
  {| next_order_id := next_order_id c; state := s; published := published c;
     token := token c; delays := delays c |}.
Definition set_next_order_id (n : Z) (c : clob) : clob :=
  {| next_order_id := n; state := state c; published := published c;
     token := token c; delays := delays c |}.
Definition set_token (tok : option nat) (c : clob) : clob :=
  {| next_order_id := next_order_id c; state := state c; published := published c;
     token := tok; delays := delays c |}.
Definition set_delays (ds : list nat) (c : clob) : clob :=
  {| next_order_id := next_order_id c; state := state c; published := published c;
     token := token c; delays := ds |}.

(** [stop_token.stop_requested()] *)
Definition stop_requested (c : clob) : bool * clob :=
  match token c with
  | None => (false, c)
  | Some O => (true, c)
  | Some (S n) => (false, set_token (Some n) c)
  end.

(** [buffer_.wait_get_head_ref(stop_token)]: [false] is [nullptr]. *)
Fixpoint wait_loop (full : nat) (c : clob) : bool * clob :=
  let '(stop, c) := stop_requested c in
  if stop then (false, c)
  else match full with O => (true, c) | S full => wait_loop full c end.
Definition wait_get_head_ref (c : clob) : bool * clob :=
  wait_loop (default O (head (delays c))) (set_delays (tail (delays c)) c).

(** [buffer_.publish()] of a slot holding [e]. *)
Definition publish (e : MarketEvent.t) (c : clob) : clob :=
  {| next_order_id := next_order_id c; state := state c; published := published c ++ [e];
     token := token c; delays := delays c |}.

(** [new_order] is passed by reference: its new value is returned. *)
Definition execute_trade (c : clob) (new_order : Order.t) : outcome (bool * Order.t * clob) :=
  let '(stop, c) := stop_requested c in
  if stop then Ok (false, new_order, c) else
  best_resting ← BookState.best_opposing_order (state c) (Order.side new_order);
  if (Order.order_id best_resting =? Order.INVALID_ORDER_ID)
     || (bool_decide (Order.side new_order = Side.Buy) && (Order.price new_order <? Order.price best_resting))
     || (bool_decide (Order.side new_order = Side.Sell) && (Order.price best_resting <? Order.price new_order))
  then Ok (false, new_order, c) else
  let quantity := Z.min (Order.quantity new_order) (Order.quantity best_resting) in
  let '(claimed, c) := wait_get_head_ref c in
  if negb claimed then Ok (false, new_order, c) else
  let trade := {| MarketEvent.order := Order.set_quantity quantity best_resting;
                  MarketEvent.type := MarketEvent.Trade |} in
  let c := publish trade c in
  '(s, _) ← BookState.trade (state c) trade;
  Ok (true, Order.set_quantity (u32 (Order.quantity new_order - quantity)) new_order, set_state s c).

Definition add_order (c : clob) (new_order : Order.t) : outcome clob :=
  let '(claimed, c) := wait_get_head_ref c in
  if negb claimed then Ok c else
  let add := {| MarketEvent.order := new_order; MarketEvent.type := MarketEvent.Add |} in
  let c := publish add c in
  '(s, _) ← BookState.add (state c) add;
  Ok (set_state s c).

(** [while(order.quantity != 0 && execute_trade(order, stop_token));] *)
Fixpoint trade_loop (fuel : nat) (c : clob) (order : Order.t) : outcome (Order.t * clob) :=
  if Order.quantity order =? 0 then Ok (order, c) else
  match fuel with
  | O => OutOfFuel
  | S fuel =>
      '(b, order, c) ← execute_trade c order;
      if (b : bool) then trade_loop fuel c order else Ok (order, c)
  end.

(** Every trade but the last removes a resting order. *)
Definition loop_fuel : nat := S (Z.to_nat MAX_CONCURRENT_ORDERS).

(** The common text of [buy_order] and [sell_order]. *)
Definition place_order (side : Side.t) (c : clob) (request : OrderRequest.t) : outcome (Z * clob) :=
  if OrderRequest.quantity request =? 0 then Ok (Order.INVALID_ORDER_ID, c) else
  let order := {| Order.order_id := 0; Order.price := OrderRequest.price request;
                  Order.quantity := OrderRequest.quantity request; Order.side := side |} in
  '(order, c) ← trade_loop loop_fuel c order;
  if Order.quantity order =? 0 then Ok (Order.INVALID_ORDER_ID, c) else
  let '(stop, c) := stop_requested c in
  if stop then Ok (Order.INVALID_ORDER_ID, c) else
  let order := Order.set_order_id (next_order_id c) order in
  let c := set_next_order_id (u64 (next_order_id c + 1)) c in
  c ← add_order c order;
  Ok (Order.order_id order, c).

Definition buy_order (c : clob) (request : OrderRequest.t) : outcome (Z * clob) :=
  place_order Side.Buy c request.
Definition sell_order (c : clob) (request : OrderRequest.t) : outcome (Z * clob) :=
  place_order Side.Sell c request.

Definition cancel_order (c : clob) (request : OrderRequest.t) :
    outcome (expected unit ExchangeError.t * clob) :=
  if negb (BookState.order_exists (state c) (OrderRequest.order_id request))
  then Ok (Unexpected ExchangeError.OrderDoesNotExist, c) else
  let '(claimed, c) := wait_get_head_ref c in
  if negb claimed then Ok (Value tt, c) else
  let canceled_order := {| MarketEvent.order := Order.set_order_id (OrderRequest.order_id request) Order.zero;
                           MarketEvent.type := MarketEvent.Cancel |} in
  '(s, _) ← BookState.cancel (state c) canceled_order;
  Ok (Value tt, publish canceled_order (set_state s c)).

Definition update_order (c : clob) (request : OrderRequest.t) :
    outcome (expected unit ExchangeError.t * clob) :=
  if negb (BookState.order_exists (state c) (OrderRequest.order_id request))
  then Ok (Unexpected ExchangeError.OrderDoesNotExist, c) else
  let '(claimed, c) := wait_get_head_ref c in
  if negb claimed then Ok (Value tt, c) else
  let updated_order :=
    {| MarketEvent.order := Order.set_order_id (OrderRequest.order_id request)
                              (Order.set_quantity (OrderRequest.quantity request) Order.zero);
       MarketEvent.type := MarketEvent.Update |} in
  '(s, _) ← BookState.update (state c) updated_order;
  Ok (Value tt, publish updated_order (set_state s c)).

Definition submit (c : clob) (request : OrderRequest.t) :
    outcome (expected Z ExchangeError.t * clob) :=
  match OrderRequest.type request with
  | OrderRequest.Buy => '(id, c) ← buy_order c request; Ok (Value id, c)
  | OrderRequest.Sell => '(id, c) ← sell_order c request; Ok (Value id, c)
  | OrderRequest.Cancel =>
      '(result, c) ← cancel_order c request;
      Ok (match result with Unexpected e => Unexpected e | Value _ => Value Order.INVALID_ORDER_ID end, c)
  | OrderRequest.Update =>
      '(result, c) ← update_order c request;
      Ok (match result with Unexpected e => Unexpected e
          | Value _ => Value (OrderRequest.order_id request) end, c)
  end.

Fixpoint submit_all (c : clob) (requests : list OrderRequest.t) :
    outcome (list (expected Z ExchangeError.t) * clob) :=
  match requests with
  | [] => Ok ([], c)
  | r :: rs => '(result, c) ← submit c r; '(results, c) ← submit_all c rs; Ok (result :: results, c)
  end.

Definition snapshot (c : clob) : BookState.OrderSnapshot := BookState.snapshot (state c).
Definition order_exists (c : clob) (order_id : Z) : bool := BookState.order_exists (state c) order_id.
End Definitions.
End Clob.
