(* ===== verification/ClobBudget.v ===== *)
(** * The matching engine and its stop token

    What a call of [submit] costs of a stop token that answers a bounded number
    of polls: a new id only after a poll, and nothing rests once it has stopped. *)

From S2P Require Import Prelude Types Interfaces OrderPool OrderBook Clob.
Import Clob.

Section ClobBudget.
Context {PL OM : Type} {pl_ops : KeyedStore PL Z BookState.PriceLevel} {om_ops : KeyedStore OM Z Z}.
Context (CAPACITY : Z).
Implicit Types (c : t PL OM) (o : Order.t) (n : nat).

(** No poll is gained, and one is lost if an id was taken. *)
Definition spent c c' : Prop :=
  ∀ n, token c = Some n → ∃ n', token c' = Some n' ∧ (n' ≤ n)%nat ∧ (next_order_id c' = next_order_id c ∨ (n' < n)%nat).

#[global] Instance spent_refl : Reflexive spent.
Proof. intros c n Hn. exists n. auto. Qed.
#[global] Instance spent_trans : Transitive spent.
Proof.
  intros c1 c2 c3 H1 H2 n Hn. destruct (H1 n Hn) as (n2 & Hn2 & Hle2 & Hid2). destruct (H2 n2 Hn2) as (n3 & Hn3 & Hle3 & Hid3).
  exists n3. split_and!; [done|lia|]. destruct Hid2 as [Hid2|]; [|right; lia]. destruct Hid3 as [Hid3|]; [left; congruence|right; lia].
Qed.

(** A poll. *)
Lemma stop_requested_spent c stop c' : stop_requested c = (stop, c') → spent c c' ∧ next_order_id c' = next_order_id c ∧
  (stop = false → ∀ n, token c = Some n → ∃ n', token c' = Some n' ∧ (n' < n)%nat).
Proof.
  unfold stop_requested. destruct (token c) as [[|n]|] eqn:Ht; intros [= <- <-].
  - done.
  - split; [|split; [done|]].
    + intros m Hm. exists n. simpl. split_and!; [done|naive_solver lia|by left].
    + intros _ m [= <-]. exists n. simpl. split; [done|lia].
  - split; [done|]. split; [done|]. intros _ n Hn. congruence.
Qed.

Lemma wait_loop_spent full c b c' : wait_loop full c = (b, c') → spent c c'.
Proof.
  revert c. induction full as [|full IH]; intros c; simpl;
    (destruct (stop_requested c) as [stop c1] eqn:Hstop; apply stop_requested_spent in Hstop as (Hs & _ & _); destruct stop).
  - by intros [= <- <-].
  - by intros [= <- <-].
  - by intros [= <- <-].
  - intros Hw. etrans; [exact Hs|by apply IH].
Qed.

Lemma wait_get_head_ref_spent c b c' : wait_get_head_ref c = (b, c') → spent c c'.
Proof. intros Hw. by apply wait_loop_spent in Hw. Qed.

Lemma spent_same c c1 c' : spent c c1 → token c' = token c1 → next_order_id c' = next_order_id c1 → spent c c'.
Proof. unfold spent. intros Hs Ht Hn. by rewrite Ht, Hn. Qed.

Lemma execute_trade_spent c o b o' c' : execute_trade c o = Ok (b, o', c') → spent c c'.
Proof.
  unfold execute_trade. destruct (stop_requested c) as [stop c1] eqn:Hstop. apply stop_requested_spent in Hstop as (Hs & _ & _).
  destruct stop; [by intros [= <- <- <-]|]. intros Hrun. outcome_step Hrun. destruct (_ || _); [by simplify_eq|].
  destruct (wait_get_head_ref c1) as [claimed c2] eqn:Hw. apply wait_get_head_ref_spent in Hw.
  assert (spent c c2) as Hs2 by (by etrans).
  destruct claimed; cbn [negb] in Hrun; [|by simplify_eq]. outcome_all. by eapply spent_same.
Qed.

Lemma trade_loop_spent fuel c o o' c' : trade_loop fuel c o = Ok (o', c') → spent c c'.
Proof.
  revert c o. induction fuel as [|fuel IH]; intros c o; simpl; (destruct (_ =? 0); [by intros [= <- <-]|]); [done|].
  intros Hrun. outcome_step Hrun. destruct a as [[b o1] c1]. apply execute_trade_spent in E.
  destruct b; [|by simplify_eq]. etrans; [exact E|by eapply IH].
Qed.

Lemma add_order_spent c o c' : add_order c o = Ok c' → spent c c'.
Proof.
  unfold add_order. destruct (wait_get_head_ref c) as [claimed c1] eqn:Hw. apply wait_get_head_ref_spent in Hw.
  destruct claimed; cbn [negb]; [|by intros [= <-]]. intros Hrun. outcome_all. by eapply spent_same.
Qed.

Lemma place_order_spent side c request id c' : place_order CAPACITY side c request = Ok (id, c') → spent c c'.
Proof.
  unfold place_order. destruct (_ =? 0); [by intros [= <- <-]|]. intros Hrun. outcome_step Hrun. destruct a as [o c1].
  apply trade_loop_spent in E. destruct (_ =? 0); [by simplify_eq|].
  destruct (stop_requested c1) as [stop c2] eqn:Hstop. apply stop_requested_spent in Hstop as (Hs & Hn & Hpoll).
  destruct stop; [simplify_eq; by etrans|]. outcome_step Hrun. simplify_eq. apply add_order_spent in E0.
  intros n Ht. destruct (E n Ht) as (n1 & Ht1 & Hle1 & Hid1). destruct (Hpoll eq_refl n1 Ht1) as (n2 & Ht2 & Hlt2).
  destruct (E0 n2 Ht2) as (n3 & Ht3 & Hle3 & _). exists n3. split_and!; [done|lia|right; lia].
Qed.

Lemma cancel_order_spent c request result c' : cancel_order c request = Ok (result, c') → spent c c'.
Proof.
  unfold cancel_order. destruct (BookState.order_exists _ _); cbn [negb]; [|by intros [= <- <-]].
  destruct (wait_get_head_ref c) as [claimed c1] eqn:Hw. apply wait_get_head_ref_spent in Hw.
  destruct claimed; cbn [negb]; [|by intros [= <- <-]]. intros Hrun. outcome_all. by eapply spent_same.
Qed.

(** After the stop, an order is neither matched nor added. *)
Lemma place_order_stopped side c request : token c = Some O → OrderRequest.quantity request ≠ 0 →
  place_order CAPACITY side c request = Ok (Order.INVALID_ORDER_ID, c).
Proof.
  intros Ht Hq. assert (stop_requested c = (true, c)) as Hstop by (unfold stop_requested; by rewrite Ht).
  unfold place_order, loop_fuel. cbn [trade_loop Order.quantity].
  rewrite (proj2 (Z.eqb_neq _ _) Hq). unfold execute_trade. rewrite Hstop. cbn [mbind outcome_bind].
  simpl. by rewrite (proj2 (Z.eqb_neq _ _) Hq), Hstop.
Qed.
End ClobBudget.
