(* ===== verification/RandomContainer.v ===== *)
(** * RandomContainer ([includes/utils/random-container.hpp])

    A bag of items in raw storage, with removal of a random one.  A draw of the
    random generator is an integer [raw] that the distribution maps into its
    range; a distribution over an empty range is undefined. *)

From S2P Require Import Prelude.

(** [std::uniform_int_distribution(low, high)(generator)] *)
Definition uniform_int (low high raw : Z) : outcome Z :=
  if high <? low then Undefined else Ok (low + raw mod (high - low + 1)).

Lemma uniform_int_spec low high raw : low ≤ high →
  ∃ x, uniform_int low high raw = Ok x ∧ low ≤ x ≤ high.
Proof.
  intros Hle. unfold uniform_int. rewrite (proj2 (Z.ltb_ge high low)) by lia.
  eexists. split; [done|]. pose proof (Z.mod_pos_bound raw (high - low + 1) ltac:(lia)). lia.
Qed.

(** Every value of the range is drawn for some [raw]. *)
Lemma uniform_int_complete low high x : low ≤ x ≤ high → uniform_int low high (x - low) = Ok x.
Proof.
  intros Hx. unfold uniform_int. rewrite (proj2 (Z.ltb_ge high low)) by lia.
  rewrite Z.mod_small by lia. f_equal. lia.
Qed.

Module RandomContainer.

(** [None] is raw storage without an object. *)
Record t (T : Type) : Type := { buffer_ : list (option T); size_ : Z }.
Arguments buffer_ {T}.
Arguments size_ {T}.

Section Definitions.
Context {T : Type} (CAPACITY : Z).
Implicit Types (s : t T) (item : T) (raw : Z).

Definition init : t T := {| buffer_ := replicate (Z.to_nat CAPACITY) None; size_ := 0 |}.

Definition get_random_index raw s : outcome Z := uniform_int 0 (u64 (size_ s - 1)) raw.

Definition add item s : outcome (bool * t T) :=
  if size_ s <? CAPACITY then
    b ← array_set (buffer_ s) (size_ s) (Some item);
    Ok (true, {| buffer_ := b; size_ := u64 (size_ s + 1) |})
  else Ok (false, s).

Definition get_random raw s : outcome (option T) :=
  if size_ s =? 0 then Ok None else
  index ← get_random_index raw s;
  slot ← array_get (buffer_ s) index;
  item ← deref slot;
  Ok (Some item).

Definition remove_random raw s : outcome (option T * t T) :=
  if size_ s =? 0 then Ok (None, s) else
  index ← get_random_index raw s;
  slot ← array_get (buffer_ s) index;
  item ← deref slot;
  b ← array_set (buffer_ s) index None;
  b ← (if negb (index =? u64 (size_ s - 1)) then
         last ← array_get b (u64 (size_ s - 1));
         moved ← deref last;
         b ← array_set b index (Some moved);
         array_set b (u64 (size_ s - 1)) None
       else Ok b);
  Ok (Some item, {| buffer_ := b; size_ := u64 (size_ s - 1) |}).

Definition size s : Z := size_ s.
Definition capacity s : Z := CAPACITY.
Definition is_full s : bool := size_ s =? CAPACITY.
Definition is_empty s : bool := size_ s =? 0.
End Definitions.

(** ** The bag it holds *)

Section Bag.
Context {T : Type} (CAPACITY : Z) (Hcap : CAPACITY < 2 ^ 64).
Implicit Types (s : t T) (item : T) (items : list T).

Record repr s items : Prop := {
  repr_buffer : buffer_ s = (Some <$> items) ++ replicate (Z.to_nat CAPACITY - length items) None;
  repr_size : size_ s = Z.of_nat (length items);
  repr_capacity : Z.of_nat (length items) ≤ CAPACITY;
}.

Lemma bag_init_repr : 0 ≤ CAPACITY → repr (init CAPACITY) [].
Proof using. intros H0. split; simpl; [by rewrite Nat.sub_0_r|done|done]. Qed.

Lemma repr_length s items : repr s items → Z.of_nat (length (buffer_ s)) = CAPACITY.
Proof using. intros [-> _ Hc]. rewrite length_app, length_fmap, length_replicate. lia. Qed.

Lemma repr_lookup s items i item : repr s items → items !! i = Some item →
  array_get (buffer_ s) (Z.of_nat i) = Ok (Some item).
Proof using.
  intros [-> _ _] Hi. apply array_get_Ok. split; [lia|]. rewrite Nat2Z.id.
  rewrite lookup_app_l; [by rewrite list_lookup_fmap, Hi|]. rewrite length_fmap. by eapply lookup_lt_Some.
Qed.

Lemma is_full_spec s items : repr s items → is_full CAPACITY s = (Z.of_nat (length items) =? CAPACITY).
Proof using. intros [_ Hs _]. unfold is_full. by rewrite Hs. Qed.

Lemma is_empty_spec s items : repr s items → is_empty s = bool_decide (items = []).
Proof using. intros [_ Hs _]. unfold is_empty. rewrite Hs. by destruct items. Qed.

Lemma add_spec s items item : repr s items →
  if Z.of_nat (length items) =? CAPACITY then add CAPACITY item s = Ok (false, s)
  else ∃ s', add CAPACITY item s = Ok (true, s') ∧ repr s' (items ++ [item]).
Proof using Hcap.
  intros Hr. pose proof (repr_length _ _ Hr) as Hlen. destruct Hr as [Hb Hs Hc]. unfold add. rewrite Hs.
  destruct (Z.eqb_spec (Z.of_nat (length items)) CAPACITY) as [Heq|Hne].
  - by rewrite (proj2 (Z.ltb_ge _ _)) by lia.
  - rewrite (proj2 (Z.ltb_lt _ _)) by lia. rewrite array_set_Ok by lia. eexists. split; [done|]. split; simpl.
    + rewrite Hb, Nat2Z.id, length_app. simpl.
      replace (Z.to_nat CAPACITY - length items)%nat with (S (Z.to_nat CAPACITY - (length items + 1)))%nat by lia.
      rewrite insert_app_r_alt by (rewrite length_fmap; lia). rewrite length_fmap, Nat.sub_diag. simpl.
      by rewrite fmap_app, <- (assoc_L (++)).
    + rewrite length_app, (uwrap_small 64) by (unfold in_u; simpl in *; lia). simpl. lia.
    + rewrite length_app. simpl. lia.
Qed.

(** Taking the [i]-th item and moving the last one into its place. *)
Lemma swap_out (l : list T) last i item : l !! i = Some item → l ++ [last] ≡ₚ item :: <[i := last]> l.
Proof using.
  intros Hi. rewrite <- (take_drop_middle l i item Hi) at 1.
  rewrite insert_take_drop by (by eapply lookup_lt_Some).
  solve_Permutation.
Qed.

Lemma remove_random_spec raw s items : repr s items → items ≠ [] →
  ∃ item s' items', remove_random raw s = Ok (Some item, s') ∧ repr s' items' ∧ items ≡ₚ item :: items'.
Proof using Hcap.
  intros Hr Hne. pose proof (repr_length _ _ Hr) as Hlen. pose proof (λ i item, repr_lookup s items i item Hr) as Hget.
  destruct Hr as [Hb Hs Hc]. destruct items as [|last l _] using rev_ind; [done|]. clear Hne.
  rewrite length_app in Hs, Hc, Hb. simpl in Hs, Hc, Hb. unfold remove_random, get_random_index.
  rewrite Hs, (proj2 (Z.eqb_neq _ _)) by lia. rewrite (uwrap_small 64) by (unfold in_u; lia).
  replace (Z.of_nat (length l + 1) - 1) with (Z.of_nat (length l)) by lia.
  destruct (uniform_int_spec 0 (Z.of_nat (length l)) raw) as (index & -> & Hindex); [lia|]. cbn [mbind outcome_bind].
  assert (∃ i, index = Z.of_nat i ∧ (i ≤ length l)%nat) as (i & -> & Hi) by (exists (Z.to_nat index); lia).
  rewrite fmap_app in Hb. simpl in Hb. set (R := replicate _ None) in Hb. rewrite <- (assoc_L (++)) in Hb. simpl in Hb.
  assert (R = replicate (Z.to_nat CAPACITY - length l - 1) None) as HR by (unfold R; f_equal; lia).
  destruct (decide (i = length l)) as [->|Hne].
  - rewrite (Hget (length l) last); [|by rewrite lookup_app_r, Nat.sub_diag by lia]. cbn [mbind outcome_bind deref].
    rewrite array_set_Ok by lia. cbn [mbind outcome_bind]. rewrite Z.eqb_refl. cbn [negb mbind outcome_bind].
    eexists last, _, l. split; [done|]. split; [|by rewrite Permutation_app_comm]. split; simpl; [|done|lia].
    rewrite Hb, Nat2Z.id, insert_app_r_alt by (rewrite length_fmap; lia). rewrite length_fmap, Nat.sub_diag. simpl.
    rewrite HR. f_equal. change (None :: ?x) with (replicate 1 (@None T) ++ x). rewrite <- replicate_add. f_equal. lia.
  - destruct (lookup_lt_is_Some_2 l i) as [item Hitem]; [lia|].
    rewrite (Hget i item); [|by rewrite lookup_app_l by lia]. cbn [mbind outcome_bind deref].
    rewrite array_set_Ok by lia. cbn [mbind outcome_bind]. rewrite (proj2 (Z.eqb_neq _ _)) by lia. cbn [negb].
    rewrite Nat2Z.id. assert (array_get (<[i := None]> (buffer_ s)) (Z.of_nat (length l)) = Ok (Some last)) as ->.
    { apply array_get_Ok. split; [lia|]. rewrite Nat2Z.id, list_lookup_insert_ne by lia. rewrite Hb.
      by rewrite lookup_app_r, length_fmap, Nat.sub_diag by (rewrite length_fmap; lia). }
    cbn [mbind outcome_bind deref]. rewrite array_set_Ok by (rewrite length_insert; lia). cbn [mbind outcome_bind].
    rewrite array_set_Ok by (rewrite !length_insert; lia). cbn [mbind outcome_bind].
    eexists item, _, (<[i := last]> l). split; [done|]. split; [|by apply swap_out]. split; simpl; rewrite ?length_insert; [|done|lia].
    rewrite !Nat2Z.id, list_insert_insert_eq, Hb, list_fmap_insert.
    rewrite insert_app_l by (rewrite length_fmap; lia). rewrite insert_app_r_alt by (rewrite length_insert, length_fmap; lia).
    rewrite length_insert, length_fmap, Nat.sub_diag. simpl. rewrite HR. f_equal.
    change (None :: ?x) with (replicate 1 (@None T) ++ x). rewrite <- replicate_add. f_equal. lia.
Qed.

Lemma remove_random_empty raw s : repr s [] → remove_random raw s = Ok (None, s).
Proof using. intros [_ Hs _]. unfold remove_random. by rewrite Hs. Qed.
End Bag.
End RandomContainer.
