(* ===== verification/Matching.v ===== *)
(** * Price-time matching

    The reference definition of what the matching engine does to an incoming
    order: sort the opposite side by price, orders of one price in arrival
    order, and walk that ladder greedily. *)

From Stdlib Require Import Sorted.
From S2P Require Import Prelude Types OrderQueue OrderBook BookSpec BookRep BookOps BookCache BookRefine.
Import BookState.

Module Matching.

(** Stable insertion sort by price priority. *)
Fixpoint insert_priority (sd : Side.t) (o : Order.t) (l : list Order.t) : list Order.t :=
  match l with
  | [] => [o]
  | r :: l' => if Book.better sd (Order.price r) (Order.price o)
               then r :: insert_priority sd o l' else o :: l
  end.
Fixpoint prioritise (sd : Side.t) (l : list Order.t) : list Order.t :=
  match l with [] => [] | o :: l => insert_priority sd o (prioritise sd l) end.

(** The orders of a side, best price first, then oldest first. *)
Definition ladder (sd : Side.t) (os : list Order.t) : list Order.t :=
  prioritise sd (filter (λ o, Order.side o = sd) os).

(** The incoming order may trade with the resting order [r]. *)
Definition crosses (new r : Order.t) : bool :=
  match Order.side new with
  | Side.Buy => Order.price r <=? Order.price new
  | Side.Sell => Order.price new <=? Order.price r
  end.

(** Greedy fills of quantity [q] against a ladder. *)
Fixpoint fills (new : Order.t) (q : Z) (l : list Order.t) : list (Order.t * Z) :=
  match l with
  | [] => []
  | r :: l =>
      if (q =? 0) || negb (crosses new r) then []
      else let m := Z.min q (Order.quantity r) in (r, m) :: fills new (q - m) l
  end.

Definition filled (fs : list (Order.t * Z)) : Z := zsum fs.*2.

Definition apply_fill (os : list Order.t) (f : Order.t * Z) : list Order.t :=
  Book.trade (Order.order_id f.1) f.2 os.
Definition apply_fills (fs : list (Order.t * Z)) (os : list Order.t) : list Order.t :=
  foldl apply_fill os fs.

Definition trade_event (f : Order.t * Z) : MarketEvent.t :=
  {| MarketEvent.order := Order.set_quantity f.2 f.1; MarketEvent.type := MarketEvent.Trade |}.

(** The fills of an incoming order against a book. *)
Definition matches (new : Order.t) (os : list Order.t) : list (Order.t * Z) :=
  fills new (Order.quantity new) (ladder (Book.opposite (Order.side new)) os).

Implicit Types (sd : Side.t) (o r new : Order.t) (os l : list Order.t) (id q : Z).

(** The whole effect of an incoming order that nobody interrupts: trades, then
    what is left rests under the id [id].  Returns the id, or the invalid id when
    nothing is left, the events and the orders after them. *)
Definition place (id : Z) new os : Z * list MarketEvent.t * list Order.t :=
  let fs := matches new os in
  let left := Order.quantity new - filled fs in
  let os' := apply_fills fs os in
  if left =? 0 then (Order.INVALID_ORDER_ID, trade_event <$> fs, os')
  else let o := Order.set_order_id id (Order.set_quantity left new) in
       (id, (trade_event <$> fs) ++ [{| MarketEvent.order := o; MarketEvent.type := MarketEvent.Add |}],
        Book.add o os').

(** Fills depend on the price and side of the incoming order only. *)
Lemma fills_resize k new q l : fills (Order.set_quantity k new) q l = fills new q l.
Proof. revert q. induction l as [|r l IH]; intros q; [done|]. simpl. by rewrite IH. Qed.

Lemma fills_nonneg new q l : 0 ≤ q → Forall (λ r, 0 < Order.quantity r) l →
  Forall (λ f, 0 ≤ f.2) (fills new q l).
Proof.
  revert q. induction l as [|r l IH]; intros q Hq; simpl; [done|]. intros [Hr Hl]%Forall_cons. simpl in Hr.
  destruct (_ || _); [done|]. constructor; simpl; [lia|]. apply IH; [lia|done].
Qed.

Lemma filled_nonneg fs : Forall (λ f, 0 ≤ f.2) fs → 0 ≤ filled fs.
Proof. intros Hf. apply zsum_nonneg. by apply Forall_fmap. Qed.

(** ** The ladder *)


Definition priority sd o r : Prop := Book.better sd (Order.price r) (Order.price o) = false.
Definition by_priority sd l : Prop := StronglySorted (priority sd) l.

Lemma elem_insert_priority sd o l r : r ∈ insert_priority sd o l ↔ r = o ∨ r ∈ l.
Proof.
  induction l as [|r' l IH]; simpl; [set_solver|]. destruct (Book.better _ _ _); set_solver.
Qed.

Lemma elem_prioritise sd l r : r ∈ prioritise sd l ↔ r ∈ l.
Proof. induction l; simpl; [done|]. rewrite elem_insert_priority. set_solver. Qed.

Lemma elem_ladder sd os r : r ∈ ladder sd os ↔ r ∈ os ∧ Order.side r = sd.
Proof. unfold ladder. rewrite elem_prioritise, list_elem_of_filter. naive_solver. Qed.

Lemma sorted_insert_priority sd o l : by_priority sd l → by_priority sd (insert_priority sd o l).
Proof.
  unfold by_priority, priority. induction 1 as [|r l Hs IH Hr]; simpl; [repeat constructor|].
  rewrite Forall_forall in Hr. destruct (Book.better sd (Order.price r) (Order.price o)) eqn:E.
  - constructor; [done|]. apply Forall_forall. intros x [->|Hx]%elem_insert_priority; [|by apply Hr].
    destruct sd; simpl in *; lia.
  - constructor; [constructor; [done|by apply Forall_forall]|]. apply Forall_forall.
    intros x [->|Hx]%elem_of_cons; [done|]. apply Hr in Hx. destruct sd; simpl in *; lia.
Qed.

Lemma sorted_prioritise sd l : by_priority sd (prioritise sd l).
Proof. induction l; simpl; [constructor|by apply sorted_insert_priority]. Qed.

Lemma sorted_ladder sd os : by_priority sd (ladder sd os).
Proof. apply sorted_prioritise. Qed.

Lemma matches_nonneg new os fs : Book.valid os → 0 ≤ Order.quantity new → fs `prefix_of` matches new os →
  Forall (λ f, 0 ≤ f.2) fs.
Proof.
  intros Hv Hq [k Hk].
  assert (Forall (λ f, 0 ≤ f.2) (matches new os)) as Hm; [|by rewrite Hk in Hm; apply Forall_app in Hm as [? _]].
  apply fills_nonneg; [done|]. apply Forall_forall. intros r [Hr _]%elem_ladder.
  pose proof (Book.valid_orders _ Hv) as Hvo. rewrite Forall_forall in Hvo. by destruct (Hvo r Hr) as (_ & ? & _).
Qed.

(** Every member of a published trade holds a value of its C++ type. *)
Lemma fills_wf new q l : 0 ≤ q → Forall Book.valid_order l → Forall MarketEvent.wf (trade_event <$> fills new q l).
Proof.
  revert q. induction l as [|r l IH]; intros q Hq; simpl; [constructor|]. intros [Hr Hl]%Forall_cons.
  destruct (_ || _); [constructor|]. destruct Hr as ((Hid & Hp & Hu) & Hpos & _). constructor; [|apply IH; [lia|done]].
  split; [exact Hid|]. split; [exact Hp|]. unfold in_u in *. simpl. lia.
Qed.

Lemma matches_wf new os fs : Book.valid os → 0 ≤ Order.quantity new → fs `prefix_of` matches new os →
  Forall MarketEvent.wf (trade_event <$> fs).
Proof.
  intros Hv Hq [k Hk].
  assert (Forall MarketEvent.wf (trade_event <$> matches new os)) as Hm.
  { apply fills_wf; [done|]. apply Forall_forall. intros r [Hr _]%elem_ladder.
    pose proof (Book.valid_orders _ Hv) as Hvo. rewrite Forall_forall in Hvo. by apply Hvo. }
  rewrite Hk, fmap_app in Hm. by apply Forall_app in Hm as [? _].
Qed.

(** Filtering commutes with the stable sort. *)
Section Filter.
Context (P : Order.t → Prop) `{∀ o, Decision (P o)}.

Lemma insert_head sd o l : Forall (priority sd o) l → insert_priority sd o l = o :: l.
Proof. unfold priority. destruct 1 as [|r l Hr]; simpl; [done|]. by rewrite Hr. Qed.

Lemma filter_insert_priority sd o l : by_priority sd l →
  filter P (insert_priority sd o l) =
  if decide (P o) then insert_priority sd o (filter P l) else filter P l.
Proof.
  induction 1 as [|r l Hs IH Hr]; simpl; [done|].
  destruct (Book.better sd (Order.price r) (Order.price o)) eqn:E.
  - rewrite !filter_cons, IH. repeat case_decide; simpl; rewrite ?E; done.
  - rewrite filter_cons. case_decide; [|done]. symmetry. apply insert_head.
    apply Forall_filter_keep. constructor; [done|]. eapply Forall_impl; [done|].
    unfold priority. intros x Hx. destruct sd; simpl in *; lia.
Qed.

Lemma filter_prioritise sd l : filter P (prioritise sd l) = prioritise sd (filter P l).
Proof.
  induction l as [|o l IH]; simpl; [done|].
  rewrite filter_insert_priority by apply sorted_prioritise. rewrite IH, filter_cons. by case_decide.
Qed.
End Filter.

Lemma ladder_remove sd id os : ladder sd (Book.remove id os) = Book.remove id (ladder sd os).
Proof.
  unfold ladder, Book.remove. rewrite filter_prioritise. f_equal.
  rewrite !list_filter_filter. apply filter_ext_in. naive_solver.
Qed.

Lemma prioritise_Permutation sd l : prioritise sd l ≡ₚ l.
Proof.
  induction l as [|o l IH]; simpl; [done|]. rewrite <- IH at 2. generalize (prioritise sd l). intros k.
  induction k as [|x k IHk]; simpl; [done|]. destruct (Book.better _ _ _); [|done].
  rewrite IHk. apply Permutation_swap.
Qed.

Lemma ladder_NoDup sd os : NoDup (Order.order_id <$> os) → NoDup (Order.order_id <$> ladder sd os).
Proof.
  unfold ladder. rewrite prioritise_Permutation. induction os as [|o os IH]; [done|].
  rewrite fmap_cons. intros [Hn Hnd]%NoDup_cons. rewrite filter_cons. case_decide; [|by apply IH].
  rewrite fmap_cons. constructor; [|by apply IH]. intros Hin. apply Hn.
  apply list_elem_of_fmap in Hin as (o' & -> & Ho'). apply list_elem_of_filter in Ho' as [_ Ho'].
  by apply list_elem_of_fmap_2.
Qed.

(** The head of the ladder is the specification's best order. *)
Lemma prioritise_head sd l p : Book.best sd l = Some p → Forall (λ o, Order.side o = sd) l →
  List.head (prioritise sd l) = List.head (filter (λ o, Order.price o = p) l).
Proof.
  intros Hb Hall.
  assert (∀ o L, prioritise sd l = o :: L → Order.price o = p) as Hhead.
  { intros o L Heq. apply Book.best_Some in Hb as [(o' & Ho' & _ & <-) Hmin].
    pose proof (sorted_prioritise sd l) as Hs. rewrite Heq in Hs.
    apply StronglySorted_inv in Hs as [_ Hf]. rewrite Forall_forall in *.
    assert (o ∈ l) as Ho by (apply (elem_prioritise sd); rewrite Heq; by left).
    specialize (Hmin o Ho (Hall o Ho)).
    apply (elem_prioritise sd) in Ho'. rewrite Heq in Ho'. apply elem_of_cons in Ho' as [->|Ho']; [done|].
    apply Hf in Ho'. unfold priority in Ho'. by eapply Book.better_total. }
  assert (List.head (filter (λ o, Order.price o = p) (prioritise sd l)) = List.head (prioritise sd l)) as <-.
  { destruct (prioritise sd l) as [|o L] eqn:E; [done|]. rewrite filter_cons_True; [done|].
    by eapply Hhead. }
  rewrite filter_prioritise.
  assert (∀ k, Forall (λ o, Order.price o = p) k → prioritise sd k = k) as Hid.
  { induction 1 as [|o k Ho Hk IH]; simpl; [done|]. rewrite IH. apply insert_head.
    eapply Forall_impl; [done|]. unfold priority. intros x ->. rewrite Ho. apply Book.better_irrefl. }
  rewrite Hid; [done|]. apply Forall_forall. intros o Ho. by apply list_elem_of_filter in Ho as [? _].
Qed.

Lemma best_filter_side sd os : Book.best sd (filter (λ o, Order.side o = sd) os) = Book.best sd os.
Proof.
  apply best_ext. intros p. setoid_rewrite list_elem_of_filter. naive_solver.
Qed.

Lemma first_best_ladder sd os : Book.first_best sd os = List.head (ladder sd os).
Proof.
  unfold Book.first_best, ladder. destruct (Book.best sd os) as [p|] eqn:Hb; simpl.
  - rewrite (prioritise_head sd _ p).
    + rewrite list_filter_filter. f_equal. apply filter_ext_in. naive_solver.
    + by rewrite best_filter_side.
    + apply Forall_forall. intros o Ho. by apply list_elem_of_filter in Ho as [? _].
  - rewrite Book.best_None in Hb.
    destruct (filter (λ o, Order.side o = sd) os) as [|o l] eqn:E; [done|].
    assert (o ∈ filter (λ o, Order.side o = sd) os) as Ho by (rewrite E; by left).
    apply list_elem_of_filter in Ho as [Hs Ho]. by apply Hb in Ho.
Qed.

(** ** Trading shrinks the book *)

(** [os'] has no more orders than [os], and each stands at the price and side of
    an order of [os] with its id. *)
Record shrinks (os os' : list Order.t) : Prop := {
  shr_length : (length os' ≤ length os)%nat;
  shr_origin o' : o' ∈ os' → ∃ o, o ∈ os ∧ Order.order_id o = Order.order_id o' ∧
    Order.price o = Order.price o' ∧ Order.side o = Order.side o';
}.

#[global] Instance shrinks_refl : Reflexive shrinks.
Proof. intros os. split; [done|]. eauto. Qed.
#[global] Instance shrinks_trans : Transitive shrinks.
Proof.
  intros os1 os2 os3 [Hl1 Ho1] [Hl2 Ho2]. split; [lia|]. intros o3 Hin3.
  destruct (Ho2 o3 Hin3) as (o2 & Hin2 & <- & <- & <-). by apply Ho1.
Qed.

Lemma shrinks_remove id os : shrinks os (Book.remove id os).
Proof.
  split; [apply length_filter|]. intros o Ho. apply list_elem_of_filter in Ho as [_ Ho]. eauto.
Qed.

Lemma shrinks_set_quantity id q os : shrinks os (Book.set_quantity id q os).
Proof.
  unfold Book.set_quantity. split; [by rewrite length_fmap|].
  intros o Ho. apply list_elem_of_fmap in Ho as (o' & -> & Ho'). exists o'. by case_match.
Qed.

Lemma shrinks_trade id q os : shrinks os (Book.trade id q os).
Proof.
  unfold Book.trade. destruct (Book.find id os); [|done].
  case_match; [apply shrinks_remove|apply shrinks_set_quantity].
Qed.

Lemma shrinks_update id q os : shrinks os (Book.update id q os).
Proof. unfold Book.update. case_match; [apply shrinks_remove|apply shrinks_set_quantity]. Qed.

Lemma shrinks_fills fs os : shrinks os (apply_fills fs os).
Proof.
  revert os. induction fs as [|f fs IH]; intros os; simpl; [done|].
  etrans; [apply shrinks_trade|apply IH].
Qed.

(** No order of [os] is larger than [b]; trading keeps it so. *)
Definition below (b : Z) os : Prop := Forall (λ o, Order.quantity o ≤ b) os.

Lemma below_remove b id os : below b os → below b (Book.remove id os).
Proof. apply Forall_filter_keep. Qed.

Lemma below_fill b f os : 0 ≤ f.2 → below b os → below b (apply_fill os f).
Proof.
  intros Hf Hb. unfold apply_fill, Book.trade. destruct (Book.find (Order.order_id f.1) os) as [o|] eqn:Ho; [|done].
  apply find_Some in Ho as [Ho _]. unfold below in Hb. rewrite Forall_forall in Hb.
  case_match; [apply below_remove; by apply Forall_forall|]. apply Forall_fmap, Forall_forall. intros o' Ho'. simpl.
  pose proof (Hb o Ho). pose proof (Hb o' Ho'). case_match; simpl; lia.
Qed.

Lemma below_fills b fs os : Forall (λ f, 0 ≤ f.2) fs → below b os → below b (apply_fills fs os).
Proof.
  intros Hfs. revert os. induction Hfs as [|f fs Hf Hfs IH]; intros os Hb; simpl; [done|]. by apply IH, below_fill.
Qed.

Lemma shrinks_uncrossed os os' : shrinks os os' → Book.uncrossed os → Book.uncrossed os'.
Proof.
  intros Hs Hu b a Hb Ha Hsb Hsa.
  destruct (shr_origin _ _ Hs b Hb) as (b' & Hb' & _ & <- & Heq).
  destruct (shr_origin _ _ Hs a Ha) as (a' & Ha' & _ & <- & Heq').
  apply Hu; congruence.
Qed.

(** After the fills, an incoming order with quantity left crosses nothing. *)
Definition exhausted new os : Prop :=
  ∀ r, r ∈ os → Order.side r = Book.opposite (Order.side new) → crosses new r = false.

Lemma head_exhausted new os :
  match ladder (Book.opposite (Order.side new)) os with r :: _ => crosses new r = false | [] => True end →
  exhausted new os.
Proof.
  intros Hh r Hr Hs. set (sd := Book.opposite (Order.side new)) in *.
  pose proof (sorted_ladder sd os) as Hsort.
  assert (r ∈ ladder sd os) as Hin by (by apply elem_ladder).
  destruct (ladder sd os) as [|r' L]; [set_solver|].
  apply StronglySorted_inv in Hsort as [_ Hf]. rewrite Forall_forall in Hf.
  apply elem_of_cons in Hin as [->|Hin]; [done|]. apply Hf in Hin.
  unfold priority, crosses, sd in *. destruct (Order.side new); simpl in *; lia.
Qed.

Lemma exhausted_can_add new os : Book.valid_order new → exhausted new os →
  (Order.order_id new ∉ Order.order_id <$> os) → can_add new os.
Proof.
  intros Hv He Hid. split_and!; [done..|]. intros o Ho Hp.
  destruct (decide (Order.side o = Order.side new)) as [|Hne]; [done|exfalso].
  assert (crosses new o = false) as Hc.
  { apply He; [done|]. by destruct (Order.side o), (Order.side new). }
  unfold crosses in Hc. destruct (Order.side new); lia.
Qed.

Lemma uncrossed_add new os : Book.uncrossed os → exhausted new os → Book.uncrossed (Book.add new os).
Proof.
  intros Hu He b a. unfold Book.add. rewrite !elem_of_app, !list_elem_of_singleton.
  unfold exhausted, crosses in He.
  intros [Hb| ->] [Ha| ->] Hsb Hsa; [by apply Hu| | |congruence].
  - specialize (He b Hb). rewrite Hsa in He. specialize (He Hsb). lia.
  - specialize (He a Ha). rewrite Hsb in He. specialize (He Hsa). lia.
Qed.
End Matching.
