(* ===== verification/ClobProof.v ===== *)
(** * The matching engine implements price-time matching

    One lemma per function of [clob.cpp], for any stop token and any buffer
    delays; the properties are stated for the program's book in
    [ClobProperties]. *)

From Stdlib Require Import Sorted.
From S2P Require Import Prelude Types Interfaces OrderPool OrderQueue PriceSet OrderBook BookSpec BookRep BookOps BookCache BookPurge BookResize BookRefine BookUpdate BookTrace Clob Matching.
Import Clob Matching.

Section ClobProof.
Context {PL OM : Type} {pl_ops : KeyedStore PL Z BookState.PriceLevel} {om_ops : KeyedStore OM Z Z}.
Context (pl_cap om_cap : Z) (pl_repr : PL → gmap Z BookState.PriceLevel → Prop) (om_repr : OM → gmap Z Z → Prop).
Context {pl_laws : KeyedStoreLaws PL Z BookState.PriceLevel pl_cap pl_repr}.
Context {om_laws : KeyedStoreLaws OM Z Z om_cap om_repr}.
Context (CAPACITY : Z) (Hom : CAPACITY ≤ om_cap).
Abbreviation clob := (t PL OM).
Abbreviation Rep := (Rep pl_repr om_repr CAPACITY).
Implicit Types (c : clob) (os : list Order.t) (new r : Order.t) (fs : list (Order.t * Z)).

(** ** Stop token and buffer *)

(** [c'] is [c] after some polling. *)
Record calm c c' : Prop := {
  calm_next : next_order_id c' = next_order_id c;
  calm_state : state c' = state c;
  calm_published : published c' = published c;
  calm_token : token c = None → token c' = None;
}.
#[local] Instance calm_refl : Reflexive calm.
Proof. by split. Qed.
#[local] Instance calm_trans : Transitive calm.
Proof. intros c1 c2 c3 [] []. split; naive_solver congruence. Qed.

Abbreviation stopped c := (token c = Some O).

Lemma stop_requested_spec c : ∃ b c', stop_requested c = (b, c') ∧ calm c c' ∧ (b = true → stopped c').
Proof.
  unfold stop_requested. destruct (token c) as [[|n]|] eqn:Ht.
  - by exists true, c.
  - eexists false, _. split; [done|]. split; [|done]. split; simpl; congruence.
  - by exists false, c.
Qed.

Lemma wait_loop_spec n c : ∃ b c', wait_loop n c = (b, c') ∧ calm c c' ∧ (b = false → stopped c').
Proof.
  revert c. induction n as [|n IH]; intros c; simpl;
    destruct (stop_requested_spec c) as (stop & c1 & -> & Hc1 & Hs); destruct stop.
  - exists false, c1. auto.
  - exists true, c1. split_and!; [done..|discriminate].
  - exists false, c1. auto.
  - destruct (IH c1) as (b & c2 & -> & Hc2 & Hs2). exists b, c2. split; [done|]. split; [by etrans|done].
Qed.

Lemma wait_get_head_ref_spec c : ∃ b c', wait_get_head_ref c = (b, c') ∧ calm c c' ∧ (b = false → stopped c').
Proof.
  unfold wait_get_head_ref.
  destruct (wait_loop_spec (default O (head (delays c))) (set_delays (tail (delays c)) c)) as (b & c' & -> & [] & Hs).
  by exists b, c'.
Qed.

Lemma calm_not_stopped c c' : calm c c' → token c = None → ¬ stopped c'.
Proof. intros Hc Ht. rewrite (calm_token _ _ Hc Ht). done. Qed.

(** ** One trade *)

(** The condition under which [execute_trade] gives up. *)
Lemma no_cross_test new r sd : sd = Order.side new →
  (bool_decide (sd = Side.Buy) && (Order.price new <? Order.price r)) ||
  (bool_decide (sd = Side.Sell) && (Order.price r <? Order.price new)) = negb (crosses new r).
Proof.
  intros ->. unfold crosses. destruct (Order.side new); simpl;
    [rewrite orb_false_r|]; apply Bool.eq_true_iff_eq; rewrite negb_true_iff, Z.ltb_lt, Z.leb_gt; done.
Qed.

Lemma ladder_head_find os sd r L : Book.valid os → ladder sd os = r :: L → 
  r ∈ os ∧ Order.side r = sd ∧ Book.find (Order.order_id r) os = Some r.
Proof.
  intros Hv Hl. assert (r ∈ ladder sd os) as Hr by (rewrite Hl; by left).
  apply elem_ladder in Hr as [Hr Hs]. split_and!; [done..|]. apply find_unique; [apply Hv|done].
Qed.

Lemma execute_trade_spec c os new :
  Rep (state c) os → (∀ r, r ∈ os → Order.order_id r ≠ 0) → 0 < Order.quantity new < 2 ^ 32 →
  let l := ladder (Book.opposite (Order.side new)) os in
  ∃ c1, (execute_trade c new = Ok (false, new, c1) ∧ calm c c1 ∧
          (stopped c1 ∨ match l with r :: _ => crosses new r = false | [] => True end)) ∨
  ∃ r L, l = r :: L ∧ crosses new r = true ∧
    let m := Z.min (Order.quantity new) (Order.quantity r) in
    execute_trade c new = Ok (true, Order.set_quantity (Order.quantity new - m) new, c1) ∧
    Rep (state c1) (apply_fill os (r, m)) ∧ next_order_id c1 = next_order_id c ∧
    published c1 = published c ++ [trade_event (r, m)] ∧ (token c = None → token c1 = None).
Proof.
  intros HR Hids Hq l. unfold execute_trade.
  destruct (stop_requested_spec c) as (stop & c1 & -> & Hc1 & Hs1).
  destruct stop. { exists c1. left. auto. }
  rewrite (calm_state _ _ Hc1), (best_opposing_correct _ _ _ _ _ _ _ HR), first_best_ladder. fold l. simpl.
  destruct l as [|r L] eqn:Hl; simpl.
  { exists c1. left. auto. }
  destruct (ladder_head_find os _ r L (rep_valid _ _ _ _ _ (proj1 HR)) Hl) as (Hr & Hsr & Hf).
  unfold Order.INVALID_ORDER_ID. rewrite (proj2 (Z.eqb_neq _ _) (Hids r Hr)), orb_false_l, no_cross_test by done.
  destruct (crosses new r) eqn:Hx; simpl; [|exists c1; left; auto].
  destruct (wait_get_head_ref_spec c1) as ([] & c2 & -> & Hc2 & Hs2); simpl.
  2:{ exists c2. left. split; [done|]. split; [by etrans|auto]. }
  assert (0 < Order.quantity r) as Hqr.
  { pose proof (Book.valid_orders _ (rep_valid _ _ _ _ _ (proj1 HR))) as Hv. rewrite Forall_forall in Hv.
    by destruct (Hv r Hr) as (_ & ? & _). }
  set (m := Z.min (Order.quantity new) (Order.quantity r)).
  destruct (trade_Rep _ _ _ _ _ (state c) os (Order.order_id r) r m HR Hf ltac:(lia)) as (s' & Htr & HR').
  unfold BookState.trade. simpl. rewrite (calm_state _ _ Hc2), (calm_state _ _ Hc1), Htr. simpl.
  eexists. right. exists r, L. rewrite uwrap_small by (unfold in_u; lia).
  split_and!; [done..| | |].
  - simpl. by rewrite (calm_next _ _ Hc2), (calm_next _ _ Hc1).
  - simpl. by rewrite (calm_published _ _ Hc2), (calm_published _ _ Hc1).
  - simpl. intros Ht. by apply (calm_token _ _ Hc2), (calm_token _ _ Hc1).
Qed.

Lemma apply_fill_full os sd r L : Book.valid os → ladder sd os = r :: L →
  ladder sd (apply_fill os (r, Order.quantity r)) = L.
Proof.
  intros Hv Hl. destruct (ladder_head_find os sd r L Hv Hl) as (Hr & _ & Hf).
  unfold apply_fill, Book.trade. simpl. rewrite Hf, Z.eqb_refl.
  rewrite ladder_remove, Hl. apply (remove_here _ [] r L); [|done].
  rewrite app_nil_l, <- Hl. by apply ladder_NoDup, Hv.
Qed.

(** ** The trading loop *)

(** What one fill does to the fills that are left to do. *)
Lemma matches_step os new r L : Book.valid os → ladder (Book.opposite (Order.side new)) os = r :: L →
  crosses new r = true → 0 < Order.quantity new →
  let m := Z.min (Order.quantity new) (Order.quantity r) in
  let new' := Order.set_quantity (Order.quantity new - m) new in
  0 < m ∧ matches new os = (r, m) :: matches new' (apply_fill os (r, m)) ∧
  (Order.quantity new' = 0 ∨ ladder (Book.opposite (Order.side new)) (apply_fill os (r, m)) = L).
Proof.
  intros Hv Hl Hx Hq m new'.
  assert (0 < m) as Hm.
  { destruct (ladder_head_find os _ r L Hv Hl) as (Hr & _ & _).
    pose proof (Book.valid_orders _ Hv) as Hvo. rewrite Forall_forall in Hvo.
    destruct (Hvo r Hr) as (_ & ? & _). lia. }
  assert (matches new os = (r, m) :: fills new (Order.quantity new - m) L) as ->.
  { unfold matches. rewrite Hl. simpl. by rewrite (proj2 (Z.eqb_neq _ _)), Hx by lia. }
  split; [done|]. destruct (decide (m = Order.quantity r)) as [Heq|Hne].
  - assert (ladder (Book.opposite (Order.side new)) (apply_fill os (r, m)) = L) as Hlf
      by (rewrite Heq; by apply apply_fill_full).
    split; [|by right]. unfold matches, new'. simpl. by rewrite Hlf, fills_resize.
  - assert (Order.quantity new - m = 0) as Hz by lia. unfold new'. rewrite Hz. split; [|by left].
    unfold matches. simpl. destruct (ladder _ (apply_fill _ _)), L; done.
Qed.

(** A fill as an event of the abstract book. *)
Lemma fill_spec_run os r m fs us : Book.find (Order.order_id r) os = Some r → 0 < m ≤ Order.quantity r →
  spec_run pl_cap CAPACITY (trade_event <$> fs) (apply_fill os (r, m)) =
    Some (apply_fills fs (apply_fill os (r, m)), us) →
  ∃ us', spec_run pl_cap CAPACITY (trade_event <$> (r, m) :: fs) os = Some (apply_fills ((r, m) :: fs) os, us').
Proof.
  intros Hf Hm Hs. rewrite fmap_cons. cbn [spec_run]. unfold next_orders, report. simpl.
  rewrite Hf. simpl. rewrite decide_True by done. simpl. unfold apply_fill in Hs at 1. simpl in Hs.
  rewrite Hs. simpl. eauto.
Qed.

(** What the loop has done when it ends with order [new'] left of [new]. *)
Record traded c os new fs c' : Prop := {
  td_rep : Rep (state c') (apply_fills fs os);
  td_next : next_order_id c' = next_order_id c;
  td_published : published c' = published c ++ (trade_event <$> fs);
  td_prefix : fs `prefix_of` matches new os;
  td_left : 0 ≤ Order.quantity new - filled fs;
  td_token : token c = None → token c' = None;
  td_spec : ∃ us, spec_run pl_cap CAPACITY (trade_event <$> fs) os = Some (apply_fills fs os, us);
  td_end : stopped c' ∨ (fs = matches new os ∧
    (Order.quantity new - filled fs = 0 ∨ exhausted new (apply_fills fs os)));
}.

Lemma traded_nothing c c1 os new : Rep (state c) os → calm c c1 → 0 ≤ Order.quantity new →
  stopped c1 ∨ (matches new os = [] ∧ (Order.quantity new = 0 ∨ exhausted new os)) →
  traded c os new [] c1.
Proof.
  intros HR Hc Hq Hend. split; simpl.
  - by rewrite (calm_state _ _ Hc).
  - apply Hc.
  - rewrite app_nil_r. apply Hc.
  - apply prefix_nil.
  - unfold filled. simpl. lia.
  - apply Hc.
  - by exists [].
  - unfold filled. simpl. rewrite Z.sub_0_r. destruct Hend as [|[-> ?]]; auto.
Qed.

Lemma filled_cons f fs : filled (f :: fs) = f.2 + filled fs.
Proof. done. Qed.

Lemma trade_loop_spec fuel c os new :
  Rep (state c) os → (∀ r, r ∈ os → Order.order_id r ≠ 0) → in_u 32 (Order.quantity new) →
  Order.quantity new = 0 ∨ (length (ladder (Book.opposite (Order.side new)) os) < fuel)%nat →
  ∃ fs c', trade_loop fuel c new = Ok (Order.set_quantity (Order.quantity new - filled fs) new, c') ∧
    traded c os new fs c'.
Proof.
  revert c os new. induction fuel as [|fuel IH]; intros c os new HR Hids Hq Hfuel;
    cbn [trade_loop]; destruct (Z.eqb_spec (Order.quantity new) 0) as [H0|H0].
  1, 3: exists [], c; split; [unfold filled; simpl; rewrite Z.sub_0_r; by destruct new|].
  1, 2: apply traded_nothing; [done..|lia|right; split; [|by left]].
  1, 2: unfold matches; destruct (ladder _ os); simpl; [done|]; by rewrite H0.
  { destruct Hfuel; lia. }
  unfold in_u in Hq. destruct Hfuel as [|Hfuel]; [done|].
  destruct (execute_trade_spec c os new HR Hids ltac:(lia)) as (c1 & [(-> & Hc1 & Hend)|Htrade]); simpl.
  { exists [], c1. split; [unfold filled; simpl; rewrite Z.sub_0_r; by destruct new|].
    apply traded_nothing; [done..|lia|]. destruct Hend as [|Hend]; [by left|right].
    split; [|right; by apply head_exhausted].
    unfold matches. destruct (ladder _ os) as [|r L]; [done|]. simpl. by rewrite Hend, orb_true_r. }
  destruct Htrade as (r & L & Hl & Hx & -> & HR1 & Hn1 & Hp1 & Ht1). simpl.
  destruct (matches_step os new r L (rep_valid _ _ _ _ _ (proj1 HR)) Hl Hx ltac:(lia)) as (Hm & Hmat & Hlad).
  set (m := Z.min (Order.quantity new) (Order.quantity r)) in *.
  destruct (IH c1 (apply_fill os (r, m)) (Order.set_quantity (Order.quantity new - m) new))
    as (fs & c2 & -> & Htd); [done| | | |].
  - intros r' Hr'. destruct (shr_origin _ _ (shrinks_trade (Order.order_id r) m os) r' Hr') as (o & Ho & <- & _).
    by apply Hids.
  - unfold in_u. simpl. lia.
  - destruct Hlad as [|Hlad]; [by left|right]. simpl. rewrite Hlad. rewrite Hl in Hfuel. simpl in Hfuel. lia.
  - exists ((r, m) :: fs), c2. split.
    + rewrite filled_cons. simpl. by rewrite <- Z.sub_add_distr.
    + destruct Htd as [Hr2 Hn2 Hp2 Hpre Hleft Htok [us Hspec] Hend]. simpl in Hleft. split.
      * done.
      * congruence.
      * rewrite Hp2, Hp1, fmap_cons, <- app_assoc. done.
      * rewrite Hmat. by apply prefix_cons.
      * rewrite filled_cons. simpl. lia.
      * auto.
      * destruct (ladder_head_find os _ r L (rep_valid _ _ _ _ _ (proj1 HR)) Hl) as (_ & _ & Hf).
        apply fill_spec_run with (us := us); [done|lia|done].
      * rewrite Hmat, filled_cons. simpl in *. destruct Hend as [|[-> Hend]]; [by left|right].
        split; [done|]. replace (Order.quantity new - (m + filled (matches _ _))) with
          (Order.quantity new - m - filled (matches (Order.set_quantity (Order.quantity new - m) new)
             (apply_fill os (r, m)))) by lia. exact Hend.
Qed.

(** ** The invariant of the matching engine *)

Record inv c os : Prop := {
  inv_Rep : Rep (state c) os;
  inv_uncrossed : Book.uncrossed os;
  inv_next : 0 < next_order_id c;
  inv_ids o : o ∈ os → 0 < Order.order_id o < next_order_id c;
  inv_published : Forall MarketEvent.wf (published c);
}.

(** [c'] is [c] after publishing [es], which takes [os] to [os']. *)
Record step c os es c' os' : Prop := {
  st_inv : inv c' os';
  st_published : published c' = published c ++ es;
  st_spec : ∃ us, spec_run pl_cap CAPACITY es os = Some (os', us);
  st_next : next_order_id c ≤ next_order_id c' ≤ next_order_id c + 1;
  st_token : token c = None → token c' = None;
}.

Lemma inv_calm c c' os : inv c os → calm c c' → inv c' os.
Proof.
  intros [HR Hu Hn Hids Hp] Hc. split; [by rewrite (calm_state _ _ Hc)|done|..];
    by rewrite ?(calm_next _ _ Hc), ?(calm_published _ _ Hc).
Qed.

Lemma step_nothing c c' os : inv c os → calm c c' → step c os [] c' os.
Proof.
  intros Hi Hc. split.
  - by eapply inv_calm.
  - rewrite app_nil_r. apply Hc.
  - by exists [].
  - rewrite (calm_next _ _ Hc). lia.
  - apply Hc.
Qed.

Lemma inv_ids_nonzero c os r : inv c os → r ∈ os → Order.order_id r ≠ 0.
Proof. intros Hi Hr. apply (inv_ids _ _ Hi) in Hr. lia. Qed.

Lemma spec_run_app es1 es2 os os1 os2 us1 us2 :
  spec_run pl_cap CAPACITY es1 os = Some (os1, us1) → spec_run pl_cap CAPACITY es2 os1 = Some (os2, us2) →
  spec_run pl_cap CAPACITY (es1 ++ es2) os = Some (os2, us1 ++ us2).
Proof.
  revert os us1. induction es1 as [|e es1 IH]; intros os us1; simpl; [by intros [= <- <-]|].
  destruct (next_orders _ _ e os) as [os'|]; simpl; [|done].
  destruct (report e os) as [u|]; simpl; [|done].
  destruct (spec_run _ _ es1 os') as [[os'' us']|] eqn:E; simpl; [|done]. intros [= -> <-] H2.
  by rewrite (IH os' us' E H2).
Qed.

(** ** Placing an order *)

(** There is room for one more order, at a new price if need be. *)
Definition room c os : Prop :=
  Z.of_nat (length os) < CAPACITY ∧ Z.of_nat (length os) < pl_cap ∧ next_order_id c < 2 ^ 64 - 1.

Lemma prices_size os : (size (Book.prices os) ≤ length os)%nat.
Proof.
  unfold Book.prices. rewrite <- (length_fmap Order.price os). generalize (Order.price <$> os). intros l.
  induction l as [|p l IH]; [by change (size (∅ : gset Z) ≤ 0)%nat; rewrite size_empty|]. simpl.
  pose proof (size_union_alt {[p]} (list_to_set l : gset Z)) as Hs. rewrite size_singleton in Hs.
  assert (size (list_to_set l ∖ {[p]} : gset Z) ≤ size (list_to_set l : gset Z))%nat
    by (apply subseteq_size; set_solver). lia.
Qed.

Lemma add_order_spec c os o : inv c os → Book.valid_order o → exhausted o os →
  (∀ r, r ∈ os → Order.order_id r < Order.order_id o) → 0 < Order.order_id o < next_order_id c →
  Z.of_nat (length os) < CAPACITY → Z.of_nat (length os) < pl_cap →
  ∃ es c' os', add_order c o = Ok c' ∧ inv c' os' ∧ published c' = published c ++ es ∧
    (∃ us, spec_run pl_cap CAPACITY es os = Some (os', us)) ∧
    next_order_id c' = next_order_id c ∧ (token c = None → token c' = None) ∧
    (os' = os ∨ os' = Book.add o os) ∧
    (token c = None → es = [{| MarketEvent.order := o; MarketEvent.type := MarketEvent.Add |}] ∧
       os' = Book.add o os).
Proof.
  intros Hi Hv He Hfresh Hid Hlen Hpl. unfold add_order.
  destruct (wait_get_head_ref_spec c) as ([] & c1 & -> & Hc1 & Hs1); simpl.
  2:{ exists [], c1, os. split_and!; [done|by eapply inv_calm| | |apply Hc1|apply Hc1|by left|].
      - rewrite app_nil_r. apply Hc1.
      - by exists [].
      - intros Ht. by destruct (calm_not_stopped _ _ Hc1 Ht (Hs1 eq_refl)). }
  set (e := {| MarketEvent.order := o; MarketEvent.type := MarketEvent.Add |}).
  assert (can_add o os) as Hcan.
  { apply exhausted_can_add; [done..|]. intros (r & Heq & Hr)%list_elem_of_fmap.
    specialize (Hfresh r Hr). lia. }
  assert (level_room pl_cap (Order.price o) os) as Hroom.
  { right. pose proof (prices_size os). lia. }
  destruct (add_Rep pl_cap om_cap pl_repr om_repr CAPACITY (state c1) os e) as (s' & Hadd & HR'); try done.
  { rewrite (calm_state _ _ Hc1). apply Hi. }
  rewrite Hadd. simpl. exists [e], (set_state s' (publish e c1)), (Book.add o os). split_and!; [done| | | | |by apply Hc1|by right|done].
  - split; simpl; rewrite ?(calm_next _ _ Hc1), ?(calm_published _ _ Hc1); [done|apply uncrossed_add; [apply Hi|done]|apply Hi| |].
    + intros r Hr. unfold Book.add in Hr.
      apply elem_of_app in Hr as [Hr| ->%list_elem_of_singleton]; [by apply (inv_ids _ _ Hi)|done].
    + apply Forall_app. split; [apply Hi|]. constructor; [apply Hv|constructor].
  - simpl. by rewrite (calm_published _ _ Hc1).
  - simpl. unfold next_orders. simpl. rewrite decide_True by done. simpl. eauto.
  - apply Hc1.
Qed.

(** The order a request describes, before it has an id. *)
Definition incoming (side : Side.t) (request : OrderRequest.t) : Order.t :=
  {| Order.order_id := 0; Order.price := OrderRequest.price request;
     Order.quantity := OrderRequest.quantity request; Order.side := side |}.

Definition can_place c os (request : OrderRequest.t) : Prop :=
  in_u 32 (OrderRequest.quantity request) ∧
  (OrderRequest.quantity request = 0 ∨
   BookState.NO_BID < OrderRequest.price request < BookState.NO_OFFER ∧ room c os).

Lemma traded_inv c os new fs c' : inv c os → in_u 32 (Order.quantity new) → traded c os new fs c' → inv c' (apply_fills fs os).
Proof.
  intros Hi Hq Htd. split; rewrite ?(td_next _ _ _ _ _ Htd), ?(td_published _ _ _ _ _ Htd);
    [apply Htd|eapply shrinks_uncrossed; [apply shrinks_fills|apply Hi]|apply Hi| |].
  - intros o Ho.
    destruct (shr_origin _ _ (shrinks_fills fs os) o Ho) as (o' & Ho' & <- & _). by apply (inv_ids _ _ Hi).
  - apply Forall_app. split; [apply Hi|]. eapply matches_wf; [by eapply rep_valid, Hi|apply Hq|by eapply td_prefix].
Qed.

Lemma traded_step c os new fs c' c1 : inv c os → in_u 32 (Order.quantity new) → traded c os new fs c' → calm c' c1 →
  step c os (trade_event <$> fs) c1 (apply_fills fs os).
Proof.
  intros Hi Hq Htd Hc. split.
  - eapply inv_calm; [by eapply traded_inv|done].
  - rewrite (calm_published _ _ Hc). apply Htd.
  - apply Htd.
  - rewrite (calm_next _ _ Hc), (td_next _ _ _ _ _ Htd). lia.
  - intros Ht. by apply (calm_token _ _ Hc), (td_token _ _ _ _ _ Htd).
Qed.

Lemma ladder_fuel c os sd : Rep (state c) os → (length (ladder sd os) < loop_fuel CAPACITY)%nat.
Proof.
  intros [Hr _]. unfold loop_fuel, ladder. rewrite prioritise_Permutation.
  pose proof (rep_length _ _ _ _ _ Hr) as Hl.
  pose proof (length_filter (λ o, Order.side o = sd) os). lia.
Qed.

(** The unfilled rest of an order, when nothing stopped the engine. *)
Lemma rest_order_spec c os new fs c1 : inv c os → traded c os new fs c1 → ¬ stopped c1 → room c os →
  let left := Order.quantity new - filled fs in
  left ≠ 0 → in_u 32 (Order.quantity new) → 0 ≤ filled fs →
  BookState.NO_BID < Order.price new < BookState.NO_OFFER →
  let o := Order.set_order_id (next_order_id c) (Order.set_quantity left new) in
  ∀ c2, calm c1 c2 →
  ∃ es c' os', add_order (set_next_order_id (u64 (next_order_id c2 + 1)) c2) o = Ok c' ∧
    step c os ((trade_event <$> fs) ++ es) c' os' ∧
    (os' = apply_fills fs os ∨ os' = Book.add o (apply_fills fs os)) ∧
    (token c = None → es = [{| MarketEvent.order := o; MarketEvent.type := MarketEvent.Add |}] ∧
       os' = Book.add o (apply_fills fs os)).
Proof.
  intros Hi Htd Hns (Hlen & Hpl & Hnext) left Hl Hq Hf Hp o c2 Hc2.
  pose proof (td_left _ _ _ _ _ Htd) as Hleft. fold left in Hleft.
  pose proof (traded_step c os new fs c1 c2 Hi Hq Htd Hc2) as [Hi2 Hpub2 [us Hspec2] Hn2 Htok2].
  assert (next_order_id c2 = next_order_id c) as Hneq
    by (by rewrite (calm_next _ _ Hc2), (td_next _ _ _ _ _ Htd)).
  pose proof (inv_next _ _ Hi) as Hpos. rewrite Hneq, uwrap_small by (unfold in_u; lia).
  pose proof (shrinks_fills fs os) as Hshr. pose proof (shr_length _ _ Hshr) as Hlen'.
  destruct (add_order_spec (set_next_order_id (next_order_id c + 1) c2) (apply_fills fs os) o)
    as (es & c' & os' & Hadd & Hi' & Hpub & [us' Hspec'] & Hn' & Htok' & Hrests & Hall).
  - destruct Hi2 as [HR Hu _ Hids Hp2]. split; simpl; [done|done|lia| |done].
    intros r Hr. specialize (Hids r Hr). lia.
  - unfold Book.valid_order, Order.wf, in_u, in_s, BookState.NO_BID, BookState.NO_OFFER, INT32_MIN, INT32_MAX in *.
    simpl. lia.
  - destruct (td_end _ _ _ _ _ Htd) as [|[_ [|He]]]; [done|lia|exact He].
  - intros r Hr. apply (inv_ids _ _ Hi2) in Hr. simpl. lia.
  - simpl. lia.
  - lia.
  - lia.
  - exists es, c', os'. split; [done|]. simpl in *. split_and!.
    + split; [done| | |lia|auto].
      * by rewrite Hpub, Hpub2, app_assoc.
      * eexists. by eapply spec_run_app.
    + done.
    + auto.
Qed.

(** What an incoming order may do to the orders: shrink them, and rest under the
    id that is returned. *)
Definition rests_at_most (id : Z) (request : OrderRequest.t) os os' : Prop :=
  ∃ os1, shrinks os os1 ∧ (∀ b, below b os → below b os1) ∧
    (os' = os1 ∨ ∃ o, os' = Book.add o os1 ∧ Order.order_id o = id ∧ 0 < id ∧
      Order.price o = OrderRequest.price request ∧ 0 < Order.quantity o ≤ OrderRequest.quantity request).

Lemma rests_nothing id request os fs : Forall (λ f, 0 ≤ f.2) fs → rests_at_most id request os (apply_fills fs os).
Proof. intros Hfs. exists (apply_fills fs os). split_and!; [apply shrinks_fills|intros b; by apply below_fills|by left]. Qed.

Lemma place_order_spec side c os request : inv c os → can_place c os request →
  ∃ id es c' os', place_order CAPACITY side c request = Ok (id, c') ∧ step c os es c' os' ∧
    rests_at_most id request os os' ∧
    (token c = None → (id, es, os') = place (next_order_id c) (incoming side request) os).
Proof.
  intros Hi [Hq Hroom]. unfold place_order. destruct (Z.eqb_spec (OrderRequest.quantity request) 0) as [H0|H0].
  { exists Order.INVALID_ORDER_ID, [], c, os. split; [done|]. split; [by apply step_nothing|]. split; [by apply (rests_nothing _ _ os [])|]. intros _.
    unfold place, matches, incoming. simpl. rewrite H0. by destruct (ladder _ os). }
  destruct Hroom as [|[Hp Hroom]]; [done|]. fold (incoming side request).
  set (new := incoming side request).
  destruct (trade_loop_spec (loop_fuel CAPACITY) c os new) as (fs & c1 & -> & Htd); simpl.
  { apply Hi. } { intros r. by apply inv_ids_nonzero with c. } { done. }
  { right. eapply ladder_fuel, Hi. }
  change (OrderRequest.quantity request) with (Order.quantity new) in *.
  set (left := Order.quantity new - filled fs).
  assert (Forall (λ f, 0 ≤ f.2) fs) as Hfs by (eapply matches_nonneg; [by eapply rep_valid, Hi|apply Hq|by eapply td_prefix]).
  pose proof (filled_nonneg fs Hfs) as Hf.
  assert (token c = None → fs = matches new os) as Hall.
  { intros Ht. destruct (td_end _ _ _ _ _ Htd) as [Hs|[? _]]; [|done].
    by rewrite (td_token _ _ _ _ _ Htd Ht) in Hs. }
  destruct (Z.eqb_spec left 0) as [Hl0|Hl0].
  { eexists _, _, _, _. split; [done|]. split; [by eapply traded_step|]. split; [by apply rests_nothing|]. intros Ht. unfold place.
    rewrite <- (Hall Ht). fold left. by rewrite Hl0. }
  destruct (stop_requested_spec c1) as (stop & c2 & Hstop & Hc2 & Hs2).
  rewrite Hstop. destruct stop.
  { eexists _, _, _, _. split; [done|]. split; [by eapply traded_step|]. split; [by apply rests_nothing|]. intros Ht.
    specialize (Hs2 eq_refl). rewrite (calm_token _ _ Hc2) in Hs2; [done|]. by apply Htd. }
  destruct (rest_order_spec c os new fs c1 Hi Htd) with (c2 := c2) as (es & c' & os' & Hadd & Hst & Hrests & Hex); try done.
  { intros Hs. unfold stop_requested in Hstop. by rewrite Hs in Hstop. }
  pose proof (td_left _ _ _ _ _ Htd) as Hleft. pose proof (inv_next _ _ Hi) as Hpos. fold left in Hleft, Hrests.
  rewrite (calm_next _ _ Hc2), (td_next _ _ _ _ _ Htd) in *. fold left in Hadd. rewrite Hadd. simpl.
  eexists _, _, _, _. split; [done|]. split; [exact Hst|]. split.
  { exists (apply_fills fs os). split; [apply shrinks_fills|]. split; [intros b; by apply below_fills|].
    destruct Hrests as [->| ->]; [by left|right]. eexists. unfold left, new in *. simpl in *. split_and!; first [done|simpl; lia]. }
  intros Ht. destruct (Hex Ht) as [-> ->].
  unfold place. rewrite <- (Hall Ht). fold left. by rewrite (proj2 (Z.eqb_neq _ _) Hl0).
Qed.

(** ** Cancels and updates *)

(** An event that shrinks the book, published after the change. *)
Lemma inv_shrink c os os' s e : inv c os → Rep s os' → shrinks os os' → MarketEvent.wf e →
  inv (publish e (set_state s c)) os'.
Proof.
  intros Hi HR Hshr He. split; simpl; [done|by eapply shrinks_uncrossed, Hi|apply Hi| |].
  - intros r Hin. destruct (shr_origin _ _ Hshr r Hin) as (r' & Hr' & <- & _). by apply (inv_ids _ _ Hi).
  - apply Forall_app. split; [apply Hi|]. by constructor.
Qed.

(** The events that name a resting order by its id. *)
Lemma resting_wf c os id o q : inv c os → Book.find id os = Some o → in_u 32 q →
  Order.wf (Order.set_order_id id (Order.set_quantity q Order.zero)).
Proof.
  intros Hi [Ho <-]%find_Some Hq.
  pose proof (Book.valid_orders os (rep_valid _ _ _ _ _ (proj1 (inv_Rep _ _ Hi)))) as Hv. rewrite Forall_forall in Hv.
  destruct (Hv o Ho) as ((Hid & _) & _). split; [done|]. split; [by vm_compute|done].
Qed.

Lemma cancel_order_spec c os request : inv c os →
  let id := OrderRequest.order_id request in
  ∃ result es c' os', cancel_order c request = Ok (result, c') ∧ step c os es c' os' ∧
    (Book.find id os = None → result = Unexpected ExchangeError.OrderDoesNotExist ∧ es = [] ∧ c' = c) ∧
    (is_Some (Book.find id os) → result = Value tt ∧ (os' = Book.cancel id os ∨ os' = os ∧ stopped c') ∧
      (token c = None → os' = Book.cancel id os)).
Proof.
  intros Hi id. unfold cancel_order. fold id. pose proof (inv_Rep _ _ Hi) as [Hr _].
  rewrite (order_exists_spec _ _ _ _ _ (state c) os id Hr).
  destruct (Book.find id os) as [o|] eqn:Hf.
  2:{ rewrite bool_decide_eq_false_2 by (by intros ?%is_Some_None). eexists _, [], c, os.
      split; [done|]. split; [by apply step_nothing|]. split; [done|by intros ?%is_Some_None]. }
  rewrite bool_decide_eq_true_2 by done. simpl.
  destruct (wait_get_head_ref_spec c) as ([] & c1 & -> & Hc1 & Hs1); simpl.
  2:{ eexists _, [], c1, os. split; [done|]. split; [by apply step_nothing|]. split; [done|].
      intros _. split; [done|]. split; [right; auto|]. intros Ht. by destruct (calm_not_stopped _ _ Hc1 Ht (Hs1 eq_refl)). }
  pose proof (inv_Rep _ _ (inv_calm _ _ _ Hi Hc1)) as HR1.
  destruct (cancel_Rep _ _ _ _ _ (state c1) os id o HR1 Hf) as (s' & Hcan & HR').
  unfold BookState.cancel. simpl. rewrite Hcan. simpl. eexists _, [_], _, (Book.cancel id os).
  split; [done|]. split; [|split; [done|intros _; split_and!; auto]]. pose proof (shrinks_remove id os) as Hshr.
  split; simpl; rewrite ?(calm_next _ _ Hc1); [| | |lia|apply Hc1].
  - apply (inv_shrink c1 os); [by eapply inv_calm|done|done|]. by apply (resting_wf c os id o 0).
  - by rewrite (calm_published _ _ Hc1).
  - unfold next_orders, report. simpl. rewrite Hf. simpl. eauto.
Qed.

(** An update the cache of the book survives. *)
Definition clean_update os (request : OrderRequest.t) : Prop :=
  in_u 32 (OrderRequest.quantity request) ∧
  match Book.find (OrderRequest.order_id request) os with
  | None => True
  | Some o => OrderRequest.quantity request = 0 ∨ Book.best (Order.side o) os ≠ Some (Order.price o)
  end.

Lemma update_order_spec c os request : inv c os → clean_update os request →
  let id := OrderRequest.order_id request in
  let q := OrderRequest.quantity request in
  ∃ result es c' os', update_order c request = Ok (result, c') ∧ step c os es c' os' ∧
    (Book.find id os = None → result = Unexpected ExchangeError.OrderDoesNotExist ∧ es = [] ∧ c' = c) ∧
    (is_Some (Book.find id os) → result = Value tt ∧ (token c = None → os' = Book.update id q os)).
Proof.
  intros Hi [Hq Hclean] id q. unfold update_order. fold id q. fold id in Hclean. fold q in Hq, Hclean.
  pose proof (inv_Rep _ _ Hi) as [Hr _].
  rewrite (order_exists_spec _ _ _ _ _ (state c) os id Hr).
  destruct (Book.find id os) as [o|] eqn:Hf.
  2:{ rewrite bool_decide_eq_false_2 by (by intros ?%is_Some_None). eexists _, [], c, os.
      split; [done|]. split; [by apply step_nothing|]. split; [done|by intros ?%is_Some_None]. }
  rewrite bool_decide_eq_true_2 by done. simpl.
  destruct (wait_get_head_ref_spec c) as ([] & c1 & -> & Hc1 & Hs1); simpl.
  2:{ eexists _, [], c1, os. split; [done|]. split; [by apply step_nothing|]. split; [done|].
      intros _. split; [done|]. intros Ht. by destruct (calm_not_stopped _ _ Hc1 Ht (Hs1 eq_refl)). }
  pose proof (inv_Rep _ _ (inv_calm _ _ _ Hi Hc1)) as HR1.
  set (e := {| MarketEvent.order := Order.set_order_id id (Order.set_quantity q Order.zero);
               MarketEvent.type := MarketEvent.Update |}).
  assert (next_orders pl_cap CAPACITY e os = Some (Book.update id q os)) as Hn.
  { unfold next_orders. simpl. rewrite Hf. simpl. by rewrite decide_True by exact Hq. }
  assert (∃ u, report e os = Some u) as [u Hu].
  { unfold report. simpl. rewrite Hf. simpl. case_decide as Hq0; [eauto|].
    destruct Hclean as [|Hne]; [done|]. rewrite decide_False by done. eauto. }
  destruct (execute_Rep _ _ _ _ _ (state c1) os e _ u Hom HR1 Hn Hu) as (s' & Hup & HR').
  unfold BookState.execute in Hup. simpl in Hup. rewrite Hup. simpl.
  eexists _, [e], _, (Book.update id q os).
  split; [done|]. split; [|by split]. pose proof (shrinks_update id q os) as Hshr.
  split; simpl; rewrite ?(calm_next _ _ Hc1); [| | |lia|apply Hc1].
  - apply (inv_shrink c1 os); [by eapply inv_calm|done|done|]. by apply (resting_wf c os id o q).
  - by rewrite (calm_published _ _ Hc1).
  - rewrite Hn. simpl. rewrite Hu. simpl. eauto.
Qed.

(** ** Requests *)

(** What the theorems ask of a request. *)
Definition admissible c os (request : OrderRequest.t) : Prop :=
  match OrderRequest.type request with
  | OrderRequest.Buy | OrderRequest.Sell => can_place c os request
  | OrderRequest.Cancel => True
  | OrderRequest.Update => clean_update os request
  end.

Lemma submit_spec c os request : inv c os → admissible c os request →
  ∃ result es c' os', submit CAPACITY c request = Ok (result, c') ∧ step c os es c' os'.
Proof.
  intros Hi Ha. unfold submit, admissible in *. destruct (OrderRequest.type request).
  - destruct (place_order_spec Side.Buy c os request Hi Ha) as (id & es & c' & os' & Hp & Hst & _).
    unfold buy_order. rewrite Hp. simpl. by eexists _, es, c', os'.
  - destruct (place_order_spec Side.Sell c os request Hi Ha) as (id & es & c' & os' & Hp & Hst & _).
    unfold sell_order. rewrite Hp. simpl. by eexists _, es, c', os'.
  - destruct (cancel_order_spec c os request Hi) as (res & es & c' & os' & Hp & Hst & _).
    rewrite Hp. simpl. by eexists _, es, c', os'.
  - destruct (update_order_spec c os request Hi Ha) as (res & es & c' & os' & Hp & Hst & _).
    rewrite Hp. simpl. by eexists _, es, c', os'.
Qed.
End ClobProof.
