(* ===== verification/ClobProperties.v ===== *)
(** * Properties of the exchange

    The matching engine over the program's book: price-time priority, the log of
    events as the single source of truth, conservation of quantity, and the
    sequence of requests that makes it dereference an empty optional. *)

From S2P Require Import Prelude Types Interfaces HashMap OrderPool OrderQueue PriceSet OrderBook BookSpec BookRep BookOps BookCache BookPurge BookResize BookRefine BookUpdate BookTrace HashedBook Clob Matching ClobProof.
Import Clob Matching.

(** ** Conservation in the reference matching *)

Section Conservation.
Implicit Types (os : list Order.t) (new r : Order.t) (fs : list (Order.t * Z)).

Lemma total_trade os r m : NoDup (Order.order_id <$> os) → r ∈ os →
  Book.total (Book.trade (Order.order_id r) m os) = Book.total os - m.
Proof.
  intros Hnd Hr. unfold Book.trade. rewrite (find_unique os r Hnd Hr).
  apply list_elem_of_split in Hr as (os1 & os2 & ->). destruct (Z.eqb_spec (Order.quantity r) m) as [<-|Hne].
  - rewrite remove_here by done. rewrite !Book.total_app, Book.total_cons. lia.
  - rewrite set_quantity_here by done. rewrite !Book.total_app, !Book.total_cons. simpl. lia.
Qed.

(** Every fill trades with the other side at the resting order's price, which is
    within the limit of the incoming order, and takes a positive part of it. *)
Definition fair new (f : Order.t * Z) : Prop :=
  Order.side f.1 = Book.opposite (Order.side new) ∧ crosses new f.1 = true ∧ 0 < f.2 ≤ Order.quantity f.1.

Lemma fills_fair new q l : 0 ≤ q →
  Forall (λ r, Order.side r = Book.opposite (Order.side new) ∧ 0 < Order.quantity r) l →
  Forall (fair new) (fills new q l).
Proof.
  revert q. induction l as [|r l IH]; intros q Hq; simpl; [done|]. intros [Hr Hl]%Forall_cons. simpl in Hr.
  destruct (Z.eqb_spec q 0); simpl; [done|]. destruct (crosses new r) eqn:Hx; simpl; [|done].
  constructor; [split_and!; simpl; [apply Hr|done|lia|lia]|]. apply IH; [lia|done].
Qed.

Lemma filled_le new q l : 0 ≤ q → Forall (λ r, 0 < Order.quantity r) l → filled (fills new q l) ≤ q.
Proof.
  revert q. induction l as [|r l IH]; intros q Hq; simpl; [by unfold filled; simpl|].
  intros [Hr Hl]%Forall_cons. simpl in Hr.
  destruct (_ || _); [by unfold filled; simpl|].
  specialize (IH (q - Z.min q (Order.quantity r)) ltac:(lia) Hl). rewrite filled_cons. simpl. lia.
Qed.

Lemma matches_fair new os : Book.valid os → 0 ≤ Order.quantity new →
  Forall (fair new) (matches new os) ∧ filled (matches new os) ≤ Order.quantity new.
Proof.
  intros Hv Hq.
  assert (∀ r, r ∈ ladder (Book.opposite (Order.side new)) os →
    Order.side r = Book.opposite (Order.side new) ∧ 0 < Order.quantity r) as Hf.
  { intros r [Hr Hs]%elem_ladder. split; [done|].
    pose proof (Book.valid_orders _ Hv) as Hvo. rewrite Forall_forall in Hvo. by destruct (Hvo r Hr) as (_ & ? & _). }
  split; [apply fills_fair|apply filled_le]; try done; apply Forall_forall; naive_solver.
Qed.

(** The quantities of the trades, or of the additions, of a list of events. *)
Fixpoint quantity_of (ty : MarketEvent.Type_) (es : list MarketEvent.t) : Z :=
  match es with
  | [] => 0
  | e :: es =>
      (if decide (MarketEvent.type e = ty) then Order.quantity (MarketEvent.order e) else 0) + quantity_of ty es
  end.

Lemma quantity_of_trades fs : quantity_of MarketEvent.Trade (trade_event <$> fs) = filled fs ∧
  quantity_of MarketEvent.Add (trade_event <$> fs) = 0.
Proof.
  induction fs as [|f fs [IH1 IH2]]; [done|]. rewrite filled_cons, <- IH1, <- IH2. done.
Qed.

Lemma quantity_of_app ty es es' : quantity_of ty (es ++ es') = quantity_of ty es + quantity_of ty es'.
Proof. induction es as [|e es IH]; simpl; lia. Qed.

Lemma ids_remove id os : NoDup (Order.order_id <$> os) → NoDup (Order.order_id <$> Book.remove id os).
Proof.
  unfold Book.remove. induction os as [|o os IH]; [done|]. rewrite fmap_cons. intros [Hn Hnd]%NoDup_cons.
  rewrite filter_cons. case_decide; [|by apply IH]. rewrite fmap_cons. constructor; [|by apply IH].
  intros (o' & Heq & [_ Ho']%list_elem_of_filter)%list_elem_of_fmap. apply Hn. rewrite Heq.
  by apply list_elem_of_fmap_2.
Qed.

Lemma ids_set_quantity id q os : Order.order_id <$> Book.set_quantity id q os = Order.order_id <$> os.
Proof.
  unfold Book.set_quantity. rewrite <- list_fmap_compose. apply list_fmap_ext.
  intros _ o _. simpl. by case_match.
Qed.

Lemma ids_trade id q os : NoDup (Order.order_id <$> os) → NoDup (Order.order_id <$> Book.trade id q os).
Proof.
  intros Hnd. unfold Book.trade. destruct (Book.find id os); [|done].
  case_match; [by apply ids_remove|by rewrite ids_set_quantity].
Qed.

(** Trades take quantity off the book, additions put it on. *)
Lemma spec_run_total pl_cap CAP es os os' us : NoDup (Order.order_id <$> os) →
  Forall (λ e, MarketEvent.type e = MarketEvent.Trade ∨ MarketEvent.type e = MarketEvent.Add) es →
  spec_run pl_cap CAP es os = Some (os', us) →
  Book.total os' = Book.total os - quantity_of MarketEvent.Trade es + quantity_of MarketEvent.Add es.
Proof.
  revert os us. induction es as [|e es IH]; intros os us Hnd; simpl.
  { intros _ [= <- _]. lia. }
  intros [Ht Hes]%Forall_cons. destruct (next_orders _ _ e os) as [os1|] eqn:Hn; simpl; [|done].
  destruct (report e os) as [u|]; simpl; [|done].
  destruct (spec_run _ _ es os1) as [[os2 us2]|] eqn:Hr; simpl; [|done]. intros [= -> _].
  unfold next_orders in Hn. destruct Ht as [Ht|Ht]; rewrite Ht in *.
  - destruct (Book.find _ os) as [r|] eqn:Hf; simpl in Hn; [|done]. case_decide; [|done]. injection Hn as <-.
    destruct (find_Some _ _ _ Hf) as [Hin Hid]. rewrite <- Hid in Hr.
    rewrite (IH _ us2 (ids_trade _ _ _ Hnd) Hes Hr), (total_trade _ _ _ Hnd Hin).
    rewrite decide_True, decide_False by done. lia.
  - case_decide as Hd; [|done]. injection Hn as <-. destruct Hd as ((_ & Hfresh & _) & _).
    rewrite (IH (Book.add (MarketEvent.order e) os) us2); [|..|done|done].
    + unfold Book.add. rewrite Book.total_app, Book.total_cons, decide_False, decide_True by done.
      unfold Book.total at 2. simpl. lia.
    + unfold Book.add. rewrite fmap_app. apply NoDup_app. split_and!; [done| |apply NoDup_singleton]. set_solver.
Qed.
End Conservation.

Section Exchange.
Context (hash_price hash_id : Z → Z) (LEVELS ORDERS : Z).
Context {HL : PowerOfTwo (LEVELS * 2)} {HO : PowerOfTwo (ORDERS * 2)}.
#[local] Instance levels_instance : KeyedStore (ClosedHashMap.t Z BookState.PriceLevel) Z BookState.PriceLevel :=
  level_store hash_price LEVELS.
#[local] Instance orders_instance : KeyedStore (ClosedHashMap.t Z Z) Z Z := order_store hash_id ORDERS.
#[local] Instance levels_laws :
  KeyedStoreLaws (ClosedHashMap.t Z BookState.PriceLevel) Z BookState.PriceLevel (LEVELS * 2)
    (ClosedHashMap.repr hash_price (LEVELS * 2)).
Proof. apply level_store_laws; done. Qed.
#[local] Instance orders_laws :
  KeyedStoreLaws (ClosedHashMap.t Z Z) Z Z (ORDERS * 2) (ClosedHashMap.repr hash_id (ORDERS * 2)).
Proof. apply order_store_laws; done. Qed.

Definition exchange : Type := t (ClosedHashMap.t Z BookState.PriceLevel) (ClosedHashMap.t Z Z).

(** A fresh engine with the given stop token and buffer delays. *)
Definition exchange_init (tok : option nat) (ds : list nat) : exchange := init (empty_book LEVELS ORDERS) tok ds.
Definition exchange_submit (c : exchange) (r : OrderRequest.t) := submit ORDERS c r.
Definition exchange_submit_all (c : exchange) (rs : list OrderRequest.t) := submit_all ORDERS c rs.

(** The resting orders according to the published log. *)
Definition logged_orders (c : exchange) : option (list Order.t) :=
  fst <$> spec_run (LEVELS * 2) ORDERS (published c) [].

Implicit Types (c : exchange) (os : list Order.t) (request : OrderRequest.t) (rs : list OrderRequest.t).

#[local] Instance admissible_dec c os request : Decision (admissible (LEVELS * 2) ORDERS c os request).
Proof.
  unfold admissible, can_place, clean_update, room.
  destruct (OrderRequest.type request); try apply _.
  destruct (Book.find _ _); apply _.
Defined.

(** A request that respects the capacities and is not a positive update of an
    order at a best price, given the orders its client can read off the log; and
    a sequence of such requests.  These ask something of the client alone: of an
    exchange whose log does not replay, or that does not serve a request, they
    ask nothing more, so that the log replays and every request is served is
    always a conclusion of the theorems below and never their hypothesis. *)
Definition accepts c request : bool :=
  match logged_orders c with
  | Some os => bool_decide (admissible (LEVELS * 2) ORDERS c os request)
  | None => true
  end.
Fixpoint accepts_all c rs : bool :=
  match rs with
  | [] => true
  | r :: rs => accepts c r && match exchange_submit c r with Ok (_, c') => accepts_all c' rs | _ => true end
  end.

Abbreviation cinv := (inv (ClosedHashMap.repr hash_price (LEVELS * 2)) (ClosedHashMap.repr hash_id (ORDERS * 2)) ORDERS).

Definition exchange_inv c os : Prop :=
  cinv c os ∧ ∃ us, spec_run (LEVELS * 2) ORDERS (published c) [] = Some (os, us).

Lemma exchange_inv_init tok ds : ORDERS < 2 ^ 32 → exchange_inv (exchange_init tok ds) [].
Proof.
  intros Hcap. split; [|by exists []].
  split; simpl; [by apply empty_book_Rep|intros ? ?; set_solver|lia|intros ?; set_solver|constructor].
Qed.

Lemma exchange_inv_step c os es c' os' : exchange_inv c os →
  step (LEVELS * 2) (ClosedHashMap.repr hash_price (LEVELS * 2)) (ClosedHashMap.repr hash_id (ORDERS * 2))
    ORDERS c os es c' os' →
  exchange_inv c' os'.
Proof.
  intros [_ [us Hus]] Hst. split; [apply Hst|]. destruct (st_spec _ _ _ _ _ _ _ _ _ Hst) as [us' Hus'].
  rewrite (st_published _ _ _ _ _ _ _ _ _ Hst). eexists. by eapply spec_run_app.
Qed.

Lemma accepts_admissible c os request : exchange_inv c os → accepts c request = true →
  admissible (LEVELS * 2) ORDERS c os request.
Proof.
  intros [_ [us Hus]] Ha. unfold accepts, logged_orders in Ha. rewrite Hus in Ha. simpl in Ha.
  by apply bool_decide_eq_true in Ha.
Qed.

Lemma submit_all_inv rs c os : exchange_inv c os → accepts_all c rs = true →
  ∃ results c' os', exchange_submit_all c rs = Ok (results, c') ∧ exchange_inv c' os' ∧
    (token c = None → token c' = None).
Proof.
  revert c os. induction rs as [|r rs IH]; intros c os Hi; simpl; [intros _; by exists [], c, os|].
  intros [Ha Hrs]%andb_prop. apply (accepts_admissible c os) in Ha; [|done].
  destruct (submit_spec (LEVELS * 2) (ORDERS * 2) _ _ ORDERS (orders_cap _) c os r (proj1 Hi) Ha)
    as (res & es & c1 & os1 & Hs & Hst).
  unfold exchange_submit, exchange_submit_all in *. simpl. rewrite Hs in *. simpl.
  destruct (IH c1 os1 (exchange_inv_step _ _ _ _ _ Hi Hst) Hrs) as (results & c2 & os2 & -> & Hi2 & Ht). simpl.
  eexists _, c2, os2. split; [done|]. split; [done|]. intros Htok.
  by apply Ht, (st_token _ _ _ _ _ _ _ _ _ Hst).
Qed.

(** A buy or sell request. *)
Definition order_request (side : Side.t) (p q : Z) : OrderRequest.t :=
  {| OrderRequest.order_id := 0; OrderRequest.price := p; OrderRequest.quantity := q;
     OrderRequest.type := match side with Side.Buy => OrderRequest.Buy | Side.Sell => OrderRequest.Sell end |}.

Lemma exchange_place c os side p q : exchange_inv c os → accepts c (order_request side p q) = true →
  ∃ id es c' os', exchange_submit c (order_request side p q) = Ok (Value id, c') ∧
    exchange_inv c' os' ∧ published c' = published c ++ es ∧
    (∃ us, spec_run (LEVELS * 2) ORDERS es os = Some (os', us)) ∧
    (token c = None → (id, es, os') = place (next_order_id c) (incoming side (order_request side p q)) os).
Proof.
  intros Hi Ha. apply (accepts_admissible c os) in Ha; [|done].
  assert (can_place (LEVELS * 2) ORDERS c os (order_request side p q)) as Hp by (by destruct side).
  destruct (place_order_spec (LEVELS * 2) (ORDERS * 2) _ _ ORDERS (orders_cap _) side c os _ (proj1 Hi) Hp)
    as (id & es & c' & os' & Hs & Hst & _ & Hpl).
  exists id, es, c', os'. split_and!; [|by eapply exchange_inv_step|apply Hst|apply Hst|done].
  unfold exchange_submit, submit. by destruct side; simpl; unfold buy_order, sell_order; rewrite Hs.
Qed.

(** C2: the matching engine matches by price, then time.  From an empty
    exchange that nobody stops, after any accepted sequence of requests, an
    accepted buy or sell is served exactly as the reference matching says: it
    trades with the opposite side in order of price, orders of one price in
    order of arrival, each at the resting price, until it is filled or nothing
    crosses; what is left rests under a fresh id, which is returned (the invalid
    id when nothing is left).  The published events are those trades and that
    addition, and the book afterwards is the one they describe. *)
Theorem clob_price_time_priority ds rs side p q :
  ORDERS < 2 ^ 32 →
  (∀ results c, exchange_submit_all (exchange_init None ds) rs = Ok (results, c) →
     accepts c (order_request side p q) = true) →
  accepts_all (exchange_init None ds) rs = true →
  ∃ results c os c', exchange_submit_all (exchange_init None ds) rs = Ok (results, c) ∧
    logged_orders c = Some os ∧
    let '(id, es, os') := place (next_order_id c) (incoming side (order_request side p q)) os in
    exchange_submit c (order_request side p q) = Ok (Value id, c') ∧
    published c' = published c ++ es ∧ logged_orders c' = Some os' ∧ snapshot c' = Book.bbo_of os'.
Proof.
  intros Hcap Hreq Hrs.
  destruct (submit_all_inv rs _ [] (exchange_inv_init None ds Hcap) Hrs) as (results & c & os & Hrun & Hi & Htok).
  destruct (exchange_place c os side p q Hi (Hreq _ _ Hrun)) as (id & es & c' & os' & Hs & Hi' & Hpub & _ & Hpl).
  exists results, c, os, c'. rewrite <- (Hpl (Htok eq_refl)). unfold logged_orders.
  destruct (proj2 Hi) as [us ->]. destruct (proj2 Hi') as [us' ->].
  split_and!; try done. apply (inv_Rep _ _ _ _ _ (proj1 Hi')).
Qed.

(** C3: the published log is the state of the exchange.  Let the stop token and
    the buffer delays be any, and let the clients send any requests that respect
    the capacities and name a real price, none of them the update of an order that rests at a
    best price, unless to quantity zero: the code gets those wrong ([update_reduction_inflates_best]).
    That is all that [accepts_all] asks: it is a condition on the requests, given the orders the log
    shows, and none on the exchange.  Then every request is served without
    undefined behaviour and every trading loop ends; the log respects the
    contract of the book, so a replica that executes it from an empty book
    reaches a book with the same best prices and the same orders; and the book is
    never crossed. *)
Theorem clob_log_replays tok ds rs :
  ORDERS < 2 ^ 32 → accepts_all (exchange_init tok ds) rs = true →
  ∃ results c os us s, exchange_submit_all (exchange_init tok ds) rs = Ok (results, c) ∧
    book_spec LEVELS ORDERS (published c) = Some (os, us) ∧
    book_run hash_price hash_id LEVELS ORDERS (published c) = Ok (s, us) ∧
    BookState.snapshot s = snapshot c ∧ snapshot c = Book.bbo_of os ∧
    (∀ id, BookState.order_exists s id = order_exists c id) ∧
    Book.uncrossed os.
Proof.
  intros Hcap Hrs.
  destruct (submit_all_inv rs _ [] (exchange_inv_init tok ds Hcap) Hrs) as (results & c & os & Hrun & Hi & _).
  destruct Hi as [[HR Hu _ _ _] [us Hus]].
  destruct (run_Rep _ _ (ORDERS * 2) _ _ (published c) (empty_book LEVELS ORDERS) [] os us (orders_cap _)
    (empty_book_Rep hash_price hash_id _ _ Hcap) Hus) as (s & Hs & HRs).
  exists results, c, os, us, s. split_and!; [done..| | | |done].
  - transitivity (Book.bbo_of os); [apply HRs|symmetry; apply HR].
  - apply HR.
  - intros id. unfold order_exists. by rewrite (order_exists_spec _ _ _ _ ORDERS s os id (proj1 HRs)),
      (order_exists_spec _ _ _ _ ORDERS (state c) os id (proj1 HR)).
Qed.

(** C4: no quantity is lost or made.  Under the conditions of the previous
    properties, the trades an accepted buy or sell publishes and the order it
    leaves to rest add up to its quantity; each trade is within its limit price
    and within the resting order's quantity; and the quantity on the book falls
    by what was traded and rises by what rests. *)
Theorem clob_conserves_quantity ds rs side p q :
  ORDERS < 2 ^ 32 →
  (∀ results c, exchange_submit_all (exchange_init None ds) rs = Ok (results, c) →
     accepts c (order_request side p q) = true) →
  accepts_all (exchange_init None ds) rs = true →
  ∃ results c os id c' os' es, exchange_submit_all (exchange_init None ds) rs = Ok (results, c) ∧
    exchange_submit c (order_request side p q) = Ok (Value id, c') ∧
    published c' = published c ++ es ∧ logged_orders c = Some os ∧ logged_orders c' = Some os' ∧
    quantity_of MarketEvent.Trade es + quantity_of MarketEvent.Add es = q ∧
    Book.total os' = Book.total os - quantity_of MarketEvent.Trade es + quantity_of MarketEvent.Add es ∧
    (∀ e, e ∈ es → MarketEvent.type e = MarketEvent.Trade →
       let o := MarketEvent.order e in
       Order.side o = Book.opposite side ∧ 0 < Order.quantity o ∧
       match side with Side.Buy => Order.price o ≤ p | Side.Sell => p ≤ Order.price o end).
Proof.
  intros Hcap Hreq Hrs.
  destruct (submit_all_inv rs _ [] (exchange_inv_init None ds Hcap) Hrs) as (results & c & os & Hrun & Hi & Htok).
  specialize (Hreq _ _ Hrun).
  assert (0 ≤ q) as Hq.
  { apply (accepts_admissible c os) in Hreq; [|done].
    destruct side; simpl in Hreq; destruct Hreq as [[? _] _]; done. }
  destruct (exchange_place c os side p q Hi Hreq)
    as (id & es & c' & os' & Hs & Hi' & Hpub & [us2 Hus2] & Hpl).
  exists results, c, os, id, c', os', es. unfold logged_orders.
  pose proof (rep_valid _ _ _ _ _ (proj1 (inv_Rep _ _ _ _ _ (proj1 Hi)))) as Hv.
  destruct (proj2 Hi) as [us ->]. destruct (proj2 Hi') as [us' ->].
  specialize (Hpl (Htok eq_refl)). unfold place in Hpl.
  set (new := incoming side (order_request side p q)) in *.
  destruct (matches_fair new os Hv Hq) as [Hfair Hle].
  destruct (quantity_of_trades (matches new os)) as [Hqt Hqa].
  set (left := Order.quantity new - filled (matches new os)) in *.
  assert (quantity_of MarketEvent.Trade es = filled (matches new os) ∧ quantity_of MarketEvent.Add es = left ∧
    ∀ e, e ∈ es → (∃ f, f ∈ matches new os ∧ e = trade_event f) ∨ MarketEvent.type e = MarketEvent.Add)
    as (Het & Hea & Hin).
  { destruct (Z.eqb_spec left 0) as [H0|H0]; injection Hpl as _ -> _.
    - split_and!; [done|lia|]. intros e (f & -> & Hf)%list_elem_of_fmap. left. by exists f.
    - rewrite !quantity_of_app, Hqt, Hqa. simpl. fold left.
      split_and!; [lia|lia|]. intros e [(f & -> & Hf)%list_elem_of_fmap| ->%list_elem_of_singleton]%elem_of_app;
        [left; by exists f|by right]. }
  split_and!; [done..| | |].
  - rewrite Het, Hea. unfold left. simpl. lia.
  - eapply spec_run_total; [apply Hv| |exact Hus2]. apply Forall_forall.
    intros e [(f & _ & ->)|]%Hin; [by left|by right].
  - intros e He Ht. destruct (Hin e He) as [(f & Hf & ->)|Ht']; [|congruence].
    rewrite Forall_forall in Hfair. destruct (Hfair f Hf) as (Hside & Hx & Hpos). simpl.
    split_and!; [done|lia|]. unfold crosses in Hx. simpl in Hx. destruct side; lia.
Qed.
End Exchange.

(** ** Concrete sequences of requests *)

Section Examples.
#[local] Instance pot_levels : PowerOfTwo (2 * 2).
Proof. by apply pot_check. Defined.
#[local] Instance pot_orders : PowerOfTwo (4 * 2).
Proof. by apply pot_check. Defined.

Definition example_request (type : OrderRequest.Type_) (id p q : Z) : OrderRequest.t :=
  {| OrderRequest.order_id := id; OrderRequest.price := p; OrderRequest.quantity := q; OrderRequest.type := type |}.

(** Two offers at 101, one at 100, a bid at 99 and a cancel. *)
Definition example_requests : list OrderRequest.t :=
  [ example_request OrderRequest.Sell 0 101 5; example_request OrderRequest.Sell 0 100 3;
    example_request OrderRequest.Sell 0 101 4; example_request OrderRequest.Buy 0 99 2;
    example_request OrderRequest.Cancel 4 0 0 ].

Lemma example_accepts results c :
  exchange_submit_all id id 2 4 (exchange_init 2 4 None []) example_requests = Ok (results, c) →
  accepts 2 4 c (order_request Side.Buy 101 10) = true.
Proof. intros Hrun. vm_compute in Hrun. injection Hrun as <- <-. vm_compute. reflexivity. Qed.

(** A buy of 10 at 101: 3 at 100, then 5 and 2 at 101 in order of arrival. *)
Lemma clob_price_time_priority_witness :
  ∃ results c os c',
    exchange_submit_all id id 2 4 (exchange_init 2 4 None []) example_requests = Ok (results, c) ∧
    logged_orders 2 4 c = Some os ∧
    let '(i, es, os') := place (next_order_id c) (incoming Side.Buy (order_request Side.Buy 101 10)) os in
    exchange_submit id id 2 4 c (order_request Side.Buy 101 10) = Ok (Value i, c') ∧
    published c' = published c ++ es ∧ logged_orders 2 4 c' = Some os' ∧ snapshot c' = Book.bbo_of os'.
Proof.
  apply (clob_price_time_priority id id 2 4 [] example_requests Side.Buy 101 10);
    [reflexivity|exact example_accepts|vm_compute; reflexivity].
Defined.

(** The engine is stopped in the middle of a trading loop, with a full buffer. *)
Lemma clob_log_replays_witness :
  let rs := example_requests ++ [order_request Side.Buy 101 10] in
  ∃ results c os us s,
    exchange_submit_all id id 2 4 (exchange_init 2 4 (Some 22%nat) [0; 3; 1]%nat) rs = Ok (results, c) ∧
    book_spec 2 4 (published c) = Some (os, us) ∧
    book_run id id 2 4 (published c) = Ok (s, us) ∧
    BookState.snapshot s = snapshot c ∧ snapshot c = Book.bbo_of os ∧
    (∀ i, BookState.order_exists (om_ops := order_store id 4) s i =
          order_exists (om_ops := order_store id 4) c i) ∧
    Book.uncrossed os.
Proof.
  intros rs. apply (clob_log_replays id id 2 4 (Some 22%nat) [0; 3; 1]%nat rs);
    [reflexivity|vm_compute; reflexivity].
Defined.

Lemma clob_conserves_quantity_witness :
  ∃ results c os i c' os' es,
    exchange_submit_all id id 2 4 (exchange_init 2 4 None []) example_requests = Ok (results, c) ∧
    exchange_submit id id 2 4 c (order_request Side.Buy 101 10) = Ok (Value i, c') ∧
    published c' = published c ++ es ∧ logged_orders 2 4 c = Some os ∧ logged_orders 2 4 c' = Some os' ∧
    quantity_of MarketEvent.Trade es + quantity_of MarketEvent.Add es = 10 ∧
    Book.total os' = Book.total os - quantity_of MarketEvent.Trade es + quantity_of MarketEvent.Add es ∧
    (∀ e, e ∈ es → MarketEvent.type e = MarketEvent.Trade →
       let o := MarketEvent.order e in
       Order.side o = Book.opposite Side.Buy ∧ 0 < Order.quantity o ∧ Order.price o ≤ 101).
Proof.
  apply (clob_conserves_quantity id id 2 4 [] example_requests Side.Buy 101 10);
    [reflexivity|exact example_accepts|vm_compute; reflexivity].
Defined.

(** A buy of 10 at 100, an update of it to 4, its cancel, a sell at 90. *)
Definition crash_requests : list OrderRequest.t :=
  [ example_request OrderRequest.Buy 0 100 10; example_request OrderRequest.Update 1 0 4;
    example_request OrderRequest.Cancel 1 0 0 ].

(** C30: four ordinary requests make the matching engine dereference an empty
    optional.  A buy of 10 at 100, an update of that order to 4 and its cancel
    are all served; no order is left but the snapshot still shows 12 bid
    at 100, because the update raised the cached quantity it should have
    reduced.  Any sell then looks up the price level 100, which is gone. *)
Theorem clob_update_cancel_sell_undefined :
  ∃ results c, exchange_submit_all id id 2 4 (exchange_init 2 4 None []) crash_requests = Ok (results, c) ∧
    results = [Value 1; Value 1; Value 0] ∧
    book_orders 2 4 (published c) = Some [] ∧
    BookState.best_bid (snapshot c) = {| BookState.price := 100; BookState.quantity := 12 |} ∧
    ∀ p q, 0 < q → exchange_submit id id 2 4 c (order_request Side.Sell p q) = Undefined.
Proof.
  eexists _, _. split; [vm_compute; reflexivity|]. split_and!; [reflexivity|vm_compute; reflexivity|reflexivity|].
  intros p [|q|q] Hq; [lia|vm_compute; reflexivity|lia].
Qed.
End Examples.
