(* ===== verification/Generator.v ===== *)
(** * MarketRequestGenerator ([exchange/order-generator])

    The generator's random numbers are a sequence [entropy] of integers from
    which each distribution computes its value; the stop token and the event
    buffer's delays are those of the matching engine it drives.  Its loops call
    one another, so one [fuel] bounds them all. *)

From S2P Require Import Prelude Types Interfaces OrderBook Clob RandomContainer.

Module MarketRequestGenerator.

(** Values of [uniform_real_distribution(0.0, 1.0)], and the [double] constants
    they are compared with, in units of 2^-60. *)
Definition uniform_real (raw : Z) : Z := raw mod 2 ^ 60.
Definition BUY_PROBABILITY : Z := 345876451382054080.
Definition CANCEL_PROBABILITY : Z := 461168601842738816.
Definition CANCEL_OR_BUY_PROBABILITY : Z := 807045053224792832.
Definition AGGRESSIVE_ORDER_PROBABILITY : Z := 23058430092136940.
Definition NORMALIZED_BUY_SELL_PROBABILITY : Z := 576460752303423488.

Section Generator.
Context {PL OM : Type} {pl_ops : KeyedStore PL Z BookState.PriceLevel} {om_ops : KeyedStore OM Z Z}.
Context (MAX_CONCURRENT_ORDERS : Z) (entropy : nat → Z).

(** The members that change; [drawn] is how far the random generator has got. *)
Record t : Type := {
  clob_ : Clob.t PL OM;
  active_order_ids : RandomContainer.t Z;
  drawn : nat;
}.
Definition set_clob (c : Clob.t PL OM) (s : t) : t :=
  {| clob_ := c; active_order_ids := active_order_ids s; drawn := drawn s |}.
Definition set_active (ids : RandomContainer.t Z) (s : t) : t :=
  {| clob_ := clob_ s; active_order_ids := ids; drawn := drawn s |}.
Definition draw (s : t) : Z * t :=
  (entropy (drawn s), {| clob_ := clob_ s; active_order_ids := active_order_ids s; drawn := S (drawn s) |}).

Definition init (c : Clob.t PL OM) : t :=
  {| clob_ := c; active_order_ids := RandomContainer.init Config.MAX_ACTIVE_ORDERS; drawn := O |}.

Definition stop_requested (s : t) : bool * t :=
  let '(stop, c) := Clob.stop_requested (clob_ s) in (stop, set_clob c s).

Definition is_buy_or_sell (type : OrderRequest.Type_) : bool :=
  bool_decide (type = OrderRequest.Buy) || bool_decide (type = OrderRequest.Sell).

(** The range the price is drawn from. *)
Definition price_range (type : OrderRequest.Type_) (aggressive : bool) (snapshot : BookState.OrderSnapshot) :
    outcome (Z * Z) :=
  let bid := BookState.price (BookState.best_bid snapshot) in
  let offer := BookState.price (BookState.best_offer snapshot) in
  let best_bid := if bid =? BookState.NO_BID then Config.DEFAULT_BUY_PRICE else bid in
  let best_ask := if offer =? BookState.NO_OFFER then Config.DEFAULT_SELL_PRICE else offer in
  let price_variance := if aggressive then Config.LARGE_PRICE_VARIANCE else Config.PRICE_VARIANCE in
  '(min_price, max_price) ←
    (match type, aggressive with
     | OrderRequest.Buy, false => low ← i32 (best_bid - price_variance); high ← i32 (best_bid + price_variance); Ok (low, high)
     | OrderRequest.Sell, false => low ← i32 (best_ask - price_variance); high ← i32 (best_ask + price_variance); Ok (low, high)
     | OrderRequest.Buy, true => high ← i32 (best_ask + price_variance); Ok (best_ask, high)
     | OrderRequest.Sell, true => low ← i32 (best_bid - price_variance); Ok (low, best_bid)
     | _, _ => Undefined
     end);
  Ok (Z.max min_price Config.MIN_PRICE, Z.min max_price Config.MAX_PRICE).

Definition generate_price (type : OrderRequest.Type_) (aggressive : bool) (s : t) : outcome (Z * t) :=
  _ ← assert_ (is_buy_or_sell type);
  '(min_price, max_price) ← price_range type aggressive (Clob.snapshot (clob_ s));
  let '(raw, s) := draw s in
  price ← uniform_int min_price max_price raw;
  Ok (price, s).

Definition generate_aggressive_order_request (type : OrderRequest.Type_) (s : t) : outcome (OrderRequest.t * t) :=
  _ ← assert_ (is_buy_or_sell type);
  '(price, s) ← generate_price type true s;
  let '(raw, s) := draw s in
  quantity ← uniform_int Config.MIN_LARGE_QUANTITY Config.MAX_LARGE_QUANTITY raw;
  Ok ({| OrderRequest.order_id := 0; OrderRequest.price := price; OrderRequest.quantity := quantity; OrderRequest.type := type |}, s).

Definition generate_passive_order_request (type : OrderRequest.Type_) (s : t) : outcome (OrderRequest.t * t) :=
  _ ← assert_ (is_buy_or_sell type);
  '(price, s) ← generate_price type false s;
  let '(raw, s) := draw s in
  quantity ← uniform_int Config.MIN_QUANTITY Config.MAX_QUANTITY raw;
  Ok ({| OrderRequest.order_id := 0; OrderRequest.price := price; OrderRequest.quantity := quantity; OrderRequest.type := type |}, s).

(** The request of [generate_and_post_new_order_request]. *)
Definition new_order_request (type : OrderRequest.Type_) (s : t) : outcome (OrderRequest.t * t) :=
  let '(raw, s) := draw s in
  if uniform_real raw <? AGGRESSIVE_ORDER_PROBABILITY
  then generate_aggressive_order_request type s else generate_passive_order_request type s.

(** Its submission, and the tracking of what came to rest. *)
Definition post_new_order (request : OrderRequest.t) (s : t) : outcome t :=
  '(result, c) ← Clob.submit MAX_CONCURRENT_ORDERS (clob_ s) request;
  let s := set_clob c s in
  match result with
  | Unexpected _ => Ok s
  | Value id =>
      if id =? Order.INVALID_ORDER_ID then Ok s else
      '(_, ids) ← RandomContainer.add Config.MAX_ACTIVE_ORDERS id (active_order_ids s);
      Ok (set_active ids s)
  end.

(** The cancel of [generate_and_post_cancel_request]. *)
Definition post_cancel (order_id : Z) (s : t) : outcome t :=
  '(_, c) ← Clob.submit MAX_CONCURRENT_ORDERS (clob_ s)
    {| OrderRequest.order_id := order_id; OrderRequest.price := 0; OrderRequest.quantity := 0; OrderRequest.type := OrderRequest.Cancel |};
  Ok (set_clob c s).

Fixpoint generate_and_post_cancel_request (fuel : nat) (s : t) : outcome t :=
  match fuel with
  | O => OutOfFuel
  | S fuel =>
      let '(stop, s) := stop_requested s in
      if stop then Ok s else
      s ← (if RandomContainer.is_empty (active_order_ids s) then populate_active_orders fuel s else Ok s);
      if RandomContainer.is_empty (active_order_ids s) then Ok s else
      let '(raw, s) := draw s in
      '(removed, ids) ← RandomContainer.remove_random raw (active_order_ids s);
      order_id ← deref removed;
      let s := set_active ids s in
      if Clob.order_exists (clob_ s) order_id then post_cancel order_id s
      else generate_and_post_cancel_request fuel s
  end
with generate_and_post_new_order_request (fuel : nat) (type : OrderRequest.Type_) (s : t) : outcome t :=
  match fuel with
  | O => OutOfFuel
  | S fuel =>
      _ ← assert_ (is_buy_or_sell type);
      s ← (if RandomContainer.is_full Config.MAX_ACTIVE_ORDERS (active_order_ids s) then purge_active_orders fuel s else Ok s);
      '(request, s) ← new_order_request type s;
      post_new_order request s
  end
with populate_active_orders (fuel : nat) (s : t) : outcome t :=
  match fuel with
  | O => OutOfFuel
  | S fuel =>
      let '(stop, s) := stop_requested s in
      if stop || negb (RandomContainer.size (active_order_ids s) <? Config.POPULATE_WHEN_EMPTY) then Ok s else
      let '(raw, s) := draw s in
      let type := if uniform_real raw <? NORMALIZED_BUY_SELL_PROBABILITY then OrderRequest.Buy else OrderRequest.Sell in
      s ← generate_and_post_new_order_request fuel type s;
      populate_active_orders fuel s
  end
with purge_active_orders (fuel : nat) (s : t) : outcome t :=
  match fuel with
  | O => OutOfFuel
  | S fuel =>
      let '(stop, s) := stop_requested s in
      if stop || negb (Config.PURGE_UNTIL_WHEN_FULL <? RandomContainer.size (active_order_ids s)) then Ok s else
      s ← generate_and_post_cancel_request fuel s;
      purge_active_orders fuel s
  end.

Definition generate_and_post_random_order_request (fuel : nat) (s : t) : outcome t :=
  let '(raw, s) := draw s in
  let random_value := uniform_real raw in
  if random_value <? CANCEL_PROBABILITY then generate_and_post_cancel_request fuel s
  else if random_value <? CANCEL_OR_BUY_PROBABILITY then generate_and_post_new_order_request fuel OrderRequest.Buy s
  else generate_and_post_new_order_request fuel OrderRequest.Sell s.

(** The loop of [start]. *)
Fixpoint start_loop (fuel : nat) (s : t) : outcome t :=
  match fuel with
  | O => OutOfFuel
  | S fuel =>
      let '(stop, s) := stop_requested s in
      if stop then Ok s else
      s ← generate_and_post_random_order_request fuel s;
      start_loop fuel s
  end.

Definition start (fuel : nat) (s : t) : outcome t :=
  s ← populate_active_orders fuel s;
  start_loop fuel s.
End Generator.
Arguments t : clear implicits.
End MarketRequestGenerator.
