(* ===== verification/GeneratorProof.v ===== *)
(** * The request generator stays within the exchange's capacities

    The generator tracks every order that rests (until the stop interrupts a
    cancel), so the book is never larger than its list of active orders; its
    prices stay in the configured range, so no distribution is over an empty range. *)

From S2P Require Import Prelude Types Interfaces HashMap OrderPool OrderBook BookSpec BookRep BookOps BookCache BookRefine BookTrace HashedBook Clob Matching ClobProof ClobProperties ClobBudget RandomContainer Generator.
Import Matching MarketRequestGenerator.

(** ** Requests *)

Definition price_ok (p : Z) : Prop := Config.MIN_PRICE ≤ p ≤ Config.MAX_PRICE.
Definition QUANTITY_MAX : Z := Config.MAX_LARGE_QUANTITY.
Definition request_sane (r : OrderRequest.t) : Prop :=
  price_ok (OrderRequest.price r) ∧ 0 < OrderRequest.quantity r ≤ QUANTITY_MAX ∧ is_buy_or_sell (OrderRequest.type r) = true.

Definition priced (os : list Order.t) : Prop := Forall (λ o, price_ok (Order.price o)) os.

Lemma priced_shrinks os os' : shrinks os os' → priced os → priced os'.
Proof.
  intros Hs Hp. apply Forall_forall. intros o' Ho'. destruct (shr_origin _ _ Hs o' Ho') as (o & Ho & _ & <- & _).
  unfold priced in Hp. rewrite Forall_forall in Hp. by apply Hp.
Qed.

Lemma priced_best sd os : priced os →
  price_ok (BookState.price (Book.best_info sd os)) ∨ BookState.price (Book.best_info sd os) = Book.no_price sd.
Proof.
  intros Hp. unfold Book.best_info. destruct (Book.best sd os) as [p|] eqn:Hb; [left|by right].
  apply Book.best_Some in Hb as [(o & Ho & _ & <-) _]. unfold priced in Hp. rewrite Forall_forall in Hp. by apply Hp.
Qed.

Lemma uniform_in low high raw : low ≤ high → ∃ x, uniform_int low high raw = Ok x ∧ low ≤ x ≤ high.
Proof. apply uniform_int_spec. Qed.

(** The range is never empty and stays within the configured prices. *)
Lemma price_range_spec type aggressive os : priced os → is_buy_or_sell type = true →
  ∃ low high, price_range type aggressive (Book.bbo_of os) = Ok (low, high) ∧ low ≤ high ∧ Config.MIN_PRICE ≤ low ∧ high ≤ Config.MAX_PRICE.
Proof.
  intros Hp Ht. unfold price_range. cbv zeta. simpl.
  pose proof (priced_best Side.Buy os Hp) as Hb. pose proof (priced_best Side.Sell os Hp) as Ho.
  set (bid := BookState.price (Book.best_info Side.Buy os)) in *. set (offer := BookState.price (Book.best_info Side.Sell os)) in *.
  clearbody bid offer. unfold price_ok, Config.MIN_PRICE, Config.MAX_PRICE in *. simpl in Hb, Ho.
  assert (1 ≤ (if bid =? BookState.NO_BID then Config.DEFAULT_BUY_PRICE else bid) ≤ 1000) as Hbid.
  { unfold Config.DEFAULT_BUY_PRICE. destruct (Z.eqb_spec bid BookState.NO_BID); lia. }
  assert (1 ≤ (if offer =? BookState.NO_OFFER then Config.DEFAULT_SELL_PRICE else offer) ≤ 1000) as Hoffer.
  { unfold Config.DEFAULT_SELL_PRICE. destruct (Z.eqb_spec offer BookState.NO_OFFER); lia. }
  set (b := if bid =? _ then _ else _) in *. set (a := if offer =? _ then _ else _) in *. clearbody a b.
  assert (∀ x, -1000 ≤ x ≤ 2000 → i32 x = Ok x) as Hi.
  { intros x Hx. unfold checked. apply decide_True. unfold in_s. simpl. lia. }
  unfold Config.LARGE_PRICE_VARIANCE, Config.PRICE_VARIANCE.
  destruct type, aggressive; try done; rewrite ?Hi by lia; cbn [mbind outcome_bind]; rewrite ?Hi by lia; cbn [mbind outcome_bind];
    (eexists _, _; split; [done|lia]).
Qed.

Section Proof.
Context (hash_price hash_id : Z → Z) (entropy : nat → Z).
Abbreviation LEVELS := Config.MAX_PRICE_LEVELS.
Abbreviation ORDERS := Config.MAX_CONCURRENT_ORDERS.
#[local] Instance levels_store : KeyedStore (ClosedHashMap.t Z BookState.PriceLevel) Z BookState.PriceLevel :=
  level_store hash_price LEVELS.
#[local] Instance orders_store : KeyedStore (ClosedHashMap.t Z Z) Z Z := order_store hash_id ORDERS.
#[local] Existing Instance level_store_laws.
#[local] Existing Instance order_store_laws.

Definition generator : Type := MarketRequestGenerator.t (ClosedHashMap.t Z BookState.PriceLevel) (ClosedHashMap.t Z Z).
Abbreviation einv := (exchange_inv hash_price hash_id LEVELS ORDERS).
Implicit Types (s : generator) (os : list Order.t) (ids : list Z) (n : nat).

(** After [n] more polls the token asks to stop; [os] rest, [ids] are tracked. *)
Record tracks n s os ids : Prop := {
  tr_exchange : einv (clob_ s) os;
  tr_token : Clob.token (clob_ s) = Some n;
  tr_ids : Clob.next_order_id (clob_ s) + Z.of_nat n ≤ 2 ^ 64 - 2;
  tr_active : RandomContainer.repr Config.MAX_ACTIVE_ORDERS (active_order_ids s) ids;
  tr_room : Z.of_nat (length os) ≤ Config.MAX_ACTIVE_ORDERS;
  tr_priced : priced os;
  tr_below : below QUANTITY_MAX os;
  tr_tracked : n ≠ O → ∀ o, o ∈ os → Order.order_id o ∈ ids;
}.

Lemma tracks_drawn n s os ids k : tracks n s os ids →
  tracks n {| clob_ := clob_ s; active_order_ids := active_order_ids s; drawn := k |} os ids.
Proof using. by intros []. Qed.

Lemma tracked_length n s os ids : tracks n s os ids → n ≠ O → (length os ≤ length ids)%nat.
Proof using.
  intros Hs Hn. rewrite <- (length_fmap Order.order_id os). apply submseteq_length, NoDup_submseteq.
  - apply (Book.valid_ids os). eapply rep_valid. apply (inv_Rep _ _ _ _ _ (proj1 (tr_exchange _ _ _ _ Hs))).
  - intros id (o & -> & Ho)%list_elem_of_fmap. by eapply tr_tracked.
Qed.

(** A poll. *)
Lemma poll n s os ids : tracks n s os ids →
  (n = O ∧ stop_requested s = (true, s)) ∨ (∃ n' s', n = S n' ∧ stop_requested s = (false, s') ∧ tracks n' s' os ids).
Proof using.
  intros Hs. pose proof (tr_token _ _ _ _ Hs) as Ht. unfold stop_requested, Clob.stop_requested. rewrite Ht.
  destruct n as [|n]; [left; split; [done|by destruct s]|right]. eexists n, _. split; [done|]. split; [done|].
  destruct Hs as [[[HR Hu Hn Hids Hpub] Hlog] _ Hid Ha Hr Hp Hq Htr].
  split; simpl; [split; [by split|done]|done|lia|done..|]. intros _. by apply Htr.
Qed.

Lemma snapshot_spec n s os ids : tracks n s os ids → Clob.snapshot (clob_ s) = Book.bbo_of os.
Proof using. intros Hs. apply (inv_Rep _ _ _ _ _ (proj1 (tr_exchange _ _ _ _ Hs))). Qed.

Lemma new_order_request_ok type n s os ids : tracks n s os ids → is_buy_or_sell type = true →
  ∃ r s', new_order_request entropy type s = Ok (r, s') ∧ request_sane r ∧ tracks n s' os ids.
Proof using.
  intros Hs Ht. unfold new_order_request, draw. set (s1 := {| clob_ := _ |}). assert (tracks n s1 os ids) as Hs1 by by apply tracks_drawn.
  assert (∀ aggressive low high, 0 < low ≤ high → high ≤ QUANTITY_MAX → ∃ r s',
    (_ ← assert_ (is_buy_or_sell type); '(price, s) ← generate_price entropy type aggressive s1; let '(raw, s) := draw entropy s in
     quantity ← uniform_int low high raw;
     Ok ({| OrderRequest.order_id := 0; OrderRequest.price := price; OrderRequest.quantity := quantity; OrderRequest.type := type |}, s)) = Ok (r, s') ∧
    request_sane r ∧ tracks n s' os ids) as Hgen.
  { intros aggressive low high Hlow Hhigh. rewrite Ht. cbn [assert_ mbind outcome_bind]. unfold generate_price. rewrite Ht. cbn [assert_ mbind outcome_bind].
    rewrite (snapshot_spec _ _ _ _ Hs1).
    destruct (price_range_spec type aggressive os (tr_priced _ _ _ _ Hs) Ht) as (lp & hp & -> & Hle & Hlp & Hhp). cbn [mbind outcome_bind].
    unfold draw. destruct (uniform_in lp hp (entropy (drawn s1)) Hle) as (price & -> & Hprice). cbn [mbind outcome_bind].
    edestruct (uniform_in low high) as (quantity & -> & Hquantity); [lia|]. cbn [mbind outcome_bind].
    eexists _, _. split; [done|]. split; [split; [|split; [|done]]; simpl; unfold price_ok; lia|by apply tracks_drawn, tracks_drawn]. }
  destruct (_ <? _); [apply (Hgen true)|apply (Hgen false)]; unfold QUANTITY_MAX, Config.MIN_LARGE_QUANTITY, Config.MAX_LARGE_QUANTITY, Config.MIN_QUANTITY, Config.MAX_QUANTITY; lia.
Qed.

(** ** Submissions *)

(** What [submit] makes of a sane buy or sell while there is room. *)
Lemma submit_order r n s os ids : tracks n s os ids → request_sane r → n ≠ O → (length ids < Z.to_nat Config.MAX_ACTIVE_ORDERS)%nat →
  ∃ id c os' n', Clob.submit ORDERS (clob_ s) r = Ok (Value id, c) ∧ einv c os' ∧ rests_at_most id r os os' ∧
    Clob.token c = Some n' ∧ (n' ≤ n)%nat ∧ Clob.next_order_id c + Z.of_nat n' ≤ 2 ^ 64 - 2.
Proof using.
  intros Hs (Hprice & Hquantity & Htype) Hn Hlen. pose proof (tr_exchange _ _ _ _ Hs) as Hex.
  pose proof (tracked_length _ _ _ _ Hs Hn) as Hos. pose proof (tr_ids _ _ _ _ Hs) as Hids.
  assert (Config.MAX_ACTIVE_ORDERS = 8192) as HA by done. assert (LEVELS * 2 = 16384) as HL by done. assert (ORDERS = 32768) as HO by done.
  assert (∀ side, ∃ id c os' n', Clob.place_order ORDERS side (clob_ s) r = Ok (id, c) ∧ einv c os' ∧ rests_at_most id r os os' ∧
    Clob.token c = Some n' ∧ (n' ≤ n)%nat ∧ Clob.next_order_id c + Z.of_nat n' ≤ 2 ^ 64 - 2) as Hplace.
  { intros side. assert (can_place (LEVELS * 2) ORDERS (clob_ s) os r) as Hcan.
    { unfold can_place, room, in_u, price_ok, QUANTITY_MAX, Config.MAX_LARGE_QUANTITY, Config.MIN_PRICE, Config.MAX_PRICE,
        BookState.NO_BID, BookState.NO_OFFER, INT32_MIN, INT32_MAX in *. lia. }
    destruct (place_order_spec (LEVELS * 2) (ORDERS * 2) _ _ ORDERS (orders_cap _) side (clob_ s) os r (proj1 Hex) Hcan)
      as (id & es & c & os' & Hrun & Hst & Hrests & _).
    destruct (place_order_spent ORDERS side _ _ _ _ Hrun n (tr_token _ _ _ _ Hs)) as (n' & Htok & Hle & Hspent).
    exists id, c, os', n'. split_and!; try done; [by eapply exchange_inv_step|].
    pose proof (st_next _ _ _ _ _ _ _ _ _ Hst). destruct Hspent; lia. }
  unfold Clob.submit. destruct (OrderRequest.type r); try done; [destruct (Hplace Side.Buy) as (id & c & os' & n' & Hrun & H)|destruct (Hplace Side.Sell) as (id & c & os' & n' & Hrun & H)];
    unfold Clob.buy_order, Clob.sell_order; rewrite Hrun; by exists id, c, os', n'.
Qed.

Lemma post_new_order_ok r n s os ids : tracks n s os ids → request_sane r →
  n = O ∨ (length ids < Z.to_nat Config.MAX_ACTIVE_ORDERS)%nat →
  ∃ n' s' os' ids', post_new_order ORDERS r s = Ok s' ∧ tracks n' s' os' ids' ∧ (n' ≤ n)%nat.
Proof using.
  intros Hs Hr Hroom. unfold post_new_order. destruct (decide (n = O)) as [->|Hn].
  { assert (Clob.submit ORDERS (clob_ s) r = Ok (Value Order.INVALID_ORDER_ID, clob_ s)) as ->.
    { destruct Hr as (_ & Hq & Ht). unfold Clob.submit.
      destruct (OrderRequest.type r); try done; unfold Clob.buy_order, Clob.sell_order;
        (rewrite place_order_stopped; [done|apply Hs|lia]). }
    cbn [mbind outcome_bind]. rewrite Z.eqb_refl. exists O, (set_clob (clob_ s) s), os, ids. split; [done|]. split; [by destruct s|lia]. }
  destruct Hroom as [|Hlen]; [done|].
  destruct (submit_order r n s os ids Hs Hr Hn Hlen) as (id & c & os' & n' & -> & Hex & (os1 & Hshr & Hbelow & Hrests) & Htok & Hle & Hid).
  cbn [mbind outcome_bind]. pose proof (tracked_length _ _ _ _ Hs Hn) as Hos. pose proof (shr_length _ _ Hshr) as Hos1.
  pose proof (priced_shrinks _ _ Hshr (tr_priced _ _ _ _ Hs)) as Hp1. pose proof (Hbelow _ (tr_below _ _ _ _ Hs)) as Hb1.
  assert (∀ o, o ∈ os1 → Order.order_id o ∈ ids) as Htr1.
  { intros o Ho. destruct (shr_origin _ _ Hshr o Ho) as (o1 & Ho1 & <- & _). by eapply tr_tracked. }
  assert (Config.MAX_ACTIVE_ORDERS = 8192) as HA by done. destruct Hr as (Hprice & Hq & _).
  destruct (Z.eqb_spec id Order.INVALID_ORDER_ID) as [->|Hnz].
  - assert (os' = os1) as -> by (destruct Hrests as [|(o & _ & _ & ? & _)]; [done|unfold Order.INVALID_ORDER_ID in *; lia]).
    exists n', (set_clob c s), os1, ids. split; [done|]. split; [|lia]. split; try done; [apply Hs|lia].
  - pose proof (RandomContainer.add_spec Config.MAX_ACTIVE_ORDERS eq_refl (active_order_ids s) ids id (tr_active _ _ _ _ Hs)) as Hadd.
    rewrite (proj2 (Z.eqb_neq _ _)) in Hadd by lia. destruct Hadd as (a & Ha & Hr').
    cbn [active_order_ids set_clob]. rewrite Ha. cbn [mbind outcome_bind].
    exists n', (set_active a (set_clob c s)), os', (ids ++ [id]). split; [done|]. split; [|lia].
    destruct Hrests as [->|(o & -> & Hoid & _ & Hop & Hoq)].
    + split; try done; [lia|]. intros _ o Ho. apply elem_of_app. left. auto.
    + split; try done.
      * unfold Book.add. rewrite length_app. simpl. lia.
      * apply Forall_app. split; [done|]. constructor; [by rewrite Hop|constructor].
      * apply Forall_app. split; [done|]. constructor; [lia|constructor].
      * intros _ o' Ho'. unfold Book.add in Ho'. apply elem_of_app in Ho' as [Ho'|Ho'].
        -- apply elem_of_app. left. auto.
        -- apply list_elem_of_singleton in Ho' as ->. apply elem_of_app. right. apply list_elem_of_singleton. done.
Qed.

(** Dropping a tracked id that does not rest, or cancelling it. *)
Lemma drop_ok n s os ids id a ids' : tracks n s os ids → ids ≡ₚ id :: ids' → Book.find id os = None →
  RandomContainer.repr Config.MAX_ACTIVE_ORDERS a ids' → tracks n (set_active a s) os ids'.
Proof using.
  intros Hs Hperm Hf Ha. destruct Hs as [He Ht Hid _ Hroom Hp Hq Htr]. split; try done. intros Hn o Ho.
  pose proof (Htr Hn o Ho) as Hin. rewrite Hperm in Hin. apply elem_of_cons in Hin as [Heq|]; [|done].
  apply find_None in Hf. destruct Hf. rewrite <- Heq. by apply list_elem_of_fmap_2.
Qed.

Lemma post_cancel_ok n s os ids id a ids' : tracks n s os ids → ids ≡ₚ id :: ids' →
  RandomContainer.repr Config.MAX_ACTIVE_ORDERS a ids' →
  ∃ n' s' os', post_cancel ORDERS id (set_active a s) = Ok s' ∧ tracks n' s' os' ids' ∧ (n' ≤ n)%nat.
Proof using.
  intros Hs Hperm Ha. unfold post_cancel, Clob.submit. cbn [OrderRequest.type set_active clob_].
  set (request := {| OrderRequest.order_id := id |}). pose proof (tr_exchange _ _ _ _ Hs) as Hex.
  destruct (cancel_order_spec (LEVELS * 2) (ORDERS * 2) _ _ ORDERS (clob_ s) os request (proj1 Hex))
    as (result & es & c & os' & Hrun & Hst & Hnone & Hsome).
  destruct (cancel_order_spent _ _ _ _ Hrun n (tr_token _ _ _ _ Hs)) as (n' & Htok & Hle & Hspent).
  rewrite Hrun. cbn [mbind outcome_bind]. exists n', (set_clob c (set_active a s)), os'. split; [done|]. split; [|done].
  pose proof (st_next _ _ _ _ _ _ _ _ _ Hst) as Hnext. pose proof (tr_ids _ _ _ _ Hs) as Hids.
  assert (shrinks os os' ∧ below QUANTITY_MAX os' ∧ (n' ≠ O → ∀ o, o ∈ os' → Order.order_id o ∈ ids')) as (Hshr & Hb & Htr).
  { destruct (Book.find id os) as [o|] eqn:Hf.
    - destruct (Hsome (ex_intro _ o Hf)) as (_ & [->|[-> Hstop]] & _).
      + split; [apply shrinks_remove|]. split; [apply below_remove, Hs|]. intros Hn' o' [Hne Ho']%list_elem_of_filter.
        pose proof (tr_tracked _ _ _ _ Hs ltac:(lia) o' Ho') as Hin. rewrite Hperm in Hin.
        by apply elem_of_cons in Hin as [Heq|].
      + split; [done|]. split; [apply Hs|]. intros Hn'. rewrite Hstop in Htok. by injection Htok as <-.
    - destruct (Hnone Hf) as (_ & -> & ->). destruct (st_spec _ _ _ _ _ _ _ _ _ Hst) as [us Hus]. simpl in Hus. injection Hus as <- _.
      split; [done|]. split; [apply Hs|]. intros Hn'. apply (tr_tracked n (set_active a s) os ids'); [by eapply drop_ok|lia]. }
  split; simpl; [by eapply exchange_inv_step|done| |done| |by eapply priced_shrinks, Hs|done|done].
  - destruct Hspent; lia.
  - pose proof (shr_length _ _ Hshr). pose proof (tr_room _ _ _ _ Hs). lia.
Qed.

(** ** The loops *)

(** It returns, and what it leaves still tracks the book. *)
Definition returns (n : nat) (Q : nat → list Z → Prop) (r : outcome generator) : Prop :=
  ∃ n' s' os' ids', r = Ok s' ∧ tracks n' s' os' ids' ∧ (n' ≤ n)%nat ∧ Q n' ids'.
Abbreviation returns_any n := (returns n (λ _ _, True)).

(** The purge ends with the list short enough, unless it was stopped. *)
Definition purged (n : nat) (ids : list Z) : Prop := n = O ∨ Z.of_nat (length ids) ≤ Config.PURGE_UNTIL_WHEN_FULL.

Lemma returns_le n m Q r : (n ≤ m)%nat → returns n Q r → returns m Q r.
Proof using. intros Hle (n' & s' & os' & ids' & ? & ? & ? & ?). exists n', s', os', ids'. split_and!; try done. lia. Qed.

(** A loop that ends here. *)
Lemma returns_now n s os ids (Q : nat → list Z → Prop) : tracks n s os ids → Q n ids → returns n Q (Ok s).
Proof using. intros. by exists n, s, os, ids. Qed.

Lemma returns_bind n Q Q' r (f : generator → outcome generator) : returns n Q r →
  (∀ n' s' os' ids', tracks n' s' os' ids' → (n' ≤ n)%nat → Q n' ids' → returns n' Q' (f s')) → returns n Q' (r ≫= f).
Proof using.
  intros (n' & s' & os' & ids' & -> & Hs & Hle & HQ) Hf. cbn [mbind outcome_bind]. eapply returns_le; [exact Hle|]. by eapply Hf.
Qed.

Lemma exists_spec n s os ids id : tracks n s os ids → Clob.order_exists (clob_ s) id = bool_decide (is_Some (Book.find id os)).
Proof using.
  intros Hs. unfold Clob.order_exists.
  apply (order_exists_spec _ _ _ _ ORDERS _ os id (proj1 (inv_Rep _ _ _ _ _ (proj1 (tr_exchange _ _ _ _ Hs))))).
Qed.

Lemma cancel_step_ok fuel n s os ids : tracks n s os ids → ids ≠ [] →
  (∀ n s os ids, tracks n s os ids → (2 * n + 1 ≤ fuel)%nat → returns_any n (generate_and_post_cancel_request ORDERS entropy fuel s)) →
  (2 * n + 1 ≤ fuel)%nat →
  returns_any n
    (let '(raw, s) := draw entropy s in
     '(removed, ids) ← RandomContainer.remove_random raw (active_order_ids s);
     order_id ← deref removed;
     let s := set_active ids s in
     if Clob.order_exists (clob_ s) order_id then post_cancel ORDERS order_id s
     else generate_and_post_cancel_request ORDERS entropy fuel s).
Proof using.
  intros Hs Hne IH Hfuel. unfold draw. set (s1 := {| clob_ := _ |}). assert (tracks n s1 os ids) as Hs1 by by apply tracks_drawn.
  destruct (RandomContainer.remove_random_spec Config.MAX_ACTIVE_ORDERS eq_refl (entropy (drawn s)) (active_order_ids s1) ids
    (tr_active _ _ _ _ Hs1) Hne) as (id & a & ids' & -> & Ha & Hperm). cbn [mbind outcome_bind deref].
  destruct (Clob.order_exists (clob_ (set_active a s1)) id) eqn:Hexists.
  - destruct (post_cancel_ok n s1 os ids id a ids' Hs1 Hperm Ha) as (n' & s' & os' & Hrun & Hs' & Hle). by exists n', s', os', ids'.
  - eapply (IH n _ os ids'); [|done]. eapply drop_ok; [exact Hs1|exact Hperm| |exact Ha].
    apply eq_None_not_Some, (proj1 (bool_decide_eq_false _)). rewrite <- Hexists. symmetry. by apply (exists_spec n s1 os ids).
Qed.

Lemma loops_ok fuel :
  (∀ n s os ids, tracks n s os ids → (2 * n + 1 ≤ fuel)%nat →
     returns_any n (generate_and_post_cancel_request ORDERS entropy fuel s)) ∧
  (∀ n s os ids type, tracks n s os ids → (2 * n + 2 ≤ fuel)%nat → is_buy_or_sell type = true →
     returns_any n (generate_and_post_new_order_request ORDERS entropy fuel type s)) ∧
  (∀ n s os ids, tracks n s os ids → (2 * n + 1 ≤ fuel)%nat → returns_any n (populate_active_orders ORDERS entropy fuel s)) ∧
  (∀ n s os ids, tracks n s os ids → (2 * n + 1 ≤ fuel)%nat → returns n purged (purge_active_orders ORDERS entropy fuel s)).
Proof using.
  induction fuel as [|fuel (IHcancel & IHnew & IHpopulate & IHpurge)]; [split_and!; intros; lia|].
  split_and!; intros n s os ids.
  - intros Hs Hfuel. cbn [generate_and_post_cancel_request].
    destruct (poll n s os ids Hs) as [[-> ->]|(m & s1 & -> & -> & Hs1)]; [by eapply returns_now|].
    apply (returns_le m); [lia|]. eapply (returns_bind m (λ _ _, True)).
    + destruct (RandomContainer.is_empty _); [eapply IHpopulate; [done|lia]|by eapply returns_now].
    + intros n' s' os' ids' Hs' Hle _. rewrite (RandomContainer.is_empty_spec _ _ _ (tr_active _ _ _ _ Hs')).
      case_bool_decide; [by eapply returns_now|]. eapply cancel_step_ok; [done..|lia].
  - intros type Hs Hfuel Ht. cbn [generate_and_post_new_order_request]. rewrite Ht. cbn [assert_ mbind outcome_bind].
    eapply (returns_bind n (λ n' ids', n' = O ∨ (length ids' < Z.to_nat Config.MAX_ACTIVE_ORDERS)%nat)).
    + rewrite (RandomContainer.is_full_spec _ _ _ (tr_active _ _ _ _ Hs)). pose proof (RandomContainer.repr_capacity _ _ _ (tr_active _ _ _ _ Hs)) as Hcap.
      assert (Config.MAX_ACTIVE_ORDERS = 8192 ∧ Config.PURGE_UNTIL_WHEN_FULL = 4096) as [HA HP] by done.
      destruct (Z.eqb_spec (Z.of_nat (length ids)) Config.MAX_ACTIVE_ORDERS).
      * destruct (IHpurge n s os ids Hs ltac:(lia)) as (n' & s' & os' & ids' & Hrun & Hs' & Hle & Hpurged).
        exists n', s', os', ids'. split_and!; try done. destruct Hpurged; [by left|right; lia].
      * eapply returns_now; [done|right; lia].
    + intros n' s' os' ids' Hs' Hle Hroom.
      destruct (new_order_request_ok type n' s' os' ids' Hs' Ht) as (r & s2 & -> & Hr & Hs2). cbn [mbind outcome_bind].
      destruct (post_new_order_ok r n' s2 os' ids' Hs2 Hr Hroom) as (n2 & s3 & os3 & ids3 & Hrun & Hs3 & Hle3). by exists n2, s3, os3, ids3.
  - intros Hs Hfuel. cbn [populate_active_orders].
    destruct (poll n s os ids Hs) as [[-> ->]|(m & s1 & -> & -> & Hs1)]; [by eapply returns_now|]. apply (returns_le m); [lia|].
    cbn [orb]. destruct (negb _); [by eapply returns_now|]. unfold draw. eapply (returns_bind m (λ _ _, True)).
    + eapply IHnew; [by apply tracks_drawn|lia|]. by destruct (_ <? _).
    + intros n' s' os' ids' Hs' Hle _. eapply IHpopulate; [done|lia].
  - intros Hs Hfuel. cbn [purge_active_orders].
    destruct (poll n s os ids Hs) as [[-> ->]|(m & s1 & -> & -> & Hs1)]; [eapply returns_now; [done|by left]|]. apply (returns_le m); [lia|].
    cbn [orb]. destruct (Z.ltb_spec Config.PURGE_UNTIL_WHEN_FULL (RandomContainer.size (active_order_ids s1))) as [|Hsize]; cbn [negb].
    + eapply (returns_bind m (λ _ _, True)); [eapply IHcancel; [done|lia]|]. intros n' s' os' ids' Hs' Hle _. eapply IHpurge; [done|lia].
    + eapply returns_now; [done|right]. unfold RandomContainer.size in Hsize.
      by rewrite (RandomContainer.repr_size _ _ _ (tr_active _ _ _ _ Hs1)) in Hsize.
Qed.

Lemma start_loop_ok fuel n s os ids : tracks n s os ids → (2 * n + 1 ≤ fuel)%nat →
  returns n (λ n' _, n' = O) (start_loop ORDERS entropy fuel s).
Proof using.
  revert n s os ids. induction fuel as [|fuel IH]; intros n s os ids Hs Hfuel; [lia|]. cbn [start_loop].
  destruct (poll n s os ids Hs) as [[-> ->]|(m & s1 & -> & -> & Hs1)]; [by eapply returns_now|]. apply (returns_le m); [lia|].
  eapply (returns_bind m (λ _ _, True)).
  - unfold generate_and_post_random_order_request, draw. destruct (loops_ok fuel) as (Hcancel & Hnew & _).
    pose proof (tracks_drawn m s1 os ids (S (drawn s1)) Hs1) as Hs2.
    destruct (_ <? _); [eapply Hcancel; [done|lia]|]. destruct (_ <? _); (eapply Hnew; [done|lia|done]).
  - intros n' s' os' ids' Hs' Hle _. eapply IH; [done|lia].
Qed.

Lemma init_tracks n ds : Z.of_nat n ≤ 2 ^ 64 - 3 →
  tracks n (MarketRequestGenerator.init (exchange_init LEVELS ORDERS (Some n) ds)) [] [].
Proof using.
  intros Hn. split.
  - by apply exchange_inv_init.
  - reflexivity.
  - unfold init. simpl. lia.
  - by apply RandomContainer.bag_init_repr.
  - done.
  - constructor.
  - constructor.
  - intros _ o Ho. set_solver.
Qed.

(** A whole session: population and the loop, until the stop. *)
Lemma session_tracks n ds fuel : Z.of_nat n ≤ 2 ^ 64 - 3 → (2 * n + 1 ≤ fuel)%nat →
  ∃ s os ids, start ORDERS entropy fuel (MarketRequestGenerator.init (exchange_init LEVELS ORDERS (Some n) ds)) = Ok s ∧
    tracks 0 s os ids.
Proof using.
  intros Hn Hfuel. unfold start. destruct (loops_ok fuel) as (_ & _ & Hpopulate & _).
  destruct (Hpopulate n _ [] [] (init_tracks n ds Hn) Hfuel) as (n1 & s1 & os1 & ids1 & -> & Hs1 & Hle1 & _). cbn [mbind outcome_bind].
  destruct (start_loop_ok fuel n1 s1 os1 ids1 Hs1 ltac:(lia)) as (n2 & s & os & ids & -> & Hs2 & _ & ->).
  by exists s, os, ids.
Qed.

(** The quantity at a price of a book within the bounds. *)
Lemma total_below b p os : below b os → 0 ≤ b → Book.total (Book.at_price p os) ≤ b * Z.of_nat (length os).
Proof using.
  intros Hb H0. unfold Book.total. transitivity (b * Z.of_nat (length (Book.at_price p os))).
  - rewrite <- (length_fmap Order.quantity). apply zsum_le_bound, Forall_fmap. by apply Forall_filter_keep.
  - pose proof (length_filter (λ o, Order.price o = p) os). unfold Book.at_price. nia.
Qed.

(** C9: The request generator never exceeds the exchange's capacities.  Whatever
    the random numbers, the delays of the event buffer and the moment of the
    stop, [start] returns within fuel twice the number of polls: no distribution
    over an empty range, no draw from an empty container, no map or pool
    overflow, no undefined operation of the matching engine.  At the end at most
    [MAX_ACTIVE_ORDERS] orders rest, each at a price from [MIN_PRICE] to
    [MAX_PRICE] and of at most the large quantity; no quantity the book sums
    per price wraps around 2^32; and a replica that executes the published
    events reaches exactly these orders. *)
Theorem generator_respects_capacities (n : nat) (ds : list nat) (fuel : nat) :
  Z.of_nat n ≤ 2 ^ 64 - 3 → (2 * n + 1 ≤ fuel)%nat →
  ∃ s os us, start ORDERS entropy fuel (MarketRequestGenerator.init (exchange_init LEVELS ORDERS (Some n) ds)) = Ok s ∧
    Clob.token (clob_ s) = Some O ∧
    Z.of_nat (length os) ≤ Config.MAX_ACTIVE_ORDERS ∧ 0 ≤ RandomContainer.size (active_order_ids s) ≤ Config.MAX_ACTIVE_ORDERS ∧
    (∀ o, o ∈ os → Config.MIN_PRICE ≤ Order.price o ≤ Config.MAX_PRICE ∧ 0 < Order.quantity o ≤ Config.MAX_LARGE_QUANTITY) ∧
    (∀ p, 0 ≤ Book.total (Book.at_price p os) < 2 ^ 32) ∧
    book_spec LEVELS ORDERS (Clob.published (clob_ s)) = Some (os, us) ∧
    (∃ book, book_run hash_price hash_id LEVELS ORDERS (Clob.published (clob_ s)) = Ok (book, us)) ∧
    Clob.snapshot (clob_ s) = Book.bbo_of os.
Proof.
  intros Hn Hfuel. destruct (session_tracks n ds fuel Hn Hfuel) as (s & os & ids & -> & Hs2).
  destruct (tr_exchange _ _ _ _ Hs2) as [Hinv [us Hus]]. pose proof (tr_room _ _ _ _ Hs2) as Hroom.
  pose proof (Book.valid_orders os (rep_valid _ _ _ _ _ (proj1 (inv_Rep _ _ _ _ _ Hinv)))) as Hvalid.
  destruct (run_Rep _ _ (ORDERS * 2) _ _ (Clob.published (clob_ s)) (empty_book LEVELS ORDERS) [] os us (orders_cap _)
    (empty_book_Rep hash_price hash_id LEVELS ORDERS eq_refl) Hus) as (book & Hbook & _).
  exists s, os, us. split_and!; [done|apply Hs2|done| | | | |done|by exists book|by eapply snapshot_spec].
  - unfold RandomContainer.size. rewrite (RandomContainer.repr_size _ _ _ (tr_active _ _ _ _ Hs2)). lia.
  - unfold RandomContainer.size. rewrite (RandomContainer.repr_size _ _ _ (tr_active _ _ _ _ Hs2)). apply Hs2.
  - intros o Ho. pose proof (tr_priced _ _ _ _ Hs2) as Hp. pose proof (tr_below _ _ _ _ Hs2) as Hb. unfold priced in Hp. unfold below in Hb.
    rewrite Forall_forall in Hp. rewrite Forall_forall in Hb. rewrite Forall_forall in Hvalid.
    specialize (Hp o Ho). specialize (Hb o Ho). specialize (Hvalid o Ho). destruct Hvalid as (_ & ? & _). split; [exact Hp|]. split; [done|exact Hb].
  - intros p. pose proof (total_below _ p os (tr_below _ _ _ _ Hs2) ltac:(done)) as Ht.
    assert (Config.MAX_ACTIVE_ORDERS = 8192 ∧ QUANTITY_MAX = 600) as [HA HQ] by done.
    split; [apply Book.total_nonneg; by apply Forall_filter_keep|lia].
Qed.
End Proof.

(** ** A run *)

(** A linear congruential stand-in for the random device. *)
Definition test_entropy (k : nat) : Z := (Z.of_nat k * 6364136223846793005 + 1442695040888963407) mod 2 ^ 64.

Lemma generator_respects_capacities_witness :
  ∃ s os us, start Config.MAX_CONCURRENT_ORDERS (pl_ops := level_store (λ p, p) Config.MAX_PRICE_LEVELS) (om_ops := order_store (λ i, i) Config.MAX_CONCURRENT_ORDERS)
      test_entropy 2000 (MarketRequestGenerator.init (exchange_init Config.MAX_PRICE_LEVELS Config.MAX_CONCURRENT_ORDERS (Some 900%nat) [3; 1]%nat)) = Ok s ∧
    Z.of_nat (length os) ≤ Config.MAX_ACTIVE_ORDERS ∧
    book_spec Config.MAX_PRICE_LEVELS Config.MAX_CONCURRENT_ORDERS (Clob.published (clob_ s)) = Some (os, us).
Proof.
  destruct (generator_respects_capacities (λ p, p) (λ i, i) test_entropy 900 [3; 1]%nat 2000) as (s & os & us & Hrun & _ & Hlen & _ & _ & _ & Hspec & _).
  - vm_compute. discriminate.
  - apply Nat.leb_le. vm_compute. reflexivity.
  - exists s, os, us. split; [exact Hrun|]. split; [exact Hlen|exact Hspec].
Defined.
