(* ===== verification/Bytes.v ===== *)
(** * Integers in memory

    A byte is a [Z] in [0, 256).  The host's byte order is a parameter: [memory]
    is what [memcpy] sees of an integer object, [from_memory] the integer whose
    object has these bytes, and [host_to_network] the function behind [htons],
    [htonl] and [htonll] (which equals its inverse [ntoh...]). *)

From S2P Require Import Prelude.

Definition byte_range (b : Z) : Prop := 0 ≤ b < 256.

Fixpoint le_bytes (n : nat) (x : Z) : list Z :=
  match n with O => [] | S n => x mod 256 :: le_bytes n (x / 256) end.
Fixpoint le_value (bs : list Z) : Z :=
  match bs with [] => 0 | b :: bs => b + 256 * le_value bs end.

Definition be_bytes (n : nat) (x : Z) : list Z := rev (le_bytes n x).
Definition be_value (bs : list Z) : Z := le_value (rev bs).

Inductive endian : Type := LittleEndian | BigEndian.

Definition memory (h : endian) (n : nat) (x : Z) : list Z :=
  match h with LittleEndian => le_bytes n x | BigEndian => be_bytes n x end.
Definition from_memory (h : endian) (bs : list Z) : Z :=
  match h with LittleEndian => le_value bs | BigEndian => be_value bs end.
Definition host_to_network (h : endian) (n : nat) (x : Z) : Z :=
  match h with LittleEndian => le_value (be_bytes n x) | BigEndian => x end.

Lemma le_bytes_length n x : length (le_bytes n x) = n.
Proof. revert x. induction n; intros x; simpl; [done|by f_equal]. Qed.

Lemma le_bytes_range n x : Forall byte_range (le_bytes n x).
Proof.
  revert x. induction n; intros x; simpl; constructor; [|done]. apply Z.mod_pos_bound. lia.
Qed.

Lemma le_value_bytes n x : in_u (8 * Z.of_nat n) x → le_value (le_bytes n x) = x.
Proof.
  unfold in_u. revert x. induction n as [|n IH]; intros x Hx; [simpl in *; lia|]. cbn [le_bytes le_value].
  rewrite IH; [rewrite (Z.div_mod x 256) at 3 by lia; lia|].
  replace (8 * Z.of_nat (S n)) with (8 + 8 * Z.of_nat n) in Hx by lia.
  rewrite Z.pow_add_r in Hx by lia. change (2 ^ 8) with 256 in Hx.
  split; [apply Z.div_pos; lia|apply Z.div_lt_upper_bound; lia].
Qed.

Lemma le_value_range bs : Forall byte_range bs → in_u (8 * Z.of_nat (length bs)) (le_value bs).
Proof.
  unfold in_u. induction 1 as [|b bs Hb Hbs IH]; cbn [le_value length]; [simpl; lia|].
  replace (8 * Z.of_nat (S (length bs))) with (8 + 8 * Z.of_nat (length bs)) by lia.
  rewrite Z.pow_add_r by lia. change (2 ^ 8) with 256. unfold byte_range in Hb. lia.
Qed.

Lemma le_bytes_value bs : Forall byte_range bs → le_bytes (length bs) (le_value bs) = bs.
Proof.
  induction 1 as [|b bs Hb Hbs IH]; cbn [le_value length le_bytes]; [done|]. unfold byte_range in Hb.
  rewrite (Z.mul_comm 256), Z.mod_add, Z.div_add, Z.mod_small, Z.div_small by lia. by rewrite Z.add_0_l, IH.
Qed.

Lemma be_bytes_length n x : length (be_bytes n x) = n.
Proof. unfold be_bytes. by rewrite length_rev, le_bytes_length. Qed.

Lemma be_bytes_range n x : Forall byte_range (be_bytes n x).
Proof. apply Forall_rev, le_bytes_range. Qed.

Lemma be_value_bytes n x : in_u (8 * Z.of_nat n) x → be_value (be_bytes n x) = x.
Proof. intros. unfold be_value, be_bytes. rewrite rev_involutive. by apply le_value_bytes. Qed.

(** What [memcpy] of a converted integer puts on the wire is big-endian, on any
    host; and a converted read of it gives the integer back. *)
Lemma network_memory h n x : memory h n (host_to_network h n x) = be_bytes n x.
Proof.
  destruct h; simpl; [|done]. pose proof (le_bytes_value (be_bytes n x) (be_bytes_range n x)) as Hb.
  by rewrite be_bytes_length in Hb.
Qed.

Lemma network_read h n x : in_u (8 * Z.of_nat n) x →
  host_to_network h n (from_memory h (be_bytes n x)) = x.
Proof.
  intros Hx. destruct h; simpl; [|by apply be_value_bytes].
  unfold be_bytes at 1. pose proof (le_bytes_value (be_bytes n x) (be_bytes_range n x)) as Hb.
  rewrite be_bytes_length in Hb. rewrite Hb. unfold be_bytes. rewrite rev_involutive. by apply le_value_bytes.
Qed.

Lemma be_bytes_le_value n w : Forall byte_range w → length w = n → be_bytes n (le_value w) = rev w.
Proof. intros Hw <-. unfold be_bytes. by rewrite le_bytes_value. Qed.

Lemma network_write h n w : Forall byte_range w → length w = n →
  be_bytes n (host_to_network h n (from_memory h w)) = w.
Proof.
  intros Hw Hl. assert (be_bytes n (le_value (rev w)) = w) as Hr.
  { rewrite be_bytes_le_value; [apply rev_involutive|by apply Forall_rev|by rewrite length_rev]. }
  destruct h; simpl; [|done]. by rewrite (be_bytes_le_value n w).
Qed.

Lemma memory_byte h b : byte_range b → memory h 1 b = [b].
Proof. intros Hb. unfold byte_range in Hb. destruct h; cbn; by rewrite Z.mod_small. Qed.

Lemma from_memory_byte h b : from_memory h [b] = b.
Proof. destruct h; cbn; lia. Qed.

Create Rewrite HintDb bytes.
#[export] Hint Rewrite le_bytes_length be_bytes_length : bytes.
Ltac blen := autorewrite with bytes.
#[global] Arguments le_bytes : simpl never.
#[global] Arguments be_bytes : simpl never.
