(* ===== verification/Codec.v ===== *)
(** * Wire formats

    BinaryProtocol ([exchange/binary-protocol]), MessageHeader
    ([exchange/protocol]), EncodedMessage ([exchange/encoded-message]), Sequencer
    ([exchange/sequencer.hpp]) and RetransmitRequest ([exchange/tcp-retransmit]),
    for a host of either byte order. *)

From S2P Require Import Prelude Types Bytes.

(** ** Enumerators as bytes *)

Definition type_byte (ty : MarketEvent.Type_) : Z :=
  match ty with MarketEvent.Add => 0 | MarketEvent.Cancel => 1 | MarketEvent.Trade => 2 | MarketEvent.Update => 3 end.
Definition side_byte (sd : Side.t) : Z := match sd with Side.Buy => 0 | Side.Sell => 1 end.

(** A decoded event whose two enum members hold any byte: both enums have the
    underlying type [uint8_t] and [memcpy] fills them unchecked. *)
Module RawEvent.
Record t : Type := {
  order_id : Z;
  price : Z;
  quantity : Z;
  side : Z;
  type : Z;
}.

Definition of_event (e : MarketEvent.t) : t :=
  let o := MarketEvent.order e in
  {| order_id := Order.order_id o; price := Order.price o; quantity := Order.quantity o;
     side := side_byte (Order.side o); type := type_byte (MarketEvent.type e) |}.

(** The event, when both bytes name an enumerator. *)
Definition to_event (r : t) : option MarketEvent.t :=
  sd ← (if side r =? 0 then Some Side.Buy else if side r =? 1 then Some Side.Sell else None);
  ty ← (if type r =? 0 then Some MarketEvent.Add else if type r =? 1 then Some MarketEvent.Cancel
        else if type r =? 2 then Some MarketEvent.Trade else if type r =? 3 then Some MarketEvent.Update else None);
  Some {| MarketEvent.order := {| Order.order_id := order_id r; Order.price := price r;
                                  Order.quantity := quantity r; Order.side := sd |};
          MarketEvent.type := ty |}.
End RawEvent.

Module BinaryProtocol.
Definition BUFFER_SIZE : Z := 1 + 8 + 4 + 4 + 1.

Section Host.
Context (h : endian).

Definition encode (event : MarketEvent.t) : list Z :=
  let o := MarketEvent.order event in
  let order_id := host_to_network h 8 (Order.order_id o) in
  let price := to_signed 32 (host_to_network h 4 (u32 (Order.price o))) in
  let quantity := host_to_network h 4 (Order.quantity o) in
  memory h 1 (type_byte (MarketEvent.type event)) ++ memory h 8 order_id ++ memory h 4 (u32 price)
    ++ memory h 4 quantity ++ memory h 1 (side_byte (Order.side o)).

(** [memcpy] of [n] bytes at [offset]. *)
Definition read (buffer : list Z) (offset n : nat) : Z := from_memory h (take n (drop offset buffer)).

Definition decode (buffer : list Z) : outcome RawEvent.t :=
  _ ← assert_ (Z.of_nat (length buffer) =? BUFFER_SIZE);
  Ok {| RawEvent.type := read buffer 0 1;
        RawEvent.order_id := host_to_network h 8 (read buffer 1 8);
        RawEvent.price := to_signed 32 (host_to_network h 4 (u32 (to_signed 32 (read buffer 9 4))));
        RawEvent.quantity := host_to_network h 4 (read buffer 13 4);
        RawEvent.side := read buffer 17 1 |}.
End Host.
End BinaryProtocol.

Module MessageHeader.
Definition PACKED_WIRE_SIZE : Z := 8 + 2.

Record t : Type := {
  sequence_number : Z;
  payload_length : Z;
}.
#[global] Instance eq_dec : EqDecision t.
Proof. solve_decision. Defined.

Definition wf (m : t) : Prop := in_u 64 (sequence_number m) ∧ in_u 16 (payload_length m).

Definition wire_size (m : t) : Z :=
  if sequence_number m =? 0 then PACKED_WIRE_SIZE else PACKED_WIRE_SIZE + payload_length m.

(** Overwrite a prefix of the buffer. *)
Definition serialize (h : endian) (m : t) (buffer : list Z) : outcome (list Z) :=
  _ ← assert_ (PACKED_WIRE_SIZE <=? Z.of_nat (length buffer));
  Ok (memory h 8 (host_to_network h 8 (sequence_number m))
      ++ memory h 2 (host_to_network h 2 (payload_length m)) ++ drop 10 buffer).
End MessageHeader.

Module EncodedMessage.
Definition MAX_WIRE_SIZE : Z := Config.MAX_MESSAGE_BYTES + MessageHeader.PACKED_WIRE_SIZE.

(** [buffer_] is not initialised by the constructors: a fresh message has some
    bytes in it. *)
Record t : Type := {
  header : MessageHeader.t;
  buffer : list Z;
}.

(** [std::ranges::copy(bytes, buffer_.data() + offset)] *)
Definition overwrite (offset : nat) (bytes buffer : list Z) : list Z :=
  take offset buffer ++ bytes ++ drop (offset + length bytes) buffer.

(** The constructor, over the bytes [fresh] found in the array. *)
Definition make (fresh : list Z) (hd : MessageHeader.t) (payload : list Z) : outcome t :=
  _ ← assert_ (Z.of_nat (length payload) <=? Config.MAX_MESSAGE_BYTES);
  Ok {| header := hd; buffer := overwrite 10 payload fresh |}.

(** [std::span::subspan(offset, count)] and [first(count)]: out of range is
    undefined. *)
Definition subspan (offset count : Z) (bytes : list Z) : outcome (list Z) :=
  if offset + count <=? Z.of_nat (length bytes)
  then Ok (take (Z.to_nat count) (drop (Z.to_nat offset) bytes)) else Undefined.

Definition payload (m : t) : outcome (list Z) :=
  if MessageHeader.sequence_number (header m) =? 0 then Ok []
  else subspan MessageHeader.PACKED_WIRE_SIZE (MessageHeader.payload_length (header m)) (buffer m).

Definition message (m : t) : outcome (list Z) := subspan 0 (MessageHeader.wire_size (header m)) (buffer m).

Definition serialize (h : endian) (m : t) : outcome t :=
  span ← subspan 0 MessageHeader.PACKED_WIRE_SIZE (buffer m);
  bytes ← MessageHeader.serialize h (header m) span;
  Ok {| header := header m; buffer := overwrite 0 bytes (buffer m) |}.

(** [get_payload_ref()]; writing through it is [overwrite 10]. *)
Definition get_payload_ref (m : t) : outcome (list Z) :=
  _ ← assert_ (MessageHeader.payload_length (header m) <=? Config.MAX_MESSAGE_BYTES);
  subspan MessageHeader.PACKED_WIRE_SIZE (MessageHeader.payload_length (header m)) (buffer m).

Definition decode_header_from_buffer (h : endian) (m : t) : t :=
  {| header := {| MessageHeader.sequence_number := host_to_network h 8 (BinaryProtocol.read h (buffer m) 0 8);
                  MessageHeader.payload_length := host_to_network h 2 (BinaryProtocol.read h (buffer m) 8 2) |};
     buffer := buffer m |}.
End EncodedMessage.

Module Sequencer.
(** [sequencer_counter_] *)
Definition init : Z := Config.FIRST_SEQUENCE_ID.

(** [generate_message] for [Encoder = BinaryProtocol]. *)
Definition generate_message (h : endian) (fresh : list Z) (counter : Z) (event : MarketEvent.t) :
    outcome (EncodedMessage.t * Z) :=
  let payload := BinaryProtocol.encode h event in
  let header := {| MessageHeader.sequence_number := counter;
                   MessageHeader.payload_length := u16 (Z.of_nat (length payload)) |} in
  message ← EncodedMessage.make fresh header payload;
  message ← EncodedMessage.serialize h message;
  Ok (message, u64 (counter + 1)).
End Sequencer.

Module RetransmitRequest.
Definition PACKED_SIZE : Z := 8 + 8.

Record t : Type := {
  first_packet : Z;
  last_packet : Z;
}.
#[global] Instance eq_dec : EqDecision t.
Proof. solve_decision. Defined.

Definition wf (r : t) : Prop := in_u 64 (first_packet r) ∧ in_u 64 (last_packet r).

Definition parse (h : endian) (wire : list Z) : outcome t :=
  _ ← assert_ (Z.of_nat (length wire) =? PACKED_SIZE);
  Ok {| first_packet := host_to_network h 8 (BinaryProtocol.read h wire 0 8);
        last_packet := host_to_network h 8 (BinaryProtocol.read h wire 8 8) |}.

Definition serialize (h : endian) (r : t) : list Z :=
  memory h 8 (host_to_network h 8 (first_packet r)) ++ memory h 8 (host_to_network h 8 (last_packet r)).
End RetransmitRequest.
