(* ===== verification/CodecProof.v ===== *)
(** * Round trips of the wire formats

    Whatever the byte orders of sender and receiver, and whatever bytes their
    message buffers held before. *)

From S2P Require Import Prelude Types Bytes Codec.

(** ** Reading back *)

Lemma read_at h pre mid suf off n : length pre = off → length mid = n →
  BinaryProtocol.read h (pre ++ mid ++ suf) off n = from_memory h mid.
Proof.
  intros <- <-. unfold BinaryProtocol.read. by rewrite drop_app_length, take_app_length.
Qed.

Lemma read_network h pre suf off n x : length pre = off → in_u (8 * Z.of_nat n) x →
  host_to_network h n (BinaryProtocol.read h (pre ++ be_bytes n x ++ suf) off n) = x.
Proof. intros Hp Hx. rewrite (read_at h pre _ suf) by (by blen). by apply network_read. Qed.

(** ** Market events *)

(** The wire format of an event: 18 bytes, every integer big-endian. *)
Definition event_wire (e : MarketEvent.t) : list Z :=
  let o := MarketEvent.order e in
  [type_byte (MarketEvent.type e)] ++ be_bytes 8 (Order.order_id o) ++ be_bytes 4 (u32 (Order.price o))
    ++ be_bytes 4 (Order.quantity o) ++ [side_byte (Order.side o)].

Lemma type_byte_range ty : byte_range (type_byte ty).
Proof. destruct ty; unfold byte_range; simpl; lia. Qed.
Lemma side_byte_range sd : byte_range (side_byte sd).
Proof. destruct sd; unfold byte_range; simpl; lia. Qed.

Lemma host_to_network_u32 h x : in_u 32 (host_to_network h 4 (u32 x)).
Proof.
  destruct h; simpl; [|by apply uwrap_range].
  pose proof (le_value_range (be_bytes 4 (u32 x)) (be_bytes_range _ _)) as Hr. by rewrite be_bytes_length in Hr.
Qed.

Lemma encode_wire h e : BinaryProtocol.encode h e = event_wire e.
Proof.
  unfold BinaryProtocol.encode, event_wire. cbv zeta. zsimpl.
  rewrite (uwrap_small 32 (host_to_network h 4 _)) by apply host_to_network_u32.
  rewrite !network_memory. rewrite !memory_byte by apply type_byte_range || apply side_byte_range. done.
Qed.

Lemma event_wire_length e : length (event_wire e) = 18%nat.
Proof. unfold event_wire. rewrite !length_app. blen. done. Qed.

Lemma event_wire_bytes e : Forall byte_range (event_wire e).
Proof.
  unfold event_wire. rewrite !Forall_app. split_and!; try apply be_bytes_range;
    (constructor; [apply type_byte_range || apply side_byte_range|done]).
Qed.

Lemma decode_wire h e : MarketEvent.wf e → BinaryProtocol.decode h (event_wire e) = Ok (RawEvent.of_event e).
Proof.
  intros (Hid & Hp & Hq). unfold BinaryProtocol.decode. rewrite event_wire_length. simpl.
  unfold RawEvent.of_event. f_equal. unfold event_wire. set (o := MarketEvent.order e) in *. f_equal.
  - apply (read_network h [_]); [done|exact Hid].
  - zsimpl. rewrite (uwrap_small 32).
    + rewrite app_assoc, (read_network h ([_] ++ be_bytes 8 _)) by (try apply uwrap_range; simpl; blen; lia).
      by apply to_signed_small.
    + rewrite app_assoc, (read_at h ([_] ++ be_bytes 8 _)) by (simpl; blen; done).
      pose proof (be_bytes_range 4 (u32 (Order.price o))) as Hr.
      destruct h; simpl; [apply (le_value_range (be_bytes _ _)) in Hr|apply Forall_rev, le_value_range in Hr];
        by rewrite ?length_rev, be_bytes_length in Hr.
  - rewrite !app_assoc, <- app_assoc, (read_network h (([_] ++ be_bytes 8 _) ++ be_bytes 4 _)); [done| |exact Hq].
    rewrite !length_app. by blen.
  - rewrite !app_assoc. rewrite <- (app_nil_r [side_byte _]).
    rewrite (read_at h ((([_] ++ be_bytes 8 _) ++ be_bytes 4 _) ++ be_bytes 4 _)); [apply from_memory_byte| |done].
    rewrite !length_app. by blen.
  - etrans; [by apply (read_at h [] [_])|]. apply from_memory_byte.
Qed.

Lemma raw_event_inverse e : RawEvent.to_event (RawEvent.of_event e) = Some e.
Proof. destruct e as [[id p q []] []]; done. Qed.

(** Encoding then decoding a market event gives it back, between hosts of any
    byte orders: the encoding is 18 bytes of big-endian wire format on every
    host, and [decode] passes its assertion and returns exactly the event. *)
Theorem binary_protocol_round_trip h h' e : MarketEvent.wf e →
  BinaryProtocol.encode h e = event_wire e ∧
  Z.of_nat (length (BinaryProtocol.encode h e)) = BinaryProtocol.BUFFER_SIZE ∧
  Forall byte_range (BinaryProtocol.encode h e) ∧
  ∃ r, BinaryProtocol.decode h' (BinaryProtocol.encode h e) = Ok r ∧ RawEvent.to_event r = Some e.
Proof.
  intros Hwf. rewrite encode_wire, event_wire_length. split_and!; [done..|apply event_wire_bytes|].
  exists (RawEvent.of_event e). split; [by apply decode_wire|apply raw_event_inverse].
Qed.

Lemma binary_protocol_round_trip_witness :
  let e := {| MarketEvent.order := {| Order.order_id := 258; Order.price := -2; Order.quantity := 75;
                                      Order.side := Side.Sell |}; MarketEvent.type := MarketEvent.Trade |} in
  BinaryProtocol.encode LittleEndian e = event_wire e ∧
  Z.of_nat (length (BinaryProtocol.encode LittleEndian e)) = BinaryProtocol.BUFFER_SIZE ∧
  Forall byte_range (BinaryProtocol.encode LittleEndian e) ∧
  ∃ r, BinaryProtocol.decode BigEndian (BinaryProtocol.encode LittleEndian e) = Ok r ∧ RawEvent.to_event r = Some e.
Proof.
  intros e. apply (binary_protocol_round_trip LittleEndian BigEndian e).
  split; [split; [discriminate|reflexivity]|split; split; first [discriminate|reflexivity]].
Defined.

(** ** Messages *)

Definition header_wire (m : MessageHeader.t) : list Z :=
  be_bytes 8 (MessageHeader.sequence_number m) ++ be_bytes 2 (MessageHeader.payload_length m).

Lemma header_wire_length m : length (header_wire m) = 10%nat.
Proof. unfold header_wire. rewrite length_app. by blen. Qed.

Lemma header_serialize h m buffer : length buffer = 10%nat → MessageHeader.serialize h m buffer = Ok (header_wire m).
Proof.
  intros Hl. unfold MessageHeader.serialize. rewrite Hl. simpl. rewrite !network_memory.
  rewrite drop_ge by lia. by rewrite app_nil_r.
Qed.

(** The header decoded from a buffer that starts with a serialized header. *)
Lemma decode_header h hd m rest : MessageHeader.wf m →
  EncodedMessage.decode_header_from_buffer h {| EncodedMessage.header := hd; EncodedMessage.buffer := header_wire m ++ rest |} =
    {| EncodedMessage.header := m; EncodedMessage.buffer := header_wire m ++ rest |}.
Proof.
  intros [Hs Hp]. unfold EncodedMessage.decode_header_from_buffer, header_wire.
  destruct m as [s p]. cbn [EncodedMessage.buffer MessageHeader.sequence_number MessageHeader.payload_length] in *.
  rewrite <- app_assoc.
  do 2 f_equal.
  - by apply (read_network h [] (be_bytes 2 p ++ rest) 0 8 s).
  - apply (read_network h (be_bytes 8 s) rest 8 2 p); [by blen|done].
Qed.

(** A buffer of the message type. *)
Definition is_buffer (bs : list Z) : Prop := Z.of_nat (length bs) = EncodedMessage.MAX_WIRE_SIZE.

Lemma buffer_length bs : is_buffer bs → length bs = 42%nat.
Proof. unfold is_buffer. change EncodedMessage.MAX_WIRE_SIZE with 42. lia. Qed.

Lemma subspan_prefix bs rest n : Z.of_nat (length bs) = n → EncodedMessage.subspan 0 n (bs ++ rest) = Ok bs.
Proof.
  intros <-. unfold EncodedMessage.subspan. rewrite length_app.
  rewrite (proj2 (Z.leb_le _ _)) by lia. simpl. by rewrite drop_0, Nat2Z.id, take_app_length.
Qed.

(** The wire form of a message with payload [p]. *)
Lemma make_serialize h fresh hd p : is_buffer fresh → (length p ≤ 32)%nat →
  ∃ m, (m ← EncodedMessage.make fresh hd p; EncodedMessage.serialize h m) =
    Ok m ∧ EncodedMessage.header m = hd ∧ EncodedMessage.buffer m = header_wire hd ++ p ++ drop (10 + length p) fresh.
Proof.
  intros Hf%buffer_length Hp. unfold EncodedMessage.make, EncodedMessage.serialize.
  replace (Z.of_nat (length p) <=? Config.MAX_MESSAGE_BYTES) with true
    by (symmetry; apply Z.leb_le; change Config.MAX_MESSAGE_BYTES with 32; lia).
  simpl. set (b := EncodedMessage.overwrite 10 p fresh).
  assert (b = take 10 fresh ++ p ++ drop (10 + length p) fresh) as Hb by done. clearbody b.
  assert (length b = 42%nat) as Hlb.
  { rewrite Hb, !length_app, length_take, length_drop, Hf. lia. }
  assert (EncodedMessage.subspan 0 MessageHeader.PACKED_WIRE_SIZE b = Ok (take 10 b)) as ->.
  { rewrite <- (take_drop 10 b) at 1. apply subspan_prefix. by rewrite length_take, Hlb. }
  simpl. rewrite header_serialize by (by rewrite length_take, Hlb). simpl.
  eexists. split; [done|]. split; [done|]. unfold EncodedMessage.overwrite. cbn [EncodedMessage.buffer].
  rewrite header_wire_length, take_0, app_nil_l. f_equal. rewrite Hb.
  rewrite drop_app_ge by (rewrite length_take; lia). rewrite length_take, Hf. done.
Qed.

Lemma subspan_middle pre bs rest k n : Z.of_nat (length pre) = k → Z.of_nat (length bs) = n →
  EncodedMessage.subspan k n (pre ++ bs ++ rest) = Ok bs.
Proof.
  intros <- <-. unfold EncodedMessage.subspan. rewrite !length_app.
  rewrite (proj2 (Z.leb_le _ _)) by lia. by rewrite !Nat2Z.id, drop_app_length, take_app_length.
Qed.

(** What [recv] of [bytes] into a message buffer and [decode_header_from_buffer] leave. *)
Definition received h (old : EncodedMessage.t) (bytes : list Z) : EncodedMessage.t :=
  EncodedMessage.decode_header_from_buffer h
    {| EncodedMessage.header := EncodedMessage.header old;
       EncodedMessage.buffer := EncodedMessage.overwrite 0 bytes (EncodedMessage.buffer old) |}.

Lemma received_wire h old hd p : MessageHeader.wf hd →
  received h old (header_wire hd ++ p) =
    {| EncodedMessage.header := hd;
       EncodedMessage.buffer := header_wire hd ++ p ++ drop (length (header_wire hd ++ p)) (EncodedMessage.buffer old) |}.
Proof.
  intros Hwf. unfold received, EncodedMessage.overwrite. cbn [EncodedMessage.buffer EncodedMessage.header].
  rewrite take_0, app_nil_l, <- app_assoc. by apply decode_header.
Qed.

(** C36: a sequenced message survives the wire.  For any event, any non-zero
    sequence number, any byte orders of the two hosts and any bytes left in the
    two message buffers: [generate_message] succeeds, advances the 64-bit counter
    and yields a 28-byte message; a receiver that fills its buffer with these
    bytes decodes the same sequence number, and a payload that [decode] turns
    back into the event. *)
Theorem sequencer_message_round_trip h h' fresh old counter e :
  is_buffer fresh → is_buffer (EncodedMessage.buffer old) →
  MarketEvent.wf e → in_u 64 counter → counter ≠ 0 →
  ∃ m bytes p r, Sequencer.generate_message h fresh counter e = Ok (m, u64 (counter + 1)) ∧
    EncodedMessage.message m = Ok bytes ∧ Z.of_nat (length bytes) = 28 ∧
    let m' := received h' old bytes in
    EncodedMessage.header m' = {| MessageHeader.sequence_number := counter; MessageHeader.payload_length := 18 |} ∧
    EncodedMessage.get_payload_ref m' = Ok p ∧ EncodedMessage.payload m' = Ok p ∧
    BinaryProtocol.decode h' p = Ok r ∧ RawEvent.to_event r = Some e.
Proof.
  intros Hf Ho Hwf Hc Hc0. set (p := event_wire e).
  set (hd := {| MessageHeader.sequence_number := counter; MessageHeader.payload_length := 18 |}).
  assert (length p = 18%nat) as Hp by apply event_wire_length.
  destruct (make_serialize h fresh hd p Hf ltac:(lia)) as (m & Hm & Hhd & Hb).
  exists m, (header_wire hd ++ p), p, (RawEvent.of_event e).
  assert (Z.of_nat (length (header_wire hd ++ p)) = 28) as Hlen
    by (rewrite length_app, header_wire_length, Hp; done).
  cbv zeta. split_and!; [| |done| | | | |apply raw_event_inverse].
  - unfold Sequencer.generate_message. cbv zeta. rewrite encode_wire. fold p. rewrite Hp.
    change (u16 (Z.of_nat 18)) with 18. fold hd.
    destruct (EncodedMessage.make fresh hd p) as [m0| |]; simpl in *; try done. by rewrite Hm.
  - unfold EncodedMessage.message. rewrite Hhd, Hb, app_assoc. apply subspan_prefix. rewrite Hlen.
    unfold MessageHeader.wire_size, hd. simpl. by rewrite (proj2 (Z.eqb_neq _ _) Hc0).
  - by rewrite received_wire.
  - rewrite received_wire by done. apply subspan_middle; [by rewrite header_wire_length|by rewrite Hp].
  - rewrite received_wire by done. unfold EncodedMessage.payload.
    cbn [EncodedMessage.header MessageHeader.sequence_number hd]. rewrite (proj2 (Z.eqb_neq _ _) Hc0).
    apply subspan_middle; [by rewrite header_wire_length|by rewrite Hp].
  - by apply decode_wire.
Qed.

Lemma sequencer_message_round_trip_witness :
  let e := {| MarketEvent.order := {| Order.order_id := 258; Order.price := -2; Order.quantity := 75;
                                      Order.side := Side.Sell |}; MarketEvent.type := MarketEvent.Trade |} in
  let old := {| EncodedMessage.header := {| MessageHeader.sequence_number := 9; MessageHeader.payload_length := 3 |};
                EncodedMessage.buffer := replicate 42 77 |} in
  ∃ m bytes p r, Sequencer.generate_message LittleEndian (replicate 42 255) 4660 e = Ok (m, 4661) ∧
    EncodedMessage.message m = Ok bytes ∧ Z.of_nat (length bytes) = 28 ∧
    let m' := received BigEndian old bytes in
    EncodedMessage.header m' = {| MessageHeader.sequence_number := 4660; MessageHeader.payload_length := 18 |} ∧
    EncodedMessage.get_payload_ref m' = Ok p ∧ EncodedMessage.payload m' = Ok p ∧
    BinaryProtocol.decode BigEndian p = Ok r ∧ RawEvent.to_event r = Some e.
Proof.
  intros e old. apply (sequencer_message_round_trip LittleEndian BigEndian (replicate 42 255) old 4660 e).
  - reflexivity.
  - reflexivity.
  - split; [split; [discriminate|reflexivity]|split; split; first [discriminate|reflexivity]].
  - split; [discriminate|reflexivity].
  - discriminate.
Defined.

(** ** Error notifications and retransmit requests *)

Lemma error_code_range e : 1 ≤ ExchangeError.code e ≤ 23.
Proof. destruct e; simpl; lia. Qed.

(** The message [notify_and_close] builds: sequence number 0, the code in the
    length field. *)
Definition error_header (e : ExchangeError.t) : MessageHeader.t :=
  {| MessageHeader.sequence_number := 0; MessageHeader.payload_length := u16 (ExchangeError.code e) |}.

(** An error notification survives the wire.  Its message is 10 bytes long;
    the receiver decodes sequence number 0 and the code of the error, which
    identifies it, and [payload] is empty. *)
Theorem error_message_round_trip h h' fresh old e :
  is_buffer fresh → is_buffer (EncodedMessage.buffer old) →
  ∃ m bytes, (m ← EncodedMessage.make fresh (error_header e) []; EncodedMessage.serialize h m) = Ok m ∧
    EncodedMessage.message m = Ok bytes ∧ Z.of_nat (length bytes) = MessageHeader.PACKED_WIRE_SIZE ∧
    let m' := received h' old bytes in
    MessageHeader.sequence_number (EncodedMessage.header m') = 0 ∧
    MessageHeader.payload_length (EncodedMessage.header m') = ExchangeError.code e ∧
    EncodedMessage.payload m' = Ok [] ∧
    (∀ e', ExchangeError.code e' = MessageHeader.payload_length (EncodedMessage.header m') → e' = e).
Proof.
  intros Hf Ho. pose proof (error_code_range e) as Hr.
  assert (u16 (ExchangeError.code e) = ExchangeError.code e) as Hu by (apply uwrap_small; unfold in_u; lia).
  assert (MessageHeader.wf (error_header e)) as Hwf.
  { unfold MessageHeader.wf, error_header, in_u. simpl. rewrite Hu. lia. }
  destruct (make_serialize h fresh (error_header e) [] Hf ltac:(simpl; lia)) as (m & Hm & Hhd & Hb).
  exists m, (header_wire (error_header e)). split_and!; [done| |by rewrite header_wire_length|..].
  - unfold EncodedMessage.message. rewrite Hhd, Hb. apply subspan_prefix. by rewrite header_wire_length.
  - pose proof (received_wire h' old (error_header e) [] Hwf) as Hrw. rewrite app_nil_r in Hrw.
    cbv zeta. rewrite Hrw. unfold EncodedMessage.payload. simpl. rewrite Hu. split_and!; [done..|].
    intros e'. destruct e, e'; simpl; congruence.
Qed.

Lemma error_message_round_trip_witness :
  let old := {| EncodedMessage.header := {| MessageHeader.sequence_number := 9; MessageHeader.payload_length := 3 |};
                EncodedMessage.buffer := replicate 42 77 |} in
  ∃ m bytes, (m ← EncodedMessage.make (replicate 42 1) (error_header ExchangeError.ServerFatal) [];
              EncodedMessage.serialize LittleEndian m) = Ok m ∧
    EncodedMessage.message m = Ok bytes ∧ Z.of_nat (length bytes) = 10 ∧
    let m' := received LittleEndian old bytes in
    MessageHeader.sequence_number (EncodedMessage.header m') = 0 ∧
    MessageHeader.payload_length (EncodedMessage.header m') = 5 ∧
    EncodedMessage.payload m' = Ok [] ∧
    (∀ e', ExchangeError.code e' = MessageHeader.payload_length (EncodedMessage.header m') →
       e' = ExchangeError.ServerFatal).
Proof.
  intros old. apply (error_message_round_trip LittleEndian LittleEndian (replicate 42 1) old); reflexivity.
Defined.

Lemma retransmit_request_parsed h h' r : RetransmitRequest.wf r →
  RetransmitRequest.parse h' (RetransmitRequest.serialize h r) = Ok r.
Proof.
  intros [Hf Hl]. unfold RetransmitRequest.parse, RetransmitRequest.serialize.
  rewrite !network_memory, length_app. blen. change (assert_ _) with (Ok tt). cbn [mbind outcome_bind].
  destruct r as [f l]. cbn [RetransmitRequest.first_packet RetransmitRequest.last_packet] in *. do 2 f_equal.
  - by apply (read_network h' [] (be_bytes 8 l)).
  - rewrite <- (app_nil_r (be_bytes 8 l)). apply read_network; [by blen|done].
Qed.

(** C37: retransmit requests survive the wire in both directions: parsing a
    serialized request gives it back on any pair of hosts, and serializing a
    parsed wire image gives the image back. *)
Theorem retransmit_request_round_trip h h' r bytes :
  RetransmitRequest.wf r → Forall byte_range bytes → Z.of_nat (length bytes) = RetransmitRequest.PACKED_SIZE →
  RetransmitRequest.parse h' (RetransmitRequest.serialize h r) = Ok r ∧
  ∃ r', RetransmitRequest.parse h bytes = Ok r' ∧ RetransmitRequest.serialize h r' = bytes.
Proof.
  intros Hr Hb Hlen. split; [by apply retransmit_request_parsed|].
  unfold RetransmitRequest.parse, RetransmitRequest.serialize.
  rewrite (proj2 (Z.eqb_eq _ _) Hlen). simpl. eexists. split; [done|]. simpl. rewrite !network_memory.
    unfold RetransmitRequest.PACKED_SIZE in Hlen.
    assert (∀ off, (off + 8 ≤ 16)%nat → be_bytes 8 (host_to_network h 8 (BinaryProtocol.read h bytes off 8)) =
      take 8 (drop off bytes)) as Hrd.
    { intros off Hoff. set (w := take 8 (drop off bytes)).
      assert (Forall byte_range w) as Hw by (by apply Forall_take, Forall_drop).
      assert (length w = 8%nat) as Hlw by (unfold w; rewrite length_take, length_drop; lia).
      by apply network_write. }
    rewrite !Hrd by lia. rewrite drop_0. rewrite <- (take_drop 8 bytes) at 3. f_equal.
    rewrite take_ge; [done|]. rewrite length_drop. lia.
Qed.

Lemma retransmit_request_round_trip_witness :
  let r := {| RetransmitRequest.first_packet := 5; RetransmitRequest.last_packet := 70000 |} in
  RetransmitRequest.parse BigEndian (RetransmitRequest.serialize LittleEndian r) = Ok r ∧
  ∃ r', RetransmitRequest.parse LittleEndian (replicate 16 200) = Ok r' ∧
    RetransmitRequest.serialize LittleEndian r' = replicate 16 200.
Proof.
  intros r. apply (retransmit_request_round_trip LittleEndian BigEndian r (replicate 16 200)).
  - split; (split; [discriminate|reflexivity]).
  - repeat (constructor; [split; [discriminate|reflexivity]|]). constructor.
  - reflexivity.
Defined.
