(* ===== verification/Ring.v ===== *)
(** * Cursor rings

    What the three ring buffers share: an array indexed with
    [cursor & (CAPACITY - 1)], two [size_t] cursors that are only ever
    incremented, and the contents between them.  Cursors may wrap around 2^64. *)

From S2P Require Import Prelude.

(** [write - read] on [size_t]. *)
Definition distance (write read : Z) : Z := u64 (write - read).

(** The elements from the read cursor on, oldest first. *)
Definition between {B} (CAPACITY : Z) (buffer : list B) (write read : Z) : list B :=
  omap (λ k, buffer !! Z.to_nat (mask CAPACITY (u64 (read + k)))) (seqZ 0 (distance write read)).

Section Ring.
Context {B : Type} (CAPACITY : Z) {HC : PowerOfTwo CAPACITY} (Hcap : CAPACITY < 2 ^ 64).
Implicit Types (buffer : list B) (write read k : Z) (x : B).

Record ring_wf buffer write read : Prop := {
  ring_length : Z.of_nat (length buffer) = CAPACITY;
  ring_write : in_u 64 write;
  ring_read : in_u 64 read;
  ring_distance : distance write read ≤ CAPACITY;
}.

Lemma distance_nonneg write read : 0 ≤ distance write read.
Proof. unfold distance. pose proof (uwrap_range 64 (write - read) ltac:(lia)). unfold in_u in *. lia. Qed.

(** The slot of the [k]-th element after [read]. *)
Lemma slot_mod read k : mask CAPACITY (u64 (read + k)) = (read + k) mod CAPACITY.
Proof. apply mask_u64; [done|lia]. Qed.

Lemma slot_range buffer read : Z.of_nat (length buffer) = CAPACITY →
  (Z.to_nat (mask CAPACITY read) < length buffer)%nat.
Proof. intros Hl. pose proof (mask_range CAPACITY read). lia. Qed.

Lemma slot_lookup buffer read : Z.of_nat (length buffer) = CAPACITY →
  ∃ x, buffer !! Z.to_nat (mask CAPACITY read) = Some x.
Proof. intros Hl. apply lookup_lt_is_Some_2, slot_range, Hl. Qed.

Lemma slots_differ read j k : 0 ≤ j < CAPACITY → 0 ≤ k < CAPACITY → j ≠ k →
  Z.to_nat (mask CAPACITY (u64 (read + j))) ≠ Z.to_nat (mask CAPACITY (u64 (read + k))).
Proof.
  intros Hj Hk Hne Heq. rewrite !slot_mod in Heq. pose proof (pot_pos (c := CAPACITY)) as Hpos.
  pose proof (Z.mod_pos_bound (read + j) CAPACITY Hpos). pose proof (Z.mod_pos_bound (read + k) CAPACITY Hpos).
  assert (read + j = read + k) as He by (apply (mod_inj_window CAPACITY); lia). lia.
Qed.

Lemma between_length buffer write read : ring_wf buffer write read →
  Z.of_nat (length (between CAPACITY buffer write read)) = distance write read.
Proof.
  intros Hwf. unfold between. pose proof (distance_nonneg write read) as Hd.
  assert (∀ l, length (omap (λ k, buffer !! Z.to_nat (mask CAPACITY (u64 (read + k)))) l) = length l) as Hl.
  { induction l as [|k l IH]; [done|]. csimpl.
    destruct (slot_lookup buffer (u64 (read + k)) (ring_length _ _ _ Hwf)) as [x ->]. simpl. by f_equal. }
  rewrite Hl, length_seqZ. lia.
Qed.

Lemma between_empty buffer write read : ring_wf buffer write read →
  between CAPACITY buffer write read = [] ↔ write = read.
Proof.
  intros Hwf. rewrite <- length_zero_iff_nil. pose proof (between_length _ _ _ Hwf) as Hl.
  pose proof (ring_write _ _ _ Hwf). pose proof (ring_read _ _ _ Hwf). unfold in_u in *.
  unfold distance, uwrap in Hl. split.
  - intros Hz. rewrite Hz in Hl. simpl in Hl. symmetry in Hl. apply Z.mod_divide in Hl as [q Hq]; [|lia].
    assert (q = 0) by nia. lia.
  - intros ->. rewrite Z.sub_diag, Zmod_0_l in Hl. lia.
Qed.

Lemma distance_succ write read : in_u 64 write → distance write read < 2 ^ 64 - 1 →
  distance (u64 (write + 1)) read = distance write read + 1.
Proof.
  intros Hw Hd. unfold distance in *. zsimpl. replace (write + 1 - read) with (write - read + 1) by lia.
  rewrite <- uwrap_add_l. apply uwrap_small. pose proof (uwrap_range 64 (write - read) ltac:(lia)).
  unfold in_u in *. lia.
Qed.

Lemma distance_pred write read : 0 < distance write read →
  distance write (u64 (read + 1)) = distance write read - 1.
Proof.
  intros Hd. unfold distance in *. zsimpl. replace (write - (read + 1)) with (write - read - 1) by lia.
  rewrite <- uwrap_sub_l. apply uwrap_small. pose proof (uwrap_range 64 (write - read) ltac:(lia)).
  unfold in_u in *. lia.
Qed.

(** Writing the slot at the write cursor and advancing it appends. *)
Lemma between_push buffer write read x : ring_wf buffer write read → distance write read < CAPACITY →
  ring_wf (<[Z.to_nat (mask CAPACITY write) := x]> buffer) (u64 (write + 1)) read ∧
  between CAPACITY (<[Z.to_nat (mask CAPACITY write) := x]> buffer) (u64 (write + 1)) read =
    between CAPACITY buffer write read ++ [x].
Proof.
  intros Hwf Hd. pose proof (distance_nonneg write read) as Hn. destruct Hwf as [Hl Hw Hr Hdist].
  assert (mask CAPACITY write = mask CAPACITY (u64 (read + distance write read))) as Hslot.
  { f_equal. unfold distance. rewrite (Z.add_comm read). zsimpl. rewrite Z.sub_add. by rewrite uwrap_small. }
  split.
  - split; [by rewrite length_insert|apply uwrap_range; lia|done|]. rewrite distance_succ by (done || lia). lia.
  - unfold between. rewrite distance_succ by (done || lia). rewrite seqZ_app by lia. rewrite omap_app.
    f_equal.
    + apply list_omap_ext. apply Forall2_same_length_lookup. split; [done|].
      intros i j j' Hj Hj'. rewrite Hj in Hj'. injection Hj' as <-. apply lookup_seqZ in Hj as [Hji Hi].
      rewrite list_lookup_insert_ne; [done|]. rewrite Hslot. apply not_eq_sym, slots_differ; lia.
    + simpl. rewrite Hslot. rewrite list_lookup_insert_eq; [done|]. by apply slot_range.
Qed.

(** The element at the read cursor is the first; advancing the cursor drops it. *)
Lemma between_front buffer write read : ring_wf buffer write read → write ≠ read →
  ∃ x, buffer !! Z.to_nat (mask CAPACITY read) = Some x ∧
    between CAPACITY buffer write read = x :: between CAPACITY buffer write (u64 (read + 1)) ∧
    ring_wf buffer write (u64 (read + 1)).
Proof.
  intros Hwf Hne. destruct (slot_lookup buffer read (ring_length _ _ _ Hwf)) as [x Hx].
  assert (0 < distance write read) as Hd.
  { pose proof (distance_nonneg write read). destruct (Z.eq_dec (distance write read) 0) as [Hz|]; [|lia].
    destruct Hne. apply (between_empty buffer); [done|].
    apply length_zero_iff_nil. pose proof (between_length _ _ _ Hwf). lia. }
  exists x. split; [done|]. pose proof (ring_distance _ _ _ Hwf). split.
  - unfold between. rewrite distance_pred by done.
    replace (distance write read) with (1 + (distance write read - 1)) at 1 by lia.
    rewrite seqZ_app by lia. rewrite omap_app. simpl. rewrite Z.add_0_r.
    rewrite (uwrap_small 64 read) by apply Hwf. rewrite Hx. simpl. f_equal. rewrite Z.add_0_l.
    assert (seqZ 1 (distance write read - 1) = Z.add 1 <$> seqZ 0 (distance write read - 1)) as ->
      by (by rewrite fmap_add_seqZ).
    generalize (seqZ 0 (distance write read - 1)). intros l. induction l as [|k l IH]; [done|].
    csimpl. zsimpl. rewrite Z.add_assoc. by rewrite IH.
  - split; [apply Hwf|apply Hwf|apply uwrap_range; lia|]. rewrite distance_pred by done. lia.
Qed.

(** The two array accesses of the ring buffers, in terms of the contents. *)
Definition ring_repr buffer write read (l : list B) : Prop :=
  ring_wf buffer write read ∧ between CAPACITY buffer write read = l.

Lemma ring_repr_init x : ring_repr (replicate (Z.to_nat CAPACITY) x) 0 0 [].
Proof.
  pose proof (pot_pos (c := CAPACITY)). split; [|done].
  split; [rewrite length_replicate; lia|done|done|]. assert (distance 0 0 = 0) as -> by done. lia.
Qed.

Lemma ring_repr_bound buffer write read l :
  ring_repr buffer write read l → Z.of_nat (length l) = distance write read ∧ distance write read ≤ CAPACITY.
Proof. intros [Hwf <-]. split; [by apply between_length|apply Hwf]. Qed.

Lemma ring_repr_push buffer write read l x :
  ring_repr buffer write read l → Z.of_nat (length l) < CAPACITY →
  ∃ buffer', array_set buffer (mask CAPACITY write) x = Ok buffer' ∧
    ring_repr buffer' (u64 (write + 1)) read (l ++ [x]).
Proof.
  intros Hr Hlt. destruct (ring_repr_bound _ _ _ _ Hr) as [Hl _]. destruct Hr as [Hwf <-].
  pose proof (mask_range CAPACITY write). eexists. split.
  - apply array_set_Ok. rewrite (ring_length _ _ _ Hwf). done.
  - apply between_push; [done|lia].
Qed.

Lemma ring_repr_pop buffer write read l x :
  ring_repr buffer write read (x :: l) →
  array_get buffer (mask CAPACITY read) = Ok x ∧ ring_repr buffer write (u64 (read + 1)) l.
Proof.
  intros [Hwf Hb]. pose proof (mask_range CAPACITY read).
  destruct (decide (write = read)) as [Heq|Hne].
  { apply (between_empty buffer) in Heq; [|done]. congruence. }
  destruct (between_front _ _ _ Hwf Hne) as (y & Hy & Hf & Hwf'). rewrite Hb in Hf. injection Hf as -> Hf.
  split; [|by split]. apply array_get_Ok. split; [lia|done].
Qed.

Lemma ring_repr_nil buffer write read l :
  ring_repr buffer write read l → (write =? read) = bool_decide (l = []).
Proof.
  intros [Hwf <-]. pose proof (between_empty _ _ _ Hwf) as He.
  destruct (Z.eqb_spec write read); case_bool_decide; tauto.
Qed.

Lemma ring_repr_full buffer write read l :
  ring_repr buffer write read l → (u64 (write - read) =? CAPACITY) = (Z.of_nat (length l) =? CAPACITY).
Proof. intros Hr. destruct (ring_repr_bound _ _ _ _ Hr) as [-> _]. done. Qed.
End Ring.

(** ** Arrays indexed by the low bits of an unbounded index *)

Definition slot_at (CAPACITY i : Z) : Z := i mod CAPACITY.
Definition at_slot {B} (CAPACITY : Z) (l : list B) (i : Z) : option B := l !! Z.to_nat (slot_at CAPACITY i).

Section Slots.
Context {B : Type} (CAPACITY : Z) {HC : PowerOfTwo CAPACITY}.
Implicit Types (l : list B) (i j : Z) (x : B).

Lemma slot_at_range i : 0 ≤ slot_at CAPACITY i < CAPACITY.
Proof. apply Z.mod_pos_bound, pot_pos. Qed.

Lemma slot_at_inj i j : slot_at CAPACITY i = slot_at CAPACITY j → Z.abs (i - j) < CAPACITY → i = j.
Proof. intros He Ha. pose proof (pot_pos (c := CAPACITY)). by apply (mod_inj_window CAPACITY). Qed.

Lemma slot_at_far i j : slot_at CAPACITY i = slot_at CAPACITY j → i < j → i + CAPACITY ≤ j.
Proof. intros Hs Hij. destruct (Z_lt_ge_dec (j - i) CAPACITY); [|lia]. apply slot_at_inj in Hs; lia. Qed.

Lemma slot_at_le i : 0 ≤ i → slot_at CAPACITY i ≤ i.
Proof. intros. apply Z.mod_le; [done|apply pot_pos]. Qed.

Lemma slot_at_shift i : slot_at CAPACITY (i + CAPACITY) = slot_at CAPACITY i.
Proof. unfold slot_at. rewrite <- (Z.mul_1_l CAPACITY) at 1. apply Z.mod_add. pose proof (pot_pos (c := CAPACITY)). lia. Qed.

Lemma at_slot_insert_eq l i x : Z.of_nat (length l) = CAPACITY →
  at_slot CAPACITY (<[Z.to_nat (slot_at CAPACITY i) := x]> l) i = Some x.
Proof. intros Hl. pose proof (slot_at_range i). apply list_lookup_insert_eq. lia. Qed.

Lemma at_slot_insert_ne l i j x : slot_at CAPACITY i ≠ slot_at CAPACITY j →
  at_slot CAPACITY (<[Z.to_nat (slot_at CAPACITY i) := x]> l) j = at_slot CAPACITY l j.
Proof.
  intros Hne. pose proof (slot_at_range i). pose proof (slot_at_range j). apply list_lookup_insert_ne. lia.
Qed.

Lemma at_slot_get l i x : at_slot CAPACITY l i = Some x ↔ array_get l (slot_at CAPACITY i) = Ok x.
Proof. rewrite array_get_Ok. pose proof (slot_at_range i). unfold at_slot. naive_solver lia. Qed.

Lemma at_slot_set l i x : Z.of_nat (length l) = CAPACITY →
  array_set l (slot_at CAPACITY i) x = Ok (<[Z.to_nat (slot_at CAPACITY i) := x]> l).
Proof. intros Hl. pose proof (slot_at_range i). apply array_set_Ok. lia. Qed.

Lemma at_slot_exists l i : Z.of_nat (length l) = CAPACITY → ∃ x, at_slot CAPACITY l i = Some x.
Proof. intros Hl. pose proof (slot_at_range i). apply lookup_lt_is_Some_2. lia. Qed.
End Slots.
