(* ===== verification/RingBuffers.v ===== *)
(** * The ring buffers ([includes/utils/{lazy-,single-thread-,}ring-buffer.hpp])

    The three buffers as sequential objects.  [LazyRingBuffer] writes at
    [head_] and reads at [tail_], [SharedRingBuffer] the other way round, and
    [SingleThreadRingBuffer] as the first.  Each is an instance of the
    [BoundedQueue] interface; two threads are the subject of [Spsc]. *)

From S2P Require Import Prelude Interfaces Ring.

Module LazyRingBuffer.

Record t (A : Type) : Type := { head_ : Z; tail_ : Z; buffer_ : list A }.
Arguments head_ {A} _.
Arguments tail_ {A} _.
Arguments buffer_ {A} _.

Section Definitions.
Context {A : Type} (CAPACITY : Z).
Implicit Types (s : t A) (x : A).

Definition init (default_value : A) : t A :=
  {| head_ := 0; tail_ := 0; buffer_ := replicate (Z.to_nat CAPACITY) default_value |}.

Definition is_empty (head tail : Z) : bool := head =? tail.
Definition is_full (head tail : Z) : bool := u64 (head - tail) =? CAPACITY.

(** A slot reference is its index in [buffer_]. *)
Definition try_get_head_ref s : option Z :=
  if is_full (head_ s) (tail_ s) then None else Some (mask CAPACITY (head_ s)).
Definition publish s : t A :=
  {| head_ := u64 (head_ s + 1); tail_ := tail_ s; buffer_ := buffer_ s |}.
Definition try_get_tail_ref s : option Z :=
  if is_empty (head_ s) (tail_ s) then None else Some (mask CAPACITY (tail_ s)).
Definition consume s : t A :=
  {| head_ := head_ s; tail_ := u64 (tail_ s + 1); buffer_ := buffer_ s |}.
Definition empty s : bool := is_empty (head_ s) (tail_ s).
Definition full s : bool := is_full (head_ s) (tail_ s).

(** Writing and reading through a claimed reference. *)
Definition write (slot : Z) x s : outcome (t A) :=
  b ← array_set (buffer_ s) slot x;
  Ok {| head_ := head_ s; tail_ := tail_ s; buffer_ := b |}.
Definition read (slot : Z) s : outcome A := array_get (buffer_ s) slot.

(** The claim-write-publish and claim-read-consume protocols of the clients. *)
Definition push x s : outcome (option (t A)) :=
  match try_get_head_ref s with
  | None => Ok None
  | Some slot => s' ← write slot x s; Ok (Some (publish s'))
  end.
Definition pop s : outcome (option (A * t A)) :=
  match try_get_tail_ref s with
  | None => Ok None
  | Some slot => x ← read slot s; Ok (Some (x, consume s))
  end.
End Definitions.
End LazyRingBuffer.

Module SharedRingBuffer.

(** Slots are raw storage: [None] until an item is constructed there. *)
Record t (A : Type) : Type := { head_ : Z; tail_ : Z; buffer_ : list (option A) }.
Arguments head_ {A} _.
Arguments tail_ {A} _.
Arguments buffer_ {A} _.

Section Definitions.
Context {A : Type} (CAPACITY : Z).
Implicit Types (s : t A) (x : A).

Definition init : t A :=
  {| head_ := 0; tail_ := 0; buffer_ := replicate (Z.to_nat CAPACITY) None |}.

Definition is_empty (head tail : Z) : bool := head =? tail.
Definition is_full (head tail : Z) : bool := u64 (tail - head) =? CAPACITY.
Definition storage_slot (sequence : Z) : Z := mask CAPACITY sequence.

Definition try_push_internal x s : outcome (bool * t A) :=
  let current_tail := tail_ s in
  if is_full (head_ s) current_tail then Ok (false, s) else
  b ← array_set (buffer_ s) (storage_slot current_tail) (Some x);
  Ok (true, {| head_ := head_ s; tail_ := u64 (current_tail + 1); buffer_ := b |}).

Definition try_pop s : outcome (option A * t A) :=
  let current_head := head_ s in
  if is_empty current_head (tail_ s) then Ok (None, s) else
  slot ← array_get (buffer_ s) (storage_slot current_head);
  value ← deref slot;
  Ok (Some value, {| head_ := u64 (current_head + 1); tail_ := tail_ s; buffer_ := buffer_ s |}).

Definition empty s : bool := is_empty (head_ s) (tail_ s).
Definition full s : bool := is_full (head_ s) (tail_ s).
End Definitions.
End SharedRingBuffer.

Module SingleThreadRingBuffer.

Record t (A : Type) : Type := { buffer_ : list A; head_ : Z; tail_ : Z }.
Arguments head_ {A} _.
Arguments tail_ {A} _.
Arguments buffer_ {A} _.

Section Definitions.
Context {A : Type} (CAPACITY : Z).
Implicit Types (s : t A) (item : A).

Definition init (default_value : A) : t A :=
  {| buffer_ := replicate (Z.to_nat CAPACITY) default_value; head_ := 0; tail_ := 0 |}.

Definition empty s : bool := head_ s =? tail_ s.
Definition full s : bool := u64 (head_ s - tail_ s) =? CAPACITY.
Definition size s : Z := u64 (head_ s - tail_ s).
Definition available s : Z := u64 (CAPACITY - size s).

Definition try_push item s : outcome (bool * t A) :=
  if full s then Ok (false, s) else
  b ← array_set (buffer_ s) (mask CAPACITY (head_ s)) item;
  Ok (true, {| buffer_ := b; head_ := u64 (head_ s + 1); tail_ := tail_ s |}).

(** [try_front] returns a pointer; the client reads [*front]. *)
Definition try_front s : outcome (option A) :=
  if empty s then Ok None
  else x ← array_get (buffer_ s) (mask CAPACITY (tail_ s)); Ok (Some x).
Definition pop s : t A :=
  if negb (empty s)
  then {| buffer_ := buffer_ s; head_ := head_ s; tail_ := u64 (tail_ s + 1) |} else s.
Definition clear s : t A := {| buffer_ := buffer_ s; head_ := head_ s; tail_ := head_ s |}.
End Definitions.
End SingleThreadRingBuffer.

(** ** The queue interface *)

Section Laws.
Context {A : Type} (CAPACITY : Z) {HC : PowerOfTwo CAPACITY} (Hcap : CAPACITY < 2 ^ 64).

Definition lazy_queue : BoundedQueue (LazyRingBuffer.t A) A := {|
  bq_push := LazyRingBuffer.push CAPACITY;
  bq_pop := LazyRingBuffer.pop CAPACITY;
|}.
Definition lazy_repr (s : LazyRingBuffer.t A) (l : list A) : Prop :=
  ring_repr CAPACITY (LazyRingBuffer.buffer_ s) (LazyRingBuffer.head_ s) (LazyRingBuffer.tail_ s) l.

Lemma lazy_laws : BoundedQueueLaws (ops := lazy_queue) (LazyRingBuffer.t A) A CAPACITY lazy_repr.
Proof.
  split; simpl; unfold lazy_repr, LazyRingBuffer.push, LazyRingBuffer.pop,
    LazyRingBuffer.try_get_head_ref, LazyRingBuffer.try_get_tail_ref,
    LazyRingBuffer.is_full, LazyRingBuffer.is_empty.
  - intros q l Hr. destruct (ring_repr_bound CAPACITY _ _ _ _ Hr). lia.
  - intros q l a Hr Hl. rewrite (ring_repr_full CAPACITY _ _ _ _ Hr). by rewrite (proj2 (Z.eqb_eq _ _) Hl).
  - intros q l a Hr Hl. rewrite (ring_repr_full CAPACITY _ _ _ _ Hr).
    rewrite (proj2 (Z.eqb_neq _ _)) by lia.
    destruct (ring_repr_push CAPACITY Hcap _ _ _ _ a Hr Hl) as (b & Hb & Hr').
    unfold LazyRingBuffer.write. rewrite Hb. simpl. eexists. split; [done|]. apply Hr'.
  - intros q Hr. by rewrite (ring_repr_nil CAPACITY _ _ _ _ Hr).
  - intros q a l Hr. rewrite (ring_repr_nil CAPACITY _ _ _ _ Hr). simpl.
    destruct (ring_repr_pop CAPACITY _ _ _ _ _ Hr) as [Ha Hr'].
    unfold LazyRingBuffer.read. rewrite Ha. simpl. eexists. split; [done|]. apply Hr'.
Qed.

Definition shared_queue : BoundedQueue (SharedRingBuffer.t A) A := {|
  bq_push a s := (λ r : bool * SharedRingBuffer.t A, if r.1 then Some r.2 else None) <$>
    SharedRingBuffer.try_push_internal CAPACITY a s;
  bq_pop s := (λ r : option A * SharedRingBuffer.t A, (λ a, (a, r.2)) <$> r.1) <$>
    SharedRingBuffer.try_pop CAPACITY s;
|}.
Definition shared_repr (s : SharedRingBuffer.t A) (l : list A) : Prop :=
  ring_repr CAPACITY (SharedRingBuffer.buffer_ s) (SharedRingBuffer.tail_ s) (SharedRingBuffer.head_ s)
    (Some <$> l).

Lemma shared_laws : BoundedQueueLaws (ops := shared_queue) (SharedRingBuffer.t A) A CAPACITY shared_repr.
Proof.
  split; simpl; unfold shared_repr, SharedRingBuffer.try_push_internal, SharedRingBuffer.try_pop,
    SharedRingBuffer.is_full, SharedRingBuffer.is_empty, SharedRingBuffer.storage_slot.
  - intros q l Hr. destruct (ring_repr_bound CAPACITY _ _ _ _ Hr) as [Hl ?]. rewrite length_fmap in Hl. lia.
  - intros q l a Hr Hl. rewrite (ring_repr_full CAPACITY _ _ _ _ Hr), length_fmap.
    by rewrite (proj2 (Z.eqb_eq _ _) Hl).
  - intros q l a Hr Hl. rewrite (ring_repr_full CAPACITY _ _ _ _ Hr), length_fmap.
    rewrite (proj2 (Z.eqb_neq _ _)) by lia.
    destruct (ring_repr_push CAPACITY Hcap _ _ _ _ (Some a) Hr) as (b & Hb & Hr'); [by rewrite length_fmap|].
    rewrite Hb. simpl. eexists. split; [done|]. simpl. by rewrite fmap_app.
  - intros q Hr. rewrite Z.eqb_sym. by rewrite (ring_repr_nil CAPACITY _ _ _ _ Hr).
  - intros q a l Hr. rewrite Z.eqb_sym, (ring_repr_nil CAPACITY _ _ _ _ Hr). simpl.
    destruct (ring_repr_pop CAPACITY _ _ _ _ _ Hr) as [Ha Hr'].
    rewrite Ha. simpl. eexists. split; [done|]. apply Hr'.
Qed.

Definition single_queue : BoundedQueue (SingleThreadRingBuffer.t A) A := {|
  bq_push a s := (λ r : bool * SingleThreadRingBuffer.t A, if r.1 then Some r.2 else None) <$>
    SingleThreadRingBuffer.try_push CAPACITY a s;
  bq_pop s := (λ front : option A, (λ a, (a, SingleThreadRingBuffer.pop s)) <$> front) <$>
    SingleThreadRingBuffer.try_front CAPACITY s;
|}.
Definition single_repr (s : SingleThreadRingBuffer.t A) (l : list A) : Prop :=
  ring_repr CAPACITY (SingleThreadRingBuffer.buffer_ s) (SingleThreadRingBuffer.head_ s)
    (SingleThreadRingBuffer.tail_ s) l.

Lemma single_laws : BoundedQueueLaws (ops := single_queue) (SingleThreadRingBuffer.t A) A CAPACITY single_repr.
Proof.
  split; simpl; unfold single_repr, SingleThreadRingBuffer.try_push, SingleThreadRingBuffer.try_front,
    SingleThreadRingBuffer.pop, SingleThreadRingBuffer.full, SingleThreadRingBuffer.empty.
  - intros q l Hr. destruct (ring_repr_bound CAPACITY _ _ _ _ Hr). lia.
  - intros q l a Hr Hl. rewrite (ring_repr_full CAPACITY _ _ _ _ Hr). by rewrite (proj2 (Z.eqb_eq _ _) Hl).
  - intros q l a Hr Hl. rewrite (ring_repr_full CAPACITY _ _ _ _ Hr).
    rewrite (proj2 (Z.eqb_neq _ _)) by lia.
    destruct (ring_repr_push CAPACITY Hcap _ _ _ _ a Hr Hl) as (b & Hb & Hr').
    rewrite Hb. simpl. eexists. split; [done|]. apply Hr'.
  - intros q Hr. by rewrite (ring_repr_nil CAPACITY _ _ _ _ Hr).
  - intros q a l Hr. rewrite (ring_repr_nil CAPACITY _ _ _ _ Hr). simpl.
    destruct (ring_repr_pop CAPACITY _ _ _ _ _ Hr) as [Ha Hr'].
    rewrite Ha. simpl. eexists. split; [done|]. apply Hr'.
Qed.

Lemma single_size s l : single_repr s l → SingleThreadRingBuffer.size s = Z.of_nat (length l).
Proof. intros Hr. by destruct (ring_repr_bound CAPACITY _ _ _ _ Hr) as [-> _]. Qed.

Lemma single_available s l :
  single_repr s l → SingleThreadRingBuffer.available CAPACITY s = CAPACITY - Z.of_nat (length l).
Proof.
  intros Hr. unfold SingleThreadRingBuffer.available. rewrite (single_size s l Hr).
  apply uwrap_small. destruct (ring_repr_bound CAPACITY _ _ _ _ Hr). unfold in_u. lia.
Qed.

Lemma single_clear s l : single_repr s l → single_repr (SingleThreadRingBuffer.clear s) [].
Proof.
  intros [Hwf _]. unfold single_repr, SingleThreadRingBuffer.clear, ring_repr. simpl.
  assert (distance (SingleThreadRingBuffer.head_ s) (SingleThreadRingBuffer.head_ s) = 0) as Hz
    by (unfold distance; by rewrite Z.sub_diag).
  split; [|unfold between; by rewrite Hz].
  split; [apply Hwf..|]. rewrite Hz. pose proof (pot_pos (c := CAPACITY)). lia.
Qed.
End Laws.

Arguments lazy_queue {A} CAPACITY.
Arguments shared_queue {A} CAPACITY.
Arguments single_queue {A} CAPACITY.

(** C35: From empty, and after any number of operations (cursors wrap at 2^64),
    each ring buffer answers every script of pushes and pops as the list of its
    elements does: a push is refused exactly when CAPACITY elements are held, a
    pop exactly when none is, elements come out once and in order, and no array
    access is out of bounds; [size] and [available] of the single-threaded one
    are the number of elements and of free slots. *)
Theorem ring_buffers_refine_queue {A} (CAPACITY : Z) `{PowerOfTwo CAPACITY} (default_value : A)
    (script : list (queue_op A)) :
  CAPACITY < 2 ^ 64 →
  let '(out, l) := run_list CAPACITY script [] in
  (∃ s, run_queue (H := lazy_queue CAPACITY) script (LazyRingBuffer.init CAPACITY default_value) = Ok (out, s) ∧
    LazyRingBuffer.empty s = bool_decide (l = []) ∧
    LazyRingBuffer.full CAPACITY s = (Z.of_nat (length l) =? CAPACITY)) ∧
  (∃ s, run_queue (H := shared_queue CAPACITY) script (SharedRingBuffer.init CAPACITY) = Ok (out, s) ∧
    SharedRingBuffer.empty s = bool_decide (l = []) ∧
    SharedRingBuffer.full CAPACITY s = (Z.of_nat (length l) =? CAPACITY)) ∧
  (∃ s, run_queue (H := single_queue CAPACITY) script (SingleThreadRingBuffer.init CAPACITY default_value) =
      Ok (out, s) ∧
    SingleThreadRingBuffer.size s = Z.of_nat (length l) ∧
    SingleThreadRingBuffer.available CAPACITY s = CAPACITY - Z.of_nat (length l)).
Proof.
  intros Hcap. destruct (run_list CAPACITY script []) as [out l] eqn:Hrun. split; [|split].
  - destruct (run_queue_list (H := lazy_queue CAPACITY) CAPACITY (lazy_repr CAPACITY)
      (BoundedQueueLaws0 := lazy_laws CAPACITY Hcap) script (LazyRingBuffer.init CAPACITY default_value) [])
      as (s & Hs & Hr); [by apply ring_repr_init|]. rewrite Hrun in Hs, Hr.
    exists s. split; [done|]. split; [apply (ring_repr_nil CAPACITY _ _ _ _ Hr)|].
    apply (ring_repr_full CAPACITY _ _ _ _ Hr).
  - destruct (run_queue_list (H := shared_queue CAPACITY) CAPACITY (shared_repr CAPACITY)
      (BoundedQueueLaws0 := shared_laws CAPACITY Hcap) script (SharedRingBuffer.init CAPACITY) [])
      as (s & Hs & Hr); [by apply ring_repr_init|]. rewrite Hrun in Hs, Hr.
    exists s. split; [done|]. simpl in Hr. split.
    + unfold SharedRingBuffer.empty, SharedRingBuffer.is_empty.
      rewrite Z.eqb_sym, (ring_repr_nil CAPACITY _ _ _ _ Hr). by destruct l.
    + etrans; [apply (ring_repr_full CAPACITY _ _ _ _ Hr)|]. by rewrite length_fmap.
  - destruct (run_queue_list (H := single_queue CAPACITY) CAPACITY (single_repr CAPACITY)
      (BoundedQueueLaws0 := single_laws CAPACITY Hcap) script (SingleThreadRingBuffer.init CAPACITY default_value) [])
      as (s & Hs & Hr); [by apply ring_repr_init|]. rewrite Hrun in Hs, Hr.
    exists s. split; [done|]. simpl in Hr.
    split; [by apply (single_size CAPACITY)|by apply single_available].
Qed.

#[export] Instance capacity_two : PowerOfTwo 2.
Proof. by apply pot_check. Qed.

Definition queue_script : list (queue_op Z) := [Push 1; Push 2; Push 3; Pop; Push 4; Pop; Pop; Pop; Push 5].

Example queue_script_out : run_list 2 queue_script [] =
  ([inl true; inl true; inl false; inr (Some 1); inl true; inr (Some 2); inr (Some 4); inr None; inl true], [5]).
Proof. reflexivity. Qed.

Lemma ring_buffers_refine_queue_witness :
  ∃ s, run_queue (H := lazy_queue 2) queue_script (LazyRingBuffer.init 2 0) =
    Ok ((run_list 2 queue_script []).1, s) ∧ LazyRingBuffer.empty s = false.
Proof.
  pose proof (ring_buffers_refine_queue 2 0 queue_script ltac:(lia)) as Hq.
  destruct Hq as [(s & Hs & He & _) _]. exists s. split; [exact Hs|exact He].
Defined.
