(* ===== verification/RingUse.v ===== *)
(** * The ring buffers as their clients use them

    The claim, write and publish steps that the threads make one by one, against
    the list a buffer represents. *)

From S2P Require Import Prelude Ring RingBuffers.

(** ** The ring buffers as the threads use them *)

Section Rings.
Context {A : Type} (CAPACITY : Z) {HC : PowerOfTwo CAPACITY} (Hcap : CAPACITY < 2 ^ 64).

Lemma lazy_claim (s : LazyRingBuffer.t A) l : lazy_repr CAPACITY s l →
  match LazyRingBuffer.try_get_head_ref CAPACITY s with
  | None => Z.of_nat (length l) = CAPACITY
  | Some slot => (∃ y, LazyRingBuffer.read slot s = Ok y ∧ y ∈ LazyRingBuffer.buffer_ s) ∧
      ∀ x, ∃ s', LazyRingBuffer.write slot x s = Ok s' ∧
        lazy_repr CAPACITY (LazyRingBuffer.publish s') (l ++ [x]) ∧
        ∀ P : A → Prop, Forall P (LazyRingBuffer.buffer_ s) → P x → Forall P (LazyRingBuffer.buffer_ s')
  end.
Proof using HC Hcap.
  intros Hr. unfold LazyRingBuffer.try_get_head_ref, LazyRingBuffer.is_full.
  unfold lazy_repr in Hr. rewrite (ring_repr_full CAPACITY _ _ _ _ Hr).
  destruct (Z.eqb_spec (Z.of_nat (length l)) CAPACITY) as [|Hne]; [done|].
  pose proof (ring_repr_bound CAPACITY _ _ _ _ Hr) as [Hl Hd]. pose proof (mask_range CAPACITY (LazyRingBuffer.head_ s)) as Hm.
  pose proof (ring_length _ _ _ _ (proj1 Hr)) as Hlen. split.
  - destruct (lookup_lt_is_Some_2 (LazyRingBuffer.buffer_ s) (Z.to_nat (mask CAPACITY (LazyRingBuffer.head_ s)))) as [y Hy]; [lia|].
    exists y. split; [apply array_get_Ok; split; [lia|done]|by eapply list_elem_of_lookup_2].
  - intros x. unfold LazyRingBuffer.write. destruct (ring_repr_push CAPACITY Hcap _ _ _ _ x Hr) as (b & Hb & Hr'); [lia|].
    rewrite Hb. eexists. split; [done|]. split; [exact Hr'|]. intros P HP Hx. simpl.
    rewrite array_set_Ok in Hb by lia. injection Hb as <-. by apply Forall_insert.
Qed.

Lemma lazy_front (s : LazyRingBuffer.t A) l : lazy_repr CAPACITY s l →
  match LazyRingBuffer.try_get_tail_ref CAPACITY s with
  | None => l = []
  | Some slot => ∃ x l', l = x :: l' ∧ LazyRingBuffer.read slot s = Ok x ∧
      lazy_repr CAPACITY (LazyRingBuffer.consume s) l'
  end.
Proof using HC.
  intros Hr. unfold LazyRingBuffer.try_get_tail_ref, LazyRingBuffer.is_empty. unfold lazy_repr in Hr.
  rewrite (ring_repr_nil CAPACITY _ _ _ _ Hr). case_bool_decide as Hl; [done|].
  destruct l as [|x l]; [done|]. destruct (ring_repr_pop CAPACITY _ _ _ _ _ Hr) as [Hx Hr'].
  exists x, l. split_and!; [done|done|exact Hr'].
Qed.

Lemma lazy_push (x : A) s l : lazy_repr CAPACITY s l →
  ∃ pushed, LazyRingBuffer.push CAPACITY x s = Ok pushed ∧
    match pushed with None => Z.of_nat (length l) = CAPACITY | Some s' => lazy_repr CAPACITY s' (l ++ [x]) end.
Proof using HC Hcap.
  intros Hr. pose proof (lazy_claim s l Hr) as Hclaim. unfold LazyRingBuffer.push.
  destruct (LazyRingBuffer.try_get_head_ref CAPACITY s) as [slot|]; [|by exists None].
  destruct Hclaim as [_ Hwrite]. destruct (Hwrite x) as (s' & -> & Hr' & _). by eexists (Some _).
Qed.

Lemma lazy_pop (s : LazyRingBuffer.t A) l : lazy_repr CAPACITY s l →
  ∃ popped, LazyRingBuffer.pop CAPACITY s = Ok popped ∧
    match popped with None => l = [] | Some (x, s') => ∃ l', l = x :: l' ∧ lazy_repr CAPACITY s' l' end.
Proof using HC.
  intros Hr. pose proof (lazy_front s l Hr) as Hfront. unfold LazyRingBuffer.pop.
  destruct (LazyRingBuffer.try_get_tail_ref CAPACITY s) as [slot|]; [|by exists None].
  destruct Hfront as (x & l' & -> & -> & Hr'). eexists (Some _). split; [done|]. by exists l'.
Qed.

Lemma lazy_empty (s : LazyRingBuffer.t A) l : lazy_repr CAPACITY s l → LazyRingBuffer.empty s = bool_decide (l = []).
Proof using HC. apply ring_repr_nil. done. Qed.

Lemma shared_push (x : A) s l : shared_repr CAPACITY s l →
  (SharedRingBuffer.try_push_internal CAPACITY x s = Ok (false, s) ∧ Z.of_nat (length l) = CAPACITY) ∨
  (∃ s', SharedRingBuffer.try_push_internal CAPACITY x s = Ok (true, s') ∧ shared_repr CAPACITY s' (l ++ [x])).
Proof using HC Hcap.
  intros Hr. unfold SharedRingBuffer.try_push_internal, SharedRingBuffer.is_full, SharedRingBuffer.storage_slot.
  unfold shared_repr in Hr. rewrite (ring_repr_full CAPACITY _ _ _ _ Hr), length_fmap.
  destruct (Z.eqb_spec (Z.of_nat (length l)) CAPACITY) as [|Hne]; [by left|right].
  pose proof (ring_repr_bound CAPACITY _ _ _ _ Hr) as [Hl Hd]. rewrite length_fmap in Hl.
  destruct (ring_repr_push CAPACITY Hcap _ _ _ _ (Some x) Hr) as (b & -> & Hr'); [rewrite length_fmap; lia|].
  eexists. split; [done|]. unfold shared_repr. by rewrite fmap_app.
Qed.

Lemma shared_pop (s : SharedRingBuffer.t A) l : shared_repr CAPACITY s l →
  match l with
  | [] => SharedRingBuffer.try_pop CAPACITY s = Ok (None, s)
  | x :: l => ∃ s', SharedRingBuffer.try_pop CAPACITY s = Ok (Some x, s') ∧ shared_repr CAPACITY s' l
  end.
Proof using HC.
  intros Hr. unfold SharedRingBuffer.try_pop, SharedRingBuffer.is_empty, SharedRingBuffer.storage_slot.
  unfold shared_repr in Hr. rewrite Z.eqb_sym, (ring_repr_nil CAPACITY _ _ _ _ Hr).
  destruct l as [|x l]; [done|]. destruct (ring_repr_pop CAPACITY _ _ _ _ _ Hr) as [-> Hr'].
  eexists. split; [done|exact Hr'].
Qed.

Lemma shared_empty (s : SharedRingBuffer.t A) l : shared_repr CAPACITY s l → SharedRingBuffer.empty s = bool_decide (l = []).
Proof using HC.
  intros Hr. unfold SharedRingBuffer.empty, SharedRingBuffer.is_empty.
  rewrite Z.eqb_sym, (ring_repr_nil CAPACITY _ _ _ _ Hr). by destruct l.
Qed.

Lemma single_push (x : A) b l : single_repr CAPACITY b l →
  (0 < CAPACITY - Z.of_nat (length l) → ∃ b', SingleThreadRingBuffer.try_push CAPACITY x b = Ok (true, b') ∧ single_repr CAPACITY b' (l ++ [x])) ∧
  (CAPACITY - Z.of_nat (length l) ≤ 0 → SingleThreadRingBuffer.try_push CAPACITY x b = Ok (false, b)).
Proof using HC Hcap.
  intros Hr. unfold SingleThreadRingBuffer.try_push, SingleThreadRingBuffer.full, single_repr in *.
  rewrite (ring_repr_full CAPACITY _ _ _ _ Hr). pose proof (ring_repr_bound CAPACITY _ _ _ _ Hr) as [Hl Hd]. split; intros Hroom.
  - rewrite (proj2 (Z.eqb_neq _ _)) by lia.
    destruct (ring_repr_push CAPACITY Hcap _ _ _ _ x Hr ltac:(lia)) as (b' & -> & Hr'). eexists. split; [done|exact Hr'].
  - by rewrite (proj2 (Z.eqb_eq _ _)) by lia.
Qed.

Lemma single_front (b : SingleThreadRingBuffer.t A) l : single_repr CAPACITY b l →
  SingleThreadRingBuffer.try_front CAPACITY b = Ok (List.hd_error l) ∧
  single_repr CAPACITY (SingleThreadRingBuffer.pop b) (tail l).
Proof using HC.
  intros Hr. unfold SingleThreadRingBuffer.try_front, SingleThreadRingBuffer.pop, SingleThreadRingBuffer.empty, single_repr in *.
  rewrite (ring_repr_nil CAPACITY _ _ _ _ Hr). destruct l as [|x l]; simpl; [by split|].
  destruct (ring_repr_pop CAPACITY _ _ _ _ _ Hr) as [-> Hr']. by split.
Qed.
End Rings.

