(* ===== verification/Waits.v ===== *)
(** * Waiting on the ring buffers ([wait_push], [wait_pop], [wait_get_head_ref], [wait_get_tail_ref])

    The spinning operations of [utils/ring-buffer.hpp] and
    [utils/lazy-ring-buffer.hpp].  A round is one poll: what the stop token
    answers in it, and what the other endpoint has done since the poll before.
    [wait_for_progress] and [notify_waiter] only save power. *)

From S2P Require Import Prelude Interfaces Ring RingBuffers RingUse.

(** ** The two loops

    [while(!stop) { if(auto x = attempt()) return x; }] asks the token first,
    [while(!attempt()) { if(stop) return false; }] tries first.  The list of
    rounds is the fuel: a wait outlasts it only if no round ends it. *)
Section Loops.
Context {S E R : Type} (other : E → S → outcome S) (attempt : S → outcome (option R * S)).

Fixpoint spin_unless_stopped (rounds : list (bool * E)) (s : S) : outcome (option R * S) :=
  match rounds with
  | [] => OutOfFuel
  | (stop, e) :: rounds =>
      s ← other e s;
      if (stop : bool) then Ok (None, s) else
      '(result, s) ← attempt s;
      match result with
      | Some r => Ok (Some r, s)
      | None => spin_unless_stopped rounds s
      end
  end.

Fixpoint spin_until_stopped (rounds : list (bool * E)) (s : S) : outcome (option R * S) :=
  match rounds with
  | [] => OutOfFuel
  | (stop, e) :: rounds =>
      s ← other e s;
      '(result, s) ← attempt s;
      match result with
      | Some r => Ok (Some r, s)
      | None => if (stop : bool) then Ok (None, s) else spin_until_stopped rounds s
      end
  end.

(** The loops without a token. *)
Definition never_stopped (others : list E) : list (bool * E) := (λ e, (false, e)) <$> others.

(** The state [s] stands for an abstract one, [next e] is what the other
    endpoint does to it; an attempt succeeds exactly when it is [ready]. *)
Context {L : Type} (repr : S → L → Prop) (next : E → L → L) (ready : L → bool) (post : L → R → S → Prop).
Context (Hother : ∀ e s l, repr s l → ∃ s', other e s = Ok s' ∧ repr s' (next e l)).
Context (Hbusy : ∀ s l, repr s l → ready l = false → attempt s = Ok (None, s)).
Context (Hready : ∀ s l, repr s l → ready l = true → ∃ r s', attempt s = Ok (Some r, s') ∧ post l r s').

(** What the buffer stands for at poll [j], as long as the wait has not ended. *)
Fixpoint at_poll (rounds : list (bool * E)) (j : nat) (l : L) : L :=
  match rounds, j with
  | (_, e) :: rounds, Datatypes.S j => at_poll rounds j (next e l)
  | (_, e) :: _, O => next e l
  | [], _ => l
  end.

Definition stop_at (rounds : list (bool * E)) (j : nat) : bool := default false (fst <$> rounds !! j).

(** Some poll finds a stop or a ready buffer. *)
Definition ends rounds (l : L) : Prop :=
  ∃ j, (j < length rounds)%nat ∧ (stop_at rounds j = true ∨ ready (at_poll rounds j l) = true).

Lemma ends_cons stop e rounds l : stop = false → ready (next e l) = false →
  ends ((stop, e) :: rounds) l → ends rounds (next e l).
Proof using Type.
  intros -> Hr ([|j] & Hj & He); [by destruct He; [|simpl in *; congruence]|]. exists j. split; [simpl in Hj; lia|done].
Qed.

Lemma ends_nil l : ¬ ends [] l.
Proof using Type. intros (j & Hj & _). simpl in Hj. lia. Qed.

(** The wait ends at poll [j], the first that finds a stop or a ready buffer. *)
Definition still_waiting rounds (l : L) (j : nat) : Prop :=
  ∀ i, (i < j)%nat → stop_at rounds i = false ∧ ready (at_poll rounds i l) = false.

Lemma still_waiting_cons stop e rounds l j : stop = false → ready (next e l) = false →
  still_waiting rounds (next e l) j → still_waiting ((stop, e) :: rounds) l (Datatypes.S j).
Proof using Type. intros -> Hr Hw [|i] Hi; [by split|]. apply (Hw i). lia. Qed.

Lemma spin_unless_stopped_spec rounds s l : repr s l → ends rounds l →
  ∃ j result s', spin_unless_stopped rounds s = Ok (result, s') ∧ still_waiting rounds l j ∧
    match result with
    | Some r => stop_at rounds j = false ∧ ready (at_poll rounds j l) = true ∧ post (at_poll rounds j l) r s'
    | None => stop_at rounds j = true ∧ repr s' (at_poll rounds j l)
    end.
Proof using Hother Hbusy Hready.
  revert s l. induction rounds as [|[stop e] rounds IH]; intros s l Hs Hends; [by apply ends_nil in Hends|]. simpl.
  destruct (Hother e s l Hs) as (s1 & -> & Hs1). cbn [mbind outcome_bind]. destruct stop.
  { exists O, None, s1. split_and!; [done|by intros i Hi; lia|done|done]. }
  destruct (ready (next e l)) eqn:Hr.
  - destruct (Hready s1 _ Hs1 Hr) as (r & s2 & -> & Hp). cbn [mbind outcome_bind].
    exists O, (Some r), s2. split_and!; [done|by intros i Hi; lia|done..].
  - rewrite (Hbusy s1 _ Hs1 Hr). cbn [mbind outcome_bind].
    destruct (IH s1 (next e l) Hs1) as (j & result & s2 & Hrun & Hw & Hres); [by apply (ends_cons false e rounds l)|].
    exists (Datatypes.S j), result, s2. split_and!; [done|by apply still_waiting_cons|exact Hres].
Qed.

Lemma spin_until_stopped_spec rounds s l : repr s l → ends rounds l →
  ∃ j result s', spin_until_stopped rounds s = Ok (result, s') ∧ still_waiting rounds l j ∧
    match result with
    | Some r => ready (at_poll rounds j l) = true ∧ post (at_poll rounds j l) r s'
    | None => stop_at rounds j = true ∧ ready (at_poll rounds j l) = false ∧ repr s' (at_poll rounds j l)
    end.
Proof using Hother Hbusy Hready.
  revert s l. induction rounds as [|[stop e] rounds IH]; intros s l Hs Hends; [by apply ends_nil in Hends|]. simpl.
  destruct (Hother e s l Hs) as (s1 & -> & Hs1). cbn [mbind outcome_bind]. destruct (ready (next e l)) eqn:Hr.
  - destruct (Hready s1 _ Hs1 Hr) as (r & s2 & -> & Hp). cbn [mbind outcome_bind].
    exists O, (Some r), s2. split_and!; [done|by intros i Hi; lia|done..].
  - rewrite (Hbusy s1 _ Hs1 Hr). cbn [mbind outcome_bind]. destruct stop.
    { exists O, None, s1. split_and!; [done|by intros i Hi; lia|done..]. }
    destruct (IH s1 (next e l) Hs1) as (j & result & s2 & Hrun & Hw & Hres); [by apply (ends_cons false e rounds l)|].
    exists (Datatypes.S j), result, s2. split_and!; [done|by apply still_waiting_cons|exact Hres].
Qed.
End Loops.

(** ** The waits of the two buffers

    The other endpoint runs scripts of pushes and pops. *)
Module SharedWaits.
Section Waits.
Context {A : Type} (CAPACITY : Z).
Implicit Types (s : SharedRingBuffer.t A) (rounds : list (bool * list (queue_op A))).

Definition other (script : list (queue_op A)) s : outcome (SharedRingBuffer.t A) :=
  '(_, s) ← run_queue (H := shared_queue CAPACITY) script s; Ok s.

Definition push_attempt (item : A) s : outcome (option unit * SharedRingBuffer.t A) :=
  '(pushed, s) ← SharedRingBuffer.try_push_internal CAPACITY item s;
  Ok (if (pushed : bool) then Some tt else None, s).

(** [wait_push_internal(item, stop_token)] *)
Definition wait_push_internal (item : A) rounds s : outcome (bool * SharedRingBuffer.t A) :=
  '(result, s) ← spin_until_stopped other (push_attempt item) rounds s;
  Ok (match result with Some _ => true | None => false end, s).

(** [wait_pop(stop_token)] *)
Definition wait_pop rounds s : outcome (option A * SharedRingBuffer.t A) :=
  spin_unless_stopped other (SharedRingBuffer.try_pop CAPACITY) rounds s.

(** [wait_push_internal(item)] and [wait_pop()], which spin for ever on a buffer
    that stays full or empty. *)
Definition wait_push_forever (item : A) (others : list (list (queue_op A))) s : outcome (SharedRingBuffer.t A) :=
  '(_, s) ← spin_until_stopped other (push_attempt item) (never_stopped others) s; Ok s.
Definition wait_pop_forever (others : list (list (queue_op A))) s : outcome (A * SharedRingBuffer.t A) :=
  '(result, s) ← spin_unless_stopped other (SharedRingBuffer.try_pop CAPACITY) (never_stopped others) s;
  x ← deref result; Ok (x, s).
End Waits.
End SharedWaits.

Module LazyWaits.
Section Waits.
Context {A : Type} (CAPACITY : Z).
Implicit Types (s : LazyRingBuffer.t A) (rounds : list (bool * list (queue_op A))).

Definition other (script : list (queue_op A)) s : outcome (LazyRingBuffer.t A) :=
  '(_, s) ← run_queue (H := lazy_queue CAPACITY) script s; Ok s.

(** [wait_get_head_ref(stop_token)]; [None] is [nullptr]. *)
Definition wait_get_head_ref rounds s : outcome (option Z * LazyRingBuffer.t A) :=
  spin_unless_stopped other (λ s, Ok (LazyRingBuffer.try_get_head_ref CAPACITY s, s)) rounds s.

(** [wait_get_tail_ref(stop_token)] *)
Definition wait_get_tail_ref rounds s : outcome (option Z * LazyRingBuffer.t A) :=
  spin_unless_stopped other (λ s, Ok (LazyRingBuffer.try_get_tail_ref CAPACITY s, s)) rounds s.

(** [wait_get_head_ref()] and [wait_get_tail_ref()] *)
Definition wait_get_head_ref_forever (others : list (list (queue_op A))) s : outcome (Z * LazyRingBuffer.t A) :=
  '(slot, s) ← wait_get_head_ref (never_stopped others) s; slot ← deref slot; Ok (slot, s).
Definition wait_get_tail_ref_forever (others : list (list (queue_op A))) s : outcome (Z * LazyRingBuffer.t A) :=
  '(slot, s) ← wait_get_tail_ref (never_stopped others) s; slot ← deref slot; Ok (slot, s).
End Waits.
End LazyWaits.

(** ** What the waits promise *)

Section Promises.
Context {A : Type} (CAPACITY : Z) {HC : PowerOfTwo CAPACITY} (Hcap : CAPACITY < 2 ^ 64).
Implicit Types (l : list A) (rounds : list (bool * list (queue_op A))).

Definition after (script : list (queue_op A)) l : list A := (run_list CAPACITY script l).2.
Definition has_item l : bool := negb (bool_decide (l = [])).
Definition has_room l : bool := Z.of_nat (length l) <? CAPACITY.

(** The contents when poll [j] finds them. *)
Definition contents rounds j l : list A := at_poll after rounds j l.
Definition returns (ready : list A → bool) rounds l : Prop := ends after ready rounds l.
Definition waits_for (ready : list A → bool) rounds l j : Prop := still_waiting after ready rounds l j.

Lemma shared_other script s l : shared_repr CAPACITY s l →
  ∃ s', SharedWaits.other CAPACITY script s = Ok s' ∧ shared_repr CAPACITY s' (after script l).
Proof using HC Hcap.
  intros Hs. unfold SharedWaits.other, after.
  destruct (run_queue_list (H := shared_queue CAPACITY) CAPACITY (shared_repr CAPACITY)
    (BoundedQueueLaws0 := shared_laws CAPACITY Hcap) script s l Hs) as (s' & -> & Hr). by exists s'.
Qed.

Lemma lazy_other script s l : lazy_repr CAPACITY s l →
  ∃ s', LazyWaits.other CAPACITY script s = Ok s' ∧ lazy_repr CAPACITY s' (after script l).
Proof using HC Hcap.
  intros Hs. unfold LazyWaits.other, after.
  destruct (run_queue_list (H := lazy_queue CAPACITY) CAPACITY (lazy_repr CAPACITY)
    (BoundedQueueLaws0 := lazy_laws CAPACITY Hcap) script s l Hs) as (s' & -> & Hr). by exists s'.
Qed.

Lemma has_item_spec l : has_item l = true ↔ ∃ x l', l = x :: l'.
Proof using Type. unfold has_item. destruct l; split; [done|by intros (? & ? & ?)|by eauto|done]. Qed.

Lemma shared_wait_pop rounds s l : shared_repr CAPACITY s l → returns has_item rounds l →
  ∃ j result s', SharedWaits.wait_pop CAPACITY rounds s = Ok (result, s') ∧ waits_for has_item rounds l j ∧
    match result with
    | Some x => stop_at rounds j = false ∧ ∃ l', contents rounds j l = x :: l' ∧ shared_repr CAPACITY s' l'
    | None => stop_at rounds j = true ∧ shared_repr CAPACITY s' (contents rounds j l)
    end.
Proof using HC Hcap.
  intros Hs Hstop. unfold SharedWaits.wait_pop.
  destruct (spin_unless_stopped_spec (SharedWaits.other CAPACITY) (SharedRingBuffer.try_pop CAPACITY)
    (shared_repr CAPACITY) after has_item (λ l x s', ∃ l', l = x :: l' ∧ shared_repr CAPACITY s' l')
    (λ e s l, shared_other e s l)) with (rounds := rounds) (s := s) (l := l)
    as (j & result & s' & Hrun & Hw & Hres); [| |done..|].
  - intros s1 l1 H1 He. pose proof (shared_pop CAPACITY s1 l1 H1) as Hp. by destruct l1.
  - intros s1 l1 H1 (x & l' & ->)%has_item_spec. destruct (shared_pop CAPACITY s1 _ H1) as (s2 & Hp & Hr).
    exists x, s2. split; [done|by exists l'].
  - exists j, result, s'. split_and!; [done..|]. destruct result; [|done]. destruct Hres as (? & _ & ?). by split.
Qed.

Lemma shared_wait_push item rounds s l : shared_repr CAPACITY s l → returns has_room rounds l →
  ∃ j pushed s', SharedWaits.wait_push_internal CAPACITY item rounds s = Ok (pushed, s') ∧
    waits_for has_room rounds l j ∧
    if (pushed : bool) then has_room (contents rounds j l) = true ∧ shared_repr CAPACITY s' (contents rounds j l ++ [item])
    else stop_at rounds j = true ∧ has_room (contents rounds j l) = false ∧ shared_repr CAPACITY s' (contents rounds j l).
Proof using HC Hcap.
  intros Hs Hstop. unfold SharedWaits.wait_push_internal.
  destruct (spin_until_stopped_spec (SharedWaits.other CAPACITY) (SharedWaits.push_attempt CAPACITY item)
    (shared_repr CAPACITY) after has_room (λ l _ s', shared_repr CAPACITY s' (l ++ [item]))
    (λ e s l, shared_other e s l)) with (rounds := rounds) (s := s) (l := l)
    as (j & result & s' & Hrun & Hw & Hres); [| |done..|].
  - intros s1 l1 H1 Hroom%Z.ltb_ge. unfold SharedWaits.push_attempt.
    pose proof (bq_bound (ops := shared_queue CAPACITY) (BoundedQueueLaws := shared_laws CAPACITY Hcap) s1 l1 H1).
    pose proof (bq_push_full (ops := shared_queue CAPACITY) (BoundedQueueLaws := shared_laws CAPACITY Hcap) s1 l1 item H1 ltac:(lia)) as Hf.
    simpl in Hf. destruct (shared_push CAPACITY Hcap item s1 l1 H1) as [[-> _]|(s2 & Hp & _)]; [done|].
    by rewrite Hp in Hf.
  - intros s1 l1 H1 Hroom%Z.ltb_lt. unfold SharedWaits.push_attempt.
    destruct (shared_push CAPACITY Hcap item s1 l1 H1) as [[_ Hl]|(s2 & -> & Hr)]; [lia|]. by exists tt, s2.
  - rewrite Hrun. cbn [mbind outcome_bind]. exists j. destruct result; (do 2 eexists; split; [done|]; split; [done|]).
    + exact Hres.
    + exact Hres.
Qed.

Lemma lazy_wait_tail rounds s l : lazy_repr CAPACITY s l → returns has_item rounds l →
  ∃ j slot s', LazyWaits.wait_get_tail_ref CAPACITY rounds s = Ok (slot, s') ∧ waits_for has_item rounds l j ∧
    match slot with
    | Some slot => stop_at rounds j = false ∧ ∃ x l', contents rounds j l = x :: l' ∧
        LazyRingBuffer.read slot s' = Ok x ∧ lazy_repr CAPACITY (LazyRingBuffer.consume s') l'
    | None => stop_at rounds j = true ∧ lazy_repr CAPACITY s' (contents rounds j l)
    end.
Proof using HC Hcap.
  intros Hs Hstop. unfold LazyWaits.wait_get_tail_ref.
  destruct (spin_unless_stopped_spec (LazyWaits.other CAPACITY) (λ s, Ok (LazyRingBuffer.try_get_tail_ref CAPACITY s, s))
    (lazy_repr CAPACITY) after has_item (λ l slot s', ∃ x l', l = x :: l' ∧ LazyRingBuffer.read slot s' = Ok x ∧
       lazy_repr CAPACITY (LazyRingBuffer.consume s') l') (λ e s l, lazy_other e s l))
    with (rounds := rounds) (s := s) (l := l) as (j & result & s' & Hrun & Hw & Hres); [| |done..|].
  - intros s1 l1 H1 He. pose proof (lazy_front CAPACITY s1 l1 H1) as Hp.
    destruct (LazyRingBuffer.try_get_tail_ref CAPACITY s1); [|done]. by destruct Hp as (x & l' & -> & _).
  - intros s1 l1 H1 (x & l' & ->)%has_item_spec. pose proof (lazy_front CAPACITY s1 _ H1) as Hp.
    destruct (LazyRingBuffer.try_get_tail_ref CAPACITY s1) as [slot|]; [|done]. by exists slot, s1.
  - exists j, result, s'. split_and!; [done..|]. destruct result; [|done]. destruct Hres as (? & _ & ?). by split.
Qed.

Lemma lazy_wait_head rounds s l : lazy_repr CAPACITY s l → returns has_room rounds l →
  ∃ j slot s', LazyWaits.wait_get_head_ref CAPACITY rounds s = Ok (slot, s') ∧ waits_for has_room rounds l j ∧
    match slot with
    | Some slot => stop_at rounds j = false ∧ has_room (contents rounds j l) = true ∧
        ∀ item, ∃ s'', LazyRingBuffer.write slot item s' = Ok s'' ∧
          lazy_repr CAPACITY (LazyRingBuffer.publish s'') (contents rounds j l ++ [item])
    | None => stop_at rounds j = true ∧ lazy_repr CAPACITY s' (contents rounds j l)
    end.
Proof using HC Hcap.
  intros Hs Hstop. unfold LazyWaits.wait_get_head_ref.
  destruct (spin_unless_stopped_spec (LazyWaits.other CAPACITY) (λ s, Ok (LazyRingBuffer.try_get_head_ref CAPACITY s, s))
    (lazy_repr CAPACITY) after has_room (λ l slot s', ∀ item, ∃ s'', LazyRingBuffer.write slot item s' = Ok s'' ∧
       lazy_repr CAPACITY (LazyRingBuffer.publish s'') (l ++ [item])) (λ e s l, lazy_other e s l))
    with (rounds := rounds) (s := s) (l := l) as (j & result & s' & Hrun & Hw & Hres); [| |done..|].
  - intros s1 l1 H1 Hroom%Z.ltb_ge. unfold LazyRingBuffer.try_get_head_ref, LazyRingBuffer.is_full.
    pose proof (bq_bound (ops := lazy_queue CAPACITY) (BoundedQueueLaws := lazy_laws CAPACITY Hcap) s1 l1 H1).
    rewrite (ring_repr_full CAPACITY _ _ _ _ H1), (proj2 (Z.eqb_eq _ _)) by lia. done.
  - intros s1 l1 H1 Hroom%Z.ltb_lt. pose proof (lazy_claim CAPACITY Hcap s1 l1 H1) as Hc.
    destruct (LazyRingBuffer.try_get_head_ref CAPACITY s1) as [slot|]; [|lia]. exists slot, s1. split; [done|].
    intros item. destruct (proj2 Hc item) as (s2 & Hw & Hr & _). by exists s2.
  - exists j, result, s'. split_and!; [done..|]. destruct result; [|done]. destruct Hres as (? & ? & ?). by split_and!.
Qed.

Lemma stop_at_never (others : list (list (queue_op A))) j : stop_at (never_stopped others) j = false.
Proof using Type. unfold stop_at, never_stopped. rewrite list_lookup_fmap. by destruct (others !! j). Qed.

(** C28: a wait on a ring buffer returns at the first poll that finds what it
    waits for or a stop request, whatever the other endpoint does in between, and
    does return if there is such a poll.  [wait_pop] then returns the oldest item
    and [wait_get_tail_ref] its slot; [wait_push] has appended the item and
    [wait_get_head_ref] gives a slot through which it is appended; a stopped
    wait changes nothing.  [wait_push] tries once more before it gives up, the
    others prefer the stop.  Without a token [wait_pop] returns an item. *)
Theorem ring_waits_return :
  (∀ rounds s l, shared_repr CAPACITY s l →
    (returns has_item rounds l → ∃ j result s', SharedWaits.wait_pop CAPACITY rounds s = Ok (result, s') ∧
      waits_for has_item rounds l j ∧
      match result with
      | Some x => stop_at rounds j = false ∧ ∃ l', contents rounds j l = x :: l' ∧ shared_repr CAPACITY s' l'
      | None => stop_at rounds j = true ∧ shared_repr CAPACITY s' (contents rounds j l)
      end) ∧
    (∀ item, returns has_room rounds l →
      ∃ j pushed s', SharedWaits.wait_push_internal CAPACITY item rounds s = Ok (pushed, s') ∧
      waits_for has_room rounds l j ∧
      if (pushed : bool) then has_room (contents rounds j l) = true ∧ shared_repr CAPACITY s' (contents rounds j l ++ [item])
      else stop_at rounds j = true ∧ has_room (contents rounds j l) = false ∧
           shared_repr CAPACITY s' (contents rounds j l))) ∧
  (∀ others s l, shared_repr CAPACITY s l → returns has_item (never_stopped others) l →
    ∃ j x l' s', SharedWaits.wait_pop_forever CAPACITY others s = Ok (x, s') ∧
      contents (never_stopped others) j l = x :: l' ∧ shared_repr CAPACITY s' l') ∧
  (∀ rounds s l, lazy_repr CAPACITY s l →
    (returns has_item rounds l → ∃ j slot s', LazyWaits.wait_get_tail_ref CAPACITY rounds s = Ok (slot, s') ∧
      waits_for has_item rounds l j ∧
      match slot with
      | Some slot => stop_at rounds j = false ∧ ∃ x l', contents rounds j l = x :: l' ∧
          LazyRingBuffer.read slot s' = Ok x ∧ lazy_repr CAPACITY (LazyRingBuffer.consume s') l'
      | None => stop_at rounds j = true ∧ lazy_repr CAPACITY s' (contents rounds j l)
      end) ∧
    (returns has_room rounds l → ∃ j slot s', LazyWaits.wait_get_head_ref CAPACITY rounds s = Ok (slot, s') ∧
      waits_for has_room rounds l j ∧
      match slot with
      | Some slot => stop_at rounds j = false ∧ has_room (contents rounds j l) = true ∧
          ∀ item, ∃ s'', LazyRingBuffer.write slot item s' = Ok s'' ∧
            lazy_repr CAPACITY (LazyRingBuffer.publish s'') (contents rounds j l ++ [item])
      | None => stop_at rounds j = true ∧ lazy_repr CAPACITY s' (contents rounds j l)
      end)).
Proof using HC Hcap.
  split_and!.
  - intros rounds s l Hs. split; [by apply shared_wait_pop|]. intros item. by apply shared_wait_push.
  - intros others s l Hs Hends. destruct (shared_wait_pop (never_stopped others) s l Hs Hends)
      as (j & result & s' & Hrun & _ & Hres). unfold SharedWaits.wait_pop_forever. unfold SharedWaits.wait_pop in Hrun.
    rewrite Hrun. cbn [mbind outcome_bind]. destruct result as [x|].
    + destruct Hres as (_ & l' & Hl & Hr). by exists j, x, l', s'.
    + destruct Hres as [Hstop _]. by rewrite stop_at_never in Hstop.
  - intros rounds s l Hs. split; [by apply lazy_wait_tail|by apply lazy_wait_head].
Qed.
End Promises.

(** Two polls find the buffer empty, then an item arrives; the stop comes too late. *)
Definition pop_rounds : list (bool * list (queue_op Z)) := [(false, []); (false, []); (false, [Push 7; Push 8]); (true, [])].

Lemma ring_waits_return_witness :
  2 < 2 ^ 64 ∧ shared_repr 2 (SharedRingBuffer.init 2) ([] : list Z) ∧ returns 2 has_item pop_rounds [] ∧
  ∃ s', SharedWaits.wait_pop 2 pop_rounds (SharedRingBuffer.init 2) = Ok (Some 7, s') ∧ shared_repr 2 s' [8].
Proof.
  assert (shared_repr 2 (SharedRingBuffer.init 2) ([] : list Z)) as Hinit by (by apply ring_repr_init).
  assert (returns 2 has_item pop_rounds []) as Hends by (exists 2%nat; split; [simpl; lia|by right]).
  split_and!; [lia|done|done|].
  destruct (proj1 (proj1 (ring_waits_return 2 (A := Z) ltac:(lia)) pop_rounds _ _ Hinit) Hends)
    as (j & result & s' & Hrun & Hw & Hres).
  assert (∃ s', SharedWaits.wait_pop 2 pop_rounds (SharedRingBuffer.init 2) = Ok (Some 7, s')) as [s1 H1]
    by (eexists; vm_compute; reflexivity).
  rewrite H1 in Hrun. injection Hrun as <- <-. exists s1. split; [exact H1|].
  destruct Hres as (_ & l' & Hl & Hr). destruct j as [|[|[|j]]]; try (by vm_compute in Hl).
  - vm_compute in Hl. by injection Hl as <-.
  - destruct (Hw 2%nat ltac:(lia)) as [_ Hready]. by vm_compute in Hready.
Defined.
