(* ===== verification/Spsc.v ===== *)
(** * Two threads on a ring buffer

    [LazyRingBuffer] and [SharedRingBuffer] between a producer and a consumer
    thread, interleaved at the level of their atomic operations.  A cursor is
    the list of the values stored in it (its modification order).  A thread
    reads its own cursor exactly; its acquire load of the other cursor may
    return any store that is not older than one it has already read, so loads
    may be stale for as long as the memory system likes.  Slot accesses are
    plain: each slot remembers which release store follows its last write and
    its last read, and an access that the acquire loads seen so far do not
    order after the other thread's is a data race, which is [Undefined].

    The write cursor is [head_] of [LazyRingBuffer] and [tail_] of
    [SharedRingBuffer]; [try_push_internal] is [ProducerClaim], [ProducerWrite]
    and [Publish], [try_pop] is [ConsumerClaim], [ConsumerRead] and [Consume]. *)

From S2P Require Import Prelude Interfaces Ring RingBuffers.

Module Spsc.

Inductive phase (A : Type) : Type :=
  | Idle
  | Claimed (slot : Z)
  | Accessed (slot : Z) (x : A).
Arguments Idle {A}.
Arguments Claimed {A} slot.
Arguments Accessed {A} slot x.

(** [write_release]: the index, in the write cursor's stores, of the store that
    follows the last write; [read_release] likewise for the last read. *)
Record slot (A : Type) : Type := { content : A; write_release : nat; read_release : nat }.
Arguments content {A} _.
Arguments write_release {A} _.
Arguments read_release {A} _.

(** [read_seen]: the newest store of the read cursor the producer has loaded;
    [pushed] and [popped] record what was published and consumed. *)
Record t (A : Type) : Type := {
  write_stores : list Z;
  read_stores : list Z;
  slots : list (slot A);
  read_seen : nat;
  write_seen : nat;
  producer : phase A;
  consumer : phase A;
  pushed : list A;
  popped : list A;
}.
Arguments write_stores {A} _.
Arguments read_stores {A} _.
Arguments slots {A} _.
Arguments read_seen {A} _.
Arguments write_seen {A} _.
Arguments producer {A} _.
Arguments consumer {A} _.
Arguments pushed {A} _.
Arguments popped {A} _.

Inductive action (A : Type) : Type :=
  | ProducerClaim (store : nat)
  | ProducerWrite (x : A)
  | Publish
  | ConsumerClaim (store : nat)
  | ConsumerRead
  | Consume.
Arguments ProducerClaim {A} store.
Arguments ProducerWrite {A} x.
Arguments Publish {A}.
Arguments ConsumerClaim {A} store.
Arguments ConsumerRead {A}.
Arguments Consume {A}.

Section Definitions.
Context {A : Type} (CAPACITY : Z).
Implicit Types (s : t A) (x : A).

Definition init (default_value : A) : t A := {|
  write_stores := [0]; read_stores := [0];
  slots := replicate (Z.to_nat CAPACITY)
    {| content := default_value; write_release := 0; read_release := 0 |};
  read_seen := 0; write_seen := 0; producer := Idle; consumer := Idle;
  pushed := []; popped := [];
|}.

(** The latest store: what a thread reads from its own cursor. *)
Definition latest (stores : list Z) : Z := default 0 (last stores).

(** [try_get_head_ref]: the load of the other cursor returns [read_stores !! store]. *)
Definition producer_claim (store : nat) s : outcome (t A) :=
  tail ← deref (read_stores s !! store);
  let head := latest (write_stores s) in
  Ok {| write_stores := write_stores s; read_stores := read_stores s; slots := slots s;
        read_seen := store; write_seen := write_seen s;
        producer := if LazyRingBuffer.is_full CAPACITY head tail then Idle
                    else Claimed (mask CAPACITY head);
        consumer := consumer s; pushed := pushed s; popped := popped s |}.

(** [*slot = x]: ordered after the reads of the slot that the last loaded store released. *)
Definition producer_write x s : outcome (t A) :=
  match producer s with
  | Idle => Undefined
  | Claimed i | Accessed i _ =>
      sl ← array_get (slots s) i;
      if (read_seen s <? read_release sl)%nat then Undefined else
      sls ← array_set (slots s) i
        {| content := x; write_release := length (write_stores s); read_release := read_release sl |};
      Ok {| write_stores := write_stores s; read_stores := read_stores s; slots := sls;
            read_seen := read_seen s; write_seen := write_seen s;
            producer := Accessed i x; consumer := consumer s;
            pushed := pushed s; popped := popped s |}
  end.

Definition publish s : outcome (t A) :=
  match producer s with
  | Accessed i x =>
      Ok {| write_stores := write_stores s ++ [u64 (latest (write_stores s) + 1)];
            read_stores := read_stores s; slots := slots s;
            read_seen := read_seen s; write_seen := write_seen s;
            producer := Idle; consumer := consumer s;
            pushed := pushed s ++ [x]; popped := popped s |}
  | _ => Undefined
  end.

Definition consumer_claim (store : nat) s : outcome (t A) :=
  head ← deref (write_stores s !! store);
  let tail := latest (read_stores s) in
  Ok {| write_stores := write_stores s; read_stores := read_stores s; slots := slots s;
        read_seen := read_seen s; write_seen := store;
        producer := producer s;
        consumer := if LazyRingBuffer.is_empty head tail then Idle
                    else Claimed (mask CAPACITY tail);
        pushed := pushed s; popped := popped s |}.

Definition consumer_read s : outcome (t A) :=
  match consumer s with
  | Idle => Undefined
  | Claimed i | Accessed i _ =>
      sl ← array_get (slots s) i;
      if (write_seen s <? write_release sl)%nat then Undefined else
      sls ← array_set (slots s) i
        {| content := content sl; write_release := write_release sl;
           read_release := length (read_stores s) |};
      Ok {| write_stores := write_stores s; read_stores := read_stores s; slots := sls;
            read_seen := read_seen s; write_seen := write_seen s;
            producer := producer s; consumer := Accessed i (content sl);
            pushed := pushed s; popped := popped s |}
  end.

Definition consume s : outcome (t A) :=
  match consumer s with
  | Accessed i x =>
      Ok {| write_stores := write_stores s;
            read_stores := read_stores s ++ [u64 (latest (read_stores s) + 1)]; slots := slots s;
            read_seen := read_seen s; write_seen := write_seen s;
            producer := producer s; consumer := Idle;
            pushed := pushed s; popped := popped s ++ [x] |}
  | _ => Undefined
  end.

Definition step (a : action A) s : outcome (t A) :=
  match a with
  | ProducerClaim store => producer_claim store s
  | ProducerWrite x => producer_write x s
  | Publish => publish s
  | ConsumerClaim store => consumer_claim store s
  | ConsumerRead => consumer_read s
  | Consume => consume s
  end.

(** What the threads may do next: loads respect coherence, a thread accesses a
    slot only while it holds a claim and releases it only after the access. *)
Definition enabled (a : action A) s : bool :=
  match a with
  | ProducerClaim store => bool_decide (read_seen s ≤ store < length (read_stores s))%nat
  | ProducerWrite _ => match producer s with Idle => false | _ => true end
  | Publish => match producer s with Accessed _ _ => true | _ => false end
  | ConsumerClaim store => bool_decide (write_seen s ≤ store < length (write_stores s))%nat
  | ConsumerRead => match consumer s with Idle => false | _ => true end
  | Consume => match consumer s with Accessed _ _ => true | _ => false end
  end.

Inductive reachable (default_value : A) : t A → Prop :=
  | reachable_init : reachable default_value (init default_value)
  | reachable_step s a s' :
      reachable default_value s → enabled a s = true → step a s = Ok s' →
      reachable default_value s'.

Fixpoint run (actions : list (action A)) s : outcome (t A) :=
  match actions with
  | [] => Ok s
  | a :: actions => s' ← (if enabled a s then step a s else Undefined); run actions s'
  end.

Definition slot_of (p : phase A) : option Z :=
  match p with Idle => None | Claimed i | Accessed i _ => Some i end.
End Definitions.

Section Proofs.
Context {A : Type} (CAPACITY : Z) {HC : PowerOfTwo CAPACITY} (Hcap : CAPACITY < 2 ^ 64).
Implicit Types (s : t A) (x : A) (n k : nat).
#[local] Open Scope nat_scope.

(** The stores of a cursor that was incremented [n] times. *)
Definition counted (n : nat) : list Z := (λ k, u64 (Z.of_nat k)) <$> seq 0 (S n).

Lemma counted_length n : length (counted n) = S n.
Proof. unfold counted. by rewrite length_fmap, length_seq. Qed.

Lemma counted_lookup n k : k ≤ n → counted n !! k = Some (u64 (Z.of_nat k)).
Proof. intros Hk. unfold counted. rewrite list_lookup_fmap, lookup_seq_lt by lia. done. Qed.

Lemma counted_latest n : latest (counted n) = u64 (Z.of_nat n).
Proof. unfold latest. rewrite last_lookup, counted_length. simpl pred. by rewrite counted_lookup. Qed.

Lemma counted_succ n : counted n ++ [u64 (latest (counted n) + 1)] = counted (S n).
Proof.
  rewrite counted_latest. unfold counted. rewrite (seq_S (S n)), fmap_app. cbn [fmap list_fmap].
  rewrite uwrap_add_l. by replace (Z.of_nat (0 + S n)) with (Z.of_nat n + 1)%Z by lia.
Qed.

(** The slot of the [k]-th element ever pushed. *)
Definition slot_index (k : nat) : Z := (Z.of_nat k mod CAPACITY)%Z.

Lemma mask_counted k : mask CAPACITY (u64 (Z.of_nat k)) = slot_index k.
Proof. apply mask_u64; [done|lia]. Qed.

Lemma slot_index_range k : (0 ≤ slot_index k < CAPACITY)%Z.
Proof. apply Z.mod_pos_bound, pot_pos. Qed.

Lemma slot_index_inj j k :
  slot_index j = slot_index k → (Z.abs (Z.of_nat j - Z.of_nat k) < CAPACITY)%Z → j = k.
Proof. intros He Ha. pose proof (pot_pos (c := CAPACITY)). apply mod_inj_window in He; lia. Qed.

(** [k] elements pushed and [j] of them known to be popped. *)
Lemma full_counted k j : j ≤ k → (Z.of_nat k - Z.of_nat j ≤ CAPACITY)%Z →
  LazyRingBuffer.is_full CAPACITY (u64 (Z.of_nat k)) (u64 (Z.of_nat j)) =
  bool_decide (Z.of_nat k = Z.of_nat j + CAPACITY)%Z.
Proof.
  intros Hjk Hd. unfold LazyRingBuffer.is_full. zsimpl. rewrite uwrap_small by (unfold in_u; lia).
  case_bool_decide; destruct (Z.eqb_spec (Z.of_nat k - Z.of_nat j) CAPACITY); done || lia.
Qed.

Lemma empty_counted k j : j ≤ k → (Z.of_nat k - Z.of_nat j ≤ CAPACITY)%Z →
  LazyRingBuffer.is_empty (u64 (Z.of_nat k)) (u64 (Z.of_nat j)) = bool_decide (k = j).
Proof.
  intros Hjk Hd. unfold LazyRingBuffer.is_empty, uwrap.
  case_bool_decide as Hkj; destruct (Z.eqb_spec (Z.of_nat k mod 2 ^ 64) (Z.of_nat j mod 2 ^ 64)) as [He|Hne];
    [done|by subst| |done].
  destruct Hkj. apply mod_inj_window in He; lia.
Qed.

Definition phase_inv (p : phase A) (room : Prop) (k : nat) (ok : A → Prop) : Prop :=
  match p with
  | Idle => True
  | Claimed i => room ∧ i = slot_index k
  | Accessed i x => room ∧ i = slot_index k ∧ ok x
  end.

Abbreviation np s := (length (pushed s)).
Abbreviation nc s := (length (popped s)).

(** Slot [slot_index k] holds item [x], released by the [k+1]-st publish. *)
Definition holds s (k : nat) (x : A) : Prop :=
  ∃ r, slots s !! Z.to_nat (slot_index k) = Some {| content := x; write_release := S k; read_release := r |}.

Record inv s : Prop := {
  inv_write : write_stores s = counted (np s);
  inv_read : read_stores s = counted (nc s);
  inv_length : Z.of_nat (length (slots s)) = CAPACITY;
  inv_read_seen : read_seen s ≤ nc s;
  inv_write_seen : nc s ≤ write_seen s ≤ np s;
  inv_room : (Z.of_nat (np s) ≤ Z.of_nat (read_seen s) + CAPACITY)%Z;
  inv_fifo : popped s = take (nc s) (pushed s);
  inv_holds k x : nc s ≤ k → pushed s !! k = Some x → holds s k x;
  inv_reads i sl : slots s !! i = Some sl →
    read_release sl = 0 ∨
    ∃ k, k < np s ∧ k ≤ nc s ∧ Z.to_nat (slot_index k) = i ∧ read_release sl = S k;
  inv_producer : phase_inv (producer s) (Z.of_nat (np s) < Z.of_nat (read_seen s) + CAPACITY)%Z
    (np s) (holds s (np s));
  inv_consumer : phase_inv (consumer s) (nc s < write_seen s) (nc s)
    (λ x, pushed s !! nc s = Some x);
}.

Lemma spsc_init_inv default_value : inv (init CAPACITY default_value).
Proof.
  split; simpl; try done.
  - rewrite length_replicate. pose proof (pot_pos (c := CAPACITY)). lia.
  - pose proof (pot_pos (c := CAPACITY)). lia.
  - intros i sl [-> _]%lookup_replicate. by left.
Qed.

Lemma producer_claim_inv store s : inv s → enabled (ProducerClaim store) s = true →
  ∃ s', producer_claim CAPACITY store s = Ok s' ∧ inv s' ∧
    (producer s' ≠ Idle ↔ (Z.of_nat (np s) < Z.of_nat store + CAPACITY)%Z).
Proof.
  intros Hi Hen. apply bool_decide_eq_true in Hen. pose proof (inv_room _ Hi).
  destruct Hi. rewrite inv_read0, counted_length in Hen.
  unfold producer_claim. rewrite inv_read0, inv_write0, counted_lookup by lia. cbn [mbind outcome_bind deref].
  rewrite counted_latest, full_counted by lia. eexists. split; [done|]. simpl. split.
  - split; simpl; try done; try lia.
    case_bool_decide; simpl; [done|]. split; [lia|apply mask_counted].
  - case_bool_decide; split; (lia || done).
Qed.

Lemma consumer_claim_inv store s : inv s → enabled (ConsumerClaim store) s = true →
  ∃ s', consumer_claim CAPACITY store s = Ok s' ∧ inv s' ∧ (consumer s' ≠ Idle ↔ nc s < store).
Proof.
  intros Hi Hen. apply bool_decide_eq_true in Hen. destruct Hi. rewrite inv_write0, counted_length in Hen.
  unfold consumer_claim. rewrite inv_read0, inv_write0, counted_lookup by lia. cbn [mbind outcome_bind deref].
  rewrite counted_latest, empty_counted by lia. eexists. split; [done|]. simpl. split.
  - split; simpl; try done; try lia.
    case_bool_decide; simpl; [done|]. split; [lia|apply mask_counted].
  - case_bool_decide; split; (lia || done).
Qed.

Lemma slot_get s k : Z.of_nat (length (slots s)) = CAPACITY →
  ∃ sl, slots s !! Z.to_nat (slot_index k) = Some sl ∧ array_get (slots s) (slot_index k) = Ok sl.
Proof.
  intros Hl. pose proof (slot_index_range k).
  destruct (lookup_lt_is_Some_2 (slots s) (Z.to_nat (slot_index k))) as [sl Hsl]; [lia|].
  exists sl. split; [done|]. apply array_get_Ok. split; [lia|done].
Qed.

Lemma slot_set s k sl : Z.of_nat (length (slots s)) = CAPACITY →
  array_set (slots s) (slot_index k) sl = Ok (<[Z.to_nat (slot_index k) := sl]> (slots s)).
Proof. intros Hl. pose proof (slot_index_range k). apply array_set_Ok. lia. Qed.

(** The producer's slot was last read by a consumption that its claim has seen,
    and is not the slot of an item waiting to be read. *)
Lemma producer_slot_free s sl : inv s →
  (Z.of_nat (np s) < Z.of_nat (read_seen s) + CAPACITY)%Z →
  slots s !! Z.to_nat (slot_index (np s)) = Some sl → read_release sl ≤ read_seen s.
Proof.
  intros Hi Hroom Hsl. destruct (inv_reads _ Hi _ _ Hsl) as [->|(k & Hk & Hkc & Hs & ->)]; [lia|].
  pose proof (slot_index_range k). pose proof (slot_index_range (np s)).
  assert (¬ Z.abs (Z.of_nat (np s) - Z.of_nat k) < CAPACITY)%Z as Hfar.
  { intros Hlt. assert (np s = k) by (apply slot_index_inj; lia). lia. }
  lia.
Qed.

Lemma holds_insert s s' j k x sl : slots s' = <[Z.to_nat (slot_index j) := sl]> (slots s) →
  slot_index j ≠ slot_index k → holds s k x → holds s' k x.
Proof.
  intros Hs Hne [r Hr]. pose proof (slot_index_range j). pose proof (slot_index_range k).
  exists r. rewrite Hs, list_lookup_insert_ne by lia. done.
Qed.

(** Reading a slot only stamps it. *)
Lemma holds_stamp s s' j k x sl r : slots s !! Z.to_nat (slot_index j) = Some sl →
  slots s' = <[Z.to_nat (slot_index j) :=
    {| content := content sl; write_release := write_release sl; read_release := r |}]> (slots s) →
  holds s k x → holds s' k x.
Proof.
  intros Hsl Hs Hk. destruct (decide (slot_index j = slot_index k)) as [He|Hne].
  - destruct Hk as [r' Hr']. rewrite <- He, Hsl in Hr'. injection Hr' as ->. exists r.
    rewrite Hs, <- He. apply list_lookup_insert_eq, lookup_lt_Some with (1 := Hsl).
  - by eapply holds_insert.
Qed.

Lemma producer_write_inv x s : inv s → enabled (ProducerWrite x) s = true →
  ∃ s', producer_write x s = Ok s' ∧ inv s'.
Proof.
  intros Hi Hen. simpl in Hen.
  assert (∃ i, slot_of (producer s) = Some i ∧ i = slot_index (np s) ∧
    (Z.of_nat (np s) < Z.of_nat (read_seen s) + CAPACITY)%Z) as (i & Hslot & -> & Hroom).
  { pose proof (inv_producer _ Hi) as Hp. destruct (producer s); [done|naive_solver..]. }
  destruct (slot_get s (np s) (inv_length _ Hi)) as (sl & Hsl & Hget).
  pose proof (producer_slot_free _ _ Hi Hroom Hsl) as Hseen.
  assert (∃ s', producer_write x s = Ok s' ∧ s' = {| write_stores := write_stores s;
      read_stores := read_stores s;
      slots := <[Z.to_nat (slot_index (np s)) := {| content := x; write_release := S (np s);
        read_release := read_release sl |}]> (slots s);
      read_seen := read_seen s; write_seen := write_seen s;
      producer := Accessed (slot_index (np s)) x; consumer := consumer s;
      pushed := pushed s; popped := popped s |}) as (s' & -> & Hs').
  { unfold producer_write. destruct (producer s); [done|..]; simpl in Hslot; injection Hslot as ->;
      rewrite Hget; cbn [mbind outcome_bind]; rewrite (proj2 (Nat.ltb_ge _ _) Hseen);
      rewrite slot_set by apply Hi; cbn [mbind outcome_bind];
      rewrite (inv_write _ Hi), counted_length; by eexists. }
  exists s'. split; [done|]. destruct Hi. subst s'. split; simpl; try done.
  - by rewrite length_insert.
  - intros k y Hk Hy. pose proof (lookup_lt_Some _ _ _ Hy). eapply holds_insert; [done| |by apply inv_holds0].
    intros He. apply slot_index_inj in He; lia.
  - intros i sl' Hsl'. destruct (decide (Z.to_nat (slot_index (np s)) = i)) as [<-|Hne].
    + rewrite list_lookup_insert_eq in Hsl' by (by eapply lookup_lt_Some). injection Hsl' as <-. simpl.
      by apply inv_reads0.
    + rewrite list_lookup_insert_ne in Hsl' by done. by apply inv_reads0.
  - split_and!; [done..|]. exists (read_release sl). apply list_lookup_insert_eq. by eapply lookup_lt_Some.
Qed.

Lemma consumer_read_inv s : inv s → enabled (@ConsumerRead A) s = true →
  ∃ s', consumer_read s = Ok s' ∧ inv s'.
Proof.
  intros Hi Hen. simpl in Hen.
  assert (∃ i, slot_of (consumer s) = Some i ∧ i = slot_index (nc s) ∧ nc s < write_seen s)
    as (i & Hslot & -> & Hroom).
  { pose proof (inv_consumer _ Hi) as Hp. destruct (consumer s); [done|naive_solver..]. }
  pose proof (inv_write_seen _ Hi) as Hseen.
  destruct (lookup_lt_is_Some_2 (pushed s) (nc s)) as [x Hx]; [lia|].
  destruct (inv_holds _ Hi (nc s) x ltac:(lia) Hx) as [r Hr].
  destruct (slot_get s (nc s) (inv_length _ Hi)) as (sl & Hsl & Hget). rewrite Hr in Hsl. injection Hsl as <-.
  assert (∃ s', consumer_read s = Ok s' ∧ s' = {| write_stores := write_stores s;
      read_stores := read_stores s;
      slots := <[Z.to_nat (slot_index (nc s)) := {| content := x; write_release := S (nc s);
        read_release := S (nc s) |}]> (slots s);
      read_seen := read_seen s; write_seen := write_seen s;
      producer := producer s; consumer := Accessed (slot_index (nc s)) x;
      pushed := pushed s; popped := popped s |}) as (s' & -> & Hs').
  { unfold consumer_read. destruct (consumer s); [done|..]; simpl in Hslot; injection Hslot as ->;
      rewrite Hget; cbn [mbind outcome_bind write_release content]; rewrite (proj2 (Nat.ltb_ge _ _)) by lia;
      rewrite slot_set by apply Hi; cbn [mbind outcome_bind];
      rewrite (inv_read _ Hi), counted_length; by eexists. }
  exists s'. split; [done|].
  assert (∀ k y, holds s k y → holds s' k y) as Hkeep.
  { intros k y. subst s'. by apply (holds_stamp _ _ (nc s) k y _ (S (nc s)) Hr). }
  destruct Hi. subst s'. split; simpl; try done.
  - by rewrite length_insert.
  - intros k y Hk Hy. by apply Hkeep, inv_holds0.
  - intros i sl' Hsl'. destruct (decide (Z.to_nat (slot_index (nc s)) = i)) as [<-|Hne].
    + rewrite list_lookup_insert_eq in Hsl' by (by eapply lookup_lt_Some). injection Hsl' as <-. simpl.
      right. exists (nc s). split_and!; (done || lia).
    + rewrite list_lookup_insert_ne in Hsl' by done. by apply inv_reads0.
  - destruct (producer s); simpl in *; [done..|]. destruct inv_producer0 as (? & ? & ?).
    split_and!; [done..|]. by apply Hkeep.
Qed.

Lemma publish_inv s : inv s → enabled (@Publish A) s = true →
  ∃ s', publish s = Ok s' ∧ inv s'.
Proof.
  intros Hi Hen. simpl in Hen. unfold publish. pose proof (inv_producer _ Hi) as Hp.
  destruct (producer s) as [|i|i x]; [done..|]. destruct Hp as (Hroom & _ & Hx). eexists. split; [done|].
  destruct Hi. split; simpl; try done.
  - rewrite inv_write0, counted_succ, length_app. simpl. by rewrite Nat.add_1_r.
  - rewrite length_app. simpl. lia.
  - rewrite length_app. simpl. lia.
  - rewrite take_app_le by lia. done.
  - intros k y Hk [Hy|[Hlen Hy]]%lookup_app_Some; [by apply inv_holds0|].
    apply list_lookup_singleton_Some in Hy as [Hz <-]. replace k with (np s) by lia. done.
  - intros i' sl Hsl. destruct (inv_reads0 _ _ Hsl) as [|(k & ? & ? & ? & ?)]; [by left|].
    right. exists k. rewrite length_app. split_and!; (done || simpl; lia).
  - destruct (consumer s); simpl in *; [done..|]. destruct inv_consumer0 as (? & ? & ?).
    split_and!; [done..|]. by apply lookup_app_l_Some.
Qed.

Lemma consume_inv s : inv s → enabled (@Consume A) s = true →
  ∃ s', consume s = Ok s' ∧ inv s'.
Proof.
  intros Hi Hen. simpl in Hen. unfold consume. pose proof (inv_consumer _ Hi) as Hp.
  destruct (consumer s) as [|i|i x]; [done..|]. destruct Hp as (Hseen & _ & Hx). eexists. split; [done|].
  destruct Hi. split; simpl; try done.
  - rewrite inv_read0, counted_succ, length_app. simpl. by rewrite Nat.add_1_r.
  - rewrite length_app. simpl. lia.
  - rewrite length_app. simpl. lia.
  - rewrite length_app. simpl. rewrite Nat.add_1_r, (take_S_r _ _ x) by done. by f_equal.
  - intros k y. rewrite length_app. simpl. intros Hk Hy. apply inv_holds0; [lia|done].
  - intros i' sl Hsl. destruct (inv_reads0 _ _ Hsl) as [|(k & ? & ? & ? & ?)]; [by left|].
    right. exists k. rewrite length_app. split_and!; (done || simpl; lia).
Qed.

Lemma spsc_step_inv a s : inv s → enabled a s = true → ∃ s', step CAPACITY a s = Ok s' ∧ inv s'.
Proof.
  intros Hi Hen. destruct a; simpl step.
  - destruct (producer_claim_inv _ _ Hi Hen) as (s' & ? & ? & _). by exists s'.
  - by apply producer_write_inv.
  - by apply publish_inv.
  - destruct (consumer_claim_inv _ _ Hi Hen) as (s' & ? & ? & _). by exists s'.
  - by apply consumer_read_inv.
  - by apply consume_inv.
Qed.

Lemma spsc_reachable_inv default_value s : reachable CAPACITY default_value s → inv s.
Proof.
  induction 1 as [|s a s' _ IH Hen Hstep]; [apply spsc_init_inv|].
  destruct (spsc_step_inv a s IH Hen) as (s'' & Hs'' & Hi). congruence.
Qed.

Lemma slots_disjoint s i j : inv s →
  slot_of (producer s) = Some i → slot_of (consumer s) = Some j → i ≠ j.
Proof.
  intros Hi Hp Hc He. destruct Hi. 
  assert (i = slot_index (np s) ∧ (Z.of_nat (np s) < Z.of_nat (read_seen s) + CAPACITY)%Z) as [Hin Hroom]
    by (destruct (producer s); simpl in *; naive_solver).
  assert (j = slot_index (nc s) ∧ nc s < write_seen s) as [Hjn Hseen]
    by (destruct (consumer s); simpl in *; naive_solver).
  assert (np s = nc s) by (apply slot_index_inj; [congruence|lia]). lia.
Qed.

Lemma spsc_run_reachable (default_value : A) actions s s' :
  reachable CAPACITY default_value s → run CAPACITY actions s = Ok s' → reachable CAPACITY default_value s'.
Proof.
  revert s. induction actions as [|a actions IH]; intros s Hs Hrun; simpl in Hrun; [by injection Hrun as <-|].
  destruct (enabled a s) eqn:Hen; [|done]. destruct (step CAPACITY a s) as [s1| |] eqn:Hstep; [|done..].
  apply (IH s1); [by eapply reachable_step|done].
Qed.

(** A claim decided on any store the load may return, and on the latest. *)
Lemma claims_exact s : inv s →
  (∀ store, enabled (ProducerClaim store) s = true →
    ∃ s', step CAPACITY (ProducerClaim store) s = Ok s' ∧
      (producer s' ≠ Idle ↔ (Z.of_nat (np s) - Z.of_nat store < CAPACITY)%Z) ∧
      (producer s' ≠ Idle → (Z.of_nat (np s) - Z.of_nat (nc s) < CAPACITY)%Z)) ∧
  (∀ store, enabled (ConsumerClaim store) s = true →
    ∃ s', step CAPACITY (ConsumerClaim store) s = Ok s' ∧
      (consumer s' ≠ Idle ↔ nc s < store) ∧
      (consumer s' ≠ Idle → popped s ≠ pushed s)) ∧
  @enabled A (ProducerClaim (nc s)) s = true ∧ @enabled A (ConsumerClaim (np s)) s = true.
Proof.
  intros Hi. split_and!.
  - intros store Hen. destruct (producer_claim_inv _ _ Hi Hen) as (s' & Hs' & _ & Hiff).
    exists s'. split; [done|]. apply bool_decide_eq_true in Hen.
    rewrite (inv_read _ Hi), counted_length in Hen. rewrite Hiff. split; lia.
  - intros store Hen. destruct (consumer_claim_inv _ _ Hi Hen) as (s' & Hs' & _ & Hiff).
    exists s'. split; [done|]. apply bool_decide_eq_true in Hen.
    rewrite (inv_write _ Hi), counted_length in Hen. rewrite Hiff. split; [done|].
    intros Hlt Heq. rewrite Heq in Hlt. lia.
  - apply bool_decide_eq_true. rewrite (inv_read _ Hi), counted_length. pose proof (inv_read_seen _ Hi). lia.
  - apply bool_decide_eq_true. rewrite (inv_write _ Hi), counted_length. pose proof (inv_write_seen _ Hi). lia.
Qed.
End Proofs.

(** C21: Under every interleaving of the producer's and the consumer's atomic
    operations, stale acquire loads and cursor wrap-around included, no slot
    access is a data race or out of bounds, the two threads never hold the same
    slot, what the consumer popped is a prefix of what was published, in order,
    without loss or duplication, and at most CAPACITY items are in between. *)
Theorem spsc_race_free_fifo {A} (CAPACITY : Z) `{PowerOfTwo CAPACITY} (default_value : A) (s : t A) :
  CAPACITY < 2 ^ 64 → reachable CAPACITY default_value s →
  (∀ a, enabled a s = true → ∃ s', step CAPACITY a s = Ok s') ∧
  (∀ i j, slot_of (producer s) = Some i → slot_of (consumer s) = Some j → i ≠ j) ∧
  popped s `prefix_of` pushed s ∧
  Z.of_nat (length (pushed s)) - Z.of_nat (length (popped s)) ≤ CAPACITY.
Proof.
  intros Hcap Hr. pose proof (spsc_reachable_inv CAPACITY Hcap default_value s Hr) as Hi. split_and!.
  - intros a Ha. destruct (spsc_step_inv CAPACITY Hcap a s Hi Ha) as (s' & Hs' & _). by exists s'.
  - intros i j. by apply (slots_disjoint CAPACITY).
  - rewrite (inv_fifo _ _ Hi). apply prefix_take.
  - pose proof (inv_room _ _ Hi). pose proof (inv_read_seen _ _ Hi). lia.
Qed.

(** A claim is never granted wrongly: the producer gets a slot exactly when
    the loaded cursor shows room, and then there is room; the consumer gets one
    exactly when the loaded cursor shows an item, and then there is one.  A load
    of the latest store is always possible, so a spinning [wait] returns as soon
    as the other thread's last release is visible. *)
Theorem spsc_claims_are_exact {A} (CAPACITY : Z) `{PowerOfTwo CAPACITY} (default_value : A) (s : t A) :
  CAPACITY < 2 ^ 64 → reachable CAPACITY default_value s →
  (∀ store, enabled (ProducerClaim store) s = true →
    ∃ s', step CAPACITY (ProducerClaim store) s = Ok s' ∧
      (producer s' ≠ Idle ↔ Z.of_nat (length (pushed s)) - Z.of_nat store < CAPACITY) ∧
      (producer s' ≠ Idle → Z.of_nat (length (pushed s)) - Z.of_nat (length (popped s)) < CAPACITY)) ∧
  (∀ store, enabled (ConsumerClaim store) s = true →
    ∃ s', step CAPACITY (ConsumerClaim store) s = Ok s' ∧
      (consumer s' ≠ Idle ↔ (length (popped s) < store)%nat) ∧
      (consumer s' ≠ Idle → popped s ≠ pushed s)) ∧
  @enabled A (ProducerClaim (length (popped s))) s = true ∧
  @enabled A (ConsumerClaim (length (pushed s))) s = true.
Proof. intros Hcap Hr. by apply claims_exact, (spsc_reachable_inv CAPACITY Hcap default_value). Qed.

(** A run with a stale load: the buffer of two looks full to the producer. *)
Definition spsc_run : list (action Z) :=
  [ProducerClaim 0; ProducerWrite 7; Publish; ProducerClaim 0; ProducerWrite 8; ConsumerClaim 1; Publish;
   ConsumerRead; Consume; ProducerClaim 0; ProducerClaim 1; ConsumerClaim 2; ProducerWrite 9; ConsumerRead].

Lemma spsc_race_free_fifo_witness :
  ∃ s, run 2 spsc_run (init 2 0) = Ok s ∧ pushed s = [7; 8] ∧ popped s = [7] ∧
    slot_of (producer s) = Some 0 ∧ slot_of (consumer s) = Some 1 ∧ popped s `prefix_of` pushed s.
Proof.
  destruct (run 2 spsc_run (init 2 0)) as [s| |] eqn:Hrun; [|vm_compute in Hrun; discriminate Hrun..].
  assert (reachable 2 0 s) as Hr by (apply (spsc_run_reachable 2 0 spsc_run _ s (reachable_init 2 0) Hrun)).
  destruct (spsc_race_free_fifo 2 0 s ltac:(lia) Hr) as (_ & _ & Hp & _).
  vm_compute in Hrun. injection Hrun as <-. exists {|
    write_stores := [0; 1; 2]; read_stores := [0; 1];
    slots := [{| content := 9; write_release := 3; read_release := 1 |};
              {| content := 8; write_release := 2; read_release := 2 |}];
    read_seen := 1; write_seen := 2; producer := Accessed 0 9; consumer := Accessed 1 8;
    pushed := [7; 8]; popped := [7] |}.
  split_and!; [reflexivity..|exact Hp].
Defined.

Lemma spsc_claims_are_exact_witness :
  ∃ s, run 2 spsc_run (init 2 0) = Ok s ∧ enabled (@ConsumerClaim Z (length (pushed s))) s = true.
Proof.
  destruct (run 2 spsc_run (init 2 0)) as [s| |] eqn:Hrun; [|vm_compute in Hrun; discriminate Hrun..].
  assert (reachable 2 0 s) as Hr by (apply (spsc_run_reachable 2 0 spsc_run _ s (reachable_init 2 0) Hrun)).
  destruct (spsc_claims_are_exact 2 0 s ltac:(lia) Hr) as (_ & _ & _ & Hc). exists s. split; [reflexivity|exact Hc].
Defined.
End Spsc.
