(* ===== verification/SeqLock.v ===== *)
(** * SeqLock and SeqLockReader ([includes/utils/seq-lock.hpp])

    One writer and one reader (readers store nothing shared, so any number of
    them behave as one each), interleaved at their atomic operations under
    release/acquire ordering.  An atomic is the list of its stores; a load may
    return any store not older than one the thread has already observed.  A
    release store of [generation_] carries how many stores of [data_] precede
    it, and an acquire load that returns it makes those visible; the accesses
    of [data_] are relaxed and carry nothing. *)

From Stdlib Require Import ZifyNat Sorted.
From stdpp Require Import sorting.
From S2P Require Import Prelude.

Module SeqLock.

Definition LOCKED : Z := 2 ^ 64 - 1.

Inductive writer_phase (T : Type) : Type :=
  | WriterIdle
  | WriterLocked (previous_generation : Z) (data : T)
  | WriterStored (previous_generation : Z).
Arguments WriterIdle {T}.
Arguments WriterLocked {T} previous_generation data.
Arguments WriterStored {T} previous_generation.

(** Where the reader is.  [track] distinguishes [wait_read_and_update], called
    by [wait_read_next], from [wait_read], called by [read_latest].  Items are
    named by their index among the stores of [data_]. *)
Inductive reader_phase : Type :=
  | ReaderIdle
  | ReaderLoop (track : bool)
  | ReaderFirst (track : bool) (first_generation : Z)
  | ReaderData (track : bool) (first_generation : Z) (data : nat).

Record t (T : Type) : Type := {
  generation_stores : list (Z * nat);
  data_stores : list (option T);
  writer : writer_phase T;
  generation_seen : nat;
  data_seen : nat;
  last_generation_seen_ : Z;
  reader : reader_phase;
  delivered : list (Z * nat);
  latest_reads : list (Z * nat);
}.
Arguments generation_stores {T} _.
Arguments data_stores {T} _.
Arguments writer {T} _.
Arguments generation_seen {T} _.
Arguments data_seen {T} _.
Arguments last_generation_seen_ {T} _.
Arguments reader {T} _.
Arguments delivered {T} _.
Arguments latest_reads {T} _.

(** The number is the store that the load returns. *)
Inductive action (T : Type) : Type :=
  | WriteLock (data : T)
  | WriteData
  | WriteRelease
  | ReadNextPoll (store : nat)
  | ReadLatest
  | ReadStopped
  | ReadFirst (store : nat)
  | ReadData (store : nat)
  | ReadSecond (store : nat).
Arguments WriteLock {T} data.
Arguments WriteData {T}.
Arguments WriteRelease {T}.
Arguments ReadNextPoll {T} store.
Arguments ReadLatest {T}.
Arguments ReadStopped {T}.
Arguments ReadFirst {T} store.
Arguments ReadData {T} store.
Arguments ReadSecond {T} store.

Section Definitions.
Context {T : Type}.
Implicit Types (s : t T).

Definition init : t T := {|
  generation_stores := [(LOCKED, O)]; data_stores := [None]; writer := WriterIdle;
  generation_seen := 0; data_seen := 0; last_generation_seen_ := 0; reader := ReaderIdle;
  delivered := []; latest_reads := [];
|}.

Definition set_writer (gs : list (Z * nat)) (ds : list (option T)) (w : writer_phase T) s : t T := {|
  generation_stores := gs; data_stores := ds; writer := w;
  generation_seen := generation_seen s; data_seen := data_seen s;
  last_generation_seen_ := last_generation_seen_ s; reader := reader s;
  delivered := delivered s; latest_reads := latest_reads s;
|}.

(** [write(data)]: the three stores; the first follows the relaxed load. *)
Definition write_lock (data : T) s : option (t T) :=
  match writer s with
  | WriterIdle =>
      let previous_generation := (default (LOCKED, O) (last (generation_stores s))).1 in
      Some (set_writer (generation_stores s ++ [(LOCKED, pred (length (data_stores s)))]) (data_stores s)
        (WriterLocked previous_generation data) s)
  | _ => None
  end.
Definition write_data s : option (t T) :=
  match writer s with
  | WriterLocked previous_generation data =>
      Some (set_writer (generation_stores s) (data_stores s ++ [Some data])
        (WriterStored previous_generation) s)
  | _ => None
  end.
Definition write_release s : option (t T) :=
  match writer s with
  | WriterStored previous_generation =>
      Some (set_writer
        (generation_stores s ++ [(u64 (previous_generation + 1), pred (length (data_stores s)))])
        (data_stores s) WriterIdle s)
  | _ => None
  end.

(** An acquire load of [generation_] that returns [store]. *)
Definition acquire_generation (store : nat) (r : Z → reader_phase) s : option (t T) :=
  if (store <? generation_seen s)%nat then None else
  '(generation, view) ← generation_stores s !! store;
  Some {| generation_stores := generation_stores s; data_stores := data_stores s; writer := writer s;
          generation_seen := store; data_seen := max (data_seen s) view;
          last_generation_seen_ := last_generation_seen_ s; reader := r generation;
          delivered := delivered s; latest_reads := latest_reads s |}.

Definition set_reader (r : reader_phase) s : t T := {|
  generation_stores := generation_stores s; data_stores := data_stores s; writer := writer s;
  generation_seen := generation_seen s; data_seen := data_seen s;
  last_generation_seen_ := last_generation_seen_ s; reader := r;
  delivered := delivered s; latest_reads := latest_reads s;
|}.

(** The test at the head of [wait_read_next]. *)
Definition read_next_poll (store : nat) s : option (t T) :=
  match reader s with
  | ReaderIdle =>
      acquire_generation store (λ current_generation,
        if current_generation =? last_generation_seen_ s then ReaderIdle else ReaderLoop true) s
  | _ => None
  end.

(** [read_latest] enters [wait_read]. *)
Definition read_latest s : option (t T) :=
  match reader s with
  | ReaderIdle => Some (set_reader (ReaderLoop false) s)
  | _ => None
  end.

(** [stop_requested()] at the head of a loop: [std::nullopt]. *)
Definition read_stopped s : option (t T) :=
  match reader s with
  | ReaderIdle | ReaderLoop _ => Some (set_reader ReaderIdle s)
  | _ => None
  end.

(** [try_read] and [try_read_and_update]. *)
Definition read_first (store : nat) s : option (t T) :=
  match reader s with
  | ReaderLoop track =>
      acquire_generation store (λ first_generation,
        if first_generation =? LOCKED then ReaderLoop track
        else ReaderFirst track first_generation) s
  | _ => None
  end.

(** A relaxed load of [data_]. *)
Definition read_data (store : nat) s : option (t T) :=
  match reader s with
  | ReaderFirst track first_generation =>
      if (store <? data_seen s)%nat then None else
      _ ← data_stores s !! store;
      Some {| generation_stores := generation_stores s; data_stores := data_stores s; writer := writer s;
              generation_seen := generation_seen s; data_seen := store;
              last_generation_seen_ := last_generation_seen_ s;
              reader := ReaderData track first_generation store;
              delivered := delivered s; latest_reads := latest_reads s |}
  | _ => None
  end.

Definition read_second (store : nat) s : option (t T) :=
  match reader s with
  | ReaderData track first_generation data =>
      s' ← acquire_generation store (λ second_generation,
        if second_generation =? first_generation then ReaderIdle else ReaderLoop track) s;
      Some (match reader s' with
      | ReaderIdle =>
          {| generation_stores := generation_stores s'; data_stores := data_stores s'; writer := writer s';
             generation_seen := generation_seen s'; data_seen := data_seen s';
             last_generation_seen_ := if track then first_generation else last_generation_seen_ s';
             reader := ReaderIdle;
             delivered := if track then delivered s' ++ [(first_generation, data)] else delivered s';
             latest_reads := if track then latest_reads s' else latest_reads s' ++ [(first_generation, data)] |}
      | _ => s'
      end)
  | _ => None
  end.

(** [None]: the action is not possible in this state. *)
Definition step (a : action T) s : option (t T) :=
  match a with
  | WriteLock data => write_lock data s
  | WriteData => write_data s
  | WriteRelease => write_release s
  | ReadNextPoll store => read_next_poll store s
  | ReadLatest => read_latest s
  | ReadStopped => read_stopped s
  | ReadFirst store => read_first store s
  | ReadData store => read_data store s
  | ReadSecond store => read_second store s
  end.

Inductive reachable : t T → Prop :=
  | reachable_init : reachable init
  | reachable_step s a s' : reachable s → step a s = Some s' → reachable s'.

(** Sequentially consistent executions: every load returns the latest store. *)
Definition fresh (a : action T) s : Prop :=
  match a with
  | ReadNextPoll store | ReadFirst store | ReadSecond store => S store = length (generation_stores s)
  | ReadData store => S store = length (data_stores s)
  | _ => True
  end.

Inductive reachable_sc : t T → Prop :=
  | reachable_sc_init : reachable_sc init
  | reachable_sc_step s a s' :
      reachable_sc s → fresh a s → step a s = Some s' → reachable_sc s'.

Fixpoint run (actions : list (action T)) s : option (t T) :=
  match actions with
  | [] => Some s
  | a :: actions => s' ← step a s; run actions s'
  end.
End Definitions.

Section Proofs.
Context {T : Type}.
Implicit Types (s : t T) (k n : nat) (g : Z).
#[local] Ltac Zify.zify_post_hook ::= Z.to_euclidean_division_equations.
#[local] Arguments Nat.div : simpl never.
#[local] Arguments Nat.modulo : simpl never.

(** The [k]-th store of [generation_]: the writer alternates LOCKED and the
    next generation, after the initial LOCKED. *)
Definition generation (k : nat) : Z :=
  if decide (k mod 2 = 0 ∧ k ≠ 0)%nat then Z.of_nat k / 2 - 1 else LOCKED.
Definition store (k : nat) : Z * nat := (generation k, (k / 2)%nat).

Lemma generation_unlocked k : Z.of_nat k < 2 ^ 65 → generation k ≠ LOCKED →
  Z.of_nat k = 2 * generation k + 2.
Proof. unfold generation, LOCKED. case_decide; lia. Qed.

Lemma generation_at k g : 0 ≤ g → Z.of_nat k = 2 * g + 2 → generation k = g.
Proof. unfold generation. intros. case_decide; lia. Qed.

Lemma generation_nonneg k : 0 ≤ generation k.
Proof. unfold generation, LOCKED. case_decide; lia. Qed.

(** Where the writer is, by the lengths of the two histories. *)
Definition writer_inv s : Prop :=
  let n := length (generation_stores s) in let d := length (data_stores s) in
  match writer s with
  | WriterIdle => n = (2 * d - 1)%nat ∧ (0 < d)%nat
  | WriterLocked previous _ => n = (2 * d)%nat ∧ (0 < d)%nat ∧ previous = generation (2 * d - 2)
  | WriterStored previous => n = (2 * d - 2)%nat ∧ (1 < d)%nat ∧ previous = generation (2 * d - 4)
  end.

Definition tracked_ok s (track : bool) : Prop :=
  track = true → Forall (λ p, 2 * p.1 + 2 < Z.of_nat (generation_seen s)) (delivered s).

Definition reader_inv s : Prop :=
  match reader s with
  | ReaderIdle => True
  | ReaderLoop track => tracked_ok s track
  | ReaderFirst track g => 0 ≤ g ∧ Z.of_nat (generation_seen s) = 2 * g + 2 ∧ tracked_ok s track
  | ReaderData track g d =>
      0 ≤ g ∧ Z.of_nat (generation_seen s) = 2 * g + 2 ∧ tracked_ok s track ∧
      g < Z.of_nat d ∧ (d < length (data_stores s))%nat ∧ d = data_seen s
  end.

Record inv s : Prop := {
  inv_generations k p : generation_stores s !! k = Some p → p = store k;
  inv_writer : writer_inv s;
  inv_generation_seen : (generation_seen s < length (generation_stores s))%nat;
  inv_data_seen : (generation_seen s / 2 ≤ data_seen s < length (data_stores s))%nat;
  inv_data d : (0 < d < length (data_stores s))%nat → ∃ x, data_stores s !! d = Some (Some x);
  inv_reads : Forall (λ p, 0 ≤ p.1 < Z.of_nat p.2 ∧ (p.2 < length (data_stores s))%nat)
    (delivered s ++ latest_reads s);
  inv_delivered : Forall (λ p, p.1 ≤ last_generation_seen_ s ∧
    2 * last_generation_seen_ s + 2 ≤ Z.of_nat (generation_seen s) ∧ (p.2 ≤ data_seen s)%nat) (delivered s);
  inv_sorted : StronglySorted (λ p q, p.1 < q.1 ∧ (p.2 ≤ q.2)%nat) (delivered s);
  inv_last : 0 ≤ last_generation_seen_ s ∧ (delivered s = [] → last_generation_seen_ s = 0);
  inv_reader : reader_inv s;
}.

Definition bounded s : Prop := Z.of_nat (length (data_stores s)) < 2 ^ 64.

Lemma seq_init_inv : inv (@init T).
Proof.
  split; simpl; try done; try lia.
  - intros [|[|k]] p Hp; simplify_eq/=. done.
  - unfold writer_inv. simpl. lia.
  - constructor.
Qed.

Lemma generations_lt s k : inv s → bounded s → (k < length (generation_stores s))%nat → Z.of_nat k < 2 ^ 65.
Proof.
  intros Hi Hb Hk. pose proof (inv_writer _ Hi) as Hw. unfold writer_inv, bounded in *.
  destruct (writer s); simpl in Hw; lia.
Qed.

(** The writer's steps keep everything the reader has observed. *)
Lemma seq_writer_step_inv s gs ds w : inv s →
  generation_stores s `prefix_of` gs → data_stores s `prefix_of` ds →
  (∀ k p, gs !! k = Some p → p = store k) →
  (∀ d, (0 < d < length ds)%nat → ∃ x, ds !! d = Some (Some x)) →
  writer_inv (set_writer gs ds w s) → inv (set_writer gs ds w s).
Proof.
  intros Hi Hg%prefix_length Hd%prefix_length Hgs Hds Hw. destruct Hi.
  split; simpl; try done; try lia.
  - eapply Forall_impl; [apply inv_reads0|]. simpl. lia.
  - unfold reader_inv in *. simpl. destruct (reader s); [done..|]. naive_solver lia.
Qed.

Lemma snoc_generations s g view : inv s → (g, view) = store (length (generation_stores s)) →
  ∀ k p, (generation_stores s ++ [(g, view)]) !! k = Some p → p = store k.
Proof.
  intros Hi Hg k p [Hp|[Hk Hp]]%lookup_app_Some; [by apply (inv_generations _ Hi)|].
  apply list_lookup_singleton_Some in Hp as [Hz <-]. rewrite Hg. f_equal. lia.
Qed.

Lemma write_lock_inv s x s' : inv s → bounded s → write_lock x s = Some s' → inv s'.
Proof.
  intros Hi Hb Hs. unfold write_lock in Hs. pose proof (inv_writer _ Hi) as Hw. unfold writer_inv in Hw.
  destruct (writer s); [|done..]. injection Hs as <-.
  apply seq_writer_step_inv; try done; [by apply prefix_app_r| |apply Hi|].
  - apply snoc_generations; [done|]. unfold store, generation. rewrite decide_False by lia. f_equal. lia.
  - unfold writer_inv. simpl. rewrite length_app. simpl. split_and!; [lia..|].
    destruct (last (generation_stores s)) as [[g v]|] eqn:Hl.
    + rewrite last_lookup in Hl. apply (inv_generations _ Hi) in Hl. injection Hl as -> _. simpl. f_equal. lia.
    + apply last_None in Hl. rewrite Hl in Hw. simpl in Hw. lia.
Qed.

Lemma write_data_inv s s' : inv s → bounded s → write_data s = Some s' → inv s'.
Proof.
  intros Hi Hb Hs. unfold write_data in Hs. pose proof (inv_writer _ Hi) as Hw. unfold writer_inv in Hw.
  destruct (writer s) as [|previous x|]; [done| |done]. injection Hs as <-.
  apply seq_writer_step_inv; try done; [by apply prefix_app_r|apply Hi| |].
  - intros d. rewrite length_app. simpl. intros Hd.
    destruct (decide (d < length (data_stores s))%nat) as [Hlt|Hge].
    + rewrite lookup_app_l by done. apply (inv_data _ Hi). lia.
    + exists x. replace d with (length (data_stores s)) by lia. by rewrite list_lookup_middle.
  - unfold writer_inv. simpl. rewrite length_app. simpl. split_and!; [lia..|].
    destruct Hw as (_ & _ & ->). f_equal. lia.
Qed.

Lemma write_release_inv s s' : inv s → bounded s → write_release s = Some s' → inv s'.
Proof.
  intros Hi Hb Hs. unfold write_release in Hs. pose proof (inv_writer _ Hi) as Hw. unfold writer_inv, bounded in *.
  destruct (writer s) as [| |previous]; [done..|]. injection Hs as <-. destruct Hw as (Hn & Hd & ->).
  apply seq_writer_step_inv; try done; [by apply prefix_app_r| |apply Hi|].
  - apply snoc_generations; [done|]. unfold store. f_equal; [|lia].
    unfold generation at 2. rewrite decide_True by lia. unfold generation. case_decide.
    + rewrite uwrap_small; [|unfold in_u]; lia.
    + replace (length (data_stores s)) with 2%nat in * by lia. unfold LOCKED.
      replace (length (generation_stores s)) with 2%nat by lia. done.
  - unfold writer_inv. simpl. rewrite length_app. simpl. lia.
Qed.

(** The state after an acquire load that returns the [k]-th store. *)
Definition acquired (k : nat) (r : reader_phase) s : t T := {|
  generation_stores := generation_stores s; data_stores := data_stores s; writer := writer s;
  generation_seen := k; data_seen := max (data_seen s) (k / 2);
  last_generation_seen_ := last_generation_seen_ s; reader := r;
  delivered := delivered s; latest_reads := latest_reads s;
|}.

Lemma acquire_generation_Some k r s s' : inv s → acquire_generation k r s = Some s' →
  s' = acquired k (r (generation k)) s ∧ (generation_seen s ≤ k < length (generation_stores s))%nat.
Proof.
  intros Hi Ha. unfold acquire_generation in Ha. destruct (Nat.ltb_spec k (generation_seen s)); [done|].
  destruct (generation_stores s !! k) as [[g v]|] eqn:Hk; [|done]. simpl in Ha.
  pose proof (lookup_lt_Some _ _ _ Hk). apply (inv_generations _ Hi) in Hk. injection Hk as -> ->.
  injection Ha as <-. split; [done|lia].
Qed.

Lemma acquired_inv k r s : inv s → (generation_seen s ≤ k < length (generation_stores s))%nat →
  reader_inv (acquired k r s) → inv (acquired k r s).
Proof.
  intros Hi Hk Hr. assert (k / 2 < length (data_stores s))%nat as Hv.
  { pose proof (inv_writer _ Hi) as Hw. unfold writer_inv in Hw. destruct (writer s); simpl in Hw; lia. }
  destruct Hi. split; simpl; try done; try lia.
  eapply Forall_impl; [apply inv_delivered0|]. simpl. lia.
Qed.

(** A store newer than the last delivered generation and different from it. *)
Lemma newer_tracked s k r : inv s → (generation_seen s ≤ k)%nat →
  generation k ≠ last_generation_seen_ s → tracked_ok (acquired k r s) true.
Proof.
  intros Hi Hk Hne _. simpl. eapply Forall_impl; [apply (inv_delivered _ Hi)|].
  intros [g d]. simpl. intros (Hg & Hlast & _).
  destruct (decide (Z.of_nat k = 2 * last_generation_seen_ s + 2)) as [He|]; [|lia].
  destruct Hne. apply generation_at; [apply (inv_last _ Hi)|done].
Qed.

Lemma tracked_acquired s k r track : (generation_seen s ≤ k)%nat →
  tracked_ok s track → tracked_ok (acquired k r s) track.
Proof.
  intros Hk Ht Htr. simpl. eapply Forall_impl; [apply Ht, Htr|]. simpl. lia.
Qed.

Lemma read_next_poll_inv s k s' : inv s → read_next_poll k s = Some s' → inv s'.
Proof.
  intros Hi Hs. unfold read_next_poll in Hs. destruct (reader s); [|done..].
  apply acquire_generation_Some in Hs as [-> Hk]; [|done]. apply acquired_inv; [done..|].
  destruct (Z.eqb_spec (generation k) (last_generation_seen_ s)); [done|].
  apply newer_tracked; (done || lia).
Qed.

Lemma set_reader_inv s r : inv s → reader_inv (set_reader r s) → inv (set_reader r s).
Proof. intros Hi Hr. destruct Hi. by split. Qed.

Lemma read_first_inv s k s' : inv s → bounded s → read_first k s = Some s' → inv s'.
Proof.
  intros Hi Hb Hs. unfold read_first in Hs. pose proof (inv_reader _ Hi) as Hr. unfold reader_inv in Hr.
  destruct (reader s) as [|track| |]; [done| |done..].
  apply acquire_generation_Some in Hs as [-> Hk]; [|done]. apply acquired_inv; [done..|].
  destruct (Z.eqb_spec (generation k) LOCKED) as [|Hne]; unfold reader_inv; simpl.
  - apply tracked_acquired; [lia|done].
  - split_and!; [apply generation_nonneg|apply generation_unlocked; [|done]|apply tracked_acquired; [lia|done]].
    apply (generations_lt s); [done..|lia].
Qed.

Lemma read_data_inv s k s' : inv s → read_data k s = Some s' → inv s'.
Proof.
  intros Hi Hs. unfold read_data in Hs. pose proof (inv_reader _ Hi) as Hr. unfold reader_inv in Hr.
  destruct (reader s) as [| |track g|]; [done..| |done]. destruct (Nat.ltb_spec k (data_seen s)); [done|].
  destruct (data_stores s !! k) as [x|] eqn:Hx; [|done]. simpl in Hs. injection Hs as <-.
  apply lookup_lt_Some in Hx. destruct Hr as (Hg & Hgs & Ht). pose proof (inv_data_seen _ Hi).
  destruct Hi. split; simpl; try done; try lia.
  - eapply Forall_impl; [apply inv_delivered0|]. simpl. lia.
  - unfold reader_inv. simpl. split_and!; (done || lia).
Qed.

Lemma read_second_inv s k s' : inv s → bounded s → read_second k s = Some s' → inv s'.
Proof.
  intros Hi Hb Hs. unfold read_second in Hs. pose proof (inv_reader _ Hi) as Hr. unfold reader_inv in Hr.
  destruct (reader s) as [| | |track g d]; [done..|]. destruct Hr as (Hg & Hgs & Ht & Hgd & Hd & Hds).
  destruct (acquire_generation _ _ _) as [s1|] eqn:Ha; [|done]. simpl in Hs. injection Hs as <-.
  apply acquire_generation_Some in Ha as [-> Hk]; [|done].
  destruct (Z.eqb_spec (generation k) g) as [Heq|Hne]; simpl.
  - assert (Z.of_nat k = 2 * g + 2) as Hk2.
    { rewrite <- Heq. apply generation_unlocked; [apply (generations_lt s); (done || lia)|].
      rewrite Heq. unfold LOCKED. pose proof (generations_lt s (generation_seen s) Hi Hb (inv_generation_seen _ Hi)). lia. }
    assert (inv (acquired k ReaderIdle s)) as Hi' by (apply acquired_inv; [done|lia|done]).
    assert (k = generation_seen s) as -> by lia.
    destruct Hi'. simpl in *. split; simpl; try done.
    + destruct track; simpl.
      * rewrite <- app_assoc. apply Forall_app in inv_reads0 as [H1 H2]. apply Forall_app; split; [done|].
        apply Forall_app; split; [|done]. constructor; [simpl; lia|done].
      * rewrite app_assoc. apply Forall_app; split; [done|]. constructor; [simpl; lia|done].
    + destruct track; [|done]. specialize (Ht eq_refl). apply Forall_app; split.
      * rewrite Forall_forall in inv_delivered0, Ht |- *. intros p Hp.
        specialize (inv_delivered0 p Hp). specialize (Ht p Hp). simpl in *. lia.
      * constructor; [simpl; lia|done].
    + destruct track; [|done]. specialize (Ht eq_refl).
      apply StronglySorted_app_2; [|done|repeat constructor]. intros p q Hp Hq.
      apply list_elem_of_singleton in Hq as ->. rewrite Forall_forall in inv_delivered0, Ht.
      specialize (inv_delivered0 p Hp). specialize (Ht p Hp). simpl in *. lia.
    + destruct track; [|done]. split; [lia|]. intros Hn. apply app_eq_nil in Hn as [_ Hn]. done.
  - apply acquired_inv; [done|lia|]. unfold reader_inv. simpl. apply tracked_acquired; [lia|done].
Qed.

Lemma seq_step_inv a s s' : inv s → bounded s → step a s = Some s' → inv s'.
Proof.
  intros Hi Hb Hs. destruct a; simpl in Hs.
  - by eapply write_lock_inv.
  - by eapply write_data_inv.
  - by eapply write_release_inv.
  - by eapply read_next_poll_inv.
  - unfold read_latest in Hs. destruct (reader s); [|done..]. injection Hs as <-.
    by apply set_reader_inv.
  - unfold read_stopped in Hs. destruct (reader s); try done; injection Hs as <-; by apply set_reader_inv.
  - by eapply read_first_inv.
  - by eapply read_data_inv.
  - by eapply read_second_inv.
Qed.

(** Histories only grow. *)
Lemma step_grows a s s' : step a s = Some s' →
  (length (data_stores s) ≤ length (data_stores s'))%nat ∧
  (length (generation_stores s) ≤ length (generation_stores s'))%nat.
Proof.
  intros Hs. destruct a; simpl in Hs; unfold write_lock, write_data, write_release, read_next_poll, read_latest,
    read_stopped, read_first, read_data, read_second, acquire_generation in Hs;
    repeat (case_match || simplify_option_eq); simpl; rewrite ?length_app; simpl; try (split; lia).
Qed.

Lemma seq_reachable_inv s : reachable s → bounded s → inv s.
Proof.
  induction 1 as [|s a s' _ IH Hs]; intros Hb; [apply seq_init_inv|].
  destruct (step_grows _ _ _ Hs). assert (bounded s) by (unfold bounded in *; lia). by eapply seq_step_inv; [apply IH|..].
Qed.

(** ** Sequentially consistent executions *)

Definition exact (p : Z * nat) : Prop := Z.of_nat p.2 = p.1 + 1.

(** No write has started since the reader's first load: then the item is the
    one of that generation. *)
Record inv_sc s : Prop := {
  sc_inv : inv s;
  sc_reader : match reader s with
    | ReaderData _ g d => Z.of_nat (length (generation_stores s)) = 2 * g + 3 → exact (g, d)
    | _ => True
    end;
  sc_reads : Forall exact (delivered s ++ latest_reads s);
}.

(** A second load holds an item only if it just loaded it, or kept it over a
    step of the writer. *)
Lemma reader_data_origin a s s' track g d : step a s = Some s' → reader s' = ReaderData track g d →
  (reader s = ReaderData track g d) ∨
  (a = ReadData d ∧ reader s = ReaderFirst track g ∧ generation_stores s' = generation_stores s).
Proof.
  intros Hs Hr. destruct a; simpl in Hs; unfold write_lock, write_data, write_release, read_next_poll, read_latest,
    read_stopped, read_first, read_data, read_second, acquire_generation in Hs;
    repeat (case_match || simplify_option_eq); naive_solver.
Qed.

(** Only a second load that returns the first generation delivers. *)
Lemma reads_origin a s s' : step a s = Some s' →
  (delivered s' = delivered s ∧ latest_reads s' = latest_reads s) ∨
  ∃ k track g d v, a = ReadSecond k ∧ reader s = ReaderData track g d ∧ generation_stores s !! k = Some (g, v) ∧
    delivered s' ++ latest_reads s' ≡ₚ (g, d) :: delivered s ++ latest_reads s.
Proof.
  intros Hs. destruct a as [| | | | | | | |k]; simpl in Hs; [left..|]; unfold write_lock, write_data, write_release,
    read_next_poll, read_latest, read_stopped, read_first, read_data, acquire_generation in Hs;
    try (repeat (case_match || simplify_option_eq); done).
  unfold read_second, acquire_generation in Hs. destruct (reader s) as [| | |track g d] eqn:Hr; [done..|].
  destruct (_ <? _)%nat; [done|]. destruct (generation_stores s !! k) as [[g' v]|] eqn:Hk; [|done].
  simpl in Hs. destruct (Z.eqb_spec g' g) as [->|]; simpl in Hs; injection Hs as <-; [right|by left].
  exists k, track, g, d, v. split_and!; [done..|]. destruct track; simpl.
  - rewrite <- app_assoc. symmetry. apply Permutation_middle.
  - rewrite app_assoc. apply (Permutation_app_comm _ [_]).
Qed.

(** The store that the first load returned, once its generation is below LOCKED. *)
Lemma generation_store_unique s k g v : inv s → bounded s → generation_stores s !! k = Some (g, v) →
  Z.of_nat (generation_seen s) = 2 * g + 2 → k = generation_seen s.
Proof.
  intros Hi Hb Hk Hg. pose proof (generations_lt s (generation_seen s) Hi Hb (inv_generation_seen _ Hi)) as Hlt.
  pose proof (generations_lt s k Hi Hb (lookup_lt_Some _ _ _ Hk)) as Hlk.
  apply (inv_generations _ Hi) in Hk. injection Hk as Hgk _.
  pose proof (generation_unlocked k Hlk). unfold LOCKED in *. lia.
Qed.

Lemma step_inv_sc a s s' : inv_sc s → bounded s → fresh a s → step a s = Some s' → inv_sc s'.
Proof.
  intros [Hi Hr Hd] Hb Hf Hs. pose proof (seq_step_inv a s s' Hi Hb Hs) as Hi'.
  pose proof (inv_reader _ Hi) as Hri. unfold reader_inv in Hri. pose proof (inv_generation_seen _ Hi) as Hseen.
  destruct (step_grows _ _ _ Hs) as [_ Hgrow]. split; [done|..].
  - destruct (reader s') as [| | |track g d] eqn:Hr'; [done..|]. intros Hlen.
    destruct (reader_data_origin _ _ _ _ _ _ Hs Hr') as [Hr0|(-> & Hr0 & Hg0)]; rewrite Hr0 in *.
    + apply Hr. lia.
    + unfold exact. simpl in *. pose proof (inv_writer _ Hi) as Hw. unfold writer_inv in Hw.
      rewrite Hg0 in Hlen. destruct (writer s); lia.
  - destruct (reads_origin _ _ _ Hs) as [[-> ->]|(k & track & g & d & v & -> & Hr0 & Hk & ->)]; [done|].
    constructor; [|done]. rewrite Hr0 in *. apply Hr. destruct Hri as (Hg & Hgs & _). simpl in Hf.
    rewrite (generation_store_unique s k g v Hi Hb Hk Hgs) in Hf. lia.
Qed.

Lemma reachable_inv_sc s : reachable_sc s → bounded s → inv_sc s.
Proof.
  induction 1 as [|s a s' _ IH Hf Hs]; intros Hb; [split; [apply seq_init_inv|done..]|].
  destruct (step_grows _ _ _ Hs). assert (bounded s) by (unfold bounded in *; lia).
  by eapply step_inv_sc; [apply IH|..].
Qed.

(** The latest store of [generation_] while no write is in progress. *)
Lemma latest_generation s : inv s → bounded s → writer s = WriterIdle → (1 < length (data_stores s))%nat →
  let g := Z.of_nat (length (data_stores s)) - 2 in
  generation_stores s !! pred (length (generation_stores s)) = Some (g, pred (length (data_stores s))) ∧
  g ≠ LOCKED.
Proof.
  intros Hi Hb Hw Hd. pose proof (inv_writer _ Hi) as Hwi. unfold writer_inv in Hwi. rewrite Hw in Hwi.
  unfold bounded in Hb.
  destruct (lookup_lt_is_Some_2 (generation_stores s) (pred (length (generation_stores s)))) as [p Hp]; [lia|].
  split; [|unfold LOCKED; lia]. rewrite Hp. apply (inv_generations _ Hi) in Hp as ->. f_equal. unfold store.
  rewrite (generation_at _ (Z.of_nat (length (data_stores s)) - 2)) by lia. f_equal. lia.
Qed.

Lemma acquire_generation_at k g v (r : Z → reader_phase) s :
  (generation_seen s ≤ k)%nat → generation_stores s !! k = Some (g, v) →
  acquire_generation k r s = Some {| generation_stores := generation_stores s; data_stores := data_stores s;
    writer := writer s; generation_seen := k; data_seen := max (data_seen s) v;
    last_generation_seen_ := last_generation_seen_ s; reader := r g;
    delivered := delivered s; latest_reads := latest_reads s |}.
Proof. intros Hk Hg. unfold acquire_generation. by rewrite (proj2 (Nat.ltb_ge k (generation_seen s)) Hk), Hg. Qed.

Lemma quiescent_read s track : inv s → bounded s → writer s = WriterIdle → (1 < length (data_stores s))%nat →
  reader s = ReaderLoop track →
  let n := pred (length (generation_stores s)) in let d := pred (length (data_stores s)) in
  ∃ s', run [ReadFirst n; ReadData d; ReadSecond n] s = Some s' ∧ reader s' = ReaderIdle ∧
    last (if track then delivered s' else latest_reads s') = Some (Z.of_nat d - 1, d).
Proof.
  intros Hi Hb Hw Hd Hr n d. pose proof (inv_generation_seen _ Hi) as Hgs. pose proof (inv_data_seen _ Hi) as Hds.
  destruct (latest_generation s Hi Hb Hw Hd) as [Hg Hne]. fold n d in Hg.
  destruct (lookup_lt_is_Some_2 (data_stores s) d) as [x Hx]; [unfold d; lia|].
  assert (Z.of_nat (length (data_stores s)) - 2 = Z.of_nat d - 1) as He by (unfold d; lia). rewrite He in Hg, Hne.
  unfold run, step, read_first. rewrite Hr.
  assert (generation_seen s ≤ n)%nat as Hn by (unfold n; lia). rewrite (acquire_generation_at n _ _ _ _ Hn Hg).
  rewrite (proj2 (Z.eqb_neq _ _) Hne). cbn [mbind option_bind]. unfold read_data. cbn [reader data_seen data_stores].
  rewrite (proj2 (Nat.ltb_ge _ _)) by (unfold d; lia). rewrite Hx. cbn [mbind option_bind]. unfold read_second. cbn [reader].
  erewrite acquire_generation_at; [|cbn [generation_seen]; lia|exact Hg].
  rewrite Z.eqb_refl. cbn [mbind option_bind reader]. eexists. split; [done|]. split; [done|].
  destruct track; simpl; apply last_snoc.
Qed.

(** Sequentially consistent steps of the reader. *)
Inductive reader_steps (s : t T) : t T → Prop :=
  | reader_steps_refl : reader_steps s s
  | reader_steps_step s1 a s2 :
      reader_steps s s1 →
      match a with WriteLock _ | WriteData | WriteRelease => False | _ => True end →
      fresh a s1 → step a s1 = Some s2 → reader_steps s s2.

Record unnoticed s : Prop := {
  unnoticed_generations : generation_stores s = [(LOCKED, 0%nat); (LOCKED, 0%nat); (0, 1%nat)];
  unnoticed_last : last_generation_seen_ s = 0;
  unnoticed_delivered : delivered s = [];
  unnoticed_reader : match reader s with
    | ReaderIdle => True
    | ReaderLoop track | ReaderFirst track _ | ReaderData track _ _ => track = false
    end;
}.

Lemma unnoticed_step a s s' : unnoticed s →
  match a with WriteLock _ | WriteData | WriteRelease => False | _ => True end →
  fresh a s → step a s = Some s' → unnoticed s'.
Proof.
  intros [Hg Hl Hd Hr] Ha Hf Hs.
  destruct a; try done; simpl in Hs, Hf; rewrite ?Hg in Hf; simpl in Hf; simplify_eq; unfold read_next_poll,
    read_latest, read_stopped, read_first, read_data, read_second, acquire_generation in Hs; rewrite ?Hg, ?Hl in Hs;
    destruct (reader s); simplify_eq/=; repeat (case_match || simplify_option_eq); by split.
Qed.
End Proofs.

(** C24: Under release/acquire ordering and any interleaving, a successful read
    never returns uninitialised data, and the item it returns is that of the
    reported generation or of a later write; the generations that one reader's
    [wait_read_next] returns are strictly increasing and its items never go
    back in time. *)
Theorem seq_lock_reads_published {T} (s : t T) : reachable s → bounded s →
  (∀ g d, (g, d) ∈ delivered s ++ latest_reads s →
    0 ≤ g < Z.of_nat d ∧ ∃ x, data_stores s !! d = Some (Some x)) ∧
  StronglySorted (λ p q, p.1 < q.1 ∧ (p.2 ≤ q.2)%nat) (delivered s).
Proof.
  intros Hs Hb. pose proof (seq_reachable_inv s Hs Hb) as Hi. split; [|apply Hi].
  intros g d Hgd. pose proof (inv_reads _ Hi) as Hr. rewrite Forall_forall in Hr. apply Hr in Hgd as [Hg Hd].
  simpl in *. split; [done|]. apply (inv_data _ Hi). lia.
Qed.

(** C33: In sequentially consistent executions every successful read returns
    exactly the item of the generation it reports, and once a write has completed
    and no other is in progress, one round of [wait_read] or
    [wait_read_and_update] returns that write's item. *)
Theorem seq_lock_sc_exact {T} (s : t T) : reachable_sc s → bounded s →
  (∀ g d, (g, d) ∈ delivered s ++ latest_reads s → Z.of_nat d = g + 1) ∧
  (∀ track, writer s = WriterIdle → (1 < length (data_stores s))%nat → reader s = ReaderLoop track →
    let n := pred (length (generation_stores s)) in let d := pred (length (data_stores s)) in
    ∃ s', run [ReadFirst n; ReadData d; ReadSecond n] s = Some s' ∧ reader s' = ReaderIdle ∧
      last (if track then delivered s' else latest_reads s') = Some (Z.of_nat d - 1, d)).
Proof.
  intros Hs Hb. pose proof (reachable_inv_sc s Hs Hb) as [Hi _ Hd]. split.
  - intros g d Hgd. rewrite Forall_forall in Hd. apply (Hd _ Hgd).
  - intros track. by apply quiescent_read.
Qed.

(** A write that completes before a reader's first poll is never delivered
    by [wait_read_next]: its generation is 0, the initial value of
    [last_generation_seen_], so the reader keeps spinning (with every load
    returning the latest store) although [read_latest] would return the item. *)
Theorem seq_lock_first_write_missed {T} (x : T) (s0 s : t T) :
  run [WriteLock x; WriteData; WriteRelease] init = Some s0 → reader_steps s0 s → delivered s = [].
Proof.
  intros Hs0 Hs. vm_compute in Hs0. injection Hs0 as <-. enough (unnoticed s) as Hu by apply Hu.
  induction Hs as [|s1 a s2 _ IH Ha Hf Hstep]; [by split|]. by eapply unnoticed_step.
Qed.

(** The loads of [data_] and the second load of [generation_] are not
    ordered: a reader may take the item of a write in progress under the old
    generation, and the same item again under the new one. *)
Theorem seq_lock_relaxed_duplicate {T} (x y : T) :
  ∃ s, run [ReadNextPoll 0; WriteLock x; WriteData; WriteRelease; ReadFirst 2; WriteLock y; WriteData;
            ReadData 2; ReadSecond 2; WriteRelease; ReadNextPoll 4; ReadFirst 4; ReadData 2; ReadSecond 4]%nat
    init = Some s ∧ data_stores s = [None; Some x; Some y] ∧ delivered s = [(0, 2%nat); (1, 2%nat)].
Proof. eexists. split; [vm_compute; reflexivity|done]. Qed.

Lemma seq_run_reachable {T} (actions : list (action T)) s s' : reachable s → run actions s = Some s' → reachable s'.
Proof.
  revert s. induction actions as [|a actions IH]; intros s Hs Hrun; simpl in Hrun; [by injection Hrun as <-|].
  destruct (step a s) as [s1|] eqn:Hstep; [|done]. apply (IH s1); [by eapply reachable_step|done].
Qed.

Definition duplicate_run : list (action Z) :=
  [ReadNextPoll 0; WriteLock 5%Z; WriteData; WriteRelease; ReadFirst 2; WriteLock 6%Z; WriteData;
   ReadData 2; ReadSecond 2; WriteRelease; ReadNextPoll 4; ReadFirst 4; ReadData 2; ReadSecond 4]%nat.

Lemma seq_lock_reads_published_witness :
  ∃ s, run duplicate_run init = Some s ∧ delivered s = [(0, 2%nat); (1, 2%nat)] ∧
    (0 ≤ 1 < 2 ∧ ∃ x, data_stores s !! 2%nat = Some (Some x)).
Proof.
  destruct (run duplicate_run init) as [s|] eqn:Hrun; [|vm_compute in Hrun; discriminate Hrun].
  assert (reachable s) as Hr by exact (seq_run_reachable _ _ s reachable_init Hrun).
  assert (bounded s ∧ delivered s = [(0, 2%nat); (1, 2%nat)] ∧ latest_reads s = []) as (Hb & Hd & Hl).
  { vm_compute in Hrun. injection Hrun as <-. split; [reflexivity|split; reflexivity]. }
  destruct (seq_lock_reads_published s Hr Hb) as [Hg _]. exists s. split; [reflexivity|]. split; [exact Hd|].
  apply (Hg 1 2%nat). rewrite Hd, Hl. right. left.
Defined.

Definition written_state : t Z := {|
  generation_stores := [(LOCKED, O); (LOCKED, O); (0, 1%nat)]; data_stores := [None; Some 5]; writer := WriterIdle;
  generation_seen := 0; data_seen := 0; last_generation_seen_ := 0; reader := ReaderIdle;
  delivered := []; latest_reads := [];
|}.

Lemma seq_lock_sc_exact_witness :
  ∃ s', run [ReadFirst 2; ReadData 1; ReadSecond 2] (set_reader (ReaderLoop false) written_state) = Some s' ∧
    last (latest_reads s') = Some (0, 1%nat).
Proof.
  assert (reachable_sc (set_reader (ReaderLoop false) written_state)) as Hr.
  { apply (reachable_sc_step written_state ReadLatest); [|exact I|reflexivity].
    apply (reachable_sc_step (default init (run [WriteLock 5; WriteData] init)) WriteRelease); [|exact I|reflexivity].
    apply (reachable_sc_step (default init (run [WriteLock 5] init)) WriteData); [|exact I|reflexivity].
    apply (reachable_sc_step init (WriteLock 5)); [apply reachable_sc_init|exact I|reflexivity]. }
  assert (bounded (set_reader (ReaderLoop false) written_state)) as Hb by reflexivity.
  destruct (seq_lock_sc_exact _ Hr Hb) as [_ Hq].
  destruct (Hq false eq_refl ltac:(simpl; lia) eq_refl) as (s' & Hs' & _ & Hl). exists s'. split; [exact Hs'|exact Hl].
Defined.

Lemma seq_lock_first_write_missed_witness :
  ∃ s, reader_steps written_state s ∧ generation_seen s = 2%nat ∧ delivered s = [].
Proof.
  assert (∃ s, reader_steps written_state s ∧ generation_seen s = 2%nat) as (s & Hs & Hg).
  { eexists. split; [apply (reader_steps_step _ _ (ReadNextPoll 2) _ (reader_steps_refl _)); done|done]. }
  exists s. split; [exact Hs|]. split; [exact Hg|].
  apply (seq_lock_first_write_missed 5 written_state s); [reflexivity|exact Hs].
Defined.
End SeqLock.
