(* ===== verification/CircularCache.v ===== *)
(** * CircularCache ([includes/utils/circular-cache.hpp])

    The retransmission cache: the producer overwrites the oldest item, each
    slot guarded by its index.  [put_item] is its three stores and the cursor
    increment; [try_get_item] its three loads, each of a state of the cache, so
    that the producer can run in between (a single state three times is the call
    without interference).  Everything in this file is about sequentially consistent
    executions: a load sees the stores made before it.  The code asks for less, an
    acquire load of each sequence number and a relaxed load of the item; what is
    left of the promises then is [CacheOrder], which also shows what is lost. *)

From S2P Require Import Prelude Ring.

Module CircularCache.

Inductive Error : Type := DataTooOld | DataDoesNotExist | ConcurrentWrite.
#[global] Instance Error_eq_dec : EqDecision Error.
Proof. solve_decision. Defined.

(** Index is [uint32_t]. *)
Definition IS_LOCKED : Z := 2 ^ 32 - 1.

Inductive put_phase : Type := Idle | Locked | Stored.

#[global] Instance put_phase_eq_dec : EqDecision put_phase.
Proof. solve_decision. Defined.

Record t (T : Type) : Type := {
  write_index_ : Z;
  sequence_ : list Z;
  buffer_ : list T;
  phase : put_phase;
  log : list T;
}.
Arguments write_index_ {T} _.
Arguments sequence_ {T} _.
Arguments buffer_ {T} _.
Arguments phase {T} _.
Arguments log {T} _.

Section Definitions.
Context {T : Type} (CAPACITY : Z).
Implicit Types (s : t T) (item : T).

(** The atomics of both arrays are value-initialised. *)
Definition init (default_value : T) : t T := {|
  write_index_ := 0;
  sequence_ := replicate (Z.to_nat CAPACITY) 0;
  buffer_ := replicate (Z.to_nat CAPACITY) default_value;
  phase := Idle; log := [];
|}.

Definition write_slot s : Z := u32 (mask CAPACITY (write_index_ s)).

(** [put_item]: lock the slot, store the item, release the slot.  [log] records
    the items whose store has completed. *)
Definition put_lock s : outcome (t T) :=
  sq ← array_set (sequence_ s) (write_slot s) IS_LOCKED;
  Ok {| write_index_ := write_index_ s; sequence_ := sq; buffer_ := buffer_ s; phase := Locked; log := log s |}.
Definition put_store item s : outcome (t T) :=
  b ← array_set (buffer_ s) (write_slot s) item;
  Ok {| write_index_ := write_index_ s; sequence_ := sequence_ s; buffer_ := b; phase := Stored;
        log := log s ++ [item] |}.
Definition put_release s : outcome (t T) :=
  sq ← array_set (sequence_ s) (write_slot s) (u32 (write_index_ s));
  Ok {| write_index_ := u64 (write_index_ s + 1); sequence_ := sq; buffer_ := buffer_ s; phase := Idle;
        log := log s |}.
Definition put_item item s : outcome (t T) :=
  s ← put_lock s; s ← put_store item s; put_release s.

(** The three loads, each of some state of the cache.  Which states they may be is the
    memory order's matter: successive ones under sequential consistency
    ([circular_cache_read]); under the code's acquire and relaxed loads each may be older
    or newer than the one before it, which is [CacheOrder], load by load. *)
Definition try_get_item (item_index : Z) (s1 s2 s3 : t T) : outcome (expected T Error) :=
  let read_index := u32 (mask CAPACITY item_index) in
  seq_before ← array_get (sequence_ s1) read_index;
  if seq_before =? IS_LOCKED then Ok (Unexpected ConcurrentWrite) else
  if seq_before <? item_index then Ok (Unexpected DataDoesNotExist) else
  if seq_before >? item_index then Ok (Unexpected DataTooOld) else
  item ← array_get (buffer_ s2) read_index;
  seq_after ← array_get (sequence_ s3) read_index;
  if negb (seq_before =? seq_after) then Ok (Unexpected ConcurrentWrite) else Ok (Value item).

(** [wait_get_item]: retries while the write is concurrent; each try sees the
    next three states. *)
Fixpoint wait_get_item (item_index : Z) (tries : list (t T * t T * t T)) : outcome (expected T Error) :=
  match tries with
  | [] => OutOfFuel
  | (s1, s2, s3) :: tries =>
      result ← try_get_item item_index s1 s2 s3;
      match result with
      | Unexpected ConcurrentWrite => wait_get_item item_index tries
      | _ => Ok result
      end
  end.

(** The producer's steps, one [put_item] after the other. *)
Inductive writer_step : t T → t T → Prop :=
  | step_lock s s' : phase s = Idle → put_lock s = Ok s' → writer_step s s'
  | step_store item s s' : phase s = Locked → put_store item s = Ok s' → writer_step s s'
  | step_release s s' : phase s = Stored → put_release s = Ok s' → writer_step s s'.

(** Items whose [put_item] has completed. *)
Definition completed s : Z := Z.of_nat (length (log s)) - (if decide (phase s = Stored) then 1 else 0).
End Definitions.

Section Proofs.
Context {T : Type} (CAPACITY : Z) {HC : PowerOfTwo CAPACITY} (Hcap : CAPACITY < 2 ^ 32).
Implicit Types (s : t T) (item : T) (i idx n : Z).

Abbreviation slot := (slot_at CAPACITY).
Abbreviation at_ := (at_slot CAPACITY).

Record inv s : Prop := {
  inv_index : write_index_ s = completed s;
  inv_log : phase s = Stored → log s ≠ [];
  inv_stored : phase s = Stored → at_ (buffer_ s) (completed s) = last (log s);
  inv_sequence_length : Z.of_nat (length (sequence_ s)) = CAPACITY;
  inv_buffer_length : Z.of_nat (length (buffer_ s)) = CAPACITY;
  inv_locked : phase s ≠ Idle → at_ (sequence_ s) (completed s) = Some IS_LOCKED;
  inv_items i : 0 ≤ i < completed s → completed s ≤ i + CAPACITY →
    (completed s = i + CAPACITY → phase s = Idle) →
    at_ (sequence_ s) i = Some i ∧ at_ (buffer_ s) i = log s !! Z.to_nat i;
  inv_unwritten i : completed s ≤ i < CAPACITY → (completed s = i → phase s = Idle) →
    at_ (sequence_ s) i = Some 0;
}.

Definition bounded s : Prop := completed s < 2 ^ 32 - 1.

Lemma read_slot i : u32 (mask CAPACITY i) = slot i.
Proof. rewrite mask_mod by done. apply uwrap_small. pose proof (slot_at_range CAPACITY i). unfold in_u, slot_at in *. lia. Qed.

Lemma completed_nonneg s : inv s → 0 ≤ completed s.
Proof.
  intros Hi. unfold completed. case_decide as Hp; [|lia]. pose proof (inv_log _ Hi Hp).
  destruct (log s); [done|]. simpl. lia.
Qed.

Lemma write_slot_eq s : inv s → write_slot CAPACITY s = slot (completed s).
Proof. intros Hi. unfold write_slot. by rewrite read_slot, (inv_index _ Hi). Qed.

Lemma cache_init_inv x : inv (init CAPACITY x).
Proof.
  pose proof (pot_pos (c := CAPACITY)). split; simpl; try done.
  - rewrite length_replicate. lia.
  - rewrite length_replicate. lia.
  - unfold completed. simpl. lia.
  - intros i Hi _. apply lookup_replicate. split; [done|]. pose proof (slot_at_range CAPACITY i). lia.
Qed.

(** The slot being written is not that of a readable item. *)
Lemma other_slot s i : 0 ≤ i < completed s → completed s ≤ i + CAPACITY → completed s ≠ i + CAPACITY →
  slot (completed s) ≠ slot i.
Proof. intros ? ? ? He. apply (slot_at_inj CAPACITY) in He; lia. Qed.

Lemma unwritten_slot s i : inv s → completed s ≤ i < CAPACITY → completed s ≠ i → slot (completed s) ≠ slot i.
Proof. intros Hi ? ? He. pose proof (completed_nonneg s Hi). apply (slot_at_inj CAPACITY) in He; lia. Qed.

Lemma put_lock_inv s : inv s → phase s = Idle → ∃ s', put_lock CAPACITY s = Ok s' ∧ inv s' ∧
  phase s' = Locked ∧ completed s' = completed s ∧ log s' = log s.
Proof.
  intros Hi Hp. pose proof (slot_at_range CAPACITY (completed s)).
  assert (completed {| write_index_ := write_index_ s;
    sequence_ := <[Z.to_nat (slot (completed s)) := IS_LOCKED]> (sequence_ s); buffer_ := buffer_ s;
    phase := Locked; log := log s |} = completed s) as Hc by (unfold completed; by rewrite Hp).
  unfold put_lock. rewrite write_slot_eq, array_set_Ok by (done || rewrite (inv_sequence_length _ Hi); lia).
  eexists. split; [done|]. split; [|done]. destruct Hi. split; simpl; rewrite ?Hc; try done.
  - by rewrite length_insert.
  - intros _. by apply at_slot_insert_eq.
  - intros i Hi1 Hi2 Hi3. rewrite (at_slot_insert_ne CAPACITY); [by apply inv_items0|].
    apply other_slot; [done..|]. intros He. by specialize (Hi3 He).
  - intros i Hi1 Hi2. rewrite (at_slot_insert_ne CAPACITY); [by apply inv_unwritten0|].
    apply unwritten_slot; [by split|done|]. intros He. by specialize (Hi2 He).
Qed.

Lemma put_store_inv item s : inv s → phase s = Locked → ∃ s', put_store CAPACITY item s = Ok s' ∧ inv s' ∧
  phase s' = Stored ∧ completed s' = completed s ∧ log s' = log s ++ [item].
Proof.
  intros Hi Hp. pose proof (slot_at_range CAPACITY (completed s)).
  assert (completed {| write_index_ := write_index_ s; sequence_ := sequence_ s;
    buffer_ := <[Z.to_nat (slot (completed s)) := item]> (buffer_ s);
    phase := Stored; log := log s ++ [item] |} = completed s) as Hc
    by (unfold completed; rewrite Hp; simpl; rewrite length_app; simpl; lia).
  unfold put_store. rewrite write_slot_eq, array_set_Ok by (done || rewrite (inv_buffer_length _ Hi); lia).
  eexists. split; [done|]. split; [|done]. pose proof (other_slot s) as Hother.
  assert (completed s = Z.of_nat (length (log s))) as Hlen by (unfold completed; rewrite Hp; simpl; lia).
  destruct Hi. split; simpl; rewrite ?Hc; try done.
  - intros _ Hn. by apply app_eq_nil in Hn as [_ ?].
  - intros _. by rewrite (at_slot_insert_eq CAPACITY), last_snoc.
  - by rewrite length_insert.
  - intros _. apply inv_locked0. by rewrite Hp.
  - intros i Hi1 Hi2 Hi3. assert (completed s ≠ i + CAPACITY) by (intros He; by specialize (Hi3 He)).
    rewrite (at_slot_insert_ne CAPACITY) by (by apply Hother). rewrite lookup_app_l by lia. by apply inv_items0.
  - intros i Hi1 Hi2. apply inv_unwritten0; [done|]. intros He. by specialize (Hi2 He).
Qed.

Lemma put_release_inv s : inv s → bounded s → phase s = Stored →
  ∃ s', put_release CAPACITY s = Ok s' ∧ inv s' ∧ phase s' = Idle ∧ completed s' = completed s + 1 ∧ log s' = log s.
Proof.
  intros Hi Hb Hp. pose proof (slot_at_range CAPACITY (completed s)). pose proof (completed_nonneg s Hi) as Hn.
  assert (completed s = Z.of_nat (length (log s)) - 1) as Hlen by (unfold completed; rewrite Hp; simpl; lia).
  assert (completed {| write_index_ := u64 (completed s + 1);
    sequence_ := <[Z.to_nat (slot (completed s)) := completed s]> (sequence_ s); buffer_ := buffer_ s;
    phase := Idle; log := log s |} = completed s + 1) as Hc by (rewrite Hlen; unfold completed; simpl; lia).
  unfold put_release, bounded in *.
  rewrite write_slot_eq, array_set_Ok by (done || rewrite (inv_sequence_length _ Hi); lia).
  rewrite (inv_index _ Hi), (uwrap_small 32) by (unfold in_u; lia). cbn [mbind outcome_bind].
  eexists. split; [done|]. split; [|done].
  pose proof (other_slot s) as Hother. pose proof (unwritten_slot s) as Hunwritten. pose proof Hi as Hi0.
  destruct Hi. split; simpl; rewrite ?Hc; try done.
  - apply uwrap_small. unfold in_u. lia.
  - by rewrite length_insert.
  - intros i Hi1 Hi2 _. destruct (decide (i = completed s)) as [->|Hne].
    + rewrite (at_slot_insert_eq CAPACITY) by done. split; [done|]. rewrite inv_stored0, last_lookup by done. f_equal. lia.
    + rewrite (at_slot_insert_ne CAPACITY) by (apply Hother; lia). apply inv_items0; lia.
  - intros i Hi1 _. rewrite (at_slot_insert_ne CAPACITY) by (apply Hunwritten; (done || lia)). apply inv_unwritten0; lia.
Qed.

(** The number of stores the producer has made. *)
Definition stamp s : Z :=
  3 * completed s + match phase s with Idle => 0 | Locked => 1 | Stored => 2 end.

Lemma cache_writer_step_inv s s' : inv s → bounded s → writer_step CAPACITY s s' →
  inv s' ∧ stamp s' = stamp s + 1 ∧ log s `prefix_of` log s'.
Proof.
  intros Hi Hb Hstep. revert Hi Hb.
  destruct Hstep as [s s' Hp Hs|item s s' Hp Hs|s s' Hp Hs]; intros Hi Hb; unfold stamp; rewrite Hp.
  - destruct (put_lock_inv _ Hi Hp) as (s1 & Hs1 & Hi1 & Hph & Hco & Hl).
    rewrite Hs in Hs1. injection Hs1 as <-. rewrite Hph, Hco, Hl. split; [done|]. split; [lia|done].
  - destruct (put_store_inv item _ Hi Hp) as (s1 & Hs1 & Hi1 & Hph & Hco & Hl).
    rewrite Hs in Hs1. injection Hs1 as <-. rewrite Hph, Hco, Hl. split; [done|]. split; [lia|by apply prefix_app_r].
  - destruct (put_release_inv _ Hi Hb Hp) as (s1 & Hs1 & Hi1 & Hph & Hco & Hl).
    rewrite Hs in Hs1. injection Hs1 as <-. rewrite Hph, Hco, Hl. split; [done|]. split; [lia|done].
Qed.

Lemma stamp_bounds s : 3 * completed s ≤ stamp s < 3 * completed s + 3.
Proof. unfold stamp. destruct (phase s); lia. Qed.

Lemma writer_stamp s s' : writer_step CAPACITY s s' → completed s ≤ completed s'.
Proof.
  intros [s0 s0' Hp Hs|item s0 s0' Hp Hs|s0 s0' Hp Hs].
  - unfold put_lock in Hs. outcome_inv Hs. unfold completed. by rewrite Hp.
  - unfold put_store in Hs. outcome_inv Hs. unfold completed. rewrite Hp. simpl. rewrite length_app. simpl. lia.
  - unfold put_release in Hs. outcome_inv Hs. unfold completed. rewrite Hp. simpl. lia.
Qed.

Lemma writer_steps_inv s s' : rtc (writer_step CAPACITY) s s' → inv s → bounded s' →
  inv s' ∧ stamp s ≤ stamp s' ∧ log s `prefix_of` log s'.
Proof.
  intros Hs. induction Hs as [s|s s1 s' Hstep Hs IH]; intros Hi Hb; [done|].
  assert (completed s1 ≤ completed s') as Hle.
  { clear -Hs. induction Hs as [|? ? ? Hst ? IH]; [lia|]. apply writer_stamp in Hst. lia. }
  pose proof (writer_stamp _ _ Hstep). assert (bounded s) as Hb0 by (unfold bounded in *; lia).
  destruct (cache_writer_step_inv _ _ Hi Hb0 Hstep) as (Hi1 & Hst1 & Hl1).
  destruct (IH Hi1 Hb) as (Hi' & Hst & Hl). split; [done|]. split; [lia|by etrans].
Qed.

(** What the sequence number of the slot of [idx] may be. *)
Inductive sequence_case s idx : Z → Prop :=
  | being_written : phase s ≠ Idle → slot (completed s) = slot idx → sequence_case s idx IS_LOCKED
  | holds_item i : 0 ≤ i < completed s → slot i = slot idx → completed s ≤ i + CAPACITY →
      (completed s = i + CAPACITY → phase s = Idle) → sequence_case s idx i
  | never_written : completed s ≤ slot idx → (completed s = slot idx → phase s = Idle) → sequence_case s idx 0.

Lemma sequence_cases s idx : inv s → ∃ v, array_get (sequence_ s) (slot idx) = Ok v ∧ sequence_case s idx v.
Proof.
  intros Hi. pose proof (slot_at_range CAPACITY idx) as Hr. pose proof (completed_nonneg s Hi) as Hn.
  assert (slot (slot idx) = slot idx) as Hss by (apply Z.mod_small, Hr).
  destruct (decide (phase s ≠ Idle ∧ slot (completed s) = slot idx)) as [[Hp He]|Hfree].
  { exists IS_LOCKED. split; [|by constructor]. apply array_get_Ok. split; [lia|].
    rewrite <- He. by apply (inv_locked _ Hi). }
  destruct (decide (completed s ≤ slot idx)) as [Hle|Hgt].
  { assert (completed s = slot idx → phase s = Idle) as Hidle.
    { intros He. destruct (decide (phase s = Idle)) as [|Hp]; [done|]. destruct Hfree. split; [done|congruence]. }
    exists 0. split; [|by constructor]. apply array_get_Ok. split; [lia|].
    rewrite <- Hss. apply (inv_unwritten _ Hi); [lia|done]. }
  pose proof (Z.mod_pos_bound (completed s - 1 - slot idx) CAPACITY ltac:(lia)) as Hm.
  pose proof (Z.mod_le (completed s - 1 - slot idx) CAPACITY ltac:(lia) ltac:(lia)) as Hml.
  pose proof (Z.div_mod (completed s - 1 - slot idx) CAPACITY ltac:(lia)) as Hdm.
  set (i := completed s - 1 - (completed s - 1 - slot idx) mod CAPACITY).
  assert (slot i = slot idx) as Hsi.
  { rewrite <- Hss. unfold slot_at at 1 2, i. rewrite <- (Z.mod_add (slot idx) ((completed s - 1 - slot idx) / CAPACITY)) by lia.
    f_equal. lia. }
  assert (completed s = i + CAPACITY → phase s = Idle) as Hidle.
  { intros He. destruct (decide (phase s = Idle)) as [|Hp]; [done|]. destruct Hfree. split; [done|].
    rewrite <- Hsi, He. unfold slot_at. rewrite <- (Z.mul_1_l CAPACITY) at 1. apply Z.mod_add. lia. }
  exists i. split; [|apply holds_item; [unfold i; lia|done|unfold i; lia|done]]. apply array_get_Ok. split; [lia|].
  rewrite <- Hsi. apply (inv_items _ Hi); [unfold i; lia|unfold i; lia|done].
Qed.

(** The guarded read: an unchanged sequence number means an undisturbed item. *)
Lemma guarded_item s1 s2 s3 idx : inv s1 → inv s2 → inv s3 → stamp s1 ≤ stamp s2 ≤ stamp s3 →
  log s1 `prefix_of` log s2 → 0 ≤ idx → idx < completed s1 →
  completed s3 ≤ idx + CAPACITY → (completed s3 = idx + CAPACITY → phase s3 = Idle) →
  ∃ x, log s1 !! Z.to_nat idx = Some x ∧ array_get (buffer_ s2) (slot idx) = Ok x.
Proof.
  intros Hi1 Hi2 Hi3 Hst Hl H0 H1 H3 Hp3.
  pose proof (stamp_bounds s1). pose proof (stamp_bounds s2). pose proof (stamp_bounds s3).
  assert (completed s2 = idx + CAPACITY → phase s2 = Idle) as Hp2.
  { intros He. assert (completed s3 = idx + CAPACITY) as He3 by lia. specialize (Hp3 He3).
    unfold stamp in *. rewrite Hp3 in *. destruct (phase s2); (done || lia). }
  destruct (inv_items _ Hi2 idx ltac:(lia) ltac:(lia) Hp2) as [_ Hb].
  destruct (lookup_lt_is_Some_2 (log s1) (Z.to_nat idx)) as [x Hx].
  { unfold completed in H1. case_decide; lia. }
  exists x. split; [done|]. apply array_get_Ok. pose proof (slot_at_range CAPACITY idx). split; [lia|].
  unfold at_slot in Hb. rewrite Hb. by eapply prefix_lookup_Some.
Qed.

(** How the first and the last load constrain the index. *)
Lemma sequence_eq s idx v : bounded s → 0 ≤ idx → 0 < idx ∨ 0 < completed s → sequence_case s idx v →
  v ≠ IS_LOCKED → v = idx → idx < completed s ≤ idx + CAPACITY ∧ (completed s = idx + CAPACITY → phase s = Idle).
Proof. intros Hb H0 Hz Hc Hl ->. inversion Hc; subst; [done|split; [lia|done]|]. pose proof (slot_at_le CAPACITY 0 ltac:(lia)). lia. Qed.

Lemma sequence_lt s idx v : bounded s → 0 ≤ idx → sequence_case s idx v → v ≠ IS_LOCKED → v < idx →
  completed s ≤ idx.
Proof.
  intros Hb H0 Hc Hl Hv. destruct Hc as [Hp He|i Hi He Hw Hid|Hw Hid]; [done| |].
  - pose proof (slot_at_far CAPACITY _ _ He Hv). lia.
  - pose proof (slot_at_le CAPACITY idx H0). lia.
Qed.

Lemma sequence_gt s idx v : bounded s → 0 ≤ idx → sequence_case s idx v → v ≠ IS_LOCKED → idx < v →
  idx + CAPACITY < completed s.
Proof.
  intros Hb H0 Hc Hl Hv. destruct Hc as [Hp He|i Hi He Hw Hid|Hw Hid]; [done| |lia].
  symmetry in He. pose proof (slot_at_far CAPACITY _ _ He Hv). lia.
Qed.

Lemma sequence_live s idx v : bounded s → 0 ≤ idx → sequence_case s idx v →
  idx < completed s < idx + CAPACITY → v = idx ∧ v ≠ IS_LOCKED.
Proof.
  intros Hb H0 Hc Hn. unfold bounded, IS_LOCKED in *. destruct Hc as [Hp He|i Hi He Hw Hid|Hw Hid].
  - symmetry in He. pose proof (slot_at_far CAPACITY _ _ He ltac:(lia)). lia.
  - destruct (Z.lt_trichotomy i idx) as [Hlt|[->|Hgt]]; [|lia|].
    + pose proof (slot_at_far CAPACITY _ _ He Hlt). lia.
    + symmetry in He. pose proof (slot_at_far CAPACITY _ _ He Hgt). lia.
  - pose proof (slot_at_le CAPACITY idx H0). lia.
Qed.

Lemma sequence_lost s idx v : bounded s → 0 ≤ idx → idx < completed s → sequence_case s idx v → v ≠ idx →
  idx + CAPACITY ≤ completed s.
Proof.
  intros Hb H0 Hn Hc Hv. destruct Hc as [Hp He|i Hi He Hw Hid|Hw Hid].
  - symmetry in He. by apply (slot_at_far CAPACITY) in He.
  - destruct (Z.lt_trichotomy i idx) as [Hlt|[?|Hgt]]; [|done|].
    + pose proof (slot_at_far CAPACITY _ _ He Hlt). lia.
    + symmetry in He. pose proof (slot_at_far CAPACITY _ _ He Hgt). lia.
  - pose proof (slot_at_le CAPACITY idx H0). lia.
Qed.

(** What an answer says of the item [idx]. *)
Definition read_result s1 s3 idx (r : expected T Error) : Prop :=
  match r with
  | Value x => log s1 !! Z.to_nat idx = Some x ∧ idx < completed s1
  | Unexpected DataDoesNotExist => completed s1 ≤ idx
  | Unexpected DataTooOld => idx + CAPACITY < completed s1
  | Unexpected ConcurrentWrite =>
      (phase s1 ≠ Idle ∧ slot (completed s1) = slot idx) ∨ idx + CAPACITY ≤ completed s3
  end.

Lemma try_get_item_spec s1 s2 s3 idx : inv s1 → inv s2 → inv s3 → stamp s1 ≤ stamp s2 ≤ stamp s3 →
  log s1 `prefix_of` log s2 → bounded s3 → 0 ≤ idx → 0 < idx ∨ 0 < completed s1 →
  ∃ r, try_get_item CAPACITY idx s1 s2 s3 = Ok r ∧ read_result s1 s3 idx r ∧
    (idx < completed s1 → completed s3 < idx + CAPACITY → ∃ x, r = Value x).
Proof.
  intros Hi1 Hi2 Hi3 Hst Hl Hb3 H0 Hz. pose proof (stamp_bounds s1). pose proof (stamp_bounds s3).
  assert (bounded s1) as Hb1 by (unfold bounded in *; lia).
  destruct (sequence_cases s1 idx Hi1) as (v & Hv & Hc1). destruct (sequence_cases s3 idx Hi3) as (v' & Hv' & Hc3).
  pose proof (sequence_live s1 idx v Hb1 H0 Hc1) as Hlive1. pose proof (sequence_live s3 idx v' Hb3 H0 Hc3) as Hlive3.
  unfold try_get_item. rewrite read_slot, Hv. cbn [mbind outcome_bind].
  destruct (Z.eqb_spec v IS_LOCKED) as [->|Hl1].
  { eexists. split; [done|]. split; [|intros; destruct Hlive1; (done || lia)].
    inversion Hc1; subst; [by left|unfold bounded, IS_LOCKED in *; lia..]. }
  destruct (Z.ltb_spec v idx) as [Hlt|Hge].
  { eexists. split; [done|]. split; [by eapply sequence_lt|intros; destruct Hlive1; (done || lia)]. }
  destruct (v >? idx) eqn:Hgt.
  { apply Z.gtb_lt in Hgt. eexists. split; [done|]. split; [by eapply sequence_gt|intros; destruct Hlive1; (done || lia)]. }
  assert (v = idx) as -> by (rewrite Z.gtb_ltb in Hgt; apply Z.ltb_ge in Hgt; lia).
  destruct (sequence_eq s1 idx idx Hb1 H0 Hz Hc1 Hl1 eq_refl) as [Hn1 Hp1].
  destruct (array_get (buffer_ s2) (slot idx)) as [x| |] eqn:Hx.
  2,3: pose proof (slot_at_range CAPACITY idx); destruct (lookup_lt_is_Some_2 (buffer_ s2) (Z.to_nat (slot idx))) as [y Hy];
    [pose proof (inv_buffer_length _ Hi2); lia|]; rewrite (proj2 (array_get_Ok (buffer_ s2) (slot idx) y)) in Hx by (split; [lia|done]);
    discriminate.
  cbn [mbind outcome_bind]. rewrite Hv'. cbn [mbind outcome_bind].
  destruct (Z.eqb_spec idx v') as [<-|Hne]; cbn [negb]; eexists; (split; [done|]).
  - destruct (sequence_eq s3 idx idx Hb3 H0 ltac:(lia) Hc3 Hl1 eq_refl) as [Hn3 Hp3].
    destruct (guarded_item s1 s2 s3 idx) as (y & Hy & Hy'); try done; try lia.
    rewrite Hx in Hy'. injection Hy' as <-. split; [split; [done|lia]|by exists x].
  - split; [right; apply (sequence_lost s3 idx v'); (done || lia)|intros; destruct Hlive3; (done || lia)].
Qed.

(** Index 0 before any item is complete: the initial sequence number is taken for it. *)
Lemma try_get_first s1 s2 s3 : inv s1 → inv s2 → inv s3 → bounded s1 → completed s1 = 0 →
  ∃ r, try_get_item CAPACITY 0 s1 s2 s3 = Ok r ∧ (r = Unexpected ConcurrentWrite ∨ ∃ x, r = Value x).
Proof.
  intros Hi1 Hi2 Hi3 Hb Hc. destruct (sequence_cases s1 0 Hi1) as (v & Hv & Hc1). destruct (sequence_cases s3 0 Hi3) as (v' & Hv' & _).
  unfold try_get_item. rewrite read_slot, Hv. cbn [mbind outcome_bind].
  destruct (Z.eqb_spec v IS_LOCKED) as [->|Hl1]; [eexists; split; [done|by left]|].
  assert (v = 0) as -> by (inversion Hc1; subst; [done|lia|done]). cbn [Z.ltb Z.gtb Z.compare].
  destruct (lookup_lt_is_Some_2 (buffer_ s2) (Z.to_nat (slot 0))) as [y Hy].
  { pose proof (slot_at_range CAPACITY 0). pose proof (inv_buffer_length _ Hi2). lia. }
  rewrite (proj2 (array_get_Ok (buffer_ s2) (slot 0) y)) by (pose proof (slot_at_range CAPACITY 0); split; [lia|done]).
  cbn [mbind outcome_bind]. rewrite Hv'. cbn [mbind outcome_bind].
  destruct (negb _); eexists; (split; [done|]); [by left|right; by eexists].
Qed.

Lemma put_item_steps item s s' : phase s = Idle → put_item CAPACITY item s = Ok s' →
  rtc (writer_step CAPACITY) s s' ∧ phase s' = Idle.
Proof.
  intros Hp Hs. unfold put_item in Hs. outcome_step Hs. outcome_step Hs.
  assert (phase a = Locked) by (unfold put_lock in E; outcome_inv E; done).
  assert (phase a0 = Stored) by (unfold put_store in E0; outcome_inv E0; done).
  split; [|unfold put_release in Hs; outcome_inv Hs; done].
  eapply rtc_l; [by apply step_lock|]. eapply rtc_l; [by eapply step_store|]. eapply rtc_once. by apply step_release.
Qed.

Lemma put_item_inv item s : inv s → bounded s → phase s = Idle →
  ∃ s', put_item CAPACITY item s = Ok s' ∧ inv s' ∧ phase s' = Idle ∧ log s' = log s ++ [item].
Proof.
  intros Hi Hb Hp. destruct (put_lock_inv s Hi Hp) as (s1 & Hs1 & Hi1 & Hp1 & Hc1 & Hl1).
  destruct (put_store_inv item s1 Hi1 Hp1) as (s2 & Hs2 & Hi2 & Hp2 & Hc2 & Hl2).
  destruct (put_release_inv s2 Hi2) as (s3 & Hs3 & Hi3 & Hp3 & Hc3 & Hl3); [unfold bounded in *; lia|done|].
  exists s3. unfold put_item. rewrite Hs1. cbn [mbind outcome_bind]. rewrite Hs2. cbn [mbind outcome_bind].
  split_and!; [done..|]. by rewrite Hl3, Hl2, Hl1.
Qed.

(** A read without interference. *)
Lemma quiet_read s idx : inv s → bounded s → phase s = Idle → 0 ≤ idx → 0 < idx ∨ 0 < completed s →
  ∃ r, try_get_item CAPACITY idx s s s = Ok r ∧
    match r with
    | Value x => log s !! Z.to_nat idx = Some x
    | Unexpected DataDoesNotExist => completed s ≤ idx
    | Unexpected DataTooOld => idx + CAPACITY < completed s
    | Unexpected ConcurrentWrite => idx + CAPACITY ≤ completed s
    end ∧
    (idx < completed s → completed s < idx + CAPACITY → ∃ x, r = Value x).
Proof.
  intros Hi Hb Hp H0 Hz. destruct (try_get_item_spec s s s idx Hi Hi Hi (conj (Z.le_refl _) (Z.le_refl _)) (reflexivity _) Hb H0 Hz)
    as (r & Hr & Hres & Hlive). exists r. split; [done|]. split; [|done].
  unfold read_result in Hres. destruct r as [x|[]]; try done; [by destruct Hres|]. destruct Hres as [[? _]|]; done.
Qed.
End Proofs.

(** C22: in every sequentially consistent execution (each of the three loads of a read sees
    all stores before it; the code's own memory orders promise less, see [CacheOrder]),
    while the producer runs (fewer than 2^32 - 1 items), a read of index
    [idx] that overlaps any number of its stores returns only the item put under
    that index; it answers DataDoesNotExist only if that item was not complete
    when the read began, DataTooOld only if it was overwritten by then, and
    ConcurrentWrite only if the slot was being written or the item was overwritten;
    an item that is not within one overwrite of being lost is always returned.
    The one exception is index 0 before item 0 is complete: it is never reported
    missing, but answered with ConcurrentWrite or with whatever the slot holds. *)
Theorem circular_cache_read {T} (CAPACITY : Z) `{PowerOfTwo CAPACITY} (default_value : T) (s1 s2 s3 : t T) (idx : Z) :
  CAPACITY < 2 ^ 32 → rtc (writer_step CAPACITY) (init CAPACITY default_value) s1 →
  rtc (writer_step CAPACITY) s1 s2 → rtc (writer_step CAPACITY) s2 s3 → bounded s3 → 0 ≤ idx →
  ∃ r, try_get_item CAPACITY idx s1 s2 s3 = Ok r ∧
    (if bool_decide (idx = 0 ∧ completed s1 = 0) then r = Unexpected ConcurrentWrite ∨ ∃ x, r = Value x
     else read_result CAPACITY s1 s3 idx r) ∧
    (idx < completed s1 → completed s3 < idx + CAPACITY → ∃ x, r = Value x).
Proof.
  intros Hcap H01 H12 H23 Hb3 H0.
  assert (∀ s s' : t T, rtc (writer_step CAPACITY) s s' → bounded s' → bounded s) as Hdown.
  { intros s s' Hs. unfold bounded. induction Hs as [|? ? ? Hst ? IH]; [done|]. apply writer_stamp in Hst. lia. }
  pose proof (Hdown _ _ H23 Hb3) as Hb2. pose proof (Hdown _ _ H12 Hb2) as Hb1.
  destruct (writer_steps_inv CAPACITY Hcap _ _ H01 (cache_init_inv CAPACITY default_value) Hb1) as (Hi1 & _ & _).
  destruct (writer_steps_inv CAPACITY Hcap _ _ H12 Hi1 Hb2) as (Hi2 & Hs12 & Hl12).
  destruct (writer_steps_inv CAPACITY Hcap _ _ H23 Hi2 Hb3) as (Hi3 & Hs23 & _).
  case_bool_decide as Hz.
  - destruct Hz as [-> Hc]. destruct (try_get_first CAPACITY Hcap s1 s2 s3 Hi1 Hi2 Hi3 Hb1 Hc) as (r & Hr & Hres).
    exists r. split; [done|]. split; [done|lia].
  - pose proof (completed_nonneg CAPACITY s1 Hi1). apply try_get_item_spec; (done || lia).
Qed.

(** The sequence numbers start at 0, which is also the first index: index 0
    of a cache into which nothing was put yet is reported as present, with a
    value-initialised item. *)
Theorem circular_cache_empty_hit {T} (CAPACITY : Z) `{PowerOfTwo CAPACITY} (default_value : T) :
  let s := init CAPACITY default_value in try_get_item CAPACITY 0 s s s = Ok (Value default_value).
Proof.
  pose proof (pot_pos (c := CAPACITY)). cbv zeta. unfold try_get_item.
  assert (u32 (mask CAPACITY 0) = 0) as -> by (rewrite mask_mod by done; by rewrite Z.mod_0_l by lia).
  assert (∀ B (x : B), array_get (replicate (Z.to_nat CAPACITY) x) 0 = Ok x) as Hget.
  { intros B x. apply array_get_Ok. split; [lia|]. apply lookup_replicate. split; [done|lia]. }
  simpl. by rewrite !Hget.
Qed.

(** The item with index 2^32 - 1 is stored under the lock value: it stays
    unreadable. *)
Lemma circular_cache_lock_collision {T} (item : T) (s : t T) :
  write_index_ s = IS_LOCKED → sequence_ s = [0] → buffer_ s = [item] →
  ∃ s', put_item 1 item s = Ok s' ∧ try_get_item 1 IS_LOCKED s' s' s' = Ok (Unexpected ConcurrentWrite).
Proof.
  destruct s. simpl. intros -> -> ->. eexists. by split.
Qed.

#[local] Instance capacity_of_two : PowerOfTwo 2.
Proof. by apply pot_check. Qed.

Definition put_three : outcome (t Z) :=
  s ← put_item 2 10 (init 2 0); s ← put_item 2 11 s; put_item 2 12 s.

Lemma circular_cache_empty_hit_witness :
  try_get_item 2 0 (init 2 7) (init 2 7) (init 2 7) = Ok (Value 7).
Proof. exact (circular_cache_empty_hit 2 7). Defined.

Lemma circular_cache_read_witness :
  ∃ s s', put_three = Ok s ∧ put_lock 2 s = Ok s' ∧ try_get_item 2 2 s s s' = Ok (Value 12) ∧
    log s !! 2%nat = Some 12.
Proof.
  destruct (put_item 2 10 (init 2 0)) as [s1| |] eqn:E1; [|vm_compute in E1; discriminate E1..].
  destruct (put_item 2 11 s1) as [s2| |] eqn:E2; [|vm_compute in E1; injection E1 as <-; vm_compute in E2; discriminate E2..].
  destruct (put_item 2 12 s2) as [s3| |] eqn:E3;
    [|vm_compute in E1; injection E1 as <-; vm_compute in E2; injection E2 as <-; vm_compute in E3; discriminate E3..].
  destruct (put_item_steps 2 10 (init 2 0) s1 eq_refl E1) as [H1 P1]. destruct (put_item_steps 2 11 _ _ P1 E2) as [H2 P2].
  destruct (put_item_steps 2 12 _ _ P2 E3) as [H3 P3].
  assert (rtc (writer_step 2) (init 2 0) s3) as Hr by (etransitivity; [exact H1|etransitivity; [exact H2|exact H3]]).
  assert (∃ s', put_lock 2 s3 = Ok s' ∧ bounded s' ∧ completed s3 = 3 ∧ completed s' = 3 ∧
    put_three = Ok s3 ∧ log s3 !! 2%nat = Some 12) as (s' & Hs' & Hb & Hc & Hc' & Hp & Hlog).
  { vm_compute in E1. injection E1 as <-. vm_compute in E2. injection E2 as <-. vm_compute in E3. injection E3 as <-.
    eexists. split; [reflexivity|]. split; [reflexivity|]. split; [reflexivity|]. split; [reflexivity|].
    split; reflexivity. }
  destruct (circular_cache_read 2 0 s3 s3 s' 2 ltac:(lia) Hr ltac:(apply rtc_refl)
    ltac:(apply rtc_once, step_lock; [exact P3|exact Hs']) Hb ltac:(lia)) as (r & Hr' & Hres & Hlive).
  destruct (Hlive ltac:(lia) ltac:(lia)) as [x ->].
  rewrite bool_decide_eq_false_2 in Hres by (intros [? _]; lia). destruct Hres as [Hx _]. change (Z.to_nat 2) with 2%nat in Hx.
  exists s3, s'. split; [exact Hp|]. split; [exact Hs'|]. rewrite Hlog in Hx. injection Hx as <-.
  split; [exact Hr'|exact Hlog].
Defined.
End CircularCache.
