(* ===== verification/CacheOrder.v ===== *)
(** * CircularCache under the memory orders it asks for ([includes/utils/circular-cache.hpp])

    [CircularCache] interleaves the accesses as if they were sequentially
    consistent.  Here a load may return what its memory order allows: the producer's
    stores are numbered in program order; a release store carries all stores up
    to it, and an acquire load that returns it makes them visible; a load of a
    location returns any store that is not older than one the consumer has seen
    of this location, or that was made visible.  The loads of [buffer_] are relaxed, those
    of [sequence_] acquire; the stores of [sequence_] are releases. *)

From Stdlib Require Import ZifyNat.
From stdpp Require Import functions.
From S2P Require Import Prelude Ring CircularCache.

Module CacheOrder.
Import CircularCache.

(** A store of [put_item]. *)
Inductive store (T : Type) : Type :=
  | StoreSequence (slot : Z) (value : Z)
  | StoreItem (slot : Z) (item : T).
Arguments StoreSequence {T} slot value.
Arguments StoreItem {T} slot item.

(** What a finished read answered.  [known]: how many stores were visible to the
    consumer when it began; [stored]: how many items had been stored by the load of the item, or
    by the answer when it came before that load. *)
Record answer (T : Type) : Type := {
  index : Z;
  result : expected T Error;
  known : nat;
  stored : nat;
}.
Arguments index {T} _.
Arguments result {T} _.
Arguments known {T} _.
Arguments stored {T} _.

(** Where the consumer is in [try_get_item]. *)
Inductive reader_phase (T : Type) : Type :=
  | ReaderIdle
  | ReaderFirst (item_index seq_before : Z) (known : nat)
  | ReaderItem (item_index seq_before : Z) (known : nat) (item : T) (stored : nat).
Arguments ReaderIdle {T}.
Arguments ReaderFirst {T} item_index seq_before known.
Arguments ReaderItem {T} item_index seq_before known item stored.

(** A time is the number of a store, counted from 1; 0 is the initial value.
    [sequence_seen], [item_seen]: the time of the last load of the slot. *)
Record t (T : Type) : Type := {
  write_index_ : Z;
  phase : put_phase;
  stores : list (store T);
  log : list T;
  visible : nat;
  sequence_seen : Z → nat;
  item_seen : Z → nat;
  reader : reader_phase T;
  answers : list (answer T);
}.
Arguments write_index_ {T} _.
Arguments phase {T} _.
Arguments stores {T} _.
Arguments log {T} _.
Arguments visible {T} _.
Arguments sequence_seen {T} _.
Arguments item_seen {T} _.
Arguments reader {T} _.
Arguments answers {T} _.

(** [time] is when the store that the load returns was made. *)
Inductive action (T : Type) : Type :=
  | PutLock
  | PutStore (item : T)
  | PutRelease
  | ReadFirst (item_index : Z) (time : nat)
  | ReadItem (time : nat)
  | ReadSecond (time : nat).
Arguments PutLock {T}.
Arguments PutStore {T} item.
Arguments PutRelease {T}.
Arguments ReadFirst {T} item_index time.
Arguments ReadItem {T} time.
Arguments ReadSecond {T} time.

Section Definitions.
Context {T : Type} (CAPACITY : Z) (default_value : T).
Implicit Types (s : t T).

Definition init : t T := {|
  write_index_ := 0; phase := Idle; stores := []; log := []; visible := 0;
  sequence_seen _ := O; item_seen _ := O; reader := ReaderIdle; answers := [];
|}.

Definition set_producer index ph sts items s : t T := {|
  write_index_ := index; phase := ph; stores := sts; log := items; visible := visible s;
  sequence_seen := sequence_seen s; item_seen := item_seen s; reader := reader s; answers := answers s;
|}.
Definition set_reader r s : t T := {|
  write_index_ := write_index_ s; phase := phase s; stores := stores s; log := log s; visible := visible s;
  sequence_seen := sequence_seen s; item_seen := item_seen s; reader := r; answers := answers s;
|}.
Definition finish a s : t T := {|
  write_index_ := write_index_ s; phase := phase s; stores := stores s; log := log s; visible := visible s;
  sequence_seen := sequence_seen s; item_seen := item_seen s; reader := ReaderIdle; answers := answers s ++ [a];
|}.

Definition write_slot s : Z := u32 (mask CAPACITY (write_index_ s)).

(** [put_item] *)
Definition put_lock s : option (t T) :=
  if decide (phase s = Idle) then
    Some (set_producer (write_index_ s) Locked (stores s ++ [StoreSequence (write_slot s) IS_LOCKED]) (log s) s)
  else None.
Definition put_store item s : option (t T) :=
  if decide (phase s = Locked) then
    Some (set_producer (write_index_ s) Stored (stores s ++ [StoreItem (write_slot s) item]) (log s ++ [item]) s)
  else None.
Definition put_release s : option (t T) :=
  if decide (phase s = Stored) then
    Some (set_producer (u64 (write_index_ s + 1)) Idle (stores s ++ [StoreSequence (write_slot s) (u32 (write_index_ s))]) (log s) s)
  else None.

(** The value of a location after the store of that time, if it is a store of that location. *)
Definition sequence_at (slot : Z) (time : nat) s : option Z :=
  match time with
  | O => Some 0
  | S i => match stores s !! i with
           | Some (StoreSequence slot' value) => if slot' =? slot then Some value else None
           | _ => None
           end
  end.
Definition item_at (slot : Z) (time : nat) s : option T :=
  match time with
  | O => Some default_value
  | S i => match stores s !! i with
           | Some (StoreItem slot' item) => if slot' =? slot then Some item else None
           | _ => None
           end
  end.

(** Is there a store of the location after [time], up to [bound]? *)
Definition overwritten {A} (location : nat → option A) (time bound : nat) : bool :=
  existsb (λ time', bool_decide (is_Some (location time'))) (seq (S time) (bound - time)).

(** [sequence_[slot].load(std::memory_order_acquire)] *)
Definition load_sequence (slot : Z) (time : nat) s : option (Z * t T) :=
  if overwritten (λ time', sequence_at slot time' s) time (max (visible s) (sequence_seen s slot)) then None else
  value ← sequence_at slot time s;
  Some (value, {| write_index_ := write_index_ s; phase := phase s; stores := stores s; log := log s;
                  visible := max (visible s) time; sequence_seen := <[slot := time]> (sequence_seen s);
                  item_seen := item_seen s; reader := reader s; answers := answers s |}).

(** [buffer_[slot].load(std::memory_order_relaxed)] *)
Definition load_item (slot : Z) (time : nat) s : option (T * t T) :=
  if overwritten (λ time', item_at slot time' s) time (max (visible s) (item_seen s slot)) then None else
  item ← item_at slot time s;
  Some (item, {| write_index_ := write_index_ s; phase := phase s; stores := stores s; log := log s;
                 visible := visible s; sequence_seen := sequence_seen s;
                 item_seen := <[slot := time]> (item_seen s); reader := reader s; answers := answers s |}).

(** [try_get_item], up to its second load. *)
Definition read_first (item_index : Z) (time : nat) s : option (t T) :=
  match reader s with
  | ReaderIdle =>
      let known := visible s in
      '(seq_before, s) ← load_sequence (u32 (mask CAPACITY item_index)) time s;
      let failed error := Some (finish {| index := item_index; result := Unexpected error; known := known; stored := length (log s) |} s) in
      if seq_before =? IS_LOCKED then failed ConcurrentWrite else
      if seq_before <? item_index then failed DataDoesNotExist else
      if seq_before >? item_index then failed DataTooOld else
      Some (set_reader (ReaderFirst item_index seq_before known) s)
  | _ => None
  end.
Definition read_item (time : nat) s : option (t T) :=
  match reader s with
  | ReaderFirst item_index seq_before known =>
      '(item, s) ← load_item (u32 (mask CAPACITY item_index)) time s;
      Some (set_reader (ReaderItem item_index seq_before known item (length (log s))) s)
  | _ => None
  end.
Definition read_second (time : nat) s : option (t T) :=
  match reader s with
  | ReaderItem item_index seq_before known item stored =>
      '(seq_after, s) ← load_sequence (u32 (mask CAPACITY item_index)) time s;
      Some (finish {| index := item_index;
        result := if negb (seq_before =? seq_after) then Unexpected ConcurrentWrite else Value item;
        known := known; stored := stored |} s)
  | _ => None
  end.

Definition step (a : action T) s : option (t T) :=
  match a with
  | PutLock => put_lock s
  | PutStore item => put_store item s
  | PutRelease => put_release s
  | ReadFirst item_index time => read_first item_index time s
  | ReadItem time => read_item time s
  | ReadSecond time => read_second time s
  end.

Fixpoint run (actions : list (action T)) s : option (t T) :=
  match actions with
  | [] => Some s
  | a :: actions => s ← step a s; run actions s
  end.
End Definitions.

Section Proofs.
Context {T : Type} (CAPACITY : Z) {HC : PowerOfTwo CAPACITY} (Hcap : CAPACITY < 2 ^ 32) (default_value : T).
Implicit Types (s : t T) (n m r time : nat) (idx : Z) (item : T).
Abbreviation slot := (slot_at CAPACITY).
#[local] Arguments Nat.mul : simpl never.

(** ** The producer's stores *)

(** Put [n] makes the stores at the times [3 n + 1], [3 n + 2] and [3 n + 3]. *)
Definition store_ok n r (st : store T) : Prop :=
  match r, st with
  | O, StoreSequence k v => k = slot (Z.of_nat n) ∧ v = IS_LOCKED
  | 1%nat, StoreItem k _ => k = slot (Z.of_nat n)
  | 2%nat, StoreSequence k v => k = slot (Z.of_nat n) ∧ v = Z.of_nat n
  | _, _ => False
  end.

Definition phase_code (ph : put_phase) : nat := match ph with Idle => 0 | Locked => 1 | Stored => 2 end.

Record producer_ok s : Prop := {
  producer_index : ∃ n, write_index_ s = Z.of_nat n ∧ length (stores s) = (3 * n + phase_code (phase s))%nat ∧
    length (log s) = (n + phase_code (phase s) / 2)%nat;
  producer_stores n r st : (r < 3)%nat → stores s !! (3 * n + r)%nat = Some st → store_ok n r st;
  producer_log n k item : stores s !! (3 * n + 1)%nat = Some (StoreItem k item) → log s !! n = Some item;
}.

(** Fewer than 2^32 - 1 puts. *)
Definition bounded s : Prop := Z.of_nat (length (stores s)) < 3 * (2 ^ 32 - 1).

Lemma cache_slot idx : u32 (mask CAPACITY idx) = slot idx.
Proof using HC Hcap. rewrite mask_mod by done. apply uwrap_small. pose proof (slot_at_range CAPACITY idx). unfold in_u, slot_at in *. lia. Qed.

Lemma stores_snoc (l : list (store T)) st n r : length l = (3 * n + r)%nat → (r < 3)%nat → store_ok n r st →
  (∀ n r st, (r < 3)%nat → l !! (3 * n + r)%nat = Some st → store_ok n r st) →
  ∀ n r st', (r < 3)%nat → (l ++ [st]) !! (3 * n + r)%nat = Some st' → store_ok n r st'.
Proof using.
  intros Hlen Hr Hst Hl n' r' st' Hr' Hi. apply lookup_app_Some in Hi as [Hi|[Hge Hi]]; [by apply Hl|].
  apply list_lookup_singleton_Some in Hi as [Hi <-]. assert (n' = n ∧ r' = r) as [-> ->] by lia. done.
Qed.

Lemma log_snoc (l : list (store T)) (items : list T) st : (∀ n k item, l !! (3 * n + 1)%nat = Some (StoreItem k item) → items !! n = Some item) →
  (∀ n k item, length l = (3 * n + 1)%nat → st = StoreItem k item → items !! n = Some item) →
  ∀ n k item, (l ++ [st]) !! (3 * n + 1)%nat = Some (StoreItem k item) → items !! n = Some item.
Proof using.
  intros Hl Hst n k item Hi. apply lookup_app_Some in Hi as [Hi|[Hge Hi]]; [by eapply Hl|].
  apply list_lookup_singleton_Some in Hi as [Hi ->]. eapply Hst; [|done]. lia.
Qed.

(** A producer's step adds a store. *)
Definition produced s s' : Prop :=
  producer_ok s' ∧ (∃ st, stores s' = stores s ++ [st]) ∧ log s `prefix_of` log s' ∧
  visible s' = visible s ∧ reader s' = reader s ∧ answers s' = answers s.

Lemma put_lock_ok s s' : producer_ok s → put_lock CAPACITY s = Some s' → produced s s'.
Proof using HC Hcap.
  intros [(n & Hn & Hlen & Hlog) Hst Hl]. unfold put_lock, write_slot. case_decide as Hp; [|done]. intros [= <-].
  rewrite Hp in *. simpl in Hlen, Hlog. rewrite Hn, cache_slot. split; [|split; [by eexists|done]]. split; simpl.
  - exists n. rewrite length_app. simpl. split; [done|]. split; lia.
  - apply (stores_snoc _ _ n 0); [lia|lia|done|done].
  - apply log_snoc; [done|]. intros; lia.
Qed.

Lemma put_store_ok item s s' : producer_ok s → put_store CAPACITY item s = Some s' → produced s s'.
Proof using HC Hcap.
  intros [(n & Hn & Hlen & Hlog) Hst Hl]. unfold put_store, write_slot. case_decide as Hp; [|done]. intros [= <-].
  rewrite Hp in *. simpl in Hlen, Hlog. rewrite Hn, cache_slot. split; [|split; [by eexists|split; [by apply prefix_app_r|done]]]. split; simpl.
  - exists n. rewrite !length_app. simpl. split; [done|]. split; lia.
  - apply (stores_snoc _ _ n 1); [lia|lia|done|done].
  - apply log_snoc.
    + intros m k x Hm. apply lookup_app_l_Some. by eapply Hl.
    + intros m k x Hm [= _ <-]. assert (m = length (log s)) as -> by lia. by apply list_lookup_middle.
Qed.

Lemma put_release_ok s s' : producer_ok s → bounded s → put_release CAPACITY s = Some s' → produced s s'.
Proof using HC Hcap.
  intros [(n & Hn & Hlen & Hlog) Hst Hl] Hb. unfold put_release, write_slot. case_decide as Hp; [|done]. intros [= <-].
  rewrite Hp in *. simpl in Hlen, Hlog. unfold bounded in Hb. rewrite Hn, cache_slot, (uwrap_small 32) by (unfold in_u; lia).
  split; [|split; [by eexists|done]]. split; simpl.
  - exists (S n). rewrite length_app, (uwrap_small 64) by (unfold in_u; lia). simpl. split; [lia|]. split; lia.
  - apply (stores_snoc _ _ n 2); [lia|lia|done|done].
  - apply log_snoc; [done|]. intros; lia.
Qed.

(** ** What a load can return *)

Lemma thirds i : ∃ n r, i = (3 * n + r)%nat ∧ (r < 3)%nat.
Proof using. exists (i / 3)%nat, (i mod 3)%nat. lia. Qed.

Lemma sequence_at_inv s k time v : producer_ok s → sequence_at k time s = Some v →
  (time = O ∧ v = 0) ∨ ∃ n, slot (Z.of_nat n) = k ∧ (time ≤ length (stores s))%nat ∧
    ((time = (3 * n + 1)%nat ∧ v = IS_LOCKED) ∨ (time = (3 * n + 3)%nat ∧ v = Z.of_nat n)).
Proof using.
  intros Hp. destruct time as [|i]; [intros [= <-]; by left|]. simpl. intros Hv. right.
  destruct (stores s !! i) as [[k' v'|]|] eqn:Hi; [|done..]. destruct (Z.eqb_spec k' k) as [->|]; [|done]. injection Hv as ->.
  pose proof (lookup_lt_Some _ _ _ Hi). destruct (thirds i) as (n & r & -> & Hr). pose proof (producer_stores _ Hp n r _ Hr Hi) as Hok.
  exists n. destruct r as [|[|[|r]]]; simpl in Hok; [|done| |lia]; destruct Hok as [-> ->]; (split; [done|]); (split; [lia|]); [left|right]; split; lia.
Qed.

Lemma item_at_inv s k time item : producer_ok s → item_at default_value k time s = Some item →
  (time = O ∧ item = default_value) ∨ ∃ n, slot (Z.of_nat n) = k ∧ time = (3 * n + 2)%nat ∧ log s !! n = Some item.
Proof using.
  intros Hp. destruct time as [|i]; [intros [= <-]; by left|]. simpl. intros Hv. right.
  destruct (stores s !! i) as [[|k' x]|] eqn:Hi; [done| |done]. destruct (Z.eqb_spec k' k) as [->|]; [|done]. injection Hv as ->.
  destruct (thirds i) as (n & r & -> & Hr). pose proof (producer_stores _ Hp n r _ Hr Hi) as Hok.
  destruct r as [|[|[|r]]]; simpl in Hok; [done| |done|lia]. exists n. split; [done|]. split; [lia|]. by eapply producer_log.
Qed.

Lemma release_at s n : producer_ok s → (3 * n + 3 ≤ length (stores s))%nat →
  sequence_at (slot (Z.of_nat n)) (3 * n + 3) s = Some (Z.of_nat n).
Proof using.
  intros Hp Hlen. destruct (lookup_lt_is_Some_2 (stores s) (3 * n + 2)) as [st Hst]; [lia|].
  pose proof (producer_stores _ Hp n 2 st ltac:(lia) Hst) as Hok. replace (3 * n + 3)%nat with (S (3 * n + 2)) by lia. simpl.
  rewrite Hst.
  destruct st as [k v|]; simpl in Hok; [|done]. destruct Hok as [-> ->]. by rewrite Z.eqb_refl.
Qed.

Lemma stored_at s n : producer_ok s → (3 * n + 2 ≤ length (stores s))%nat →
  is_Some (item_at default_value (slot (Z.of_nat n)) (3 * n + 2) s).
Proof using.
  intros Hp Hlen. destruct (lookup_lt_is_Some_2 (stores s) (3 * n + 1)) as [st Hst]; [lia|].
  pose proof (producer_stores _ Hp n 1 st ltac:(lia) Hst) as Hok. replace (3 * n + 2)%nat with (S (3 * n + 1)) by lia. simpl.
  rewrite Hst.
  destruct st as [|k x]; simpl in Hok; [done|]. rewrite Hok, Z.eqb_refl. by eexists.
Qed.

Lemma not_overwritten {A} (location : nat → option A) time bound time' : overwritten location time bound = false →
  is_Some (location time') → (time' ≤ bound)%nat → (time' ≤ time)%nat.
Proof using.
  intros Ho Hl Hb. destruct (le_lt_dec time' time) as [|Hlt]; [done|]. exfalso.
  assert (overwritten location time bound = true) as Ho'; [|congruence]. apply existsb_exists. exists time'.
  split; [apply in_seq; lia|by apply bool_decide_eq_true].
Qed.

Lemma same_slot idx n : 0 ≤ idx → slot (Z.of_nat n) = slot idx → idx ≤ Z.of_nat n →
  ∃ d : nat, Z.of_nat n = idx + Z.of_nat d * CAPACITY.
Proof using HC.
  intros H0 Hs Hle. pose proof (pot_pos (c := CAPACITY)). unfold slot_at in Hs.
  assert ((Z.of_nat n - idx) mod CAPACITY = 0) as Hz by (rewrite Zminus_mod, Hs, Z.sub_diag; by apply Z.mod_0_l; lia).
  exists (Z.to_nat ((Z.of_nat n - idx) / CAPACITY)). rewrite Z2Nat.id by (apply Z.div_pos; lia).
  pose proof (Z.div_mod (Z.of_nat n - idx) CAPACITY ltac:(lia)). lia.
Qed.

Lemma next_round idx n : 0 ≤ idx → slot (Z.of_nat n) = slot idx → idx < Z.of_nat n → idx + CAPACITY ≤ Z.of_nat n.
Proof using HC.
  intros H0 Hs Hlt. destruct (same_slot idx n H0 Hs ltac:(lia)) as [d Hd]. rewrite Hd in *. pose proof (pot_pos (c := CAPACITY)).
  destruct d; [lia|nia].
Qed.

Lemma stored_length s n : producer_ok s → (3 * n + 2 ≤ length (stores s))%nat → (n < length (log s))%nat.
Proof using. intros [(m & _ & Hlen & Hlog) _ _]. rewrite Hlog. destruct (phase s); simpl in *; lia. Qed.

(** ** The consumer *)

(** The item of [idx], or a later one of the same slot, that had been stored. *)
Definition item_of s idx item (stored : nat) : Prop :=
  ∃ d : nat, log s !! Z.to_nat (idx + Z.of_nat d * CAPACITY) = Some item ∧ idx + Z.of_nat d * CAPACITY < Z.of_nat stored.

(** The sequence numbers start at 0, which is also the first index: before put 0 is
    visible, index 0 is found with nothing of the cache behind it. *)
Definition unput idx (known : nat) : Prop := idx = 0 ∧ (known < 3)%nat.

(** What an answer says. *)
Definition answer_ok s (a : answer T) : Prop :=
  0 ≤ index a → (stored a ≤ length (log s))%nat ∧
  match result a with
  | Value item => item_of s (index a) item (stored a) ∨ (unput (index a) (known a) ∧ item = default_value)
  | Unexpected DataDoesNotExist => Z.of_nat (known a) < 3 * index a + 3
  | Unexpected DataTooOld => index a + CAPACITY < Z.of_nat (stored a)
  | Unexpected ConcurrentWrite => 3 * index a + 3 ≤ Z.of_nat (known a) →
      3 * (index a + CAPACITY) < Z.of_nat (length (stores s))
  end.

Definition reader_ok s : Prop :=
  match reader s with
  | ReaderIdle => True
  | ReaderFirst idx before known => before = idx ∧ (known ≤ visible s)%nat ∧
      (0 ≤ idx → 3 * idx + 3 ≤ Z.of_nat (visible s) ∨ unput idx known)
  | ReaderItem idx before known item stored => before = idx ∧ (known ≤ visible s)%nat ∧ (stored ≤ length (log s))%nat ∧
      (0 ≤ idx → item_of s idx item stored ∨ (unput idx known ∧ item = default_value))
  end.

Record inv s : Prop := {
  inv_producer : producer_ok s;
  inv_visible : (visible s ≤ length (stores s))%nat;
  inv_reader : reader_ok s;
  inv_answers : Forall (answer_ok s) (answers s);
}.

Lemma item_of_more s s' idx item stored : log s `prefix_of` log s' → item_of s idx item stored → item_of s' idx item stored.
Proof using. intros Hl (d & Hd & Hlt). exists d. split; [by eapply prefix_lookup_Some|done]. Qed.

Lemma answer_ok_more s s' a : log s `prefix_of` log s' → (length (stores s) ≤ length (stores s'))%nat → answer_ok s a → answer_ok s' a.
Proof using.
  intros Hl Hst Ha Hask. destruct (Ha Hask) as [Hle Hr]. pose proof (prefix_length _ _ Hl). split; [lia|].
  destruct (result a) as [x|[]]; try done; [|lia]. destruct Hr; [left; by eapply item_of_more|by right].
Qed.

Lemma produced_inv s s' : inv s → produced s s' → inv s'.
Proof using.
  intros [Hp Hv Hr Ha] (Hp' & [st Hst] & Hl & Hvis & Hrd & Han). pose proof (prefix_length _ _ Hl).
  assert (length (stores s) ≤ length (stores s'))%nat as Hlen by (rewrite Hst, length_app; lia).
  split; [done|rewrite Hvis; lia| |].
  - unfold reader_ok in *. rewrite Hrd, Hvis. destruct (reader s) as [|idx before known|idx before known item stored]; [done|done|].
    destruct Hr as (? & ? & ? & Hask). split; [done|]. split; [done|]. split; [lia|]. intros Hk.
    destruct (Hask Hk); [left; by eapply item_of_more|by right].
  - rewrite Han. eapply Forall_impl; [exact Ha|]. intros a. by apply answer_ok_more.
Qed.

(** The loads leave everything but the consumer's own view alone. *)
Definition same_producer s s' : Prop :=
  write_index_ s' = write_index_ s ∧ phase s' = phase s ∧ stores s' = stores s ∧ log s' = log s.

Lemma producer_ok_same s s' : same_producer s s' → producer_ok s → producer_ok s'.
Proof using. intros (Hi & Hp & Hs & Hl) [H1 H2 H3]. split; rewrite ?Hi, ?Hp, ?Hs, ?Hl; done. Qed.

Lemma load_sequence_ok s k time v s' : inv s → load_sequence k time s = Some (v, s') →
  same_producer s s' ∧ answers s' = answers s ∧ reader s' = reader s ∧ (visible s ≤ visible s' ≤ length (stores s))%nat ∧
  (time ≤ visible s')%nat ∧ sequence_at k time s = Some v ∧
  ∀ n, slot (Z.of_nat n) = k → (3 * n + 3 ≤ visible s)%nat → (3 * n + 3 ≤ time)%nat.
Proof using.
  intros Hi. unfold load_sequence. destruct (overwritten _ _ _) eqn:Ho; [done|].
  destruct (sequence_at k time s) as [v'|] eqn:Hv; simpl; [|done]. intros [= -> <-]. simpl.
  split; [done|]. split; [done|]. split; [done|]. split; [|split; [lia|split; [done|]]].
  - pose proof (inv_visible _ Hi). destruct (sequence_at_inv s k time v (inv_producer _ Hi) Hv) as [[-> _]|(n & _ & ? & _)]; lia.
  - intros n <- Hn. eapply (not_overwritten (λ time', sequence_at _ time' s)); [exact Ho| |lia].
    cbv beta. rewrite (release_at s n); [by eexists|apply Hi|]. pose proof (inv_visible _ Hi). lia.
Qed.

Lemma load_item_ok s idx known time item s' : inv s → 0 ≤ idx → 3 * idx + 3 ≤ Z.of_nat (visible s) ∨ unput idx known →
  load_item default_value (slot idx) time s = Some (item, s') →
  item_of s idx item (length (log s)) ∨ (unput idx known ∧ item = default_value).
Proof using HC.
  intros Hi H0 Hvis. unfold load_item. destruct (overwritten _ _ _) eqn:Ho; [done|].
  destruct (item_at default_value (slot idx) time s) as [x|] eqn:Hx; simpl; [|done]. intros [= -> <-].
  assert (3 * idx + 3 ≤ Z.of_nat (visible s) → (3 * Z.to_nat idx + 2 ≤ time)%nat) as Hle.
  { intros Hv. eapply (not_overwritten (λ time', item_at default_value _ time' s)); [exact Ho| |lia].
    cbv beta. rewrite <- (Z2Nat.id idx) at 1 by done. apply stored_at; [apply Hi|]. pose proof (inv_visible _ Hi). lia. }
  destruct (item_at_inv s _ time item (inv_producer _ Hi) Hx) as [[-> ->]|(n & Hs & -> & Hn)].
  { destruct Hvis as [Hv|Hz]; [specialize (Hle Hv); lia|by right]. }
  assert (idx ≤ Z.of_nat n) as Hn' by (destruct Hvis as [Hv|[-> _]]; [specialize (Hle Hv)|]; lia).
  left. destruct (same_slot idx n H0 Hs Hn') as [d Hd]. exists d. rewrite <- Hd, Nat2Z.id. split; [done|].
  apply lookup_lt_Some in Hn. lia.
Qed.

(** A load of the producer's stores and an answer keep the invariant. *)
Lemma consumer_inv s s' : inv s → same_producer s s' → (visible s' ≤ length (stores s))%nat → reader_ok s' →
  Forall (answer_ok s') (answers s') → inv s'.
Proof using.
  intros [Hp _ _ _] Hs Hv Hr Ha. split; [by eapply producer_ok_same| |done|done]. destruct Hs as (_ & _ & -> & _). done.
Qed.

Lemma more_answers s s' a : inv s → same_producer s s' → answers s' = answers s ++ [a] → answer_ok s' a →
  Forall (answer_ok s') (answers s').
Proof using.
  intros Hi (_ & _ & Hst & Hl) -> Ha. apply Forall_app. split; [|by apply Forall_singleton].
  eapply Forall_impl; [apply (inv_answers _ Hi)|]. intros b. apply answer_ok_more; [by rewrite Hl|by rewrite Hst].
Qed.

(** What the first load says. *)
Lemma first_load s idx time v s' : inv s → bounded s → load_sequence (slot idx) time s = Some (v, s') → 0 ≤ idx →
  if v =? IS_LOCKED then 3 * idx + 3 ≤ Z.of_nat (visible s) → 3 * (idx + CAPACITY) < Z.of_nat (length (stores s))
  else (v < idx → Z.of_nat (visible s) < 3 * idx + 3) ∧ (idx < v → idx + CAPACITY < Z.of_nat (length (log s))) ∧
    (v = idx → 3 * idx + 3 ≤ Z.of_nat (visible s') ∨ unput idx (visible s)).
Proof using HC.
  intros Hi Hb Hl H0. destruct (load_sequence_ok s _ time v s' Hi Hl) as (_ & _ & _ & Hvis & Htime & Hv & Hmade).
  unfold bounded in Hb.
  assert (3 * idx + 3 ≤ Z.of_nat (visible s) → 3 * idx + 3 ≤ Z.of_nat time) as Hnot.
  { specialize (Hmade (Z.to_nat idx)). rewrite Z2Nat.id in Hmade by done. intros Hle. specialize (Hmade eq_refl). lia. }
  destruct (sequence_at_inv s _ time v (inv_producer _ Hi) Hv) as [[-> ->]|(n & Hs & Hle & [[-> ->]|[-> ->]])].
  - change (0 =? IS_LOCKED) with false. cbv iota. split; [lia|]. split; [lia|]. intros <-. right. split; [done|lia].
  - rewrite Z.eqb_refl. intros Hk. specialize (Hnot Hk). pose proof (next_round idx n H0 Hs ltac:(lia)). lia.
  - destruct (Z.eqb_spec (Z.of_nat n) IS_LOCKED) as [He|_]; [unfold IS_LOCKED in He; lia|]. split; [lia|]. split; [|lia].
    intros Hlt. pose proof (next_round idx n H0 Hs Hlt).
    pose proof (stored_length s n (inv_producer _ Hi) ltac:(lia)). lia.
Qed.

Lemma first_read_ok idx time s s' : inv s → bounded s → read_first CAPACITY idx time s = Some s' → inv s'.
Proof using HC Hcap.
  intros Hi Hb. unfold read_first. destruct (reader s) eqn:Hr; [|done..]. rewrite cache_slot.
  destruct (load_sequence (slot idx) time s) as [[v s1]|] eqn:Hl; simpl; [|done].
  destruct (load_sequence_ok s _ time v s1 Hi Hl) as (Hsame & Han & _ & Hvis & _).
  pose proof (first_load s idx time v s1 Hi Hb Hl) as Hf. destruct Hsame as (Hw & Hph & Hst & Hlog).
  assert (same_producer s s1) as Hsame by done.
  assert (∀ error, (0 ≤ idx → match error with
      | DataDoesNotExist => Z.of_nat (visible s) < 3 * idx + 3
      | DataTooOld => idx + CAPACITY < Z.of_nat (length (log s))
      | ConcurrentWrite => 3 * idx + 3 ≤ Z.of_nat (visible s) → 3 * (idx + CAPACITY) < Z.of_nat (length (stores s)) end) →
    inv (finish {| index := idx; result := Unexpected error; known := visible s; stored := length (log s1) |} s1)) as Hfail.
  { intros error He. eapply (consumer_inv s); [done|done|simpl; lia|done|].
    eapply more_answers; [done|done|simpl; by rewrite Han|]. intros Hask. simpl in *. rewrite Hlog, Hst. split; [done|].
    specialize (He Hask). by destruct error. }
  destruct (v =? IS_LOCKED); [intros [= <-]; by apply Hfail|].
  destruct (Z.ltb_spec v idx); [intros [= <-]; apply Hfail; intros Ha; by apply Hf|].
  destruct (v >? idx) eqn:Hgt; intros [= <-]; [apply Hfail; intros Ha; apply Hf; [done|lia]|].
  eapply (consumer_inv s); [done|done|simpl; lia| |].
  - split; [lia|]. split; [simpl; lia|]. intros Ha. apply Hf; [done|lia].
  - simpl. rewrite Han. eapply Forall_impl; [apply (inv_answers _ Hi)|]. intros a. apply answer_ok_more; simpl; by rewrite ?Hlog, ?Hst.
Qed.

Lemma read_item_inv time s s' : inv s → read_item CAPACITY default_value time s = Some s' → inv s'.
Proof using HC Hcap.
  intros Hi. unfold read_item. destruct (reader s) as [|idx before known|] eqn:Hr; [done| |done]. rewrite cache_slot.
  destruct (load_item default_value (slot idx) time s) as [[item s1]|] eqn:Hl; simpl; [|done]. intros [= <-].
  pose proof (inv_reader _ Hi) as Hrd. unfold reader_ok in Hrd. rewrite Hr in Hrd. destruct Hrd as (-> & Hkn & Hk).
  pose proof (λ H0, load_item_ok s idx known time item s1 Hi H0 (Hk H0) Hl) as Hitem.
  unfold load_item in Hl. destruct (overwritten _ _ _); [done|]. destruct (item_at _ _ _ _); simpl in Hl; [|done]. injection Hl as -> <-.
  eapply (consumer_inv s); [done|done|apply (inv_visible _ Hi)| |apply (inv_answers _ Hi)].
  split; [done|]. split; [done|]. split; [done|exact Hitem].
Qed.

Lemma second_read_ok time s s' : inv s → bounded s → read_second CAPACITY time s = Some s' → inv s'.
Proof using HC Hcap.
  intros Hi Hb. unfold read_second. destruct (reader s) as [| |idx before known item stored] eqn:Hr; [done..|]. rewrite cache_slot.
  destruct (load_sequence (slot idx) time s) as [[v s1]|] eqn:Hl; simpl; [|done]. intros [= <-].
  destruct (load_sequence_ok s _ time v s1 Hi Hl) as (Hsame & Han & _ & Hvis & _).
  pose proof (inv_reader _ Hi) as Hrd. unfold reader_ok in Hrd. rewrite Hr in Hrd. destruct Hrd as (-> & Hkv & Hst & Hk).
  pose proof (first_load s idx time v s1 Hi Hb Hl) as Hf. destruct Hsame as (Hw & Hph & Hsts & Hlog).
  eapply (consumer_inv s); [done|done|simpl; lia|done|].
  eapply (more_answers s); [done|done|simpl; by rewrite Han|]. intros Ha. simpl in *.
  rewrite Hlog, Hsts. split; [done|].
  destruct (Z.eqb_spec idx v) as [->|Hne]; simpl.
  { destruct (Hk Ha); [left; apply (item_of_more s); [simpl; by rewrite Hlog|done]|by right]. }
  intros Hkn. specialize (Hf Ha).
  destruct (v =? IS_LOCKED); [apply Hf; lia|]. destruct Hf as (H1 & H2 & _).
  pose proof (pot_pos (c := CAPACITY)). pose proof (inv_producer _ Hi) as [(m & _ & Hlen & Hll) _ _].
  assert (idx + CAPACITY < Z.of_nat (length (log s))) by (destruct (Z.lt_total v idx) as [?|[?|?]]; [|congruence|by apply H2]; specialize (H1 ltac:(done)); lia).
  destruct (CacheOrder.phase s); simpl in *; lia.
Qed.

Lemma step_inv a s s' : inv s → bounded s → step CAPACITY default_value a s = Some s' → inv s'.
Proof using HC Hcap.
  intros Hi Hb Hs. destruct a as [|item| |idx time|time|time]; simpl in Hs.
  - eapply produced_inv; [done|]. by apply put_lock_ok; [apply Hi|].
  - eapply produced_inv; [done|]. eapply put_store_ok; [apply Hi|done].
  - eapply produced_inv; [done|]. by apply put_release_ok; [apply Hi| |].
  - by eapply first_read_ok.
  - by eapply read_item_inv.
  - by eapply second_read_ok.
Qed.

Lemma load_sequence_stores k time v s s' : load_sequence k time s = Some (v, s') → stores s' = stores s.
Proof using. unfold load_sequence. destruct (overwritten _ _ _); [done|]. destruct (sequence_at _ _ _); simpl; [|done]. by intros [= _ <-]. Qed.

Lemma step_stores a s s' : step CAPACITY default_value a s = Some s' → (length (stores s) ≤ length (stores s'))%nat.
Proof using.
  destruct a as [|item| |idx time|time|time]; simpl.
  1-3: unfold put_lock, put_store, put_release; case_decide; [|done]; intros [= <-]; simpl; rewrite length_app; lia.
  - unfold read_first. destruct (reader s); [|done..].
    destruct (load_sequence _ _ _) as [[v s1]|] eqn:Hl; simpl; [|done]. apply load_sequence_stores in Hl.
    repeat case_match; intros [= <-]; simpl; by rewrite Hl.
  - unfold read_item, load_item. destruct (reader s); [done| |done]. destruct (overwritten _ _ _); [done|].
    destruct (item_at _ _ _ _); simpl; [|done]. by intros [= <-].
  - unfold read_second. destruct (reader s); [done..|].
    destruct (load_sequence _ _ _) as [[v s1]|] eqn:Hl; simpl; [|done]. apply load_sequence_stores in Hl.
    intros [= <-]. simpl. by rewrite Hl.
Qed.

Lemma run_stores actions : ∀ s s', run CAPACITY default_value actions s = Some s' → (length (stores s) ≤ length (stores s'))%nat.
Proof using.
  induction actions as [|a actions IH]; intros s s' Hr; simpl in Hr; [by simplify_eq|].
  destruct (step CAPACITY default_value a s) as [s1|] eqn:Hs; simpl in Hr; [|done].
  pose proof (step_stores a s s1 Hs). specialize (IH s1 s' Hr). lia.
Qed.

Lemma run_inv actions : ∀ s s', inv s → run CAPACITY default_value actions s = Some s' → bounded s' → inv s'.
Proof using HC Hcap.
  induction actions as [|a actions IH]; intros s s' Hi Hr Hb; simpl in Hr; [by simplify_eq|].
  destruct (step CAPACITY default_value a s) as [s1|] eqn:Hs; simpl in Hr; [|done].
  apply (IH s1); [|done|done]. apply (step_inv a s); [done| |done].
  pose proof (step_stores a s s1 Hs). pose proof (run_stores actions s1 s' Hr). unfold bounded in *. lia.
Qed.

Lemma order_init_inv : inv init.
Proof using. split; [|done|done|by constructor]. split; simpl; [by exists O|done..]. Qed.

(** C23: under release and acquire the cache never answers with a torn item, and
    never with one that was not put, but for index 0 of an empty cache.  For fewer than 2^32 - 1
    puts, any interleaving of the producer's stores with the consumer's loads and any index,
    where a load may return any store the memory order allows, an answer [Value] is an item of
    the asked slot, of the asked put or of a later round, and it is the asked one unless the
    producer had already stored a later round; the one exception is index 0 asked before the stores of
    put 0 are visible, where the value-initialised item may be answered as well.
    [DataDoesNotExist] means that the put was not visible to the consumer when it began,
    [DataTooOld] that the slot was overwritten, and [ConcurrentWrite] for a visible put that the
    producer had begun to overwrite it. *)
Theorem cache_reads_under_release_acquire actions s a :
  run CAPACITY default_value actions init = Some s → bounded s → a ∈ answers s → 0 ≤ index a →
  (stored a ≤ length (log s))%nat ∧
  match result a with
  | Value item =>
      (∃ d : nat, log s !! Z.to_nat (index a + Z.of_nat d * CAPACITY) = Some item ∧
        index a + Z.of_nat d * CAPACITY < Z.of_nat (stored a) ∧
        (Z.of_nat (stored a) ≤ index a + CAPACITY → d = O)) ∨
      (index a = 0 ∧ (known a < 3)%nat ∧ item = default_value)
  | Unexpected DataDoesNotExist => Z.of_nat (known a) < 3 * index a + 3
  | Unexpected DataTooOld => index a + CAPACITY < Z.of_nat (stored a)
  | Unexpected ConcurrentWrite => 3 * index a + 3 ≤ Z.of_nat (known a) →
      3 * (index a + CAPACITY) < Z.of_nat (length (stores s))
  end.
Proof using HC Hcap.
  intros Hr Hb Ha Hask. pose proof (run_inv actions init s order_init_inv Hr Hb) as Hi.
  pose proof (inv_answers _ Hi) as Hall. rewrite Forall_forall in Hall. destruct (Hall a Ha Hask) as [Hle Hres].
  split; [done|]. destruct (result a) as [item|[]]; [|done..].
  destruct Hres as [(d & Hd & Hlt)|[[? ?] ?]]; [left|by right]. exists d. split; [done|]. split; [done|]. intros Hst.
  pose proof (pot_pos (c := CAPACITY)). destruct d; [done|nia].
Qed.

(** An item that is visible and is not being overwritten is read. *)
Lemma stable_item_read actions s a :
  run CAPACITY default_value actions init = Some s → bounded s → a ∈ answers s →
  0 ≤ index a → 3 * index a + 3 ≤ Z.of_nat (known a) → Z.of_nat (length (stores s)) ≤ 3 * (index a + CAPACITY) →
  ∃ item, result a = Value item ∧ log s !! Z.to_nat (index a) = Some item.
Proof using HC Hcap.
  intros Hr Hb Ha H0 Hk Hlen. pose proof (run_inv actions init s order_init_inv Hr Hb) as Hi.
  pose proof (inv_answers _ Hi) as Hall. rewrite Forall_forall in Hall.
  destruct (Hall a Ha H0) as [Hle Hres].
  pose proof (inv_producer _ Hi) as [(m & _ & Hl & Hll) _ _].
  assert (Z.of_nat (length (log s)) ≤ index a + CAPACITY) by (destruct (CacheOrder.phase s); simpl in *; lia).
  destruct (result a) as [item|[]]; [|lia..]. exists item. split; [done|].
  destruct Hres as [(d & Hd & Hlt)|[[Hz Hkn] _]]; [|lia].
  pose proof (pot_pos (c := CAPACITY)). assert (d = O) as -> by (destruct d; [done|nia]). by rewrite Z.mul_0_l, Z.add_0_r in Hd.
Qed.
End Proofs.

(** Two slots; items 10, 11 and 12 are put, the last not yet released. *)
Definition overtaken : list (action Z) :=
  [PutLock; PutStore 10; PutRelease; PutLock; PutStore 11; PutRelease;
   ReadFirst 0 3; PutLock; PutStore 12; ReadItem 8; ReadSecond 3].

(** The relaxed load may return the store that follows the release store of the lock,
    and the second load of the sequence still the old value: the item of put 2 is answered for
    index 0. *)
Theorem cache_reads_later_item : answers <$> run 2 0 overtaken init =
  Some [{| index := 0; result := Value 12; known := 0; stored := 3 |}].
Proof. vm_compute. reflexivity. Qed.

(** A read of put 0 before anything is stored, one that the producer overtakes, and one each
    that finds the item, the overwritten slot and the slot of a later put not made yet. *)
Definition sampled : list (action Z) :=
  [ReadFirst 0 0; ReadItem 0; PutLock; ReadSecond 0; PutStore 10; PutRelease; PutLock; PutStore 11; PutRelease; PutLock;
   ReadFirst 0 3; PutStore 12; ReadItem 2; ReadSecond 7; ReadFirst 1 6; ReadItem 5; ReadSecond 6; PutRelease;
   ReadFirst 0 9; ReadFirst 3 6].

Lemma cache_reads_under_release_acquire_witness :
  (λ s, (answers s, length (stores s))) <$> run 2 7 sampled init = Some
    ([{| index := 0; result := Value 7; known := 0; stored := 0 |};
      {| index := 0; result := Unexpected ConcurrentWrite; known := 0; stored := 3 |};
      {| index := 1; result := Value 11; known := 7; stored := 3 |};
      {| index := 0; result := Unexpected DataTooOld; known := 7; stored := 3 |};
      {| index := 3; result := Unexpected DataDoesNotExist; known := 9; stored := 3 |}], 9%nat) ∧
  ∀ s, run 2 7 sampled init = Some s → (3 ≤ length (log s))%nat ∧ log s !! 1%nat = Some 11.
Proof.
  assert (PowerOfTwo 2) as H2 by (split; reflexivity).
  split; [vm_compute; reflexivity|]. intros s Hs.
  assert (bounded s ∧ {| index := 1; result := Value 11; known := 7; stored := 3 |} ∈ answers s) as [Hb Ha].
  { vm_compute in Hs. injection Hs as <-. split; [reflexivity|]. right. right. left. }
  destruct (cache_reads_under_release_acquire 2 (ltac:(lia)) 7 sampled s _ Hs Hb Ha ltac:(discriminate)) as [Hle Hv].
  split; [exact Hle|]. destruct Hv as [(d & Hd & _ & Hz)|[Hz _]]; [|discriminate Hz].
  rewrite Hz in Hd by discriminate. exact Hd.
Defined.
End CacheOrder.
