(* ===== verification/ReorderBuffer.v ===== *)
(** * ReorderBuffer ([includes/utils/reorder-buffer.hpp])

    The buffer that puts packets back in sequence: any number of writers claim
    the slot of their index, one reader takes the indices in order.  The calls
    are built from the accesses to the shared memory ([load], [compare and
    exchange], [store]); the interleaved machine at the end uses the same. *)

From S2P Require Import Prelude Ring.

Module ReorderBuffer.

Inductive WriteStatus : Type := LikelySlowReader | LikelySlowWriter | Success | AlreadyWritten.
Inductive Status : Type := Empty | Locked | Ready.
#[global] Instance WriteStatus_eq_dec : EqDecision WriteStatus.
Proof. solve_decision. Defined.
#[global] Instance Status_eq_dec : EqDecision Status.
Proof. solve_decision. Defined.

(** [BufferSlot]; [data] is indeterminate ([None]) until written. *)
Record BufferSlot (T : Type) : Type := { data : option T; status : Status }.
Arguments data {T} _.
Arguments status {T} _.

Record t (T : Type) : Type := { buffer_ : list (BufferSlot T); reader_index_ : Z }.
Arguments buffer_ {T} _.
Arguments reader_index_ {T} _.

Section Definitions.
Context {T : Type} (CAPACITY : Z).
Implicit Types (s : t T) (x : T) (index : Z).

Definition MAX_INDEX_AHEAD : Z := CAPACITY - 1.

Definition init (initial_reader_index : Z) : t T := {|
  buffer_ := replicate (Z.to_nat CAPACITY) {| data := None; status := Empty |};
  reader_index_ := initial_reader_index;
|}.

Definition slot_of index : Z := mask CAPACITY index.
Definition load_status index s : outcome Status :=
  slot ← array_get (buffer_ s) (slot_of index); Ok (status slot).
Definition load_data index s : outcome T :=
  slot ← array_get (buffer_ s) (slot_of index); deref (data slot).
Definition store_status index (st : Status) s : outcome (t T) :=
  slot ← array_get (buffer_ s) (slot_of index);
  b ← array_set (buffer_ s) (slot_of index) {| data := data slot; status := st |};
  Ok {| buffer_ := b; reader_index_ := reader_index_ s |}.
Definition store_data index x s : outcome (t T) :=
  slot ← array_get (buffer_ s) (slot_of index);
  b ← array_set (buffer_ s) (slot_of index) {| data := Some x; status := status slot |};
  Ok {| buffer_ := b; reader_index_ := reader_index_ s |}.
Definition advance_reader s : t T :=
  {| buffer_ := buffer_ s; reader_index_ := u64 (reader_index_ s + 1) |}.

(** [compare_exchange_strong(Empty, Locked)] *)
Definition try_claim_slot index s : outcome (bool * t T) :=
  st ← load_status index s;
  if decide (st = Empty) then s' ← store_status index Locked s; Ok (true, s') else Ok (false, s).

(** The two tests of [validate_and_claim_slot] against the loaded reader index. *)
Definition too_far_ahead index (reader_index : Z) : bool := index >=? u64 (reader_index + MAX_INDEX_AHEAD).
Definition too_far_status (reader_index : Z) s : outcome WriteStatus :=
  st ← load_status reader_index s;
  Ok (if decide (st = Ready) then LikelySlowReader else LikelySlowWriter).

Definition validate_and_claim_slot index s : outcome (WriteStatus * t T) :=
  let reader_index := reader_index_ s in
  if too_far_ahead index reader_index then st ← too_far_status reader_index s; Ok (st, s) else
  if index <? reader_index then Ok (AlreadyWritten, s) else
  '(claimed, s') ← try_claim_slot index s;
  Ok (if claimed : bool then Success else AlreadyWritten, s').

Definition try_write_to x index s : outcome (WriteStatus * t T) :=
  '(st, s) ← validate_and_claim_slot index s;
  if decide (st ≠ Success) then Ok (st, s) else
  s ← store_data index x s;
  s ← store_status index Ready s;
  Ok (Success, s).

Definition try_consume_next s : outcome (option T * t T) :=
  let reader_index := reader_index_ s in
  st ← load_status reader_index s;
  if decide (st ≠ Ready) then Ok (None, s) else
  item ← load_data reader_index s;
  s ← store_status reader_index Empty (advance_reader s);
  Ok (Some item, s).

(** [wait_consume_next(stop_token)]: before each try the other threads take the
    buffer to the next state; [true] is a stop request seen at the loop's head. *)
Fixpoint wait_consume_next (polls : list (bool * (t T → t T))) s : outcome (option T * t T) :=
  match polls with
  | [] => OutOfFuel
  | (stop, others) :: polls =>
      let s := others s in
      if stop : bool then Ok (None, s) else
      '(item, s) ← try_consume_next s;
      match item with
      | Some item => Ok (Some item, s)
      | None => wait_consume_next polls s
      end
  end.

(** [wait_consume_next()] *)
Definition wait_consume_next_forever (polls : list (t T → t T)) s : outcome (T * t T) :=
  '(item, s) ← wait_consume_next ((λ others, (false, others)) <$> polls) s;
  item ← deref item;
  Ok (item, s).
End Definitions.

(** The overload of [try_write_to] for items that are arrays of [N] elements. *)
Definition try_write_span {V : Type} (CAPACITY N : Z) (data : list V) (index : Z) (s : t (list V)) :
    outcome (WriteStatus * t (list V)) :=
  _ ← assert_ (Z.of_nat (length data) =? N);
  try_write_to CAPACITY data index s.

(** ** The window it implements *)

Section Window.
Context {T : Type} (CAPACITY : Z).

(** The next index to consume and the data written ahead of it. *)
Record window : Type := { next : Z; pending : gmap Z T }.

Definition window_write (x : T) (index : Z) (w : window) : WriteStatus * window :=
  if index >=? next w + CAPACITY - 1 then
    (if decide (is_Some (pending w !! next w)) then LikelySlowReader else LikelySlowWriter, w)
  else if index <? next w then (AlreadyWritten, w)
  else if decide (is_Some (pending w !! index)) then (AlreadyWritten, w)
  else (Success, {| next := next w; pending := <[index := x]> (pending w) |}).

Definition window_consume (w : window) : option T * window :=
  match pending w !! next w with
  | Some x => (Some x, {| next := next w + 1; pending := delete (next w) (pending w) |})
  | None => (None, w)
  end.

Inductive buffer_op : Type := Write (x : T) (index : Z) | Consume.

Fixpoint run_window (script : list buffer_op) (w : window) : list (WriteStatus + option T) * window :=
  match script with
  | [] => ([], w)
  | Write x index :: script =>
      let '(st, w) := window_write x index w in
      let '(out, w) := run_window script w in (inl st :: out, w)
  | Consume :: script =>
      let '(item, w) := window_consume w in
      let '(out, w) := run_window script w in (inr item :: out, w)
  end.

Fixpoint run_buffer (script : list buffer_op) (s : t T) : outcome (list (WriteStatus + option T) * t T) :=
  match script with
  | [] => Ok ([], s)
  | Write x index :: script =>
      '(st, s) ← try_write_to CAPACITY x index s;
      '(out, s) ← run_buffer script s; Ok (inl st :: out, s)
  | Consume :: script =>
      '(item, s) ← try_consume_next CAPACITY s;
      '(out, s) ← run_buffer script s; Ok (inr item :: out, s)
  end.
End Window.
Arguments window : clear implicits.
Arguments buffer_op : clear implicits.

Section Refinement.
Context {T : Type} (CAPACITY : Z) {HC : PowerOfTwo CAPACITY}.
Implicit Types (s : t T) (w : window T) (x : T) (i index : Z).

Lemma load_status_spec index s sl : 0 ≤ index → at_slot CAPACITY (buffer_ s) index = Some sl →
  load_status CAPACITY index s = Ok (status sl).
Proof.
  intros H0 Hsl. unfold load_status, slot_of. rewrite mask_mod by done.
  apply (at_slot_get CAPACITY) in Hsl. unfold slot_at in Hsl. by rewrite Hsl.
Qed.

Lemma store_status_spec index st s sl : Z.of_nat (length (buffer_ s)) = CAPACITY →
  at_slot CAPACITY (buffer_ s) index = Some sl →
  store_status CAPACITY index st s = Ok {|
    buffer_ := <[Z.to_nat (slot_at CAPACITY index) := {| data := data sl; status := st |}]> (buffer_ s);
    reader_index_ := reader_index_ s |}.
Proof.
  intros Hl Hsl. unfold store_status, slot_of. rewrite mask_mod by done.
  apply (at_slot_get CAPACITY) in Hsl. unfold slot_at in Hsl. rewrite Hsl. cbn [mbind outcome_bind].
  pose proof (at_slot_set CAPACITY (buffer_ s) index {| data := data sl; status := st |} Hl) as Hset.
  unfold slot_at in *. by rewrite Hset.
Qed.

Lemma store_data_spec index x s sl : Z.of_nat (length (buffer_ s)) = CAPACITY →
  at_slot CAPACITY (buffer_ s) index = Some sl →
  store_data CAPACITY index x s = Ok {|
    buffer_ := <[Z.to_nat (slot_at CAPACITY index) := {| data := Some x; status := status sl |}]> (buffer_ s);
    reader_index_ := reader_index_ s |}.
Proof.
  intros Hl Hsl. unfold store_data, slot_of. rewrite mask_mod by done.
  apply (at_slot_get CAPACITY) in Hsl. unfold slot_at in Hsl. rewrite Hsl. cbn [mbind outcome_bind].
  pose proof (at_slot_set CAPACITY (buffer_ s) index {| data := Some x; status := status sl |} Hl) as Hset.
  unfold slot_at in *. by rewrite Hset.
Qed.

Definition slot_rep (o : option T) (sl : BufferSlot T) : Prop :=
  match o with
  | Some x => sl = {| data := Some x; status := Ready |}
  | None => status sl = Empty
  end.

Record rep s w : Prop := {
  rep_next : reader_index_ s = next w;
  rep_bound : 0 ≤ next w ∧ next w + CAPACITY ≤ 2 ^ 64;
  rep_length : Z.of_nat (length (buffer_ s)) = CAPACITY;
  rep_pending i x : pending w !! i = Some x → next w ≤ i < next w + CAPACITY - 1;
  rep_slots i : next w ≤ i < next w + CAPACITY →
    ∃ sl, at_slot CAPACITY (buffer_ s) i = Some sl ∧ slot_rep (pending w !! i) sl;
}.

Lemma init_rep r : 0 ≤ r → r + CAPACITY ≤ 2 ^ 64 →
  rep (init CAPACITY r) {| next := r; pending := ∅ |}.
Proof.
  intros Hr Hb. pose proof (pot_pos (c := CAPACITY)). split; simpl; try done.
  - rewrite length_replicate. lia.
  - intros i Hi. exists {| data := None; status := Empty |}. rewrite lookup_empty. split; [|done].
    apply lookup_replicate. split; [done|]. pose proof (slot_at_range CAPACITY i). lia.
Qed.

Lemma slots_apart w i j : next w ≤ i < next w + CAPACITY → next w ≤ j < next w + CAPACITY → i ≠ j →
  slot_at CAPACITY i ≠ slot_at CAPACITY j.
Proof. intros ? ? Hne He. apply Hne, (slot_at_inj CAPACITY); [done|lia]. Qed.

Lemma too_far_ahead_spec s w index : rep s w →
  too_far_ahead CAPACITY index (reader_index_ s) = (index >=? next w + CAPACITY - 1).
Proof.
  intros Hr. unfold too_far_ahead, MAX_INDEX_AHEAD. rewrite (rep_next _ _ Hr), uwrap_small.
  - f_equal. lia.
  - pose proof (rep_bound _ _ Hr). pose proof (pot_pos (c := CAPACITY)). unfold in_u. lia.
Qed.

Lemma try_write_to_spec s w x index : rep s w →
  ∃ s', try_write_to CAPACITY x index s = Ok ((window_write CAPACITY x index w).1, s') ∧
    rep s' (window_write CAPACITY x index w).2.
Proof.
  intros Hr. unfold try_write_to, validate_and_claim_slot, window_write.
  rewrite (too_far_ahead_spec _ _ _ Hr), (rep_next _ _ Hr).
  pose proof (rep_bound _ _ Hr) as Hb. pose proof (pot_pos (c := CAPACITY)) as Hc.
  destruct (index >=? next w + CAPACITY - 1) eqn:Hahead.
  { destruct (rep_slots _ _ Hr (next w) ltac:(lia)) as (sl & Hsl & Hrep).
    unfold too_far_status. rewrite (load_status_spec _ _ _ (proj1 Hb) Hsl). exists s. unfold slot_rep in Hrep.
    destruct (pending w !! next w); [subst sl|rewrite Hrep]; done. }
  rewrite Z.geb_leb in Hahead. apply Z.leb_gt in Hahead.
  destruct (Z.ltb_spec index (next w)) as [Hlt|Hge]; [by exists s|].
  destruct (rep_slots _ _ Hr index ltac:(lia)) as (sl & Hsl & Hrep). unfold try_claim_slot.
  rewrite (load_status_spec index s sl ltac:(lia) Hsl). cbn [mbind outcome_bind]. unfold slot_rep in Hrep.
  destruct (pending w !! index) as [y|] eqn:Hp; [subst sl; by exists s|]. rewrite Hrep.
  rewrite (store_status_spec _ _ _ _ (rep_length _ _ Hr) Hsl). simpl.
  assert (∀ l (sl' : BufferSlot T), Z.of_nat (length l) = CAPACITY →
    Z.of_nat (length (<[Z.to_nat (slot_at CAPACITY index) := sl']> l)) = CAPACITY) as Hlen
    by (intros; by rewrite length_insert).
  erewrite store_data_spec; [|apply Hlen, Hr|apply (at_slot_insert_eq CAPACITY), Hr]. simpl.
  erewrite store_status_spec; [|apply Hlen, Hlen, Hr|apply (at_slot_insert_eq CAPACITY), Hlen, Hr]. simpl.
  eexists. split; [done|]. rewrite !list_insert_insert_eq. destruct Hr. split; simpl; try done.
  - by apply Hlen.
  - intros i y'. rewrite lookup_insert_Some. intros [[<- _]|[_ Hi]]; [lia|by eapply rep_pending0].
  - intros i Hi. destruct (decide (i = index)) as [->|Hne].
    + rewrite (at_slot_insert_eq CAPACITY), lookup_insert_eq by done. by eexists.
    + rewrite (at_slot_insert_ne CAPACITY), lookup_insert_ne by (done || apply (slots_apart w); lia). by apply rep_slots0.
Qed.

Lemma try_consume_next_spec s w : rep s w → next w + CAPACITY < 2 ^ 64 →
  ∃ s', try_consume_next CAPACITY s = Ok ((window_consume w).1, s') ∧ rep s' (window_consume w).2.
Proof.
  intros Hr Hlast. unfold try_consume_next, window_consume. rewrite (rep_next _ _ Hr).
  pose proof (rep_bound _ _ Hr) as Hb. pose proof (pot_pos (c := CAPACITY)) as Hc.
  destruct (rep_slots _ _ Hr (next w) ltac:(lia)) as (sl & Hsl & Hrep).
  rewrite (load_status_spec _ _ _ (proj1 Hb) Hsl). cbn [mbind outcome_bind]. unfold slot_rep in Hrep.
  destruct (pending w !! next w) as [x|] eqn:Hp; [|rewrite Hrep; by exists s]. subst sl. simpl decide.
  unfold load_data, slot_of. rewrite mask_mod by done.
  pose proof (proj1 (at_slot_get CAPACITY _ _ _) Hsl) as Hget. unfold slot_at in Hget.
  cbn [status]. rewrite decide_False by naive_solver. rewrite Hget. cbn [mbind outcome_bind deref data].
  erewrite (store_status_spec (next w)); [|apply Hr|apply Hsl]. cbn [mbind outcome_bind].
  eexists. split; [done|]. destruct Hr. split; simpl; try done; try lia.
  - rewrite rep_next0. apply uwrap_small. unfold in_u. lia.
  - by rewrite length_insert.
  - intros i y [Hne Hi]%lookup_delete_Some. apply rep_pending0 in Hi. lia.
  - intros i Hi. destruct (decide (i = next w + CAPACITY)) as [->|Hne].
    + assert (pending w !! (next w + CAPACITY) = None) as Hnone.
      { destruct (pending w !! (next w + CAPACITY)) as [y|] eqn:Hy; [|done]. apply rep_pending0 in Hy. lia. }
      exists {| data := Some x; status := Empty |}. rewrite lookup_delete_ne, Hnone by lia. split; [|done].
      unfold at_slot. rewrite (slot_at_shift CAPACITY). by apply (at_slot_insert_eq CAPACITY).
    + rewrite (at_slot_insert_ne CAPACITY), lookup_delete_ne by (lia || apply (slots_apart w); lia).
      apply rep_slots0. lia.
Qed.

Lemma run_buffer_window script s w : rep s w → next w + Z.of_nat (length script) + CAPACITY ≤ 2 ^ 64 →
  ∃ s', run_buffer CAPACITY script s = Ok ((run_window CAPACITY script w).1, s') ∧
    rep s' (run_window CAPACITY script w).2.
Proof.
  revert s w. induction script as [|[x index|] script IH]; intros s w Hr Hb; simpl; [by exists s|..].
  - destruct (try_write_to_spec s w x index Hr) as (s1 & Hs1 & Hr1). rewrite Hs1. cbn [mbind outcome_bind].
    assert (next (window_write CAPACITY x index w).2 = next w) as Hn
      by (unfold window_write; repeat (case_match || case_decide); done).
    destruct (window_write CAPACITY x index w) as [st w1]. simpl in *.
    destruct (IH s1 w1 Hr1 ltac:(lia)) as (s' & -> & Hr'). cbn [mbind outcome_bind].
    destruct (run_window CAPACITY script w1). by exists s'.
  - destruct (try_consume_next_spec s w Hr ltac:(simpl in Hb; lia)) as (s1 & Hs1 & Hr1). rewrite Hs1.
    cbn [mbind outcome_bind].
    assert (next (window_consume w).2 ≤ next w + 1) as Hn by (unfold window_consume; case_match; simpl; lia).
    destruct (window_consume w) as [item w1]. simpl in *.
    destruct (IH s1 w1 Hr1 ltac:(lia)) as (s' & -> & Hr'). cbn [mbind outcome_bind].
    destruct (run_window CAPACITY script w1). by exists s'.
Qed.
End Refinement.

(** ** Writers and reader interleaved *)

Inductive writer_phase (T : Type) : Type :=
  | WriterIdle
  | Checked (index : Z) (x : T)
  | Claimed (index : Z) (x : T)
  | Stored (index : Z) (x : T).
Arguments WriterIdle {T}.
Arguments Checked {T} index x.
Arguments Claimed {T} index x.
Arguments Stored {T} index x.

(** [reader_index] is the value the reader loaded at the head of the call. *)
Inductive reader_phase (T : Type) : Type :=
  | ReaderIdle
  | SawReady (reader_index : Z)
  | Took (reader_index : Z) (item : T)
  | Advanced (reader_index : Z) (item : T).
Arguments ReaderIdle {T}.
Arguments SawReady {T} reader_index.
Arguments Took {T} reader_index item.
Arguments Advanced {T} reader_index item.

Record machine (T : Type) : Type := {
  shared : t T;
  writers : list (writer_phase T);
  reader : reader_phase T;
  out : list T;
}.
Arguments shared {T} _.
Arguments writers {T} _.
Arguments reader {T} _.
Arguments out {T} _.

Inductive action : Type :=
  | Begin (w : nat) (index : Z)
  | Claim (w : nat)
  | Store (w : nat)
  | Release (w : nat)
  | Poll
  | Take
  | Advance
  | Free.

Section Machine.
Context {T : Type} (CAPACITY : Z) (content : Z → T).
Implicit Types (m : machine T).

Definition start (writers : nat) (initial_reader_index : Z) : machine T := {|
  shared := init CAPACITY initial_reader_index; writers := replicate writers WriterIdle;
  reader := ReaderIdle; out := [];
|}.

Definition set_shared (s : t T) m : machine T :=
  {| shared := s; writers := writers m; reader := reader m; out := out m |}.
Definition set_phase (w : nat) (p : writer_phase T) m : machine T :=
  {| shared := shared m; writers := <[w := p]> (writers m); reader := reader m; out := out m |}.
Definition set_reader (r : reader_phase T) m : machine T :=
  {| shared := shared m; writers := writers m; reader := r; out := out m |}.

(** A writer's next access, by its phase.  [Begin] is the load of the reader
    index and the two tests: a refused write leaves nothing behind.  Writers of
    the same index bring the same data, [content index]. *)
Definition writer_step (a : action) m : outcome (machine T) :=
  let s := shared m in
  match a with
  | Begin w index =>
      p ← deref (writers m !! w);
      match p with
      | WriterIdle =>
          Ok (if too_far_ahead CAPACITY index (reader_index_ s) || (index <? reader_index_ s)
              then m else set_phase w (Checked index (content index)) m)
      | _ => Undefined
      end
  | Claim w =>
      p ← deref (writers m !! w);
      match p with
      | Checked index x =>
          '(claimed, s') ← try_claim_slot CAPACITY index s;
          Ok (set_phase w (if claimed : bool then Claimed index x else WriterIdle) (set_shared s' m))
      | _ => Undefined
      end
  | Store w =>
      p ← deref (writers m !! w);
      match p with
      | Claimed index x =>
          s' ← store_data CAPACITY index x s; Ok (set_phase w (Stored index x) (set_shared s' m))
      | _ => Undefined
      end
  | Release w =>
      p ← deref (writers m !! w);
      match p with
      | Stored index x =>
          s' ← store_status CAPACITY index Ready s; Ok (set_phase w WriterIdle (set_shared s' m))
      | _ => Undefined
      end
  | _ => Undefined
  end.

Definition reader_step (a : action) m : outcome (machine T) :=
  let s := shared m in
  match a, reader m with
  | Poll, ReaderIdle =>
      st ← load_status CAPACITY (reader_index_ s) s;
      Ok (if decide (st = Ready) then set_reader (SawReady (reader_index_ s)) m else m)
  | Take, SawReady index => x ← load_data CAPACITY index s; Ok (set_reader (Took index x) m)
  | Advance, Took index x => Ok (set_reader (Advanced index x) (set_shared (advance_reader s) m))
  | Free, Advanced index x =>
      s' ← store_status CAPACITY index Empty s;
      Ok {| shared := s'; writers := writers m; reader := ReaderIdle; out := out m ++ [x] |}
  | _, _ => Undefined
  end.

Definition step (a : action) m : outcome (machine T) :=
  match a with
  | Begin _ _ | Claim _ | Store _ | Release _ => writer_step a m
  | _ => reader_step a m
  end.

(** The claim comes before the reader passes the index. *)
Definition timely (a : action) m : Prop :=
  match a with
  | Claim w => ∀ index x, writers m !! w = Some (Checked index x) → reader_index_ (shared m) ≤ index
  | _ => True
  end.

Inductive reachable (n : nat) (r : Z) : machine T → Prop :=
  | reachable_start : reachable n r (start n r)
  | reachable_step m a m' : reachable n r m → timely a m → step a m = Ok m' → reachable n r m'.

Fixpoint run (actions : list action) m : outcome (machine T) :=
  match actions with
  | [] => Ok m
  | a :: actions => m' ← step a m; run actions m'
  end.

(** The index whose slot a writer owns, and the one the reader is at. *)
Definition owned (p : writer_phase T) : option Z :=
  match p with Claimed index _ | Stored index _ => Some index | _ => None end.
Definition reading (p : reader_phase T) : option Z :=
  match p with ReaderIdle => None | SawReady index | Took index _ | Advanced index _ => Some index end.
End Machine.

Section MachineProofs.
Context {T : Type} (CAPACITY : Z) {HC : PowerOfTwo CAPACITY} (content : Z → T) (r0 : Z) (Hr0 : 0 ≤ r0).
Implicit Types (m : machine T) (i index : Z) (sl : BufferSlot T).

Abbreviation at_ i m := (at_slot CAPACITY (buffer_ (shared m)) i).

(** The lowest index whose slot may be in use. *)
Definition low m : Z := match reader m with Advanced index _ => index | _ => reader_index_ (shared m) end.

Definition writer_ok m (p : writer_phase T) : Prop :=
  match p with
  | WriterIdle => True
  | Checked index x => x = content index ∧ 0 ≤ index < reader_index_ (shared m) + CAPACITY - 1
  | Claimed index x | Stored index x =>
      x = content index ∧ reader_index_ (shared m) ≤ index < reader_index_ (shared m) + CAPACITY - 1 ∧
      ∃ sl, at_ index m = Some sl ∧ status sl = Locked ∧
        match p with Stored _ _ => data sl = Some x | _ => True end
  end.

Definition reader_ok m : Prop :=
  match reader m with
  | ReaderIdle => True
  | SawReady index | Took index _ | Advanced index _ =>
      (∃ sl, at_ index m = Some sl ∧ status sl = Ready) ∧
      reader_index_ (shared m) = index + (match reader m with Advanced _ _ => 1 | _ => 0 end) ∧
      match reader m with Took _ x | Advanced _ x => x = content index | _ => True end
  end.

Record minv m : Prop := {
  minv_length : Z.of_nat (length (buffer_ (shared m))) = CAPACITY;
  minv_low : low m = r0 + Z.of_nat (length (out m));
  minv_out : out m = content <$> seqZ r0 (Z.of_nat (length (out m)));
  minv_ready i sl : low m ≤ i < low m + CAPACITY → at_ i m = Some sl → status sl = Ready →
    data sl = Some (content i);
  minv_writers w p : writers m !! w = Some p → writer_ok m p;
  minv_owned v w p q i : writers m !! v = Some p → writers m !! w = Some q →
    owned p = Some i → owned q = Some i → v = w;
  minv_reader : reader_ok m;
}.

Definition mbounded m : Prop := r0 + Z.of_nat (length (out m)) + CAPACITY + 1 < 2 ^ 64.

Lemma low_reader m : minv m → low m ≤ reader_index_ (shared m) ≤ low m + 1.
Proof. intros Hi. pose proof (minv_reader _ Hi) as Hr. unfold reader_ok, low in *. destruct (reader m); lia. Qed.

Lemma start_minv n : minv (start CAPACITY n r0).
Proof.
  pose proof (pot_pos (c := CAPACITY)). split; simpl; try done.
  - rewrite length_replicate. lia.
  - unfold low. simpl. lia.
  - intros i sl _ [-> _]%lookup_replicate. done.
  - intros w p [-> _]%lookup_replicate. done.
  - intros v w p q i [-> _]%lookup_replicate. done.
Qed.

(** The slots of two indices in the window are different. *)
Lemma window_apart m i j : minv m → low m ≤ i < low m + CAPACITY → low m ≤ j < low m + CAPACITY → i ≠ j →
  slot_at CAPACITY i ≠ slot_at CAPACITY j.
Proof. intros _ ? ? Hne He. apply Hne, (slot_at_inj CAPACITY); [done|lia]. Qed.

Lemma writer_window m w p i : minv m → writers m !! w = Some p → owned p = Some i → low m ≤ i < low m + CAPACITY.
Proof.
  intros Hi Hw Ho. pose proof (minv_writers _ Hi _ _ Hw) as Hok. pose proof (low_reader _ Hi).
  destruct p; simpl in *; simplify_eq; lia.
Qed.

Lemma reader_window m i : minv m → reading (reader m) = Some i → low m ≤ i < low m + CAPACITY.
Proof.
  intros Hi Ho. pose proof (minv_reader _ Hi) as Hok. pose proof (low_reader _ Hi). pose proof (pot_pos (c := CAPACITY)).
  unfold reader_ok, low in *. destruct (reader m); simpl in *; simplify_eq; lia.
Qed.

Lemma writer_locked m w p i : minv m → writers m !! w = Some p → owned p = Some i →
  ∃ sl, at_ i m = Some sl ∧ status sl = Locked.
Proof.
  intros Hi Hw Ho. pose proof (minv_writers _ Hi _ _ Hw) as Hok.
  destruct p; simpl in *; simplify_eq; destruct Hok as (_ & _ & sl & ? & ? & _); by exists sl.
Qed.

Lemma reader_ready m i : minv m → reading (reader m) = Some i → ∃ sl, at_ i m = Some sl ∧ status sl = Ready.
Proof.
  intros Hi Ho. pose proof (minv_reader _ Hi) as Hok. unfold reader_ok in Hok.
  destruct (reader m); simpl in *; simplify_eq; apply Hok.
Qed.

(** No two threads are at the same slot. *)
Lemma reader_apart m w p i j : minv m → writers m !! w = Some p → owned p = Some i →
  reading (reader m) = Some j → slot_at CAPACITY i ≠ slot_at CAPACITY j.
Proof.
  intros Hi Hw Ho Hr He. destruct (writer_locked _ _ _ _ Hi Hw Ho) as (sl & Hsl & Hl).
  destruct (reader_ready _ _ Hi Hr) as (sl' & Hsl' & Hl'). unfold at_slot in *. rewrite He in Hsl. congruence.
Qed.

Lemma writers_apart m v w p q i j : minv m → writers m !! v = Some p → writers m !! w = Some q → v ≠ w →
  owned p = Some i → owned q = Some j → slot_at CAPACITY i ≠ slot_at CAPACITY j.
Proof.
  intros Hi Hv Hw Hne Hp Hq. apply (window_apart m); [done|by eapply (writer_window m v)|by eapply (writer_window m w)|].
  intros ->. apply Hne. by eapply (minv_owned _ Hi v w).
Qed.

(** A writer's store into the slot of [index], which no other thread is at. *)
Lemma update_slot_minv m w p index sl : minv m →
  low m ≤ index < low m + CAPACITY → is_Some (writers m !! w) →
  (∀ v q j, v ≠ w → writers m !! v = Some q → owned q = Some j → slot_at CAPACITY index ≠ slot_at CAPACITY j) →
  (∀ j, reading (reader m) = Some j → slot_at CAPACITY index ≠ slot_at CAPACITY j) →
  (status sl = Ready → data sl = Some (content index)) →
  let m' := set_phase w p (set_shared {|
    buffer_ := <[Z.to_nat (slot_at CAPACITY index) := sl]> (buffer_ (shared m));
    reader_index_ := reader_index_ (shared m) |} m) in
  writer_ok m' p → (∀ i, owned p = Some i → i = index) → minv m'.
Proof.
  intros Hi Hwin [p0 Hw0] Hothers Hreader Hready m' Hp Howned.
  assert (∀ j, slot_at CAPACITY index ≠ slot_at CAPACITY j → at_ j m' = at_ j m) as Hkeep
    by (intros j Hj; by apply (at_slot_insert_ne CAPACITY)).
  assert (∀ v q, writers m' !! v = Some q → (v = w ∧ q = p) ∨ (v ≠ w ∧ writers m !! v = Some q)) as Hwriters.
  { intros v q Hq. simpl in Hq. destruct (decide (v = w)) as [->|Hne].
    - rewrite list_lookup_insert_eq in Hq by (by eapply lookup_lt_Some). injection Hq as <-. by left.
    - rewrite list_lookup_insert_ne in Hq by done. by right. }
  pose proof (minv_reader _ Hi) as Hrd. split.
  - simpl. rewrite length_insert. apply Hi.
  - apply Hi.
  - apply Hi.
  - intros i sl' Hiw Hsl'. change (low m') with (low m) in Hiw. destruct (decide (i = index)) as [->|Hne].
    + simpl in Hsl'. rewrite (at_slot_insert_eq CAPACITY) in Hsl' by apply Hi. by injection Hsl' as <-.
    + rewrite Hkeep in Hsl' by (apply (window_apart m); (done || lia)). by apply (minv_ready _ Hi).
  - intros v q [[-> ->]|[Hne Hq]]%Hwriters; [done|]. pose proof (minv_writers _ Hi _ _ Hq) as Hok.
    unfold writer_ok in *. destruct q; try done; rewrite Hkeep by (eapply Hothers; done); done.
  - intros v v' q q' i Hq Hq' Ho Ho'.
    apply Hwriters in Hq as [[-> ->]|[Hne Hq]]; apply Hwriters in Hq' as [[-> ->]|[Hne' Hq']]; try done.
    + destruct (Hothers _ _ _ Hne' Hq' Ho'). by rewrite (Howned _ Ho).
    + destruct (Hothers _ _ _ Hne Hq Ho). by rewrite (Howned _ Ho').
    + by eapply (minv_owned _ Hi v v').
  - unfold reader_ok in *. destruct (reader m) eqn:Hr; simpl; rewrite ?Hr; [done|..];
      (rewrite Hkeep by (apply Hreader; rewrite ?Hr; done)); done.
Qed.

(** A writer's phase changes and the memory does not. *)
Lemma set_phase_minv m w p : minv m → is_Some (writers m !! w) → writer_ok m p → owned p = None →
  minv (set_phase w p m).
Proof.
  intros Hi [p0 Hw0] Hp Ho.
  assert (∀ v q, <[w := p]> (writers m) !! v = Some q → (v = w ∧ q = p) ∨ (v ≠ w ∧ writers m !! v = Some q)) as Hwriters.
  { intros v q Hq. destruct (decide (v = w)) as [->|Hne].
    - rewrite list_lookup_insert_eq in Hq by (by eapply lookup_lt_Some). injection Hq as <-. by left.
    - rewrite list_lookup_insert_ne in Hq by done. by right. }
  destruct Hi. split; try done.
  - intros v q [[-> ->]|[Hne Hq]]%Hwriters; [done|by eapply minv_writers0].
  - intros v v' q q' i Hq Hq' Hoq Hoq'.
    apply Hwriters in Hq as [[-> ->]|[Hne Hq]]; apply Hwriters in Hq' as [[-> ->]|[Hne' Hq']]; try congruence.
    by eapply minv_owned0.
Qed.

Lemma deref_Ok {A} (o : option A) (a : A) : deref o = Ok a → o = Some a.
Proof. destruct o; [|done]. by intros [= ->]. Qed.

Lemma reader_index_bounds m : minv m → mbounded m →
  0 ≤ reader_index_ (shared m) ∧ reader_index_ (shared m) + CAPACITY < 2 ^ 64.
Proof. intros Hi Hb. pose proof (low_reader _ Hi). pose proof (minv_low _ Hi). unfold mbounded in Hb. lia. Qed.

Lemma begin_minv w index m m' : minv m → mbounded m →
  writer_step CAPACITY content (Begin w index) m = Ok m' → minv m'.
Proof.
  intros Hi Hb Hs. simpl in Hs. outcome_step Hs. apply deref_Ok in E. destruct a; [|done..]. injection Hs as <-.
  destruct (too_far_ahead _ _ _) eqn:Hfar; [done|]. destruct (Z.ltb_spec index (reader_index_ (shared m))); [done|].
  simpl. apply set_phase_minv; [done|done| |done]. split; [done|].
  destruct (reader_index_bounds _ Hi Hb). pose proof (pot_pos (c := CAPACITY)).
  unfold too_far_ahead, MAX_INDEX_AHEAD in Hfar. rewrite uwrap_small in Hfar by (unfold in_u; lia).
  rewrite Z.geb_leb in Hfar. apply Z.leb_gt in Hfar. lia.
Qed.

Lemma claim_minv w m m' : minv m → mbounded m → timely (Claim w) m →
  writer_step CAPACITY content (Claim w) m = Ok m' → minv m'.
Proof.
  intros Hi Hb Ht Hs. simpl in Hs, Ht. outcome_step Hs. apply deref_Ok in E. destruct a as [|index x| |]; [done| |done..].
  specialize (Ht _ _ E). pose proof (minv_writers _ Hi _ _ E) as [-> Hindex]. pose proof (low_reader _ Hi).
  destruct (at_slot_exists CAPACITY (buffer_ (shared m)) index (minv_length _ Hi)) as [sl Hsl].
  unfold try_claim_slot in Hs. rewrite (load_status_spec CAPACITY index _ sl) in Hs by (done || lia).
  cbn [mbind outcome_bind] in Hs. destruct (decide (status sl = Empty)) as [Hempty|Hfull].
  - rewrite (store_status_spec CAPACITY index _ _ sl (minv_length _ Hi) Hsl) in Hs.
    cbn [mbind outcome_bind] in Hs. injection Hs as <-. apply update_slot_minv; try done; try lia.
    + intros v q j Hne Hq Ho He. destruct (writer_locked _ _ _ _ Hi Hq Ho) as (sl' & Hsl' & Hl').
      unfold at_slot in *. rewrite He in Hsl. congruence.
    + intros j Hj He. destruct (reader_ready _ _ Hi Hj) as (sl' & Hsl' & Hl').
      unfold at_slot in *. rewrite He in Hsl. congruence.
    + simpl. split; [done|]. split; [lia|]. eexists. split; [apply (at_slot_insert_eq CAPACITY), Hi|done].
    + intros i. simpl. by intros [= <-].
  - injection Hs as <-. by apply (set_phase_minv (set_shared (shared m) m) w WriterIdle); destruct m.
Qed.

Lemma store_minv w m m' : minv m → writer_step CAPACITY content (Store w) m = Ok m' → minv m'.
Proof.
  intros Hi Hs. simpl in Hs. outcome_step Hs. apply deref_Ok in E. destruct a as [| |index x|]; [done..| |done].
  pose proof (minv_writers _ Hi _ _ E) as (-> & Hindex & sl & Hsl & Hl & _).
  rewrite (store_data_spec CAPACITY index _ _ sl (minv_length _ Hi) Hsl) in Hs. injection Hs as <-.
  apply update_slot_minv; try done.
  - by apply (writer_window _ _ _ _ Hi E).
  - intros v q j Hne Hq Ho. by eapply (writers_apart m w v).
  - intros j Hj. by eapply (reader_apart m w).
  - simpl. split; [done|]. split; [lia|]. eexists. split; [apply (at_slot_insert_eq CAPACITY), Hi|done].
  - intros i. simpl. by intros [= <-].
Qed.

Lemma release_minv w m m' : minv m → writer_step CAPACITY content (Release w) m = Ok m' → minv m'.
Proof.
  intros Hi Hs. simpl in Hs. outcome_step Hs. apply deref_Ok in E. destruct a as [| | |index x]; [done..|].
  pose proof (minv_writers _ Hi _ _ E) as (-> & Hindex & sl & Hsl & Hl & Hd).
  rewrite (store_status_spec CAPACITY index _ _ sl (minv_length _ Hi) Hsl) in Hs. injection Hs as <-.
  apply update_slot_minv; try done.
  - by apply (writer_window _ _ _ _ Hi E).
  - intros v q j Hne Hq Ho. by eapply (writers_apart m w v).
  - intros j Hj. by eapply (reader_apart m w).
Qed.

Lemma poll_minv m m' : minv m → mbounded m → reader_step CAPACITY Poll m = Ok m' → minv m'.
Proof.
  intros Hi Hb Hs. simpl in Hs. destruct (reader m) eqn:Hr; [|done..]. outcome_step Hs. injection Hs as <-.
  case_decide as Hst; [|done]. subst a. pose proof (reader_index_bounds _ Hi Hb) as [Hpos _].
  assert (low m = reader_index_ (shared m)) as Hlow by (unfold low; by rewrite Hr).
  destruct (at_slot_exists CAPACITY (buffer_ (shared m)) (reader_index_ (shared m)) (minv_length _ Hi)) as [sl Hsl].
  rewrite (load_status_spec CAPACITY _ _ sl Hpos Hsl) in E. injection E as Hst.
  destruct Hi. split; try done; unfold low in *; simpl in *; rewrite ?Hlow in *; try done.
  unfold reader_ok. simpl. split; [by exists sl|]. split; [lia|done].
Qed.

Lemma take_minv m m' : minv m → mbounded m → reader_step CAPACITY Take m = Ok m' → minv m'.
Proof.
  intros Hi Hb Hs. simpl in Hs. destruct (reader m) as [|index| |] eqn:Hr; [done| |done..]. outcome_step Hs. injection Hs as <-.
  pose proof (reader_ready m index Hi ltac:(by rewrite Hr)) as (sl & Hsl & Hst).
  pose proof (reader_window m index Hi ltac:(by rewrite Hr)) as Hw.
  assert (a = content index) as ->.
  { unfold load_data, slot_of in E. rewrite mask_mod in E by done. apply (at_slot_get CAPACITY) in Hsl as Hget.
    unfold slot_at in Hget. rewrite Hget in E. cbn [mbind outcome_bind] in E.
    rewrite (minv_ready _ Hi index sl Hw Hsl Hst) in E. by injection E as <-. }
  pose proof (minv_reader _ Hi) as Hrd. unfold reader_ok in Hrd. rewrite Hr in Hrd.
  assert (low m = reader_index_ (shared m)) as Hlow by (unfold low; by rewrite Hr).
  destruct Hi. split; try done; unfold low in *; simpl in *; rewrite ?Hlow in *; try done.
  unfold reader_ok. simpl. naive_solver.
Qed.

Lemma advance_minv m m' : minv m → mbounded m → reader_step CAPACITY Advance m = Ok m' → minv m'.
Proof.
  intros Hi Hb Hs. simpl in Hs. destruct (reader m) as [| |index x|] eqn:Hr; [done..| |done]. injection Hs as <-.
  pose proof (reader_index_bounds _ Hi Hb) as [Hpos Hlt]. pose proof (pot_pos (c := CAPACITY)) as Hcap.
  pose proof (minv_reader _ Hi) as Hrd. unfold reader_ok in Hrd. rewrite Hr in Hrd. destruct Hrd as (Hready & Hindex & ->).
  assert (u64 (reader_index_ (shared m) + 1) = reader_index_ (shared m) + 1) as Hsucc
    by (apply uwrap_small; unfold in_u; lia).
  assert (∀ w p i, writers m !! w = Some p → owned p = Some i → reader_index_ (shared m) ≠ i) as Hne.
  { intros w p i Hw Ho <-. apply (reader_apart m w p _ (reader_index_ (shared m)) Hi Hw Ho); [rewrite Hr; simpl; f_equal; lia|done]. }
  pose proof (minv_low _ Hi) as Hlow. unfold low in Hlow. rewrite Hr in Hlow. destruct Hi.
  split; try done; unfold low in *; rewrite ?Hr in *; simpl in *; rewrite ?Hsucc; try done.
  - lia.
  - intros i sl Hi Hsl. apply minv_ready0; [lia|done].
  - intros w p Hw. pose proof (minv_writers0 _ _ Hw) as Hok. pose proof (Hne w p) as Hnw.
    destruct p as [|j y|j y|j y]; simpl in *; rewrite ?Hsucc; [done|naive_solver lia|..];
      specialize (Hnw j Hw eq_refl); naive_solver lia.
  - unfold reader_ok. simpl. rewrite Hsucc. split; [done|]. split; [lia|done].
Qed.

Lemma free_minv m m' : minv m → mbounded m → reader_step CAPACITY Free m = Ok m' → minv m'.
Proof.
  intros Hi Hb Hs. simpl in Hs. destruct (reader m) as [| | |index x] eqn:Hr; [done..|].
  pose proof (reader_ready m index Hi ltac:(by rewrite Hr)) as (sl & Hsl & Hst).
  rewrite (store_status_spec CAPACITY index _ _ sl (minv_length _ Hi) Hsl) in Hs. injection Hs as <-.
  pose proof (minv_reader _ Hi) as Hrd. unfold reader_ok in Hrd. rewrite Hr in Hrd. destruct Hrd as (_ & Hindex & ->).
  pose proof (minv_low _ Hi) as Hlow. unfold low in Hlow. rewrite Hr in Hlow.
  assert (low m = index) as Hlm by (unfold low; by rewrite Hr).
  assert (∀ w p i, writers m !! w = Some p → owned p = Some i → slot_at CAPACITY index ≠ slot_at CAPACITY i) as Hne.
  { intros w p i Hw Ho. apply not_eq_sym, (reader_apart m w p i index Hi Hw Ho). by rewrite Hr. }
  pose proof (window_apart m) as Hapart. pose proof Hi as Hi0. destruct Hi. split; simpl; try done.
  - by rewrite length_insert.
  - unfold low. simpl. rewrite length_app. simpl. lia.
  - rewrite length_app, minv_out0 at 1. simpl.
    replace (Z.of_nat (length (out m) + 1)) with (Z.of_nat (length (out m)) + 1) by lia.
    rewrite seqZ_app, fmap_app by lia. simpl. by rewrite Z.add_0_l, <- Hlow. 
  - unfold low. simpl. intros i sl' Hw Hsl' Hst'. destruct (decide (i = index + CAPACITY)) as [->|Hni].
    + unfold at_slot in Hsl'. rewrite (slot_at_shift CAPACITY) in Hsl'.
      rewrite list_lookup_insert_eq in Hsl' by (by eapply lookup_lt_Some). by injection Hsl' as <-.
    + rewrite (at_slot_insert_ne CAPACITY) in Hsl' by (apply Hapart; (done || lia)).
      apply minv_ready0; [lia|done..].
  - intros w p Hw. pose proof (minv_writers0 _ _ Hw) as Hok.
    destruct p; simpl in *; try done; rewrite (at_slot_insert_ne CAPACITY) by (by eapply Hne); done.
Qed.

Lemma step_minv a m m' : minv m → mbounded m → timely a m → step CAPACITY content a m = Ok m' → minv m'.
Proof.
  intros Hi Hb Ht Hs. destruct a; unfold step in Hs.
  - by eapply begin_minv.
  - by eapply claim_minv.
  - by eapply store_minv.
  - by eapply release_minv.
  - by eapply poll_minv.
  - by eapply take_minv.
  - by eapply advance_minv.
  - by eapply free_minv.
Qed.

Lemma step_out a m m' : step CAPACITY content a m = Ok m' → (length (out m) ≤ length (out m'))%nat.
Proof.
  intros Hs. destruct a; unfold step, writer_step, reader_step in Hs; outcome_inv Hs; simpl;
    rewrite ?length_app; repeat case_match; simpl; lia.
Qed.

Lemma reachable_minv n m : reachable CAPACITY content n r0 m → mbounded m → minv m.
Proof.
  induction 1 as [|m a m' _ IH Ht Hs]; intros Hb; [apply start_minv|].
  pose proof (step_out _ _ _ Hs). assert (mbounded m) by (unfold mbounded in *; lia). by eapply step_minv; [apply IH|..].
Qed.

Lemma machine_run_reachable n actions m m' : reachable CAPACITY content n r0 m →
  (∀ k a m1, actions !! k = Some a → run CAPACITY content (take k actions) m = Ok m1 → timely a m1) →
  run CAPACITY content actions m = Ok m' → reachable CAPACITY content n r0 m'.
Proof.
  revert m. induction actions as [|a actions IH]; intros m Hm Ht Hrun; simpl in Hrun; [by injection Hrun as <-|].
  destruct (step CAPACITY content a m) as [m1| |] eqn:Hs; [|done..]. cbn in Hrun. apply (IH m1); [| |done].
  - apply (reachable_step CAPACITY content n r0 m a m1); [done|by apply (Ht 0%nat a m)|done].
  - intros k b m2 Hk Hr. apply (Ht (S k) b m2); [done|]. simpl. by rewrite Hs.
Qed.
End MachineProofs.

(** C34: Every script of writes (any index, any data) and consumes behaves as a
    window of pending data over the next index: a write is Success exactly once
    per index, AlreadyWritten for a duplicate or a consumed index, refused when it
    is CAPACITY - 1 or more ahead (naming the slow side), and consumption yields
    the data in index order, waiting at a gap. *)
Theorem reorder_buffer_refines_window {T} (CAPACITY r : Z) `{PowerOfTwo CAPACITY} (script : list (buffer_op T)) :
  0 ≤ r → r + Z.of_nat (length script) + CAPACITY ≤ 2 ^ 64 →
  ∃ s, run_buffer CAPACITY script (init CAPACITY r) =
      Ok ((run_window CAPACITY script {| next := r; pending := ∅ |}).1, s) ∧
    reader_index_ s = next (run_window CAPACITY script {| next := r; pending := ∅ |}).2.
Proof.
  intros Hr Hb. destruct (run_buffer_window CAPACITY script (init CAPACITY r) {| next := r; pending := ∅ |})
    as (s & Hs & Hrep); [apply (init_rep CAPACITY); [done|]; rewrite <- Z.add_assoc in Hb; lia|done|]. exists s. split; [done|apply Hrep].
Qed.

(** For any number of writers interleaved with the reader, if no writer
    claims a slot after the reader has passed its index, the reader outputs the
    content of the indices from the first on, each once and in order, and no two
    threads ever access the same slot. *)
Theorem reorder_buffer_in_order {T} (CAPACITY : Z) `{PowerOfTwo CAPACITY} (content : Z → T) (r : Z) (n : nat)
    (m : machine T) :
  0 ≤ r → reachable CAPACITY content n r m → r + Z.of_nat (length (out m)) + CAPACITY + 1 < 2 ^ 64 →
  out m = content <$> seqZ r (Z.of_nat (length (out m))) ∧
  (∀ w p i j, writers m !! w = Some p → owned p = Some i → reading (reader m) = Some j →
    slot_of CAPACITY i ≠ slot_of CAPACITY j) ∧
  (∀ v w p q i j, writers m !! v = Some p → writers m !! w = Some q → v ≠ w →
    owned p = Some i → owned q = Some j → slot_of CAPACITY i ≠ slot_of CAPACITY j).
Proof.
  intros Hr Hm Hb. pose proof (reachable_minv CAPACITY content r Hr n m Hm Hb) as Hi. unfold slot_of. split_and!.
  - apply (minv_out _ _ _ _ Hi).
  - intros w p i j Hw Ho Hj. rewrite !mask_mod by done. by apply (reader_apart CAPACITY content r m w p).
  - intros v w p q i j Hv Hw Hne Hp Hq. rewrite !mask_mod by done.
    by apply (writers_apart CAPACITY content r m v w p q).
Qed.

(** One write and one consumption without interference. *)
Definition write_actions (w : nat) (index : Z) : list action := [Begin w index; Claim w; Store w; Release w].
Definition consume_actions : list action := [Poll; Take; Advance; Free].

Definition stale_trace : list action :=
  [Begin 0 1] ++ write_actions 1 1 ++ consume_actions ++ [Claim 0; Store 0; Release 0] ++
  write_actions 1 2 ++ consume_actions ++ write_actions 1 3 ++ consume_actions ++
  write_actions 1 4 ++ consume_actions ++ consume_actions.

(** Without that condition the order is lost: a writer that passed the test
    of [validate_and_claim_slot] and claims only after the same index was written
    by another writer and consumed leaves its stale data in the slot, and one
    round later the reader outputs it as the data of a newer index. *)
Theorem reorder_buffer_stale_claim {T} (content : Z → T) :
  ∃ m, run 4 content stale_trace (start 4 2 1) = Ok m ∧ out m = content <$> [1; 2; 3; 4; 1].
Proof. eexists. split; [vm_compute; reflexivity|done]. Qed.

#[local] Instance capacity_four : PowerOfTwo 4.
Proof. by apply pot_check. Qed.

Definition window_script : list (buffer_op Z) :=
  [Write 20 2; Consume; Write 10 1; Write 11 1; Consume; Consume; Consume; Write 60 6; Write 10 1].

Example window_script_out : (run_window 4 window_script {| next := 1; pending := ∅ |}).1 =
  [inl Success; inr None; inl Success; inl AlreadyWritten; inr (Some 10); inr (Some 20); inr None;
   inl LikelySlowWriter; inl AlreadyWritten].
Proof. reflexivity. Qed.

Lemma reorder_buffer_refines_window_witness :
  ∃ s, run_buffer 4 window_script (init 4 1) =
    Ok ([inl Success; inr None; inl Success; inl AlreadyWritten; inr (Some 10); inr (Some 20); inr None;
         inl LikelySlowWriter; inl AlreadyWritten], s) ∧ reader_index_ s = 3.
Proof.
  destruct (reorder_buffer_refines_window 4 1 window_script ltac:(lia) ltac:(vm_compute; intros Hc; discriminate Hc))
    as (s & Hs & Hn). exists s. split; [exact Hs|exact Hn].
Defined.

Definition racing_trace : list action :=
  [Begin 0 2; Begin 1 1; Claim 0; Claim 1; Store 1; Store 0; Release 1; Poll; Take; Begin 1 2; Release 0; Claim 1;
   Advance; Free; Poll; Begin 0 3; Claim 0; Take; Advance; Store 0].

Lemma racing_trace_reachable :
  ∃ m, run 4 (λ i, 10 * i) racing_trace (start 4 2 1) = Ok m ∧ reachable 4 (λ i, 10 * i) 2 1 m ∧
    length (out m) = 1%nat.
Proof.
  destruct (run 4 (λ i, 10 * i) racing_trace (start 4 2 1)) as [m| |] eqn:Hrun; [|vm_compute in Hrun; discriminate Hrun..].
  exists m. split; [done|]. split; [|vm_compute in Hrun; by injection Hrun as <-].
  eapply machine_run_reachable; [apply reachable_start| |exact Hrun].
  intros k a m1 Hk Hr. do 20 (destruct k as [|k]; [simpl in Hk; injection Hk as <-;
    try exact I; vm_compute in Hr; injection Hr as <-; intros index x Hw; vm_compute in Hw; injection Hw as <- <-;
    vm_compute; intros Hc; discriminate Hc|]). discriminate Hk.
Qed.

Lemma reorder_buffer_in_order_witness :
  ∃ m, run 4 (λ i, 10 * i) racing_trace (start 4 2 1) = Ok m ∧ out m = [10].
Proof.
  destruct racing_trace_reachable as (m & Hrun & Hm & Hlen).
  destruct (reorder_buffer_in_order 4 (λ i, 10 * i) 1 2 m ltac:(lia) Hm ltac:(rewrite Hlen; lia)) as (Hout & _).
  exists m. split; [exact Hrun|]. rewrite Hlen in Hout. exact Hout.
Defined.
End ReorderBuffer.
