(* ===== verification/ReorderOrder.v ===== *)
(** * ReorderBuffer under its memory orders ([includes/utils/reorder-buffer.hpp])

    [ReorderBuffer.Machine] interleaves the accesses as sequentially consistent.  Here an
    atomic is the list of its stores, and a load may return any of them
    that is not older than what the thread knows of; a thread's knowledge is
    a view.  A release store carries the view of its thread and an acquire load joins it;
    [compare_exchange_strong] reads the newest store when it succeeds, and passes the carried view on (the
    release sequence), but may fail on an older one.  [BufferSlot::data] is not atomic: an access to
    it that does not know of all accesses before it is a data race, [Undefined].  Up to the first
    race the accesses to a slot happen one after the other, so that a view need only count them. *)

From Stdlib Require Import ZifyNat.
From stdpp Require Import functions.
From S2P Require Import Prelude Ring ReorderBuffer.

Module ReorderOrder.
Import ReorderBuffer(WriteStatus, LikelySlowReader, LikelySlowWriter, Success, AlreadyWritten,
  Status, Empty, Locked, Ready, Status_eq_dec, WriteStatus_eq_dec, slot_of, too_far_ahead).

(** The newest store known of [reader_index_] and of the [status] of each slot,
    and how many accesses to its [data]. *)
Record view : Type := { index_seen : nat; status_seen : Z → nat; data_seen : Z → nat }.

Definition no_view : view := {| index_seen := 0; status_seen _ := O; data_seen _ := O |}.
Definition join (v v' : view) : view := {|
  index_seen := max (index_seen v) (index_seen v');
  status_seen slot := max (status_seen v slot) (status_seen v' slot);
  data_seen slot := max (data_seen v slot) (data_seen v' slot);
|}.
Definition see_index (store : nat) (v : view) : view :=
  {| index_seen := max store (index_seen v); status_seen := status_seen v; data_seen := data_seen v |}.
Definition see_status (slot : Z) (store : nat) (v : view) : view :=
  {| index_seen := index_seen v; status_seen := <[slot := max store (status_seen v slot)]> (status_seen v);
     data_seen := data_seen v |}.
Definition see_data (slot : Z) (count : nat) (v : view) : view :=
  {| index_seen := index_seen v; status_seen := status_seen v; data_seen := <[slot := count]> (data_seen v) |}.

(** [BufferSlot]: the stores of [status] with the views they carry; [accesses]
    counts those to [data]. *)
Record BufferSlot (T : Type) : Type := {
  status_stores : list (Status * view);
  data : option T;
  accesses : nat;
}.
Arguments status_stores {T} _.
Arguments data {T} _.
Arguments accesses {T} _.

(** Where a writer is in [try_write_to]: after the tests, before the access
    that the second test or the next statement makes. *)
Inductive writer_phase (T : Type) : Type :=
  | WriterIdle
  | TooFar (index reader_index : Z)
  | Checked (index : Z)
  | Claimed (index : Z)
  | Stored (index : Z).
Arguments WriterIdle {T}.
Arguments TooFar {T} index reader_index.
Arguments Checked {T} index.
Arguments Claimed {T} index.
Arguments Stored {T} index.

Inductive reader_phase (T : Type) : Type :=
  | ReaderIdle
  | SawReady (reader_index : Z)
  | Took (reader_index : Z) (item : T)
  | Advanced (reader_index : Z) (item : T).
Arguments ReaderIdle {T}.
Arguments SawReady {T} reader_index.
Arguments Took {T} reader_index item.
Arguments Advanced {T} reader_index item.

(** [out]: the items the reader returned; [claims]: the claimed indices;
    [answers]: what each finished [try_write_to] returned. *)
Record t (T : Type) : Type := {
  index_stores : list (Z * view);
  buffer_ : list (BufferSlot T);
  writers : list (writer_phase T * view);
  reader : reader_phase T;
  reader_view : view;
  out : list T;
  claims : list Z;
  answers : list (Z * WriteStatus);
}.
Arguments index_stores {T} _.
Arguments buffer_ {T} _.
Arguments writers {T} _.
Arguments reader {T} _.
Arguments reader_view {T} _.
Arguments out {T} _.
Arguments claims {T} _.
Arguments answers {T} _.

(** [store]: which store the load returns. *)
Inductive action : Type :=
  | Begin (w : nat) (index : Z) (store : nat)
  | CheckStatus (w : nat) (store : nat)
  | Claim (w : nat)
  | ClaimFails (w : nat) (store : nat)
  | Store (w : nat)
  | Release (w : nat)
  | Poll (store : nat)
  | Take
  | Advance
  | Free.

Section Definitions.
Context {T : Type} (CAPACITY : Z) (content : Z → T).
Implicit Types (m : t T) (v : view) (w : nat).

Definition start (writers : nat) (initial_reader_index : Z) : t T := {|
  index_stores := [(initial_reader_index, no_view)];
  buffer_ := replicate (Z.to_nat CAPACITY) {| status_stores := [(Empty, no_view)]; data := None; accesses := 0 |};
  writers := replicate writers (WriterIdle, no_view);
  reader := ReaderIdle; reader_view := no_view; out := []; claims := []; answers := [];
|}.

(** ** The accesses *)

(** [reader_index_.load(std::memory_order_acquire)] *)
Definition load_index (store : nat) v m : option (Z * view) :=
  if (store <? index_seen v)%nat then None else
  '(value, released) ← index_stores m !! store; Some (value, see_index store (join v released)).

(** [status.load(std::memory_order_acquire)] *)
Definition load_status (slot : Z) (store : nat) v m : option (Status * view) :=
  if (store <? status_seen v slot)%nat then None else
  sl ← buffer_ m !! Z.to_nat slot;
  '(st, released) ← status_stores sl !! store; Some (st, see_status slot store (join v released)).

(** [compare_exchange_strong(expected, Status::Locked)], both orders relaxed: success, and failure on [store]. *)
Definition claim_slot (slot : Z) v m : option (BufferSlot T * view) :=
  sl ← buffer_ m !! Z.to_nat slot;
  '(st, released) ← last (status_stores sl);
  if decide (st = Empty) then
    Some ({| status_stores := status_stores sl ++ [(Locked, released)]; data := data sl; accesses := accesses sl |},
      see_status slot (length (status_stores sl)) v)
  else None.
Definition claim_fails (slot : Z) (store : nat) v m : option view :=
  if (store <? status_seen v slot)%nat then None else
  sl ← buffer_ m !! Z.to_nat slot;
  '(st, _) ← status_stores sl !! store;
  if decide (st = Empty) then None else Some (see_status slot store v).

(** [status.store(st, std::memory_order_release)] *)
Definition store_status (slot : Z) (st : Status) v m : option (BufferSlot T * view) :=
  sl ← buffer_ m !! Z.to_nat slot;
  let v := see_status slot (length (status_stores sl)) v in
  Some ({| status_stores := status_stores sl ++ [(st, v)]; data := data sl; accesses := accesses sl |}, v).

(** The plain accesses to [data]. *)
Definition store_data (slot : Z) (x : T) v m : option (outcome (BufferSlot T * view)) :=
  sl ← buffer_ m !! Z.to_nat slot;
  if (data_seen v slot <? accesses sl)%nat then Some Undefined else
  Some (Ok ({| status_stores := status_stores sl; data := Some x; accesses := S (accesses sl) |},
    see_data slot (S (accesses sl)) v)).
Definition load_data (slot : Z) v m : option (outcome (T * (BufferSlot T * view))) :=
  sl ← buffer_ m !! Z.to_nat slot;
  if (data_seen v slot <? accesses sl)%nat then Some Undefined else
  Some (x ← deref (data sl);
    Ok (x, ({| status_stores := status_stores sl; data := data sl; accesses := S (accesses sl) |},
      see_data slot (S (accesses sl)) v))).

(** ** The calls *)

Definition set_writer w (p : writer_phase T) v m : t T := {|
  index_stores := index_stores m; buffer_ := buffer_ m; writers := <[w := (p, v)]> (writers m); reader := reader m;
  reader_view := reader_view m; out := out m; claims := claims m; answers := answers m;
|}.
Definition set_slot (slot : Z) (sl : BufferSlot T) m : t T := {|
  index_stores := index_stores m; buffer_ := <[Z.to_nat slot := sl]> (buffer_ m); writers := writers m; reader := reader m;
  reader_view := reader_view m; out := out m; claims := claims m; answers := answers m;
|}.
Definition set_reader (r : reader_phase T) v m : t T := {|
  index_stores := index_stores m; buffer_ := buffer_ m; writers := writers m; reader := r;
  reader_view := v; out := out m; claims := claims m; answers := answers m;
|}.
Definition add_claim (index : Z) m : t T := {|
  index_stores := index_stores m; buffer_ := buffer_ m; writers := writers m; reader := reader m;
  reader_view := reader_view m; out := out m; claims := claims m ++ [index]; answers := answers m;
|}.
Definition finish w (index : Z) (status : WriteStatus) v m : t T := {|
  index_stores := index_stores m; buffer_ := buffer_ m; writers := <[w := (WriterIdle, v)]> (writers m); reader := reader m;
  reader_view := reader_view m; out := out m; claims := claims m; answers := answers m ++ [(index, status)];
|}.

(** [validate_and_claim_slot]: the load of the reader index and the tests on it. *)
Definition begin_ w (index : Z) (store : nat) m : option (t T) :=
  '(p, v) ← writers m !! w;
  match p with
  | WriterIdle =>
      '(reader_index, v) ← load_index store v m;
      Some (if too_far_ahead CAPACITY index reader_index then set_writer w (TooFar index reader_index) v m
            else if index <? reader_index then finish w index AlreadyWritten v m
            else set_writer w (Checked index) v m)
  | _ => None
  end.
Definition check_status w (store : nat) m : option (t T) :=
  '(p, v) ← writers m !! w;
  match p with
  | TooFar index reader_index =>
      '(st, v) ← load_status (slot_of CAPACITY reader_index) store v m;
      Some (finish w index (if decide (st = Ready) then LikelySlowReader else LikelySlowWriter) v m)
  | _ => None
  end.

(** [try_claim_slot] *)
Definition claim w m : option (t T) :=
  '(p, v) ← writers m !! w;
  match p with
  | Checked index =>
      '(sl, v) ← claim_slot (slot_of CAPACITY index) v m;
      Some (set_writer w (Claimed index) v (add_claim index (set_slot (slot_of CAPACITY index) sl m)))
  | _ => None
  end.
Definition refuse w (store : nat) m : option (t T) :=
  '(p, v) ← writers m !! w;
  match p with
  | Checked index =>
      v ← claim_fails (slot_of CAPACITY index) store v m;
      Some (finish w index AlreadyWritten v m)
  | _ => None
  end.

(** The rest of [try_write_to]: the data, of which the writers of an index
    have the same, and the release store. *)
Definition write w m : option (outcome (t T)) :=
  '(p, v) ← writers m !! w;
  match p with
  | Claimed index =>
      result ← store_data (slot_of CAPACITY index) (content index) v m;
      Some ('(sl, v) ← result; Ok (set_writer w (Stored index) v (set_slot (slot_of CAPACITY index) sl m)))
  | _ => None
  end.
Definition publish w m : option (t T) :=
  '(p, v) ← writers m !! w;
  match p with
  | Stored index =>
      '(sl, v) ← store_status (slot_of CAPACITY index) Ready v m;
      Some (finish w index Success v (set_slot (slot_of CAPACITY index) sl m))
  | _ => None
  end.

(** [reader_index_] as its only writer reads it. *)
Definition reader_index_ m : Z := (default (0, no_view) (last (index_stores m))).1.

(** [try_consume_next] *)
Definition poll (store : nat) m : option (t T) :=
  match reader m with
  | ReaderIdle =>
      '(st, v) ← load_status (slot_of CAPACITY (reader_index_ m)) store (reader_view m) m;
      Some (set_reader (if decide (st = Ready) then SawReady (reader_index_ m) else ReaderIdle) v m)
  | _ => None
  end.
Definition take_ m : option (outcome (t T)) :=
  match reader m with
  | SawReady index =>
      result ← load_data (slot_of CAPACITY index) (reader_view m) m;
      Some ('(x, (sl, v)) ← result; Ok (set_reader (Took index x) v (set_slot (slot_of CAPACITY index) sl m)))
  | _ => None
  end.
Definition advance m : option (t T) :=
  match reader m with
  | Took index x =>
      let v := see_index (length (index_stores m)) (reader_view m) in
      Some {| index_stores := index_stores m ++ [(u64 (reader_index_ m + 1), v)]; buffer_ := buffer_ m;
              writers := writers m; reader := Advanced index x; reader_view := v; out := out m;
              claims := claims m; answers := answers m |}
  | _ => None
  end.
Definition free m : option (t T) :=
  match reader m with
  | Advanced index x =>
      '(sl, v) ← store_status (slot_of CAPACITY index) Empty (reader_view m) m;
      Some {| index_stores := index_stores m; buffer_ := <[Z.to_nat (slot_of CAPACITY index) := sl]> (buffer_ m);
              writers := writers m; reader := ReaderIdle; reader_view := v; out := out m ++ [x];
              claims := claims m; answers := answers m |}
  | _ => None
  end.

(** [None]: the action is not possible; [Some Undefined]: a data race. *)
Definition step (a : action) m : option (outcome (t T)) :=
  match a with
  | Begin w index store => Ok <$> begin_ w index store m
  | CheckStatus w store => Ok <$> check_status w store m
  | Claim w => Ok <$> claim w m
  | ClaimFails w store => Ok <$> refuse w store m
  | Store w => write w m
  | Release w => Ok <$> publish w m
  | Poll store => Ok <$> poll store m
  | Take => take_ m
  | Advance => Ok <$> advance m
  | Free => Ok <$> free m
  end.

(** A claim comes before the reader passes the index. *)
Definition timely (a : action) m : bool :=
  match a with
  | Claim w => match writers m !! w with Some (Checked index, _) => reader_index_ m <=? index | _ => true end
  | _ => true
  end.

Inductive reachable (n : nat) (r : Z) : t T → Prop :=
  | reachable_start : reachable n r (start n r)
  | reachable_step m a m' : reachable n r m → timely a m = true → step a m = Some (Ok m') → reachable n r m'.

Fixpoint run (actions : list action) m : option (outcome (t T)) :=
  match actions with
  | [] => Some (Ok m)
  | a :: actions =>
      result ← step a m;
      match result with Ok m => run actions m | _ => Some Undefined end
  end.
End Definitions.

Section Proofs.
Context {T : Type} (CAPACITY : Z) {HC : PowerOfTwo CAPACITY} (content : Z → T) (r0 : Z) (Hr0 : 0 ≤ r0).
Implicit Types (m : t T) (v : view) (i index : Z) (sl : BufferSlot T) (w p : nat).
Abbreviation slot := (slot_at CAPACITY).
Abbreviation at_ i m := (at_slot CAPACITY (buffer_ m) i).
#[local] Arguments Nat.mul : simpl never.
#[local] Arguments Nat.modulo : simpl never.
#[local] Arguments Nat.div : simpl never.

(** ** Rounds

    The indices of a slot use it in turn; [round i] is the turn of [i].  In
    each the status is stored three times and the data accessed twice. *)

Definition round i : nat := Z.to_nat ((i - r0) / CAPACITY).

Lemma round_next i : r0 ≤ i → round (i + CAPACITY) = S (round i).
Proof.
  intros Hi. pose proof (pot_pos (c := CAPACITY)). unfold round.
  replace (i + CAPACITY - r0) with (i - r0 + 1 * CAPACITY) by lia. rewrite Z.div_add by lia.
  rewrite Z2Nat.inj_add by (try apply Z.div_pos; lia). lia.
Qed.

Lemma round_first i : r0 ≤ i < r0 + CAPACITY → round i = O.
Proof. intros Hi. unfold round. rewrite Z.div_small by lia. done. Qed.

(** The kind of each store of a status. *)
Definition kind (p : nat) : Status := match (p mod 3)%nat with O => Empty | 1%nat => Locked | _ => Ready end.

Lemma kind_locked j : kind (3 * j + 1) = Locked.
Proof. unfold kind. by replace ((3 * j + 1) mod 3)%nat with 1%nat by lia. Qed.
Lemma kind_ready j : kind (3 * j + 2) = Ready.
Proof. unfold kind. by replace ((3 * j + 2) mod 3)%nat with 2%nat by lia. Qed.
Lemma kind_empty j : kind (3 * j) = Empty.
Proof. unfold kind. by replace ((3 * j) mod 3)%nat with O by lia. Qed.

(** ** Views *)

(** What follows from having seen a store of the reader index: the items
    before it were read, and all slots but the last were freed. *)
Definition view_knows v : Prop := ∀ i, r0 ≤ i →
  (i < r0 + Z.of_nat (index_seen v) → (2 * round i + 2 ≤ data_seen v (slot i))%nat) ∧
  (i + 1 < r0 + Z.of_nat (index_seen v) → (3 * round i + 3 ≤ status_seen v (slot i))%nat).

(** A view is of stores and accesses that were made. *)
Definition view_within m v : Prop :=
  (index_seen v < length (index_stores m))%nat ∧
  ∀ i sl, at_ i m = Some sl →
    (status_seen v (slot i) < length (status_stores sl))%nat ∧ (data_seen v (slot i) ≤ accesses sl)%nat.

Definition view_ok m v : Prop := view_knows v ∧ view_within m v.

Lemma join_ok m v v' : view_ok m v → view_ok m v' → view_ok m (join v v').
Proof.
  intros [Hk [Hi Hw]] [Hk' [Hi' Hw']]. split.
  - intros i H0. simpl. destruct (Hk i H0) as [H1 H2]. destruct (Hk' i H0) as [H1' H2'].
    destruct (Nat.max_spec (index_seen v) (index_seen v')) as [[_ ->]|[_ ->]]; split; intros Hlt.
    + specialize (H1' Hlt). lia.
    + specialize (H2' Hlt). lia.
    + specialize (H1 Hlt). lia.
    + specialize (H2 Hlt). lia.
  - split; simpl; [lia|]. intros i sl Hsl. destruct (Hw i sl Hsl). destruct (Hw' i sl Hsl). split; lia.
Qed.

(** The memory only grows. *)
Definition grows m m' : Prop :=
  (length (index_stores m) ≤ length (index_stores m'))%nat ∧
  ∀ i sl', at_ i m' = Some sl' → ∃ sl, at_ i m = Some sl ∧
    (length (status_stores sl) ≤ length (status_stores sl'))%nat ∧ (accesses sl ≤ accesses sl')%nat.

Lemma view_ok_grows m m' v : grows m m' → view_ok m v → view_ok m' v.
Proof.
  intros [Hl Hg] [Hk [Hi Hw]]. split; [done|]. split; [lia|]. intros i sl' Hsl'.
  destruct (Hg i sl' Hsl') as (sl & Hsl & ? & ?). destruct (Hw i sl Hsl). split; lia.
Qed.

Lemma see_status_ok m v i sl p : view_ok m v → at_ i m = Some sl → (p < length (status_stores sl))%nat →
  view_ok m (see_status (slot i) p v).
Proof.
  intros [Hk [Hi Hw]] Hsl Hp. split.
  - intros j Hj. destruct (Hk j Hj) as [H1 H2]. split; [done|]. simpl. intros Hlt. specialize (H2 Hlt).
    destruct (decide (slot i = slot j)) as [He|Hne]; [rewrite He in *; rewrite fn_lookup_insert; lia|by rewrite fn_lookup_insert_ne].
  - split; [done|]. intros j sl' Hj. simpl. destruct (Hw j sl' Hj). split; [|done].
    destruct (decide (slot i = slot j)) as [He|Hne]; [|by rewrite fn_lookup_insert_ne].
    unfold at_slot in *. rewrite He in *. rewrite fn_lookup_insert. assert (sl' = sl) as -> by congruence. lia.
Qed.

Lemma see_data_ok m v i sl n : view_ok m v → at_ i m = Some sl → (data_seen v (slot i) ≤ n ≤ accesses sl)%nat →
  view_ok m (see_data (slot i) n v).
Proof.
  intros [Hk [Hi Hw]] Hsl Hp. split.
  - intros j Hj. destruct (Hk j Hj) as [H1 H2]. split; [|done]. simpl. intros Hlt. specialize (H1 Hlt).
    destruct (decide (slot i = slot j)) as [He|Hne]; [rewrite He in *; rewrite fn_lookup_insert; lia|by rewrite fn_lookup_insert_ne].
  - split; [done|]. intros j sl' Hj. simpl. destruct (Hw j sl' Hj). split; [done|].
    destruct (decide (slot i = slot j)) as [He|Hne]; [|by rewrite fn_lookup_insert_ne].
    rewrite <- He, fn_lookup_insert. unfold at_slot in *. rewrite He in Hsl. assert (sl' = sl) as -> by congruence. lia.
Qed.

(** ** The memory *)

(** What the stores of a status carry: a [Ready] knows of the write. *)
Definition stores_ok m i sl : Prop := ∀ p st v, status_stores sl !! p = Some (st, v) →
  st = kind p ∧ view_ok m v ∧ ((p mod 3 = 2)%nat → (2 * (p / 3) + 1 ≤ data_seen v (slot i))%nat).

Definition memory_ok m : Prop :=
  Z.of_nat (length (buffer_ m)) = CAPACITY ∧ (0 < length (index_stores m))%nat ∧
  (∀ j value v, index_stores m !! j = Some (value, v) → value = r0 + Z.of_nat j ∧ view_ok m v ∧ (j ≤ index_seen v)%nat) ∧
  (∀ i sl, at_ i m = Some sl → stores_ok m i sl).

Lemma stores_ok_grows m m' i sl : grows m m' → stores_ok m i sl → stores_ok m' i sl.
Proof.
  intros Hg Hs p st v Hp. destruct (Hs p st v Hp) as (Hk & Hv & Hd). split; [done|]. split; [by eapply view_ok_grows|done].
Qed.

Lemma at_same_slot m i j : slot i = slot j → at_ i m = at_ j m.
Proof. unfold at_slot. by intros ->. Qed.

Lemma at_set_slot m i j sl : Z.of_nat (length (buffer_ m)) = CAPACITY →
  at_ j (set_slot (slot i) sl m) = if decide (slot i = slot j) then Some sl else at_ j m.
Proof.
  intros Hl. case_decide as He; simpl; [|by apply (at_slot_insert_ne CAPACITY)].
  unfold at_slot at 1. rewrite <- He. by apply (at_slot_insert_eq CAPACITY).
Qed.

(** [sl] continues [sl0]. *)
Definition continues sl0 sl : Prop :=
  (length (status_stores sl0) ≤ length (status_stores sl))%nat ∧ (accesses sl0 ≤ accesses sl)%nat.

Lemma set_slot_grows m i sl0 sl : Z.of_nat (length (buffer_ m)) = CAPACITY → at_ i m = Some sl0 → continues sl0 sl →
  grows m (set_slot (slot i) sl m).
Proof.
  intros Hl Hsl [Hst Hac]. split; [done|]. intros j sl'. rewrite at_set_slot by done. case_decide as He.
  - intros [= <-]. exists sl0. rewrite <- Hsl. split; [by apply at_same_slot|done].
  - intros Hj. by exists sl'.
Qed.

Lemma set_slot_memory m i sl0 sl : memory_ok m → at_ i m = Some sl0 → continues sl0 sl →
  stores_ok (set_slot (slot i) sl m) i sl → memory_ok (set_slot (slot i) sl m).
Proof.
  intros (Hl & Hpos & Hidx & Hsts) Hsl Hc Hnew. pose proof (set_slot_grows m i sl0 sl Hl Hsl Hc) as Hg. split; [|split; [done|split]].
  - simpl. by rewrite length_insert.
  - intros j value v Hj. destruct (Hidx j value v Hj) as (? & ? & ?). split; [done|]. split; [by eapply view_ok_grows|done].
  - intros j sl'. rewrite at_set_slot by done. case_decide as He.
    + intros [= <-] p st v Hp. rewrite <- He. by apply Hnew.
    + intros Hj. by eapply stores_ok_grows; [|apply Hsts].
Qed.

(** One more store of the status. *)
Lemma store_status_ok m i sl v j r : memory_ok m → at_ i m = Some sl → length (status_stores sl) = (3 * j + r)%nat → (r < 3)%nat →
  let sl' := {| status_stores := status_stores sl ++ [(kind r, v)]; data := data sl; accesses := accesses sl |} in
  view_ok (set_slot (slot i) sl' m) v → (r = 2%nat → (2 * j + 1 ≤ data_seen v (slot i))%nat) →
  memory_ok (set_slot (slot i) sl' m).
Proof.
  intros Hm Hsl Hlen Hr sl' Hv Hd. assert (continues sl sl') as Hc by (split; simpl; [rewrite length_app|]; lia).
  apply (set_slot_memory m i sl); [done..|]. intros p st v' Hp. simpl in Hp.
  apply lookup_app_Some in Hp as [Hp|[Hge Hp]].
  - destruct Hm as (Hl & _ & _ & Hsts). eapply stores_ok_grows; [by eapply set_slot_grows|by apply Hsts|done].
  - apply list_lookup_singleton_Some in Hp as [Hp [= <- <-]]. assert (p = 3 * j + r)%nat as -> by lia. unfold kind.
    replace ((3 * j + r) mod 3)%nat with r by lia. replace ((3 * j + r) / 3)%nat with j by lia.
    replace (r mod 3)%nat with r by lia. split; [done|]. split; [done|]. lia.
Qed.

Lemma access_ok m i sl x : memory_ok m → at_ i m = Some sl →
  memory_ok (set_slot (slot i) {| status_stores := status_stores sl; data := x; accesses := S (accesses sl) |} m).
Proof.
  intros Hm Hsl. set (sl' := {| status_stores := status_stores sl; data := x; accesses := S (accesses sl) |}).
  assert (continues sl sl') as Hc by (split; simpl; lia). apply (set_slot_memory m i sl); [done..|]. intros p st v Hp.
  destruct Hm as (Hl & _ & _ & Hsts). eapply stores_ok_grows; [by eapply set_slot_grows|by apply Hsts|done].
Qed.

(** ** The threads *)

Definition owned (p : writer_phase T) : option Z :=
  match p with Claimed index | Stored index => Some index | _ => None end.
Definition reading (p : reader_phase T) : option Z :=
  match p with ReaderIdle => None | SawReady index | Took index _ | Advanced index _ => Some index end.

(** The lowest index whose slot may be in use. *)
Definition low m : Z := match reader m with Advanced index _ => index | _ => reader_index_ m end.

Definition took m i : nat :=
  match reader m with Took j _ | Advanced j _ => if decide (j = i) then 1 else 0 | _ => 0 end.

(** The slot of an index of the window. *)
Definition slot_ok m i sl : Prop :=
  (3 * round i + 1 ≤ length (status_stores sl) ≤ 3 * round i + 3)%nat ∧
  (length (status_stores sl) = (3 * round i + 1)%nat → accesses sl = (2 * round i)%nat) ∧
  (length (status_stores sl) = (3 * round i + 3)%nat → data sl = Some (content i) ∧ accesses sl = (2 * round i + 1 + took m i)%nat).

Definition writer_ok m (p : writer_phase T) v : Prop :=
  view_ok m v ∧
  match p with
  | WriterIdle | TooFar _ _ => True
  | Checked i => r0 ≤ i < r0 + Z.of_nat (index_seen v) + CAPACITY - 1
  | Claimed i => low m ≤ i < low m + CAPACITY ∧ (2 * round i ≤ data_seen v (slot i))%nat ∧
      ∃ sl, at_ i m = Some sl ∧ length (status_stores sl) = (3 * round i + 2)%nat ∧ accesses sl = (2 * round i)%nat
  | Stored i => low m ≤ i < low m + CAPACITY ∧ (2 * round i + 1 ≤ data_seen v (slot i))%nat ∧
      ∃ sl, at_ i m = Some sl ∧ length (status_stores sl) = (3 * round i + 2)%nat ∧ accesses sl = (2 * round i + 1)%nat ∧
        data sl = Some (content i)
  end.

Definition reader_ok m : Prop :=
  view_ok m (reader_view m) ∧ S (index_seen (reader_view m)) = length (index_stores m) ∧
  (∀ i, r0 ≤ i < low m → (3 * round i + 3 ≤ status_seen (reader_view m) (slot i))%nat) ∧
  match reader m with
  | ReaderIdle => True
  | SawReady i | Took i _ | Advanced i _ =>
      (∃ sl, at_ i m = Some sl ∧ length (status_stores sl) = (3 * round i + 3)%nat) ∧
      reader_index_ m = i + (match reader m with Advanced _ _ => 1 | _ => 0 end) ∧
      (2 * round i + 1 + took m i ≤ data_seen (reader_view m) (slot i))%nat ∧
      match reader m with Took _ x | Advanced _ x => x = content i | _ => True end
  end.

Definition claims_ok m : Prop :=
  NoDup (claims m) ∧ (∀ i, i ∈ claims m → r0 ≤ i) ∧
  ∀ i sl, r0 ≤ i → at_ i m = Some sl → (i ∈ claims m ↔ (3 * round i + 1 < length (status_stores sl))%nat).

(** No write is answered [AlreadyWritten] unless its index was consumed or
    claimed by a writer. *)
Definition answer_ok m (answer : Z * WriteStatus) : Prop :=
  match answer.2 with
  | AlreadyWritten => answer.1 < reader_index_ m ∨ answer.1 ∈ claims m
  | Success => answer.1 ∈ claims m
  | _ => True
  end.

Record minv m : Prop := {
  minv_memory : memory_ok m;
  minv_low : low m = r0 + Z.of_nat (length (out m));
  minv_out : out m = content <$> seqZ r0 (Z.of_nat (length (out m)));
  minv_window i sl : low m ≤ i < low m + CAPACITY → at_ i m = Some sl → slot_ok m i sl;
  minv_locked i sl : low m ≤ i < low m + CAPACITY → at_ i m = Some sl → length (status_stores sl) = (3 * round i + 2)%nat →
    ∃ w (p : writer_phase T) v, writers m !! w = Some (p, v) ∧ owned p = Some i;
  minv_claims : claims_ok m;
  minv_writers w (p : writer_phase T) v : writers m !! w = Some (p, v) → writer_ok m p v;
  minv_owned k w (p q : writer_phase T) v v' i : writers m !! k = Some (p, v) → writers m !! w = Some (q, v') →
    owned p = Some i → owned q = Some i → k = w;
  minv_reader : reader_ok m;
  minv_answers : Forall (answer_ok m) (answers m);
}.

Definition mbounded m : Prop := r0 + Z.of_nat (length (out m)) + CAPACITY + 1 < 2 ^ 64.

Lemma reader_index_eq m : memory_ok m → reader_index_ m = r0 + Z.of_nat (length (index_stores m)) - 1.
Proof.
  intros (_ & Hpos & Hidx & _). unfold reader_index_. rewrite last_lookup.
  destruct (lookup_lt_is_Some_2 (index_stores m) (pred (length (index_stores m)))) as [[value v] Hj]; [lia|].
  rewrite Hj. simpl. destruct (Hidx _ _ _ Hj). lia.
Qed.

Lemma low_bounds m : minv m → r0 ≤ low m ∧ low m ≤ reader_index_ m ≤ low m + 1.
Proof.
  intros Hi. pose proof (minv_reader _ Hi) as (_ & _ & _ & Hr). pose proof (minv_low _ Hi). split; [lia|].
  unfold low in *. destruct (reader m); lia.
Qed.

Lemma reader_index_bound m : minv m → mbounded m → 0 ≤ reader_index_ m ∧ reader_index_ m + CAPACITY < 2 ^ 64.
Proof. intros Hi Hb. pose proof (low_bounds _ Hi). pose proof (minv_low _ Hi). unfold mbounded in Hb. lia. Qed.

Lemma round_mono i j : r0 ≤ i → slot i = slot j → i < j → (round i < round j)%nat.
Proof.
  intros Hi Hs Hlt. pose proof (slot_at_far CAPACITY i j Hs Hlt). pose proof (pot_pos (c := CAPACITY)).
  assert (round (i + CAPACITY) ≤ round j)%nat; [|rewrite round_next in *; lia].
  unfold round. apply Z2Nat.inj_le; [apply Z.div_pos; lia..|]. apply Z.div_le_mono; lia.
Qed.

Lemma window_separate m i j : low m ≤ i < low m + CAPACITY → low m ≤ j < low m + CAPACITY → i ≠ j → slot i ≠ slot j.
Proof. intros ? ? Hne He. apply Hne, (slot_at_inj CAPACITY); [done|lia]. Qed.

(** A slot that a writer owns is [Locked], one the reader is at [Ready]. *)
Lemma owned_length m w (p : writer_phase T) v i : minv m → writers m !! w = Some (p, v) → owned p = Some i →
  low m ≤ i < low m + CAPACITY ∧ ∃ sl, at_ i m = Some sl ∧ length (status_stores sl) = (3 * round i + 2)%nat.
Proof.
  intros Hi Hw Ho. pose proof (minv_writers _ Hi _ _ _ Hw) as [_ Hok].
  destruct p; simpl in *; simplify_eq; destruct Hok as (? & ? & sl & ? & ? & ?); (split; [done|by exists sl]).
Qed.

Lemma reading_length m i : minv m → reading (reader m) = Some i →
  i = low m ∧ ∃ sl, at_ i m = Some sl ∧ length (status_stores sl) = (3 * round i + 3)%nat.
Proof.
  intros Hi Ho. pose proof (minv_reader _ Hi) as (_ & _ & _ & Hok). unfold low.
  destruct (reader m); simpl in *; simplify_eq; (split; [lia|apply Hok]).
Qed.

Lemma reading_window m i : minv m → reading (reader m) = Some i → low m ≤ i < low m + CAPACITY.
Proof. intros Hi Ho. destruct (reading_length m i Hi Ho) as [-> _]. pose proof (pot_pos (c := CAPACITY)). lia. Qed.

(** Two window indices of one slot whose lengths differ modulo 3 are impossible. *)
Lemma reader_separate m w (p : writer_phase T) v i j : minv m → writers m !! w = Some (p, v) → owned p = Some i →
  reading (reader m) = Some j → slot i ≠ slot j.
Proof.
  intros Hi Hw Ho Hj He. destruct (owned_length _ _ _ _ _ Hi Hw Ho) as (_ & sl & Hsl & Hlen).
  destruct (reading_length _ _ Hi Hj) as (_ & sl' & Hsl' & Hlen'). rewrite (at_same_slot m i j He) in Hsl.
  assert (sl' = sl) as -> by congruence. lia.
Qed.

Lemma writers_separate m k w (p q : writer_phase T) v v' i j : minv m → writers m !! k = Some (p, v) →
  writers m !! w = Some (q, v') → k ≠ w → owned p = Some i → owned q = Some j → slot i ≠ slot j.
Proof.
  intros Hi Hk Hw Hne Hp Hq. destruct (owned_length _ _ _ _ _ Hi Hk Hp) as [? _]. destruct (owned_length _ _ _ _ _ Hi Hw Hq) as [? _].
  apply (window_separate m); [done|done|].
  intros ->. apply Hne. by eapply (minv_owned _ Hi).
Qed.

(** ** Steps of a writer *)

Lemma insert_writer m w (p : writer_phase T) v k q v' : is_Some (writers m !! w) →
  <[w := (p, v)]> (writers m) !! k = Some (q, v') → (k = w ∧ q = p ∧ v' = v) ∨ (k ≠ w ∧ writers m !! k = Some (q, v')).
Proof.
  intros [e Hw] Hk. destruct (decide (k = w)) as [->|Hne].
  - rewrite list_lookup_insert_eq in Hk by (by eapply lookup_lt_Some). left. by simplify_eq.
  - rewrite list_lookup_insert_ne in Hk by done. by right.
Qed.

(** The memory does not change, and the writer owns no slot afterwards. *)
Lemma set_writer_sound m w (p0 p : writer_phase T) v0 v : minv m → writers m !! w = Some (p0, v0) → owned p0 = None →
  owned p = None → writer_ok m p v → minv (set_writer w p v m).
Proof.
  intros Hi Hw Ho0 Ho Hp. pose proof (λ k q v', insert_writer m w p v k q v' (mk_is_Some _ _ Hw)) as Hwriters. destruct Hi. split; try done.
  - intros i sl Hwin Hsl Hlen. destruct (minv_locked0 i sl Hwin Hsl Hlen) as (k & q & v' & Hk & Hq). exists k, q, v'. split; [|done].
    simpl. rewrite list_lookup_insert_ne; [done|]. intros ->. congruence.
  - intros k q v' [(-> & -> & ->)|[Hne Hq]]%Hwriters; [done|by apply (minv_writers0 k q v')].
  - intros k k' q q' v1 v2 i Hq Hq' Hoq Hoq'.
    apply Hwriters in Hq as [(-> & -> & ->)|[Hne Hq]]; apply Hwriters in Hq' as [(-> & -> & ->)|[Hne' Hq']]; try congruence.
    by apply (minv_owned0 k k' q q' v1 v2 i).
Qed.

Lemma answer_sound m answer : minv m → answer_ok m answer →
  minv {| index_stores := index_stores m; buffer_ := buffer_ m; writers := writers m; reader := reader m;
    reader_view := reader_view m; out := out m; claims := claims m; answers := answers m ++ [answer] |}.
Proof.
  intros Hi Ha. destruct Hi. split; try done. apply Forall_app. split; [done|by apply Forall_singleton].
Qed.

Lemma finish_sound m w (p0 : writer_phase T) v0 i st v : minv m → writers m !! w = Some (p0, v0) → owned p0 = None →
  view_ok m v → answer_ok m (i, st) → minv (finish w i st v m).
Proof. intros Hi Hw Ho Hv Ha. apply (answer_sound (set_writer w WriterIdle v m)); [|done]. by apply (set_writer_sound m w p0 _ v0). Qed.

Lemma update_claims m i sl0 sl c : minv m → low m ≤ i < low m + CAPACITY → at_ i m = Some sl0 → slot_ok m i sl →
  NoDup (claims m ++ c) → (∀ j, j ∈ c → j = i) → (i ∈ claims m ++ c ↔ (3 * round i + 1 < length (status_stores sl))%nat) →
  claims_ok {| index_stores := index_stores m; buffer_ := <[Z.to_nat (slot i) := sl]> (buffer_ m); writers := writers m;
    reader := reader m; reader_view := reader_view m; out := out m; claims := claims m ++ c; answers := answers m |}.
Proof.
  intros Hi Hwin Hsl Hslot Hdup Hci Hclaims. pose proof (minv_claims _ Hi) as (_ & Hge & Hiff). pose proof (low_bounds _ Hi) as [Hlow _].
  pose proof (minv_memory _ Hi) as (Hl & _). split; [done|]. split.
  { intros j [Hj|Hj]%elem_of_app; [by apply Hge|rewrite (Hci j Hj); lia]. }
  intros j sl' Hj Hsl'. change (at_ j (set_slot (slot i) sl m) = Some sl') in Hsl'. simpl claims. rewrite at_set_slot in Hsl' by done.
  assert (j ≠ i → j ∈ claims m ++ c ↔ j ∈ claims m) as Hother by (intros Hne; rewrite elem_of_app; naive_solver).
  destruct (decide (slot i = slot j)) as [He|Hne]; [injection Hsl' as <-|rewrite Hother by naive_solver; by apply Hiff].
  pose proof (minv_window _ Hi i sl0 Hwin Hsl) as [? _]. destruct Hslot as [? _].
  destruct (Z.lt_total j i) as [Hlt|[->|Hgt]]; [|done|];
    rewrite Hother, (Hiff j sl0 Hj) by (lia || by rewrite <- (at_same_slot m i j He)).
  - pose proof (round_mono j i Hj (eq_sym He) Hlt). lia.
  - pose proof (round_mono i j ltac:(lia) He ltac:(lia)). lia.
Qed.

(** The writer [w] changes the slot of [i], which no other thread is at. *)
Lemma update_slot_sound m w (p0 p : writer_phase T) v0 v i sl0 sl c : minv m → writers m !! w = Some (p0, v0) →
  (∀ j, owned p0 = Some j → j = i) → (length (status_stores sl) = (3 * round i + 2)%nat → owned p = Some i) →
  low m ≤ i < low m + CAPACITY → at_ i m = Some sl0 → continues sl0 sl →
  (∀ k (q : writer_phase T) v' j, k ≠ w → writers m !! k = Some (q, v') → owned q = Some j → slot i ≠ slot j) →
  (∀ j, reading (reader m) = Some j → slot i ≠ slot j) →
  memory_ok (set_slot (slot i) sl m) → slot_ok m i sl →
  NoDup (claims m ++ c) → (∀ j, j ∈ c → j = i) → (i ∈ claims m ++ c ↔ (3 * round i + 1 < length (status_stores sl))%nat) →
  let m1 := {| index_stores := index_stores m; buffer_ := <[Z.to_nat (slot i) := sl]> (buffer_ m); writers := writers m;
    reader := reader m; reader_view := reader_view m; out := out m; claims := claims m ++ c; answers := answers m |} in
  writer_ok m1 p v → (∀ j, owned p = Some j → j = i) → minv (set_writer w p v m1).
Proof.
  intros Hi Hw Hown0 Hlocked Hwin Hsl Hc Hothers Hreader Hmem Hslot Hdup Hci Hclaims m1 Hp Hown.
  pose proof (minv_memory _ Hi) as (Hl & _). pose proof (low_bounds _ Hi) as [Hlow _].
  pose proof (set_slot_grows m i sl0 sl Hl Hsl Hc) as Hg. pose proof (λ j, at_set_slot m i j sl Hl) as Hat.
  assert (∀ j, slot i ≠ slot j → at_ j m1 = at_ j m) as Hkeep by (intros j Hj; change (at_ j (set_slot (slot i) sl m) = at_ j m); rewrite Hat; by rewrite decide_False).
  pose proof (λ k q v', insert_writer m w p v k q v' (mk_is_Some _ _ Hw)) as Hwriters. split.
  - exact Hmem.
  - apply Hi.
  - apply Hi.
  - intros j sl' Hj Hsl'. change (low (set_writer w p v m1)) with (low m) in Hj. destruct (decide (slot i = slot j)) as [He|Hne].
    + assert (j = i) as -> by (apply (slot_at_inj CAPACITY); [done|lia]).
      change (at_ i (set_slot (slot i) sl m) = Some sl') in Hsl'. rewrite Hat, decide_True in Hsl' by done. by injection Hsl' as <-.
    + change (at_ j m1 = Some sl') in Hsl'. rewrite Hkeep in Hsl' by done. by apply (minv_window _ Hi).
  - intros j sl' Hj Hsl' Hlen. change (low (set_writer w p v m1)) with (low m) in Hj. destruct (decide (j = i)) as [->|Hne].
    + change (at_ i (set_slot (slot i) sl m) = Some sl') in Hsl'. rewrite Hat, decide_True in Hsl' by done. injection Hsl' as <-.
      exists w, p, v. split; [apply list_lookup_insert_eq; by eapply lookup_lt_Some|by apply Hlocked].
    + change (at_ j m1 = Some sl') in Hsl'. rewrite Hkeep in Hsl' by (by apply (window_separate m); [..|apply not_eq_sym]).
      destruct (minv_locked _ Hi j sl' Hj Hsl' Hlen) as (k & q & v' & Hk & Hq). exists k, q, v'. split; [|done].
      simpl. rewrite list_lookup_insert_ne; [done|]. intros ->. rewrite Hw in Hk. injection Hk as <- <-. by apply Hne, Hown0.
  - by apply (update_claims m i sl0 sl c).
  - intros k q v' [(-> & -> & ->)|[Hne Hq]]%Hwriters; [done|]. pose proof (minv_writers _ Hi _ _ _ Hq) as [Hv Hok].
    split; [by apply (view_ok_grows m (set_slot (slot i) sl m))|].
    destruct q as [| | |j|j]; [done..| |]; (change (at_ j (set_writer w p v m1)) with (at_ j m1)); (rewrite (Hkeep j); [done|by eapply Hothers]).
  - intros k k' q q' v1 v2 j Hq Hq' Hoq Hoq'.
    apply Hwriters in Hq as [(-> & -> & ->)|[Hne Hq]]; apply Hwriters in Hq' as [(-> & -> & ->)|[Hne' Hq']]; try done.
    + destruct (Hothers _ _ _ _ Hne' Hq' Hoq'). by rewrite (Hown _ Hoq).
    + destruct (Hothers _ _ _ _ Hne Hq Hoq). by rewrite (Hown _ Hoq').
    + by apply (minv_owned _ Hi k k' q q' v1 v2 j).
  - pose proof (minv_reader _ Hi) as (Hv & Hseen & Hfreed & Hok).
    split; [by apply (view_ok_grows m (set_slot (slot i) sl m))|]. split; [done|]. split; [done|]. simpl reader.
    destruct (reader m) as [|j|j x|j x] eqn:Hr; [done|..]; (change (at_ j (set_writer w p v m1)) with (at_ j m1));
      (rewrite (Hkeep j) by (by apply Hreader)); unfold took in *; simpl; rewrite Hr in *; done.
  - eapply Forall_impl; [apply (minv_answers _ Hi)|]. intros [j st] Ha. unfold answer_ok in *. simpl in *.
    destruct st; [done|done|by apply elem_of_app; left|]. destruct Ha; [by left|right; by apply elem_of_app; left].
Qed.

Lemma at_slot_of m i : buffer_ m !! Z.to_nat (slot_of CAPACITY i) = at_ i m.
Proof. unfold slot_of. by rewrite mask_mod. Qed.

(** Knowing a store of the reader index, a writer that passed the test knows that
    its slot was freed by the previous round. *)
Lemma checked_knows m v i : view_ok m v → r0 ≤ i < r0 + Z.of_nat (index_seen v) + CAPACITY - 1 →
  (3 * round i ≤ status_seen v (slot i))%nat ∧ (2 * round i ≤ data_seen v (slot i))%nat.
Proof.
  intros [Hk _] Hi. destruct (Z.lt_ge_cases i (r0 + CAPACITY)); [rewrite round_first by lia; lia|].
  destruct (Hk (i - CAPACITY) ltac:(lia)) as [Hd Hs]. specialize (Hd ltac:(lia)). specialize (Hs ltac:(lia)).
  pose proof (round_next (i - CAPACITY) ltac:(lia)) as Hr. pose proof (slot_at_shift CAPACITY (i - CAPACITY)) as Hsl.
  replace (i - CAPACITY + CAPACITY) with i in * by lia. rewrite <- Hsl in *. lia.
Qed.

Lemma load_index_ok m store v value v' : memory_ok m → view_ok m v → load_index store v m = Some (value, v') →
  view_ok m v' ∧ r0 ≤ value ≤ r0 + Z.of_nat (index_seen v') ∧ value ≤ reader_index_ m.
Proof.
  intros Hm Hv. unfold load_index. destruct (Nat.ltb_spec store (index_seen v)) as [|Hge]; [done|].
  destruct (index_stores m !! store) as [[value' released]|] eqn:Hs; simpl; [|done]. intros [= -> <-].
  rewrite (reader_index_eq m Hm). pose proof (lookup_lt_Some _ _ _ Hs). destruct Hm as (_ & _ & Hidx & _).
  destruct (Hidx _ _ _ Hs) as (-> & Hrel & Hseen). split; [|simpl; lia].
  destruct (join_ok m v released Hv Hrel) as [Hk Hw]. split; [|split; [simpl; destruct Hw as [Hw _]; simpl in Hw; lia|apply Hw]].
  intros i Hi. specialize (Hk i Hi). simpl in *. rewrite (Nat.max_r store) by lia. exact Hk.
Qed.

Lemma load_status_ok m i store v st v' : memory_ok m → view_ok m v → load_status (slot_of CAPACITY i) store v m = Some (st, v') →
  view_ok m v' ∧ st = kind store ∧ (status_seen v (slot i) ≤ store)%nat ∧
  (∃ sl, at_ i m = Some sl ∧ (store < length (status_stores sl))%nat) ∧
  ((store mod 3 = 2)%nat → (2 * (store / 3) + 1 ≤ data_seen v' (slot i))%nat) ∧ (index_seen v ≤ index_seen v')%nat ∧
  ∀ j, (status_seen v j ≤ status_seen v' j)%nat ∧ (data_seen v j ≤ data_seen v' j)%nat.
Proof.
  intros Hm Hv. unfold load_status. rewrite at_slot_of. unfold slot_of. rewrite mask_mod by done. fold (slot i).
  destruct (Nat.ltb_spec store (status_seen v (slot i))) as [|Hge]; [done|]. destruct (at_ i m) as [sl|] eqn:Hsl; simpl; [|done].
  destruct (status_stores sl !! store) as [[st' released]|] eqn:Hs; simpl; [|done]. intros [= -> <-].
  pose proof (lookup_lt_Some _ _ _ Hs). destruct Hm as (_ & _ & _ & Hsts).
  destruct (Hsts i sl Hsl _ _ _ Hs) as (Hk & Hrel & Hready). split; [|split; [done|split; [done|]]].
  - apply (see_status_ok m (join v released) i sl); [by apply join_ok|done|done].
  - split; [by exists sl|]. simpl. split; [intros Hmod; specialize (Hready Hmod); lia|]. split; [lia|]. intros j.
    split; [|lia]. destruct (decide (slot i = j)) as [<-|Hne]; [rewrite fn_lookup_insert; lia|rewrite fn_lookup_insert_ne by done; lia].
Qed.

Lemma begin_sound w index store m m' : minv m → mbounded m → begin_ CAPACITY w index store m = Some m' → minv m'.
Proof.
  intros Hi Hb. unfold begin_. destruct (writers m !! w) as [[p v]|] eqn:Hw; simpl; [|done]. destruct p; [|done..].
  pose proof (minv_writers _ Hi _ _ _ Hw) as [Hv _]. destruct (load_index store v m) as [[value v']|] eqn:Hl; simpl; [|done]. intros [= <-].
  destruct (load_index_ok m store v value v' (minv_memory _ Hi) Hv Hl) as (Hv' & Hvalue & Hle).
  pose proof (reader_index_bound _ Hi Hb). pose proof (pot_pos (c := CAPACITY)).
  destruct (too_far_ahead CAPACITY index value) eqn:Hfar; [by eapply set_writer_sound|].
  destruct (Z.ltb_spec index value); [eapply finish_sound; try done; left; simpl; lia|].
  eapply set_writer_sound; [done|done|done|done|]. split; [done|].
  unfold too_far_ahead, ReorderBuffer.MAX_INDEX_AHEAD in Hfar. rewrite uwrap_small in Hfar by (unfold in_u; lia). lia.
Qed.

Lemma check_status_sound w store m m' : minv m → check_status CAPACITY w store m = Some m' → minv m'.
Proof.
  intros Hi. unfold check_status. destruct (writers m !! w) as [[p v]|] eqn:Hw; simpl; [|done]. destruct p as [|index value| | |]; try done.
  pose proof (minv_writers _ Hi _ _ _ Hw) as [Hv _]. destruct (load_status _ _ _ _) as [[st v']|] eqn:Hl; simpl; [|done]. intros [= <-].
  destruct (load_status_ok m value store v st v' (minv_memory _ Hi) Hv Hl) as (Hv' & _).
  eapply finish_sound; try done. by case_decide.
Qed.

(** A write that finds its slot taken: its own index has been claimed. *)
Lemma refuse_sound w store m m' : minv m → refuse CAPACITY w store m = Some m' → minv m'.
Proof.
  intros Hi. unfold refuse. destruct (writers m !! w) as [[p v]|] eqn:Hw; simpl; [|done]. destruct p as [| |index| |]; try done.
  pose proof (minv_writers _ Hi _ _ _ Hw) as [Hv Hindex]. unfold claim_fails. rewrite at_slot_of. unfold slot_of. rewrite mask_mod by done.
  fold (slot index). destruct (Nat.ltb_spec store (status_seen v (slot index))) as [|Hge]; [done|].
  destruct (at_ index m) as [sl|] eqn:Hsl; simpl; [|done]. destruct (status_stores sl !! store) as [[st released]|] eqn:Hs; simpl; [|done].
  destruct (decide (st = Empty)) as [|Hne]; simpl; [done|]. intros [= <-]. pose proof (lookup_lt_Some _ _ _ Hs).
  destruct (checked_knows m v index Hv Hindex) as [Hknown _].
  pose proof (minv_memory _ Hi) as (_ & _ & _ & Hsts). destruct (Hsts index sl Hsl _ _ _ Hs) as [-> _].
  eapply finish_sound; [done|done|done|by eapply see_status_ok|]. right. simpl.
  pose proof (minv_claims _ Hi) as (_ & _ & Hiff). apply (Hiff index sl); [lia|done|].
  assert (store ≠ 3 * round index)%nat by (intros ->; by rewrite kind_empty in Hne). lia.
Qed.

(** Nobody is at a slot whose status was last stored as [Empty]. *)
Lemma empty_slot_apart m i sl : minv m → low m ≤ i < low m + CAPACITY → at_ i m = Some sl →
  length (status_stores sl) = (3 * round i + 1)%nat →
  (∀ k (q : writer_phase T) v j, writers m !! k = Some (q, v) → owned q = Some j → slot i ≠ slot j) ∧
  (∀ j, reading (reader m) = Some j → slot i ≠ slot j).
Proof.
  intros Hi Hwin Hsl Hlen. split.
  - intros k q v j Hq Ho He. destruct (owned_length _ _ _ _ _ Hi Hq Ho) as (_ & sl' & Hsl' & Hlen').
    rewrite (at_same_slot m i j He) in Hsl. assert (sl' = sl) as -> by congruence. lia.
  - intros j Hj He. destruct (reading_length _ _ Hi Hj) as (_ & sl' & Hsl' & Hlen').
    rewrite (at_same_slot m i j He) in Hsl. assert (sl' = sl) as -> by congruence. lia.
Qed.

Lemma claim_sound w m m' : minv m → timely (Claim w) m = true → claim CAPACITY w m = Some m' → minv m'.
Proof.
  intros Hi Ht. unfold claim. destruct (writers m !! w) as [[p v]|] eqn:Hw; simpl; [|done]. destruct p as [| |i| |]; try done.
  simpl in Ht. rewrite Hw in Ht. apply Z.leb_le in Ht. unfold claim_slot. rewrite at_slot_of. unfold slot_of. rewrite mask_mod by done. fold (slot i).
  destruct (at_ i m) as [sl|] eqn:Hsl; simpl; [|done]. destruct (last (status_stores sl)) as [[st released]|] eqn:Hlast; simpl; [|done].
  destruct (decide (st = Empty)) as [->|]; simpl; [|done]. intros [= <-].
  pose proof (minv_writers _ Hi _ _ _ Hw) as [Hv Hindex]. pose proof (minv_memory _ Hi) as Hm.
  destruct (checked_knows m v i Hv Hindex) as [Hknown Hdata]. pose proof (low_bounds _ Hi) as [Hlow Hread].
  assert (low m ≤ i < low m + CAPACITY) as Hwin.
  { rewrite (reader_index_eq m Hm) in *. destruct Hv as [_ [Hv _]]. lia. }
  destruct (minv_window _ Hi i sl Hwin Hsl) as (Hlen & Hempty & Hready). rewrite last_lookup in Hlast.
  pose proof Hm as (Hl & _ & _ & Hsts). destruct (Hsts i sl Hsl _ _ _ Hlast) as (Hk & Hrel & _).
  assert (length (status_stores sl) = 3 * round i + 1)%nat as Hlen1.
  { assert (length (status_stores sl) ≠ 3 * round i + 2 ∧ length (status_stores sl) ≠ 3 * round i + 3)%nat as [? ?]; [|lia].
    split; intros He; rewrite He in Hk.
    - replace (pred (3 * round i + 2)) with (3 * round i + 1)%nat in Hk by lia. by rewrite kind_locked in Hk.
    - replace (pred (3 * round i + 3)) with (3 * round i + 2)%nat in Hk by lia. by rewrite kind_ready in Hk. }
  destruct (empty_slot_apart m i sl Hi Hwin Hsl Hlen1) as [Hothers Hreader].
  set (sl' := {| status_stores := status_stores sl ++ [(Locked, released)]; data := data sl; accesses := accesses sl |}).
  assert (continues sl sl') as Hc by (split; simpl; [rewrite length_app|]; lia).
  pose proof (set_slot_grows m i sl sl' Hl Hsl Hc) as Hg.
  pose proof (minv_claims _ Hi) as (Hdup & Hge & Hiff). pose proof (Hiff i sl ltac:(lia) Hsl) as Hnot.
  apply (update_slot_sound m w (Checked i) _ v _ i sl sl' [i]); try done.
  - intros k q v' j _. by apply Hothers.
  - apply (store_status_ok m i sl released (round i) 1); [done|done|done|lia|by eapply view_ok_grows|lia].
  - split; simpl; rewrite length_app; simpl; lia.
  - apply NoDup_app. split; [done|]. split; [|apply NoDup_singleton]. intros j Hj ->%list_elem_of_singleton. apply Hnot in Hj. lia.
  - by intros j ->%list_elem_of_singleton.
  - simpl. rewrite length_app, elem_of_app. simpl. split; [lia|]. intros _. right. by apply list_elem_of_singleton.
  - split; [eapply (see_status_ok _ v i sl'); [by eapply view_ok_grows|by apply (at_slot_insert_eq CAPACITY)|simpl; rewrite length_app; simpl; lia]|].
    split; [done|]. split; [done|]. exists sl'. split; [by apply (at_slot_insert_eq CAPACITY)|]. simpl. rewrite length_app. simpl. split; [lia|by apply Hempty].
  - by intros j [= <-].
Qed.

Lemma write_sound w m r : minv m → write CAPACITY content w m = Some r → ∃ m', r = Ok m' ∧ minv m'.
Proof.
  intros Hi. unfold write. destruct (writers m !! w) as [[p v]|] eqn:Hw; simpl; [|done]. destruct p as [| | |i|]; try done.
  pose proof (minv_writers _ Hi _ _ _ Hw) as (Hv & Hwin & Hdata & sl & Hsl & Hlen & Hacc).
  unfold store_data. rewrite at_slot_of. unfold slot_of. rewrite mask_mod by done. fold (slot i). rewrite Hsl. simpl.
  destruct (Nat.ltb_spec (data_seen v (slot i)) (accesses sl)); [lia|]. simpl. intros [= <-]. eexists. split; [done|].
  set (sl' := {| status_stores := status_stores sl; data := Some (content i); accesses := S (accesses sl) |}).
  pose proof (minv_memory _ Hi) as Hm. assert (continues sl sl') as Hc by (split; simpl; lia).
  pose proof (set_slot_grows m i sl sl' (proj1 Hm) Hsl Hc) as Hg. pose proof (minv_claims _ Hi) as (Hdup & Hge & Hiff).
  pose proof (low_bounds _ Hi) as [Hlow _].
  pose proof (update_slot_sound m w (Claimed i) (Stored i) v (see_data (slot i) (S (accesses sl)) v) i sl sl' []) as Hup. rewrite app_nil_r in Hup.
  apply Hup; try done; clear Hup.
  - by intros j [= <-].
  - intros k q v' j Hne Hq Ho. by apply (writers_separate m w k (Claimed i) q v v').
  - intros j Hj. by apply (reader_separate m w (Claimed i) v).
  - by apply access_ok.
  - split; simpl; lia.
  - intros j Hj. by apply not_elem_of_nil in Hj.
  - apply (Hiff i sl); [lia|done].
  - assert (at_ i (set_slot (slot i) sl' m) = Some sl') as Hsl' by (apply (at_slot_insert_eq CAPACITY), Hm).
    split; [apply (see_data_ok (set_slot (slot i) sl' m) v i sl'); [by eapply view_ok_grows|done|simpl; destruct Hv as [_ [_ Hv]]; destruct (Hv i sl Hsl); lia]|].
    split; [done|]. simpl. rewrite fn_lookup_insert. split; [lia|]. exists sl'. simpl. split; [done|]. split; [lia|]. split; [lia|done].
  - by intros j [= <-].
Qed.

Lemma publish_sound w m m' : minv m → publish CAPACITY w m = Some m' → minv m'.
Proof.
  intros Hi. unfold publish. destruct (writers m !! w) as [[p v]|] eqn:Hw; simpl; [|done]. destruct p as [| | | |i]; try done.
  pose proof (minv_writers _ Hi _ _ _ Hw) as (Hv & Hwin & Hdata & sl & Hsl & Hlen & Hacc & Hx).
  unfold store_status. rewrite at_slot_of. unfold slot_of. rewrite mask_mod by done. fold (slot i). rewrite Hsl. simpl. intros [= <-].
  set (v' := see_status (slot i) (length (status_stores sl)) v).
  set (sl' := {| status_stores := status_stores sl ++ [(Ready, v')]; data := data sl; accesses := accesses sl |}).
  pose proof (minv_memory _ Hi) as Hm. assert (continues sl sl') as Hc by (split; simpl; [rewrite length_app|]; lia).
  pose proof (set_slot_grows m i sl sl' (proj1 Hm) Hsl Hc) as Hg. pose proof (minv_claims _ Hi) as (Hdup & Hge & Hiff).
  pose proof (low_bounds _ Hi) as [Hlow _]. pose proof (λ j, reader_separate m w (Stored i) v i j Hi Hw eq_refl) as Hreader.
  assert (view_ok (set_slot (slot i) sl' m) v') as Hv'.
  { apply (see_status_ok (set_slot (slot i) sl' m) v i sl'); [by eapply view_ok_grows|by apply (at_slot_insert_eq CAPACITY), Hm|].
    simpl. rewrite length_app. simpl. lia. }
  assert (took m i = 0)%nat as Htook.
  { unfold took. destruct (reader m) eqn:Hr; [done|done|..]; (case_decide as He; [|done]); destruct (Hreader i); [|done| |done]; simpl; congruence. }
  assert (i ∈ claims m) as Hclaimed by (apply (Hiff i sl); [lia|done|lia]).
  pose proof (update_slot_sound m w (Stored i) WriterIdle v v' i sl sl' []) as Hup. rewrite app_nil_r in Hup.
  apply (answer_sound (set_writer w WriterIdle v' (set_slot (slot i) sl' m))); [|done].
  apply Hup; try done; clear Hup.
  - by intros j [= <-].
  - simpl. rewrite length_app. simpl. lia.
  - intros k q v1 j Hne Hq Ho. by apply (writers_separate m w k (Stored i) q v v1).
  - apply (store_status_ok m i sl v' (round i) 2); [done|done|done|lia|done|by intros _].
  - split; simpl; rewrite length_app; simpl; [lia|]. split; [lia|]. intros _. split; [done|lia].
  - intros j Hj. by apply not_elem_of_nil in Hj.
  - simpl. rewrite length_app. simpl. split; [lia|done].
Qed.

(** ** Steps of the reader *)

(** Only the reader's phase and view change. *)
Lemma set_reader_sound m (r : reader_phase T) v : minv m → low (set_reader r v m) = low m →
  (∀ i, took (set_reader r v m) i = took m i) → reader_ok (set_reader r v m) → minv (set_reader r v m).
Proof.
  intros Hi Hlow Htook Hr. destruct Hi. split; try done.
  - by rewrite Hlow.
  - intros i sl. rewrite Hlow. intros Hw Hsl. unfold slot_ok. rewrite Htook. by apply minv_window0.
  - intros i sl. rewrite Hlow. by apply minv_locked0.
  - intros w p v' Hw. destruct (minv_writers0 w p v' Hw) as [Hv Hok]. split; [done|].
    destruct p; [done..| |]; by rewrite Hlow.
Qed.

Lemma reader_knows m : minv m → low m = reader_index_ m →
  (3 * round (low m) ≤ status_seen (reader_view m) (slot (low m)))%nat.
Proof.
  intros Hi Hl. pose proof (minv_reader _ Hi) as (_ & _ & Hfreed & _). pose proof (low_bounds _ Hi) as [Hlow _].
  pose proof (pot_pos (c := CAPACITY)).
  destruct (Z.lt_ge_cases (low m) (r0 + CAPACITY)); [rewrite round_first by lia; lia|].
  specialize (Hfreed (low m - CAPACITY) ltac:(lia)). pose proof (round_next (low m - CAPACITY) ltac:(lia)) as Hr.
  pose proof (slot_at_shift CAPACITY (low m - CAPACITY)) as Hsl.
  replace (low m - CAPACITY + CAPACITY) with (low m) in * by lia. rewrite <- Hsl in *. lia.
Qed.

Lemma poll_sound store m m' : minv m → poll CAPACITY store m = Some m' → minv m'.
Proof.
  intros Hi. unfold poll. destruct (reader m) eqn:Hr; [|done..].
  destruct (load_status _ _ _ _) as [[st v]|] eqn:Hl; simpl; [|done]. intros [= <-].
  pose proof (minv_reader _ Hi) as (Hv & Hseen & Hfreed & _). pose proof (minv_memory _ Hi) as Hm.
  destruct (load_status_ok m _ store _ st v Hm Hv Hl) as (Hv' & -> & Hge & (sl & Hsl & Hlt) & Hready & Hidx & Hmono).
  assert (low m = reader_index_ m) as Hlow by (unfold low; by rewrite Hr). pose proof (low_bounds _ Hi) as [Hpos _].
  pose proof (reader_knows m Hi Hlow) as Hknown. rewrite <- Hlow in *. pose proof (pot_pos (c := CAPACITY)).
  apply set_reader_sound; [done|unfold low; rewrite Hr; by case_decide|unfold took; rewrite Hr; by case_decide|].
  split; [done|]. split; [simpl; destruct Hv' as [_ [? _]]; lia|]. split.
  { intros i Hlt'. assert (low (set_reader (if decide (kind store = Ready) then SawReady (low m) else ReaderIdle) v m) = low m) as He
      by (unfold low; rewrite Hr; by case_decide).
    rewrite He in Hlt'. specialize (Hfreed i Hlt'). simpl. destruct (Hmono (slot i)). lia. }
  simpl reader. destruct (decide (kind store = Ready)) as [Hk|]; [|done].
  destruct (minv_window _ Hi (low m) sl ltac:(lia) Hsl) as (Hlen & _).
  assert (store = 3 * round (low m) + 2)%nat as ->.
  { assert (store ≠ 3 * round (low m) ∧ store ≠ 3 * round (low m) + 1)%nat as [? ?]; [|lia].
    split; intros ->; [by rewrite kind_empty in Hk|by rewrite kind_locked in Hk]. }
  split; [exists sl; split; [done|lia]|]. split; [change (reader_index_ m = low m + 0); lia|]. split; [|done].
  unfold took. simpl. specialize (Hready ltac:(lia)). replace ((3 * round (low m) + 2) / 3)%nat with (round (low m)) in Hready by lia. lia.
Qed.

Lemma writer_ok_reader m m' w (p : writer_phase T) v : minv m → writers m !! w = Some (p, v) → grows m m' →
  (∀ j, owned p = Some j → at_ j m' = at_ j m ∧ low m' ≤ j < low m' + CAPACITY) → writer_ok m' p v.
Proof.
  intros Hi Hw Hg Hown. destruct (minv_writers _ Hi _ _ _ Hw) as [Hv Hok]. split; [by eapply view_ok_grows|].
  destruct p as [| | |j|j]; try done; (destruct (Hown j eq_refl) as [-> Hwin]); destruct Hok as (_ & Hok); done.
Qed.

Lemma set_slot_claims m i sl0 sl : memory_ok m → claims_ok m → at_ i m = Some sl0 →
  (∀ j, (3 * j + 1 < length (status_stores sl0))%nat ↔ (3 * j + 1 < length (status_stores sl))%nat) →
  claims_ok (set_slot (slot i) sl m).
Proof.
  intros (Hl & _) (Hdup & Hge & Hiff) Hsl Hlen. split; [done|]. split; [done|]. intros j sl' Hj. rewrite at_set_slot by done.
  case_decide as He; [|by apply Hiff]. intros [= <-]. rewrite <- Hlen. apply Hiff; [done|]. by rewrite <- (at_same_slot m i j He).
Qed.

Lemma take_sound m r : minv m → take_ CAPACITY m = Some r → ∃ m', r = Ok m' ∧ minv m'.
Proof.
  intros Hi. unfold take_. destruct (reader m) as [|i| |] eqn:Hr; try done.
  pose proof (minv_reader _ Hi) as (Hv & Hseen & Hfreed & Hok). rewrite Hr in Hok. destruct Hok as ((sl & Hsl & Hlen) & Hindex & Hdata & _).
  assert (low m = i) as Hlow by (unfold low; rewrite Hr; lia). pose proof (pot_pos (c := CAPACITY)) as Hcap.
  destruct (minv_window _ Hi i sl ltac:(lia) Hsl) as (_ & _ & Hready). destruct (Hready Hlen) as [Hx Hacc].
  assert (∀ j, took m j = O) as Htook by (intros j; unfold took; by rewrite Hr). rewrite Htook in *.
  unfold load_data. rewrite at_slot_of. unfold slot_of. rewrite mask_mod by done. fold (slot i). rewrite Hsl. simpl.
  destruct (Nat.ltb_spec (data_seen (reader_view m) (slot i)) (accesses sl)); [lia|]. rewrite Hx. simpl. intros [= <-]. eexists. split; [done|].
  set (sl' := {| status_stores := status_stores sl; data := Some (content i); accesses := S (accesses sl) |}).
  pose proof (minv_memory _ Hi) as Hm. assert (continues sl sl') as Hc by (split; simpl; lia).
  pose proof (set_slot_grows m i sl sl' (proj1 Hm) Hsl Hc) as Hg. pose proof (λ j, at_set_slot m i j sl' (proj1 Hm)) as Hat.
  assert (∀ j, low m ≤ j < low m + CAPACITY → j ≠ i → at_ j (set_slot (slot i) sl' m) = at_ j m) as Hkeep.
  { intros j Hj Hne. rewrite Hat, decide_False; [done|]. apply not_eq_sym, (window_separate m); [done|lia|done]. }
  split; try apply Hi.
  - by apply access_ok.
  - transitivity (low m); [unfold low; by rewrite Hr|apply Hi].
  - intros j sl2 Hj Hsl2. change (reader_index_ m ≤ j < reader_index_ m + CAPACITY) in Hj.
    change (at_ j (set_slot (slot i) sl' m) = Some sl2) in Hsl2. unfold slot_ok, took. simpl. destruct (decide (i = j)) as [<-|Hne].
    + rewrite Hat, decide_True in Hsl2 by done. injection Hsl2 as <-. simpl. split; [lia|]. split; [lia|]. intros _. split; [done|lia].
    + rewrite Hkeep in Hsl2 by (done || lia). pose proof (minv_window _ Hi j sl2 ltac:(lia) Hsl2) as Hs. unfold slot_ok in Hs. by rewrite Htook in Hs.
  - intros j sl2 Hj Hsl2 Hlen2. change (reader_index_ m ≤ j < reader_index_ m + CAPACITY) in Hj.
    change (at_ j (set_slot (slot i) sl' m) = Some sl2) in Hsl2. destruct (decide (j = i)) as [->|Hne].
    + rewrite Hat, decide_True in Hsl2 by done. injection Hsl2 as <-. simpl in Hlen2. lia.
    + rewrite Hkeep in Hsl2 by (done || lia). apply (minv_locked _ Hi j sl2); [lia|done|done].
  - by apply (set_slot_claims m i sl sl' Hm); [apply Hi|..].
  - intros w p v Hw. apply (writer_ok_reader m (set_reader (Took i (content i)) (see_data (slot i) (S (accesses sl)) (reader_view m)) (set_slot (slot i) sl' m)) w p v Hi Hw Hg). intros j Ho. destruct (owned_length _ _ _ _ _ Hi Hw Ho) as [Hj _].
    split; [|change (reader_index_ m ≤ j < reader_index_ m + CAPACITY); lia]. apply Hkeep; [done|].
    intros ->. by apply (reader_separate m w p v i i Hi Hw Ho); [rewrite Hr|].
  - split; [apply (see_data_ok (set_slot (slot i) sl' m) _ i sl'); [by eapply view_ok_grows|by rewrite Hat, decide_True|simpl; destruct Hv as [_ [_ Hv]]; destruct (Hv i sl Hsl); lia]|].
    split; [done|]. split; [intros j Hj; apply Hfreed; change (r0 ≤ j < reader_index_ m) in Hj; lia|].
    split; [exists sl'; split; [by change (at_ i (set_slot (slot i) sl' m) = Some sl'); rewrite Hat, decide_True|done]|]. split; [done|].
    unfold took. simpl. rewrite decide_True, fn_lookup_insert by done. split; [lia|done].
Qed.

Lemma advance_sound m m' : minv m → mbounded m → advance m = Some m' → minv m'.
Proof.
  intros Hi Hb. unfold advance. destruct (reader m) as [| |i x|] eqn:Hr; try done. intros [= <-].
  pose proof (minv_reader _ Hi) as (Hv & Hseen & Hfreed & Hok). rewrite Hr in Hok. destruct Hok as (Hlen & Hindex & Hdata & ->).
  pose proof (minv_memory _ Hi) as Hm. pose proof (reader_index_eq m Hm) as Hri. pose proof (reader_index_bound _ Hi Hb).
  assert (low m = i) as Hlow by (unfold low; rewrite Hr; lia). pose proof (pot_pos (c := CAPACITY)) as Hcap.
  rewrite (uwrap_small 64) by (unfold in_u; lia).
  set (v := see_index (length (index_stores m)) (reader_view m)).
  set (m' := {| index_stores := index_stores m ++ [(reader_index_ m + 1, v)]; buffer_ := buffer_ m; writers := writers m;
    reader := Advanced i (content i); reader_view := v; out := out m; claims := claims m; answers := answers m |}).
  assert (grows m m') as Hg by (split; [simpl; rewrite length_app; lia|intros j sl Hsl; by exists sl]).
  assert (took m i = 1)%nat as Htook by (unfold took; rewrite Hr; by rewrite decide_True).
  rewrite Htook in Hdata. assert (view_ok m' v) as Hv'.
  { destruct (view_ok_grows m m' _ Hg Hv) as [Hk [_ Hw]]. split; [|split; [|exact Hw]].
    - intros j Hj. unfold v. simpl. rewrite Nat.max_l by lia. destruct (Hk j Hj) as [Hd Hs]. split; intros Hlt.
      + destruct (decide (j = i)) as [->|Hne]; [lia|apply Hd; lia].
      + apply Hfreed. lia.
    - unfold v. simpl. rewrite length_app. simpl. lia. }
  assert (reader_index_ m' = reader_index_ m + 1) as Hri' by (unfold reader_index_ at 1; simpl; by rewrite last_snoc).
  split; try apply Hi.
  - destruct Hm as (Hl & Hpos & Hidx & Hsts). split; [done|]. split; [simpl; rewrite length_app; simpl; lia|]. split.
    + intros j value v1 Hj. apply lookup_app_Some in Hj as [Hj|[Hge Hj]].
      * destruct (Hidx _ _ _ Hj) as (? & ? & ?). split; [done|]. split; [by eapply view_ok_grows|done].
      * apply list_lookup_singleton_Some in Hj as [Hj [= <- <-]]. split; [lia|]. split; [done|]. unfold v. simpl. lia.
    + intros j sl Hsl. eapply stores_ok_grows; [exact Hg|by apply Hsts].
  - change (low m') with i. rewrite <- Hlow. apply Hi.
  - intros j sl Hj Hsl. change (low m') with i in Hj. rewrite <- Hlow in Hj. pose proof (minv_window _ Hi j sl Hj Hsl) as Hs.
    unfold slot_ok, took in *. by rewrite Hr in Hs.
  - change (low m') with i. rewrite <- Hlow. apply (minv_locked _ Hi).
  - intros w p v1 Hw. apply (writer_ok_reader m m' w p v1 Hi Hw Hg). intros j Ho. split; [done|].
    change (low m') with i. rewrite <- Hlow. by destruct (owned_length _ _ _ _ _ Hi Hw Ho).
  - split; [exact Hv'|]. split; [unfold v; simpl; rewrite length_app; simpl; lia|].
    split; [intros j Hj; apply Hfreed; by rewrite Hlow|]. split; [done|]. split; [change (reader_index_ m' = i + 1); lia|]. split; [|done].
    change (took m' i) with (if decide (i = i) then 1%nat else O). rewrite decide_True by done. unfold v. simpl. lia.
  - eapply Forall_impl; [apply (minv_answers _ Hi)|]. intros [j st] Ha. unfold answer_ok in *. simpl in *. destruct st; try done.
    rewrite Hri'. destruct Ha; [left; lia|by right].
Qed.

Lemma free_sound m m' : minv m → free CAPACITY m = Some m' → minv m'.
Proof.
  intros Hi. unfold free. destruct (reader m) as [| | |i x] eqn:Hr; try done.
  pose proof (minv_reader _ Hi) as (Hv & Hseen & Hfreed & Hok). rewrite Hr in Hok. destruct Hok as ((sl & Hsl & Hlen) & Hindex & Hdata & ->).
  assert (low m = i) as Hlow by (unfold low; by rewrite Hr). pose proof (pot_pos (c := CAPACITY)) as Hcap. pose proof (low_bounds _ Hi) as [Hpos _].
  destruct (minv_window _ Hi i sl ltac:(lia) Hsl) as (_ & _ & Hready). destruct (Hready Hlen) as [Hx Hacc].
  assert (∀ j, j ≠ i → took m j = O) as Htook by (intros j Hj; unfold took; rewrite Hr; by rewrite decide_False).
  assert (took m i = 1)%nat as Htook' by (unfold took; rewrite Hr; by rewrite decide_True). rewrite Htook' in *.
  unfold store_status. rewrite at_slot_of. unfold slot_of. rewrite mask_mod by done. fold (slot i). rewrite Hsl. simpl. intros [= <-].
  set (v := see_status (slot i) (length (status_stores sl)) (reader_view m)).
  set (sl' := {| status_stores := status_stores sl ++ [(Empty, v)]; data := data sl; accesses := accesses sl |}).
  pose proof (minv_memory _ Hi) as Hm. assert (continues sl sl') as Hc by (split; simpl; [rewrite length_app|]; lia).
  pose proof (set_slot_grows m i sl sl' (proj1 Hm) Hsl Hc) as Hg. pose proof (λ j, at_set_slot m i j sl' (proj1 Hm)) as Hat.
  assert (view_ok (set_slot (slot i) sl' m) v) as Hv'.
  { apply (see_status_ok (set_slot (slot i) sl' m) _ i sl'); [by eapply view_ok_grows|by rewrite Hat, decide_True|simpl; rewrite length_app; simpl; lia]. }
  assert (∀ j, low m ≤ j < low m + CAPACITY → j ≠ i → at_ j (set_slot (slot i) sl' m) = at_ j m) as Hkeep.
  { intros j Hj Hne. rewrite Hat, decide_False; [done|]. apply not_eq_sym, (window_separate m); [done|lia|done]. }
  set (m' := {| index_stores := index_stores m; buffer_ := <[Z.to_nat (slot i) := sl']> (buffer_ m); writers := writers m;
    reader := ReaderIdle; reader_view := v; out := out m ++ [content i]; claims := claims m; answers := answers m |}).
  assert (low m' = i + 1) as Hlow' by done. pose proof (minv_low _ Hi) as Hout.
  split; try apply Hi.
  - by apply (store_status_ok m i sl v (S (round i)) 0); [done|done|lia|lia|done|].
  - rewrite Hlow'. simpl. rewrite length_app. simpl. lia.
  - simpl. rewrite length_app, (minv_out _ Hi) at 1. simpl.
    replace (Z.of_nat (length (out m) + 1)) with (Z.of_nat (length (out m)) + 1) by lia.
    rewrite seqZ_app, fmap_app by lia. simpl. by rewrite Z.add_0_l, <- Hout, Hlow.
  - rewrite Hlow'. intros j sl2 Hj Hsl2. change (at_ j (set_slot (slot i) sl' m) = Some sl2) in Hsl2. unfold slot_ok, took. simpl.
    destruct (decide (j = i + CAPACITY)) as [->|Hne].
    + rewrite Hat, slot_at_shift, decide_True in Hsl2 by done. injection Hsl2 as <-. simpl. rewrite length_app, round_next by lia.
      simpl. split; [lia|]. split; lia.
    + rewrite Hkeep in Hsl2 by lia. pose proof (minv_window _ Hi j sl2 ltac:(lia) Hsl2) as Hs. unfold slot_ok in Hs. by rewrite Htook in Hs by lia.
  - rewrite Hlow'. intros j sl2 Hj Hsl2 Hlen2. change (at_ j (set_slot (slot i) sl' m) = Some sl2) in Hsl2.
    destruct (decide (j = i + CAPACITY)) as [->|Hne].
    + rewrite Hat, slot_at_shift, decide_True in Hsl2 by done. injection Hsl2 as <-. simpl in Hlen2.
      rewrite length_app, round_next in Hlen2 by lia. simpl in Hlen2. lia.
    + rewrite Hkeep in Hsl2 by lia. apply (minv_locked _ Hi j sl2); [lia|done|done].
  - apply (set_slot_claims m i sl sl' Hm); [apply Hi|done|]. intros j. simpl. rewrite length_app. simpl. lia.
  - intros w p v1 Hw. apply (writer_ok_reader m m' w p v1 Hi Hw Hg). intros j Ho. destruct (owned_length _ _ _ _ _ Hi Hw Ho) as [Hj _].
    assert (j ≠ i) as Hne by (intros ->; apply (reader_separate m w p v1 i i Hi Hw Ho); [by rewrite Hr|done]).
    split; [by apply Hkeep|rewrite Hlow'; lia].
  - split; [exact Hv'|]. split; [done|]. split; [|done]. rewrite Hlow'. intros j Hj. unfold m', v. simpl.
    destruct (decide (slot i = slot j)) as [He|Hne]; [rewrite He, fn_lookup_insert|rewrite fn_lookup_insert_ne by done; apply Hfreed].
    + destruct (decide (j = i)) as [->|]; [lia|]. pose proof (round_mono j i ltac:(lia) (eq_sym He) ltac:(lia)). lia.
    + assert (j ≠ i) by congruence. lia.
Qed.

Lemma start_memory n : memory_ok (start CAPACITY n r0).
Proof.
  pose proof (pot_pos (c := CAPACITY)). assert (view_ok (start (T := T) CAPACITY n r0) no_view) as Hv.
  { split; [intros i Hi; simpl; split; lia|]. split; [simpl; lia|]. intros i sl [-> _]%lookup_replicate. simpl. lia. }
  split; [simpl; rewrite length_replicate; lia|]. split; [simpl; lia|]. split.
  - intros [|j] value v; [|done]. intros [= <- <-]. split; [lia|]. split; [done|simpl; lia].
  - intros i sl [-> _]%lookup_replicate [|p] st v; [|done]. intros [= <- <-]. split; [done|]. split; [done|].
    replace (0 mod 3)%nat with O by lia. done.
Qed.

Lemma start_sound n : minv (start CAPACITY n r0).
Proof.
  pose proof (start_memory n) as Hm. pose proof (pot_pos (c := CAPACITY)).
  assert (view_ok (start (T := T) CAPACITY n r0) no_view) as Hv by (destruct Hm as (_ & _ & Hidx & _); by destruct (Hidx 0%nat r0 no_view eq_refl) as (_ & Hv & _)).
  assert (low (start (T := T) CAPACITY n r0) = r0) as Hlow by done.
  split; [done|by rewrite Hlow; simpl; lia|done|..].
  - rewrite Hlow. intros i sl Hi [-> _]%lookup_replicate. unfold slot_ok. simpl. rewrite round_first by lia. lia.
  - intros i sl _ [-> _]%lookup_replicate. simpl. lia.
  - split; [apply NoDup_nil_2|]. split; [intros i Hi; by apply not_elem_of_nil in Hi|].
    intros i sl _ [-> _]%lookup_replicate. simpl. split; [intros Hi; by apply not_elem_of_nil in Hi|lia].
  - intros w p v [[= -> ->] _]%lookup_replicate. done.
  - intros k w p q v v' i [[= -> ->] _]%lookup_replicate. done.
  - split; [done|]. split; [done|]. split; [rewrite Hlow; lia|done].
  - done.
Qed.

Lemma step_sound a m r : minv m → mbounded m → timely a m = true → step CAPACITY content a m = Some r →
  ∃ m', r = Ok m' ∧ minv m'.
Proof.
  assert (∀ o : option (t T), (∀ m', o = Some m' → minv m') → Ok <$> o = Some r → ∃ m', r = Ok m' ∧ minv m') as Hok.
  { intros [m'|] Ho Hs; simplify_eq/=. exists m'. split; [done|by apply Ho]. }
  intros Hi Hb Ht. destruct a as [w index store|w store|w|w store|w|w|store| | |]; simpl.
  - apply Hok. intros m'. by apply begin_sound.
  - apply Hok. intros m'. by apply check_status_sound.
  - apply Hok. intros m'. by apply claim_sound.
  - apply Hok. intros m'. by apply refuse_sound.
  - by apply write_sound.
  - apply Hok. intros m'. by apply publish_sound.
  - apply Hok. intros m'. by apply poll_sound.
  - by apply take_sound.
  - apply Hok. intros m'. by apply advance_sound.
  - apply Hok. intros m'. by apply free_sound.
Qed.

Lemma step_output a m m' : step CAPACITY content a m = Some (Ok m') → (length (out m) ≤ length (out m'))%nat.
Proof.
  intros Hs. destruct a; simpl in Hs; [unfold begin_ in Hs|unfold check_status in Hs|unfold claim in Hs|unfold refuse in Hs|
    unfold write in Hs|unfold publish in Hs|unfold poll in Hs|unfold take_ in Hs|unfold advance in Hs|unfold free in Hs];
    simplify_option_eq; repeat (case_match; simplify_option_eq; try done); simpl; rewrite ?length_app; try lia.
  all: outcome_inv Hs; repeat case_match; simplify_eq/=; simpl; lia.
Qed.

Lemma reachable_sound n m : reachable CAPACITY content n r0 m → mbounded m → minv m.
Proof.
  induction 1 as [|m a m' _ IH Ht Hs]; intros Hb; [apply start_sound|].
  pose proof (step_output _ _ _ Hs). assert (mbounded m) as Hb' by (unfold mbounded in *; lia).
  destruct (step_sound a m _ (IH Hb') Hb' Ht Hs) as (m1 & [= ->] & Hm). done.
Qed.

Fixpoint timely_run (actions : list action) m : bool :=
  match actions with
  | [] => true
  | a :: actions => timely a m && match step CAPACITY content a m with Some (Ok m) => timely_run actions m | _ => false end
  end.

Lemma timely_run_reachable n actions : ∀ m m', reachable CAPACITY content n r0 m → timely_run actions m = true →
  run CAPACITY content actions m = Some (Ok m') → reachable CAPACITY content n r0 m'.
Proof.
  induction actions as [|a actions IH]; intros m m' Hm Ht Hrun; simpl in *; [by injection Hrun as <-|].
  apply andb_true_iff in Ht as [Ht Hts]. destruct (step CAPACITY content a m) as [[m1| |]|] eqn:Hs; try done.
  apply (IH m1); [by eapply reachable_step|done|done].
Qed.

(** The data of a claimed index stays until the reader has passed it. *)
Lemma claimed_kept m i : minv m → i ∈ claims m → i < reader_index_ m ∨
  (∃ w (p : writer_phase T) v, writers m !! w = Some (p, v) ∧ owned p = Some i) ∨
  ∃ sl v, at_ i m = Some sl ∧ last (status_stores sl) = Some (Ready, v) ∧ data sl = Some (content i).
Proof.
  intros Hi Hc. pose proof (minv_memory _ Hi) as (Hl & _ & _ & Hsts). pose proof (minv_claims _ Hi) as (_ & Hge & Hiff).
  pose proof (low_bounds _ Hi) as [Hlow Hread]. pose proof (pot_pos (c := CAPACITY)) as Hcap. specialize (Hge i Hc).
  destruct (Z.lt_ge_cases i (reader_index_ m)) as [|Hle]; [by left|right].
  destruct (at_slot_exists CAPACITY (buffer_ m) i Hl) as [sl Hsl]. pose proof (proj1 (Hiff i sl Hge Hsl) Hc) as Hlen.
  assert (low m ≤ i < low m + CAPACITY) as Hwin.
  { split; [lia|]. destruct (Z.lt_ge_cases i (low m + CAPACITY)) as [|Hfar]; [done|].
    set (j := low m + (i - low m) mod CAPACITY). pose proof (Z.mod_pos_bound (i - low m) CAPACITY Hcap).
    assert (slot j = slot i) as He.
    { unfold slot_at, j. rewrite Zplus_mod_idemp_r. f_equal. lia. }
    pose proof (round_mono j i ltac:(lia) He ltac:(lia)). rewrite <- (at_same_slot m j i He) in Hsl.
    destruct (minv_window _ Hi j sl ltac:(lia) Hsl) as [? _]. lia. }
  destruct (minv_window _ Hi i sl Hwin Hsl) as (Hbounds & _ & Hready).
  destruct (decide (length (status_stores sl) = 3 * round i + 2)%nat) as [He|Hne]; [left; by apply (minv_locked _ Hi i sl)|right].
  destruct (Hready ltac:(lia)) as [Hdata _]. destruct (lookup_lt_is_Some_2 (status_stores sl) (3 * round i + 2)) as [[st v] Hst]; [lia|].
  destruct (Hsts i sl Hsl _ _ _ Hst) as [-> _]. exists sl, v. split; [done|]. split; [|done].
  rewrite last_lookup. replace (pred (length (status_stores sl))) with (3 * round i + 2)%nat by lia. by rewrite Hst, kind_ready.
Qed.
End Proofs.

(** C14: Under the memory orders the code asks for, with any number of writers and loads as stale
    as they may be, if no writer claims a slot after the reader has passed its index:
    no access to the data of a slot is a data race; the items come out in the order of their indices, each
    once; no index is claimed twice; a write is refused as [AlreadyWritten] only if its index was
    consumed or claimed; and the data of a claimed index is there until it is consumed. *)
Theorem reorder_buffer_under_release_acquire {T} (CAPACITY : Z) `{PowerOfTwo CAPACITY} (content : Z → T) (r : Z) (n : nat) (m : t T) :
  0 ≤ r → reachable CAPACITY content n r m → r + Z.of_nat (length (out m)) + CAPACITY + 1 < 2 ^ 64 →
  (∀ a, timely a m = true → step CAPACITY content a m ≠ Some Undefined) ∧
  out m = content <$> seqZ r (Z.of_nat (length (out m))) ∧ NoDup (claims m) ∧
  (∀ index, (index, AlreadyWritten) ∈ answers m → index < reader_index_ m ∨ index ∈ claims m) ∧
  (∀ index, index ∈ claims m → index < reader_index_ m ∨
    (∃ w p v, writers m !! w = Some (p, v) ∧ owned p = Some index) ∨
    ∃ sl v, buffer_ m !! Z.to_nat (slot_of CAPACITY index) = Some sl ∧ last (status_stores sl) = Some (Ready, v) ∧
      data sl = Some (content index)).
Proof.
  intros Hr Hm Hb. pose proof (reachable_sound CAPACITY content r Hr n m Hm Hb) as Hi.
  split; [|split; [|split; [|split]]].
  - intros a Ht Hs. by destruct (step_sound CAPACITY content r Hr a m _ Hi Hb Ht Hs) as (m' & ? & _).
  - apply (minv_out _ _ _ _ Hi).
  - apply (minv_claims _ _ _ _ Hi).
  - intros index Ha. pose proof (minv_answers _ _ _ _ Hi) as Hall. rewrite Forall_forall in Hall. apply (Hall _ Ha).
  - intros index Hc. unfold slot_of. rewrite mask_mod by done. by apply (claimed_kept CAPACITY content r).
Qed.

(** One write and one consumption, each load the newest store. *)
Definition write_actions (w : nat) (index : Z) (store : nat) : list action := [Begin w index store; Claim w; Store w; Release w].
Definition consume_actions (store : nat) : list action := [Poll store; Take; Advance; Free].

(** A writer that was overtaken between its test and its claim, as in
    [ReorderBuffer.reorder_buffer_stale_claim]: its access to the data is ordered after none of the
    reader's, which is a data race. *)
Theorem reorder_buffer_stale_claim_races :
  run 4 id ([Begin 0 1 0] ++ write_actions 1 1 0 ++ consume_actions 2 ++ [Claim 0; Store 0]) (start 4 2 1) = Some Undefined.
Proof. vm_compute. reflexivity. Qed.

(** Two writers on the first indices, one refused; the third write uses a stale load of
    the reader index, the last one the slot of the first. *)
Definition racing_trace : list action :=
  [Begin 0 2 0; Begin 1 1 0; Claim 0; Claim 1; Store 1; Store 0; Release 1; Poll 2; Begin 1 2 0; Take; ClaimFails 1 1;
   Advance; Release 0; Free; Poll 2; Begin 0 3 0; Take; Advance; Claim 0; Free; Begin 1 5 2; Claim 1; Store 1; Store 0].

Definition observed (result : outcome (t Z)) : outcome (list Z * list Z * list (Z * WriteStatus)) :=
  m ← result; Ok (out m, claims m, answers m).

Example racing_trace_runs : observed <$> run 4 (λ i, 10 * i) racing_trace (start 4 2 1) =
  Some (Ok ([10; 20], [2; 1; 3; 5], [(1, Success); (2, AlreadyWritten); (2, Success)])).
Proof. vm_compute. reflexivity. Qed.

Lemma reorder_buffer_under_release_acquire_witness :
  ∃ m, run 4 (λ i, 10 * i) racing_trace (start 4 2 1) = Some (Ok m) ∧ out m = [10; 20] ∧ NoDup (claims m) ∧
    (2 < reader_index_ m ∨ 2 ∈ claims m) ∧ step 4 (λ i, 10 * i) (Release 0) m ≠ Some Undefined.
Proof.
  assert (PowerOfTwo 4) as H4 by (by apply pot_check).
  destruct (run 4 (λ i, 10 * i) racing_trace (start 4 2 1)) as [[m| |]|] eqn:Hrun; [|vm_compute in Hrun; discriminate Hrun..].
  exists m. split; [reflexivity|].
  assert (reachable 4 (λ i, 10 * i) 2 1 m) as Hm.
  { apply (timely_run_reachable 4 (λ i, 10 * i) 1 2 racing_trace (start 4 2 1)); [constructor|vm_compute; reflexivity|exact Hrun]. }
  assert (length (out m) = 2%nat ∧ (2, AlreadyWritten) ∈ answers m) as [Hlen Ha].
  { vm_compute in Hrun. injection Hrun as <-. split; [reflexivity|]. right. left. }
  destruct (reorder_buffer_under_release_acquire 4 (λ i, 10 * i) 1 2 m ltac:(lia) Hm ltac:(rewrite Hlen; lia)) as (Hrace & Hout & Hdup & Hrefused & _).
  rewrite Hlen in Hout. split; [exact Hout|]. split; [exact Hdup|]. split; [exact (Hrefused 2 Ha)|]. exact (Hrace (Release 0) eq_refl).
Defined.
End ReorderOrder.
