(* ===== verification/ReorderOnce.v ===== *)
(** * ReorderBuffer when each index is tried once

    [ReorderOrder] shows what the buffer guarantees if no claim comes after the reader has
    passed its index.  Here is a condition on the writers alone that implies it, under the same
    memory orders: an index is passed to [try_write_to] only if it was not claimed
    and no call has tested it and not claimed it yet.  Without it, even a single writer that is handed a
    packet twice can race with the reader. *)

From S2P Require Import Prelude Ring ReorderBuffer ReorderOrder.

Module ReorderOnce.
Import ReorderBuffer(WriteStatus, LikelySlowReader, LikelySlowWriter, Success, AlreadyWritten).
Import ReorderOrder.

(** [try_write_to] is called for an index that no earlier call may write. *)
Definition first_try {T} (a : action) (m : t T) : bool :=
  match a with
  | Begin _ index _ =>
      forallb (λ claimed, negb (claimed =? index)) (claims m) &&
      forallb (λ '(p, _), match p with Checked checked => negb (checked =? index) | _ => true end) (writers m)
  | _ => true
  end.

Inductive reachable_once {T} (CAPACITY : Z) (content : Z → T) (n : nat) (r : Z) : t T → Prop :=
  | once_start : reachable_once CAPACITY content n r (start CAPACITY n r)
  | once_step m a m' : reachable_once CAPACITY content n r m → first_try a m = true →
      step CAPACITY content a m = Some (Ok m') → reachable_once CAPACITY content n r m'.

Section Proofs.
Context {T : Type} (CAPACITY : Z) {HC : PowerOfTwo CAPACITY} (content : Z → T) (r0 : Z) (Hr0 : 0 ≤ r0).
Implicit Types (m : t T) (v : view) (i index : Z).

Definition checked (p : writer_phase T) : option Z := match p with Checked index => Some index | _ => None end.

(** What a step does to the writers, the claims and the answers. *)
Inductive moved (a : action) m m' : Prop :=
  | moved_reader : writers m' = writers m → claims m' = claims m → answers m' = answers m → moved a m m'
  | moved_begin w index store (p : writer_phase T) v : a = Begin w index store → is_Some (writers m !! w) →
      writers m' = <[w := (p, v)]> (writers m) → claims m' = claims m → (∀ i, checked p = Some i → i = index) →
      answers m' = answers m ∨ answers m' = answers m ++ [(index, AlreadyWritten)] → moved a m m'
  | moved_checked w index v0 (p : writer_phase T) v : writers m !! w = Some (Checked index, v0) →
      writers m' = <[w := (p, v)]> (writers m) → checked p = None →
      claims m' = claims m ++ [index] ∧ answers m' = answers m ∨
      claims m' = claims m ∧ answers m' = answers m ++ [(index, AlreadyWritten)] → moved a m m'
  | moved_other w (p : writer_phase T) v more : is_Some (writers m !! w) → writers m' = <[w := (p, v)]> (writers m) →
      checked p = None → claims m' = claims m → answers m' = answers m ++ more →
      (∀ i, (i, AlreadyWritten) ∉ more) → moved a m m'.

Lemma step_moved a m m' : step CAPACITY content a m = Some (Ok m') → moved a m m'.
Proof.
  intros Hs. destruct a as [w index store|w store|w|w store|w|w|store| | |]; simpl in Hs.
  - unfold begin_ in Hs. destruct (writers m !! w) as [[p v]|] eqn:Hw; simpl in Hs; [|done]. destruct p; try done.
    destruct (load_index store v m) as [[value v']|]; simpl in Hs; [|done]. injection Hs as <-.
    destruct (ReorderBuffer.too_far_ahead _ _ _); [|destruct (_ <? _)].
    + eapply moved_begin; try done. by left.
    + eapply moved_begin; try done. by right.
    + eapply moved_begin; try done; [by intros i [= <-]|by left].
  - unfold check_status in Hs. destruct (writers m !! w) as [[p v]|] eqn:Hw; simpl in Hs; [|done]. destruct p; try done.
    destruct (load_status _ _ _ _) as [[st v']|]; simpl in Hs; [|done]. injection Hs as <-.
    eapply moved_other; try done. intros i [= ->]%list_elem_of_singleton. by case_decide.
  - unfold claim in Hs. destruct (writers m !! w) as [[p v]|] eqn:Hw; simpl in Hs; [|done]. destruct p; try done.
    destruct (claim_slot _ _ _) as [[sl v']|]; simpl in Hs; [|done]. injection Hs as <-.
    eapply moved_checked; try done. by left.
  - unfold refuse in Hs. destruct (writers m !! w) as [[p v]|] eqn:Hw; simpl in Hs; [|done]. destruct p; try done.
    destruct (claim_fails _ _ _ _) as [v'|]; simpl in Hs; [|done]. injection Hs as <-.
    eapply moved_checked; try done. by right.
  - unfold write in Hs. destruct (writers m !! w) as [[p v]|] eqn:Hw; simpl in Hs; [|done]. destruct p; try done.
    destruct (store_data _ _ _ _) as [[[sl v']| |]|]; simpl in Hs; try done. injection Hs as <-.
    eapply (moved_other _ _ _ _ _ _ []); try done; [by rewrite app_nil_r|intros i; apply not_elem_of_nil].
  - unfold publish in Hs. destruct (writers m !! w) as [[p v]|] eqn:Hw; simpl in Hs; [|done]. destruct p; try done.
    destruct (store_status _ _ _ _) as [[sl v']|]; simpl in Hs; [|done]. injection Hs as <-.
    eapply moved_other; try done. by intros i Hi%list_elem_of_singleton.
  - unfold poll in Hs. destruct (reader m); try done. destruct (load_status _ _ _ _) as [[st v]|]; simpl in Hs; [|done].
    injection Hs as <-. by apply moved_reader.
  - unfold take_ in Hs. destruct (reader m); try done. destruct (load_data _ _ _) as [[[x [sl v]]| |]|]; simpl in Hs; try done.
    injection Hs as <-. by apply moved_reader.
  - unfold advance in Hs. destruct (reader m); try done. injection Hs as <-. by apply moved_reader.
  - unfold free in Hs. destruct (reader m); try done. destruct (store_status _ _ _ _) as [[sl v]|]; simpl in Hs; [|done].
    injection Hs as <-. by apply moved_reader.
Qed.

(** An index the reader has passed was claimed. *)
Lemma consumed_claimed m i : minv CAPACITY content r0 m → r0 ≤ i < reader_index_ m → i ∈ claims m.
Proof.
  intros Hi [H0 Hlt]. pose proof (minv_memory _ _ _ _ Hi) as (Hl & _). pose proof (minv_claims _ _ _ _ Hi) as (_ & _ & Hiff).
  pose proof (low_bounds CAPACITY content r0 m Hi) as [Hlow Hread]. pose proof (pot_pos (c := CAPACITY)) as Hcap.
  set (j := low m + (i - low m) mod CAPACITY). pose proof (Z.mod_pos_bound (i - low m) CAPACITY Hcap).
  assert (slot_at CAPACITY j = slot_at CAPACITY i) as He by (unfold slot_at, j; rewrite Zplus_mod_idemp_r; f_equal; lia).
  destruct (at_slot_exists CAPACITY (buffer_ m) j Hl) as [sl Hsl].
  destruct (minv_window _ _ _ _ Hi j sl ltac:(lia) Hsl) as (Hlen & _ & _).
  apply (Hiff i sl H0); [by rewrite <- (at_same_slot CAPACITY m j i He)|].
  destruct (Z.lt_ge_cases i (low m)) as [Hi'|Hge]; [pose proof (round_mono CAPACITY content r0 i j H0 (eq_sym He) ltac:(lia)); lia|].
  assert (i = low m ∧ reading (reader m) = Some i) as [-> Hr].
  { unfold low in *. destruct (reader m) as [| | |k x]; try lia. assert (i = k) as -> by lia. done. }
  destruct (reading_length CAPACITY content r0 m _ Hi Hr) as (_ & sl' & Hsl' & Hlen').
  rewrite (at_same_slot CAPACITY m _ _ He) in Hsl. assert (sl' = sl) as -> by congruence. lia.
Qed.

(** The calls under way have tested different indices, none of them claimed. *)
Record tried_once m : Prop := {
  once_checked w (p : writer_phase T) v i : writers m !! w = Some (p, v) → checked p = Some i → i ∉ claims m;
  once_apart k w (p q : writer_phase T) v v' i : writers m !! k = Some (p, v) → writers m !! w = Some (q, v') →
    checked p = Some i → checked q = Some i → k = w;
  once_answers i : (i, AlreadyWritten) ∈ answers m → i < r0;
}.

Lemma first_try_spec w index store m : first_try (Begin w index store) m = true →
  (index ∉ claims m) ∧ ∀ k (p : writer_phase T) v, writers m !! k = Some (p, v) → checked p ≠ Some index.
Proof.
  simpl. intros [Hc Hw]%andb_true_iff. rewrite forallb_forall in Hc. rewrite forallb_forall in Hw. split.
  - intros Hin%list_elem_of_In%Hc. lia.
  - intros k p v Hk Hp. apply list_elem_of_lookup_2, list_elem_of_In, Hw in Hk. destruct p; simplify_eq/=. lia.
Qed.

Lemma tried_timely m a : minv CAPACITY content r0 m → tried_once m → timely a m = true.
Proof.
  intros Hi Ho. destruct a as [| |w| | | | | | |]; try done. simpl. destruct (writers m !! w) as [[p v]|] eqn:Hw; [|done].
  destruct p as [| |i| |]; try done. apply Z.leb_le. destruct (minv_writers _ _ _ _ Hi _ _ _ Hw) as [_ [H0 _]].
  destruct (Z.le_gt_cases (reader_index_ m) i) as [|Hlt]; [done|]. destruct (once_checked _ Ho _ _ _ i Hw eq_refl).
  apply consumed_claimed; [done|lia].
Qed.

(** A refusal of an index that was not claimed before is of one before the first. *)
Lemma refused_below m m' index : minv CAPACITY content r0 m' → claims m' = claims m → index ∉ claims m →
  (index, AlreadyWritten) ∈ answers m' → index < r0.
Proof.
  intros Hi Hc Hnot Ha. destruct (Z.lt_ge_cases index r0) as [|Hge]; [done|]. exfalso. apply Hnot. rewrite <- Hc.
  pose proof (minv_answers _ _ _ _ Hi) as Hall. rewrite Forall_forall in Hall. destruct (Hall _ Ha); [by apply consumed_claimed|done].
Qed.

Lemma tried_step m a m' : tried_once m → minv CAPACITY content r0 m' → first_try a m = true →
  step CAPACITY content a m = Some (Ok m') → tried_once m'.
Proof.
  intros Ho Hi Hf Hs. destruct (step_moved a m m' Hs) as [Hw Hc Ha|w index store p v -> Hin Hw Hc Hp Ha|w index v0 p v Hin Hw Hp Hca|w p v more Hin Hw Hp Hc Ha Hmore].
  - destruct Ho. split; rewrite ?Hw, ?Hc, ?Ha; done.
  - destruct (first_try_spec _ _ _ _ Hf) as [Hnot Hother].
    pose proof (λ k q v', insert_writer m w p v k q v' Hin) as Hcases. rewrite <- Hw in Hcases. split.
    + intros k q v' i Hk Hq. rewrite Hc. apply Hcases in Hk as [(-> & -> & ->)|[Hne Hk]]; [by rewrite (Hp i Hq)|by eapply (once_checked _ Ho)].
    + intros k k' q q' v1 v2 i Hk Hk' Hq Hq'.
      apply Hcases in Hk as [(-> & -> & ->)|[Hne Hk]]; apply Hcases in Hk' as [(-> & -> & ->)|[Hne' Hk']]; [done|..].
      * apply Hp in Hq as ->. by destruct (Hother _ _ _ Hk').
      * apply Hp in Hq' as ->. by destruct (Hother _ _ _ Hk).
      * by eapply (once_apart _ Ho).
    + intros i Hia. destruct Ha as [Ha|Ha]; [rewrite Ha in Hia; by apply (once_answers _ Ho)|].
      pose proof Hia as Hia'. rewrite Ha in Hia. apply elem_of_app in Hia as [Hia|[= ->]%list_elem_of_singleton]; [by apply (once_answers _ Ho)|].
      by apply (refused_below m m').
  - pose proof (once_checked _ Ho _ _ _ index Hin eq_refl) as Hnot.
    pose proof (λ k q v', insert_writer m w p v k q v' (mk_is_Some _ _ Hin)) as Hcases. rewrite <- Hw in Hcases.
    assert (∀ k (q : writer_phase T) v' i, writers m' !! k = Some (q, v') → checked q = Some i → k ≠ w ∧ writers m !! k = Some (q, v')) as Hold.
    { intros k q v' i Hk Hq. apply Hcases in Hk as [(-> & -> & ->)|[Hne Hk]]; [congruence|done]. }
    split.
    + intros k q v' i Hk Hq. destruct (Hold _ _ _ _ Hk Hq) as [Hne Hk']. pose proof (once_checked _ Ho _ _ _ i Hk' Hq) as Hi'.
      destruct Hca as [[-> _]|[-> _]]; [|done]. intros [Hia|Hia%list_elem_of_singleton]%elem_of_app; [done|subst i].
      apply Hne. by apply (once_apart _ Ho k w q (Checked index) v' v0 index).
    + intros k k' q q' v1 v2 i Hk Hk' Hq Hq'. destruct (Hold _ _ _ _ Hk Hq) as [_ Hk1]. destruct (Hold _ _ _ _ Hk' Hq') as [_ Hk2].
      by apply (once_apart _ Ho k k' q q' v1 v2 i).
    + intros i Hia. destruct Hca as [[_ Ha]|[Hc Ha]]; [rewrite Ha in Hia; by apply (once_answers _ Ho)|].
      pose proof Hia as Hia'. rewrite Ha in Hia. apply elem_of_app in Hia as [Hia|[= ->]%list_elem_of_singleton]; [by apply (once_answers _ Ho)|].
      by apply (refused_below m m').
  - pose proof (λ k q v', insert_writer m w p v k q v' Hin) as Hcases. rewrite <- Hw in Hcases.
    assert (∀ k (q : writer_phase T) v' i, writers m' !! k = Some (q, v') → checked q = Some i → writers m !! k = Some (q, v')) as Hold.
    { intros k q v' i Hk Hq. apply Hcases in Hk as [(-> & -> & ->)|[Hne Hk]]; [congruence|done]. }
    split.
    + intros k q v' i Hk Hq. rewrite Hc. by apply (once_checked _ Ho k q v' i); [eapply Hold|].
    + intros k k' q q' v1 v2 i Hk Hk' Hq Hq'. by apply (once_apart _ Ho k k' q q' v1 v2 i); [eapply Hold..| |].
    + intros i. rewrite Ha. intros [Hia|Hia]%elem_of_app; [by apply (once_answers _ Ho)|by destruct (Hmore i)].
Qed.

Lemma once_reachable n m : reachable_once CAPACITY content n r0 m → mbounded CAPACITY r0 m →
  minv CAPACITY content r0 m ∧ reachable CAPACITY content n r0 m ∧ tried_once m.
Proof.
  induction 1 as [|m a m' _ IH Hf Hs]; intros Hb.
  - split; [by apply start_sound|]. split; [constructor|]. split; simpl.
    + by intros w p v i [[= -> ->] _]%lookup_replicate.
    + by intros k w p q v v' i [[= -> ->] _]%lookup_replicate.
    + intros i Ha. by apply not_elem_of_nil in Ha.
  - pose proof (step_output _ _ _ _ _ Hs). assert (mbounded CAPACITY r0 m) as Hb' by (unfold mbounded in *; lia).
    destruct (IH Hb') as (Hi & Hm & Ho). pose proof (tried_timely m a Hi Ho) as Ht.
    assert (reachable CAPACITY content n r0 m') as Hm' by (by eapply reachable_step).
    pose proof (reachable_sound CAPACITY content r0 Hr0 n m' Hm' Hb) as Hi'. split; [done|]. split; [done|]. by eapply tried_step.
Qed.
End Proofs.

(** C38: If every index is tried once, the buffer is correct whatever the interleaving and
    however stale the loads: no access is a data race, the items come out in the order of their
    indices, no claim comes too late, and no write to an index from the first on is ever answered [AlreadyWritten]. *)
Theorem reorder_buffer_written_once {T} (CAPACITY : Z) `{PowerOfTwo CAPACITY} (content : Z → T) (r : Z) (n : nat) (m : t T) :
  0 ≤ r → reachable_once CAPACITY content n r m → r + Z.of_nat (length (out m)) + CAPACITY + 1 < 2 ^ 64 →
  (∀ a, timely a m = true ∧ step CAPACITY content a m ≠ Some Undefined) ∧
  out m = content <$> seqZ r (Z.of_nat (length (out m))) ∧
  (∀ index, (index, AlreadyWritten) ∈ answers m → index < r).
Proof.
  intros Hr Hm Hb. destruct (once_reachable CAPACITY content r Hr n m Hm Hb) as (Hi & _ & Ho). split; [|split].
  - intros a. pose proof (tried_timely CAPACITY content r m a Hi Ho) as Ht. split; [done|]. intros Hs.
    by destruct (step_sound CAPACITY content r Hr a m _ Hi Hb Ht Hs) as (m' & ? & _).
  - apply (minv_out _ _ _ _ Hi).
  - apply (once_answers _ _ Ho).
Qed.

Fixpoint first_tries {T} (CAPACITY : Z) (content : Z → T) (actions : list action) (m : t T) : bool :=
  match actions with
  | [] => true
  | a :: actions =>
      first_try a m && match step CAPACITY content a m with Some (Ok m) => first_tries CAPACITY content actions m | _ => false end
  end.

Lemma first_tries_reachable {T} CAPACITY (content : Z → T) n r actions : ∀ m m', reachable_once CAPACITY content n r m →
  first_tries CAPACITY content actions m = true → run CAPACITY content actions m = Some (Ok m') → reachable_once CAPACITY content n r m'.
Proof.
  induction actions as [|a actions IH]; intros m m' Hm Ht Hrun; simpl in *; [by injection Hrun as <-|].
  apply andb_true_iff in Ht as [Ht Hts]. destruct (step CAPACITY content a m) as [[m1| |]|] eqn:Hs; try done.
  apply (IH m1); [by eapply once_step|done|done].
Qed.

(** The second writer tests index 2 on a stale load before the first is done with index 1; index 0 is below
    the first. *)
Definition once_trace : list action :=
  [Begin 0 1 0; Begin 1 2 0; Claim 1; Claim 0; Store 0; Release 0; Store 1; Begin 0 0 0; Poll 2; Take; Release 1; Advance;
   Begin 0 3 0; Claim 0; Free] ++ consume_actions 2 ++ [Store 0; Begin 1 5 2; Claim 1].

Lemma reorder_buffer_written_once_witness :
  ∃ m, run 4 (λ i, 10 * i) once_trace (start 4 2 1) = Some (Ok m) ∧ out m = [10; 20] ∧
    step 4 (λ i, 10 * i) (Store 1) m ≠ Some Undefined ∧ (0, AlreadyWritten) ∈ answers m ∧ 0 < 1.
Proof.
  assert (PowerOfTwo 4) as H4 by (by apply pot_check).
  destruct (run 4 (λ i, 10 * i) once_trace (start 4 2 1)) as [[m| |]|] eqn:Hrun; [|vm_compute in Hrun; discriminate Hrun..].
  exists m. split; [reflexivity|].
  assert (reachable_once 4 (λ i, 10 * i) 2 1 m) as Hm.
  { apply (first_tries_reachable 4 (λ i, 10 * i) 2 1 once_trace (start 4 2 1)); [constructor|vm_compute; reflexivity|exact Hrun]. }
  assert (length (out m) = 2%nat ∧ (0, AlreadyWritten) ∈ answers m) as [Hlen Ha].
  { vm_compute in Hrun. injection Hrun as <-. split; [reflexivity|]. right. left. }
  destruct (reorder_buffer_written_once 4 (λ i, 10 * i) 1 2 m ltac:(lia) Hm ltac:(rewrite Hlen; lia)) as (Hrace & Hout & Hrefused).
  rewrite Hlen in Hout. split; [exact Hout|]. split; [apply Hrace|]. split; [exact Ha|]. exact (Hrefused 0 Ha).
Defined.

(** A single writer that is handed index 1 twice: its load of the reader index may be stale, and
    its relaxed claim of the slot that the reader freed is not ordered after the reader's access. *)
Theorem duplicate_write_races :
  run 4 id (write_actions 0 1 0 ++ consume_actions 2 ++ [Begin 0 1 0; Claim 0; Store 0]) (start 4 1 1) = Some Undefined.
Proof. vm_compute. reflexivity. Qed.
End ReorderOnce.
