(* ===== verification/Network.v ===== *)
(** * Sockets, [send_range] and [recv_range] ([utils/network-utils])

    The operating system is a parameter: a class of the calls the program makes
    on a connected stream socket, and the documented behaviour the proofs use.
    [arrived] is what the peer of the connection has sent, [incoming] the part
    that the program has not yet received, [outgoing] everything the program has
    handed to the kernel, [watched] the descriptors in the event queue. *)

From S2P Require Import Prelude Codec.

Inductive errno : Type := EAGAIN | EWOULDBLOCK | ECONNRESET | EPIPE | EINTR | ECONNABORTED | EOTHER (code : Z).
#[global] Instance errno_eq_dec : EqDecision errno.
Proof. solve_decision. Defined.

(** The results of [::recv] (positive, 0, -1) and of [::send]. *)
Inductive recv_result : Type := Received (bytes : list Z) | PeerClosed | RecvFailed (e : errno).
Inductive send_result : Type := Sent (count : nat) | SendFailed (e : errno).

Class Socket (W : Type) : Type := {
  sock_recv : Z → nat → W → recv_result * W;
  sock_send : Z → list Z → W → send_result * W;
  sock_close : Z → W → W;
  register_oneshot_write_event : Z → W → bool * W;
  unregister_read_event : Z → W → bool * W;
  arrived : W → Z → list Z;
  incoming : W → Z → list Z;
  outgoing : W → Z → list Z;
  watched : W → gset Z;
}.

(** No call touches the streams of another socket. *)
Definition same_streams {W} `{Socket W} (w w' : W) (fds : Z → Prop) : Prop :=
  ∀ fd, fds fd → arrived w' fd = arrived w fd ∧ incoming w' fd = incoming w fd ∧ outgoing w' fd = outgoing w fd.

Class SocketLaws (W : Type) {SK : Socket W} : Prop := {
  recv_received fd n w bs w' : sock_recv fd n w = (Received bs, w') → (0 < n)%nat →
    (0 < length bs ≤ n)%nat ∧ arrived w' fd = arrived w fd ∧ incoming w fd = bs ++ incoming w' fd ∧
    outgoing w' fd = outgoing w fd;
  recv_nothing fd n w r w' : sock_recv fd n w = (r, w') → (∀ bs, r ≠ Received bs) →
    same_streams w w' (λ _, True);
  recv_other fd n w r w' : sock_recv fd n w = (r, w') → same_streams w w' (λ fd', fd' ≠ fd);
  send_sent fd bs w n w' : sock_send fd bs w = (Sent n, w') →
    (n ≤ length bs)%nat ∧ arrived w' fd = arrived w fd ∧ incoming w' fd = incoming w fd ∧
    outgoing w' fd = outgoing w fd ++ take n bs;
  send_failed fd bs w e w' : sock_send fd bs w = (SendFailed e, w') → same_streams w w' (λ _, True);
  send_other fd bs w r w' : sock_send fd bs w = (r, w') → same_streams w w' (λ fd', fd' ≠ fd);
  close_other fd w : same_streams w (sock_close fd w) (λ fd', fd' ≠ fd);
  close_outgoing fd w : outgoing (sock_close fd w) fd = outgoing w fd;
  register_streams fd w b w' : register_oneshot_write_event fd w = (b, w') → same_streams w w' (λ _, True);
  unregister_streams fd w b w' : unregister_read_event fd w = (b, w') → same_streams w w' (λ _, True);
  recv_watched fd n w r w' : sock_recv fd n w = (r, w') → watched w' = watched w;
  send_watched fd bs w r w' : sock_send fd bs w = (r, w') → watched w' = watched w;
  close_watched fd w : watched (sock_close fd w) = watched w ∖ {[fd]};
  register_watched fd w b w' : register_oneshot_write_event fd w = (b, w') → fd ∈ watched w → watched w' = watched w;
  unregister_watched fd w b w' : unregister_read_event fd w = (b, w') → watched w' ∖ {[fd]} = watched w ∖ {[fd]};
}.

(** Calls that only move data on [fd]: [read] out of its incoming stream and
    [sent] into its outgoing one. *)
Definition moved {W} `{Socket W} (fd : Z) (read sent : list Z) (w w' : W) : Prop :=
  arrived w' fd = arrived w fd ∧ incoming w fd = read ++ incoming w' fd ∧ outgoing w' fd = outgoing w fd ++ sent ∧
  same_streams w w' (λ fd', fd' ≠ fd) ∧ watched w' = watched w.

Section Moved.
Context {W : Type} {SK : Socket W} {L : SocketLaws W}.
Implicit Types (w : W) (fd : Z).

Lemma same_streams_trans w w1 w2 fds : same_streams w w1 fds → same_streams w1 w2 fds → same_streams w w2 fds.
Proof. intros H1 H2 fd Hfd. destruct (H1 fd Hfd) as (? & ? & ?), (H2 fd Hfd) as (? & ? & ?). split_and!; congruence. Qed.

Lemma same_streams_weaken w w' (P Q : Z → Prop) : same_streams w w' P → (∀ fd, Q fd → P fd) → same_streams w w' Q.
Proof. intros H HQ fd Hfd. by apply H, HQ. Qed.

Lemma moved_same fd w w' : same_streams w w' (λ _, True) → watched w' = watched w → moved fd [] [] w w'.
Proof.
  intros Hs Hw. destruct (Hs fd I) as (? & ? & ?). split_and!; rewrite ?app_nil_r; try done.
  by eapply same_streams_weaken.
Qed.

Lemma moved_refl fd w : moved fd [] [] w w.
Proof. by apply moved_same. Qed.

Lemma moved_trans fd r1 s1 r2 s2 w w1 w2 : moved fd r1 s1 w w1 → moved fd r2 s2 w1 w2 → moved fd (r1 ++ r2) (s1 ++ s2) w w2.
Proof.
  intros (Ha1 & Hi1 & Ho1 & Hs1 & Hw1) (Ha2 & Hi2 & Ho2 & Hs2 & Hw2). split_and!; [congruence| | | |congruence].
  - by rewrite Hi1, Hi2, <- app_assoc.
  - by rewrite Ho2, Ho1, <- app_assoc.
  - by eapply same_streams_trans.
Qed.

Lemma moved_sent fd s1 s2 w w1 w2 : moved fd [] s1 w w1 → moved fd [] s2 w1 w2 → moved fd [] (s1 ++ s2) w w2.
Proof. apply moved_trans. Qed.

Lemma moved_received fd n bs w w' : sock_recv fd n w = (Received bs, w') → (0 < n)%nat →
  (0 < length bs ≤ n)%nat ∧ moved fd bs [] w w'.
Proof using L.
  intros Hr Hn. destruct (recv_received _ _ _ _ _ Hr Hn) as (Hl & Ha & Hi & Ho). split; [done|].
  split_and!; rewrite ?app_nil_r; try done; [by eapply recv_other|by eapply recv_watched].
Qed.

Lemma moved_not_received fd n r w w' : sock_recv fd n w = (r, w') → (∀ bs, r ≠ Received bs) → moved fd [] [] w w'.
Proof using L. intros Hr Hne. apply moved_same; [by eapply recv_nothing|by eapply recv_watched]. Qed.

Lemma moved_send fd bs n w w' : sock_send fd bs w = (Sent n, w') → (n ≤ length bs)%nat ∧ moved fd [] (take n bs) w w'.
Proof using L.
  intros Hr. destruct (send_sent _ _ _ _ _ Hr) as (Hl & Ha & Hi & Ho). split; [done|].
  split_and!; try done; [by eapply send_other|by eapply send_watched].
Qed.

Lemma moved_not_sent fd bs e w w' : sock_send fd bs w = (SendFailed e, w') → moved fd [] [] w w'.
Proof using L. intros Hr. apply moved_same; [by eapply send_failed|by eapply send_watched]. Qed.
End Moved.

Inductive ReceiveStatus : Type := Success | ConnectionClosed | ReceiveError (e : errno).
#[global] Instance ReceiveStatus_eq_dec : EqDecision ReceiveStatus.
Proof. solve_decision. Defined.

(** [std::span]'s [data() + start] and [end - start] bytes: out of range is undefined. *)
Definition in_span (start stop : Z) (buffer : list Z) : bool :=
  (0 <=? start) && (stop <=? Z.of_nat (length buffer)).

Section Ranges.
Context {W : Type} {SK : Socket W}.

(** [start] is passed by reference and comes back with the result.  Each round
    receives at least one byte: [stop - start] rounds are enough. *)
Fixpoint recv_loop (fuel : nat) (fd : Z) (buffer : list Z) (start stop : Z) (w : W) :
    outcome (ReceiveStatus * list Z * Z * W) :=
  if start <? stop then
    match fuel with
    | O => OutOfFuel
    | S fuel =>
        _ ← assert_ (in_span start stop buffer);
        match sock_recv fd (Z.to_nat (stop - start)) w with
        | (PeerClosed, w) => Ok (ConnectionClosed, buffer, start, w)
        | (RecvFailed e, w) => Ok (ReceiveError e, buffer, start, w)
        | (Received bytes, w) =>
            recv_loop fuel fd (EncodedMessage.overwrite (Z.to_nat start) bytes buffer)
              (start + Z.of_nat (length bytes)) stop w
        end
    end
  else Ok (Success, buffer, start, w).

Definition recv_range (fd : Z) (buffer : list Z) (start stop : Z) (w : W) :
    outcome (ReceiveStatus * list Z * Z * W) :=
  recv_loop (Z.to_nat (stop - start)) fd buffer start stop w.

(** [Value tt] is [true]; [Unexpected e] is [false] with [errno] left at [e]. *)
Fixpoint send_loop (fuel : nat) (fd : Z) (buffer : list Z) (start stop : Z) (w : W) :
    outcome (expected unit errno * Z * W) :=
  if start <? stop then
    match fuel with
    | O => OutOfFuel
    | S fuel =>
        bytes ← EncodedMessage.subspan start (stop - start) buffer;
        match sock_send fd bytes w with
        | (Sent O, w) => Ok (Unexpected EPIPE, start, w)
        | (SendFailed e, w) => Ok (Unexpected e, start, w)
        | (Sent n, w) => send_loop fuel fd buffer (start + Z.of_nat n) stop w
        end
    end
  else Ok (Value tt, start, w).

Definition send_range (fd : Z) (buffer : list Z) (start stop : Z) (w : W) :
    outcome (expected unit errno * Z * W) :=
  send_loop (Z.to_nat (stop - start)) fd buffer start stop w.
End Ranges.

(** ** What the loops do *)

Section RangeProofs.
Context {W : Type} {SK : Socket W} {L : SocketLaws W}.
Implicit Types (w : W) (fd start stop : Z) (buffer : list Z).

Lemma overwrite_length (start : nat) bytes buffer : (start + length bytes ≤ length buffer)%nat →
  length (EncodedMessage.overwrite start bytes buffer) = length buffer.
Proof.
  intros Hl. unfold EncodedMessage.overwrite. rewrite !length_app, length_take, length_drop. lia.
Qed.

Lemma overwrite_overwrite (start : nat) b1 b2 buffer : (start + length b1 + length b2 ≤ length buffer)%nat →
  EncodedMessage.overwrite (start + length b1) b2 (EncodedMessage.overwrite start b1 buffer) =
  EncodedMessage.overwrite start (b1 ++ b2) buffer.
Proof.
  intros Hl. unfold EncodedMessage.overwrite. rewrite length_app.
  assert (length (take start buffer) = start) as Hs by (rewrite length_take; lia).
  rewrite (app_assoc (take start buffer) b1). rewrite take_app_length' by (rewrite length_app; lia).
  rewrite drop_app_ge by (rewrite length_app; lia). rewrite length_app, Hs, drop_drop.
  rewrite <- !app_assoc. do 4 f_equal. lia.
Qed.

Lemma overwrite_nil (start : nat) buffer : EncodedMessage.overwrite start [] buffer = buffer.
Proof. unfold EncodedMessage.overwrite. simpl. rewrite Nat.add_0_r. apply take_drop. Qed.

(** [recv_range] moves a prefix of the incoming stream into the buffer, all of
    the range if it succeeds. *)
Lemma recv_loop_spec fuel fd buffer start stop w :
  0 ≤ start ≤ stop → stop ≤ Z.of_nat (length buffer) → stop - start ≤ Z.of_nat fuel →
  ∃ st got w', recv_loop fuel fd buffer start stop w =
      Ok (st, EncodedMessage.overwrite (Z.to_nat start) got buffer, start + Z.of_nat (length got), w') ∧
    moved fd got [] w w' ∧
    start + Z.of_nat (length got) ≤ stop ∧ (st = Success ↔ start + Z.of_nat (length got) = stop).
Proof.
  assert (∀ buffer start stop w, start = stop → ∃ st got w', Ok (Success, buffer, start, w) =
      Ok (st, EncodedMessage.overwrite (Z.to_nat start) got buffer, start + Z.of_nat (length got), w') ∧
    moved fd got [] w w' ∧ start + Z.of_nat (length got) ≤ stop ∧ (st = Success ↔ start + Z.of_nat (length got) = stop)) as Hdone.
  { intros buffer0 start0 stop0 w0 ->. exists Success, [], w0. rewrite overwrite_nil. simpl. rewrite Z.add_0_r.
    split; [done|]. split; [apply moved_refl|done]. }
  revert buffer start w. induction fuel as [|fuel IH]; intros buffer start w Hs He Hf.
  - simpl. rewrite (proj2 (Z.ltb_ge start stop)) by lia. apply Hdone. lia.
  - simpl. destruct (Z.ltb_spec start stop) as [Hlt|Hge]; [|apply Hdone; lia].
    unfold in_span. rewrite (proj2 (Z.leb_le 0 start)), (proj2 (Z.leb_le stop _)) by lia. simpl.
    assert (∀ st w1, st ≠ Success → moved fd [] [] w w1 → ∃ st' got w', Ok (st, buffer, start, w1) =
      Ok (st', EncodedMessage.overwrite (Z.to_nat start) got buffer, start + Z.of_nat (length got), w') ∧
      moved fd got [] w w' ∧ start + Z.of_nat (length got) ≤ stop ∧ (st' = Success ↔ start + Z.of_nat (length got) = stop)) as Hstop.
    { intros st w1 Hst Hm. exists st, [], w1. rewrite overwrite_nil. simpl. rewrite Z.add_0_r.
      split; [done|]. split; [done|]. split; [lia|]. split; [done|lia]. }
    destruct (sock_recv fd (Z.to_nat (stop - start)) w) as [[bs| |e] w1] eqn:Hr.
    + destruct (moved_received _ _ _ _ _ Hr ltac:(lia)) as (Hl & Hm).
      destruct (IH (EncodedMessage.overwrite (Z.to_nat start) bs buffer) (start + Z.of_nat (length bs)) w1)
        as (st & got & w' & Hrun & Hm' & Hle & Hst).
      { lia. } { rewrite overwrite_length by lia. done. } { lia. }
      exists st, (bs ++ got), w'. rewrite Hrun, length_app, Nat2Z.inj_add, Z.add_assoc.
      replace (Z.to_nat (start + Z.of_nat (length bs))) with (Z.to_nat start + length bs)%nat by lia.
      rewrite overwrite_overwrite by lia. split; [done|]. split; [|done]. by apply (moved_trans fd bs [] got []  w w1).
    + apply Hstop; [done|]. by eapply moved_not_received.
    + apply Hstop; [done|]. by eapply moved_not_received.
Qed.

Lemma recv_range_spec fd buffer start stop w :
  0 ≤ start ≤ stop → stop ≤ Z.of_nat (length buffer) →
  ∃ st got w', recv_range fd buffer start stop w =
      Ok (st, EncodedMessage.overwrite (Z.to_nat start) got buffer, start + Z.of_nat (length got), w') ∧
    moved fd got [] w w' ∧
    start + Z.of_nat (length got) ≤ stop ∧ (st = Success ↔ start + Z.of_nat (length got) = stop).
Proof. intros Hs He. apply recv_loop_spec; [done..|lia]. Qed.

Lemma subspan_ok start count buffer : 0 ≤ start → 0 ≤ count → start + count ≤ Z.of_nat (length buffer) →
  EncodedMessage.subspan start count buffer = Ok (take (Z.to_nat count) (drop (Z.to_nat start) buffer)).
Proof. intros. unfold EncodedMessage.subspan. by rewrite (proj2 (Z.leb_le _ _)). Qed.

(** [send_range] sends a prefix of the range, all of it if it succeeds. *)
Lemma send_loop_spec fuel fd buffer start stop w :
  0 ≤ start ≤ stop → stop ≤ Z.of_nat (length buffer) → stop - start ≤ Z.of_nat fuel →
  ∃ r n w', send_loop fuel fd buffer start stop w = Ok (r, start + Z.of_nat n, w') ∧
    moved fd [] (take n (drop (Z.to_nat start) buffer)) w w' ∧
    start + Z.of_nat n ≤ stop ∧ (r = Value tt ↔ start + Z.of_nat n = stop).
Proof.
  assert (∀ start w (r : expected unit errno) w', moved fd [] [] w w' → start ≤ stop → (r = Value tt ↔ start = stop) →
    ∃ r' n w'', Ok (r, start, w') = Ok (r', start + Z.of_nat n, w'') ∧
      moved fd [] (take n (drop (Z.to_nat start) buffer)) w w'' ∧
      start + Z.of_nat n ≤ stop ∧ (r' = Value tt ↔ start + Z.of_nat n = stop)) as Hstop.
  { intros start0 w0 r w' Hm Hle Hr. exists r, O, w'. simpl. rewrite Z.add_0_r, take_0. done. }
  revert start w. induction fuel as [|fuel IH]; intros start w Hs He Hf.
  - simpl. rewrite (proj2 (Z.ltb_ge start stop)) by lia. apply Hstop; [apply moved_refl|lia|split; [lia|done]].
  - simpl. destruct (Z.ltb_spec start stop) as [Hlt|Hge].
    2: { apply Hstop; [apply moved_refl|lia|split; [lia|done]]. }
    rewrite subspan_ok by lia. cbn [mbind outcome_bind].
    set (bytes := take (Z.to_nat (stop - start)) (drop (Z.to_nat start) buffer)).
    assert (Z.of_nat (length bytes) = stop - start) as Hlb by (unfold bytes; rewrite length_take, length_drop; lia).
    destruct (sock_send fd bytes w) as [[[|n]|e] w1] eqn:Hr.
    + destruct (moved_send _ _ _ _ _ Hr) as [_ Hm]. rewrite take_0 in Hm. apply Hstop; [done|lia|split; [done|lia]].
    + destruct (moved_send _ _ _ _ _ Hr) as [Hn Hm].
      destruct (IH (start + Z.of_nat (S n)) w1) as (r & k & w' & Hrun & Hm' & Hle & Hst); [lia..|].
      exists r, (S n + k)%nat, w'. rewrite Hrun. replace (start + Z.of_nat (S n) + Z.of_nat k) with
        (start + Z.of_nat (S n + k)) in * by lia. split; [done|]. split; [|done].
      rewrite <- take_take_drop.
      replace (take (S n) (drop (Z.to_nat start) buffer)) with (take (S n) bytes) by (unfold bytes; rewrite take_take; f_equal; lia).
      replace (Z.to_nat (start + Z.of_nat (S n))) with (Z.to_nat start + S n)%nat in Hm' by lia.
      rewrite <- drop_drop in Hm'. by eapply moved_sent.
    + apply Hstop; [by eapply moved_not_sent|lia|split; [done|lia]].
Qed.

Lemma send_range_spec fd buffer start stop w :
  0 ≤ start ≤ stop → stop ≤ Z.of_nat (length buffer) →
  ∃ r n w', send_range fd buffer start stop w = Ok (r, start + Z.of_nat n, w') ∧
    moved fd [] (take n (drop (Z.to_nat start) buffer)) w w' ∧
    start + Z.of_nat n ≤ stop ∧ (r = Value tt ↔ start + Z.of_nat n = stop).
Proof. intros Hs He. apply send_loop_spec; [done..|lia]. Qed.
End RangeProofs.

(** ** A concrete kernel

    An instance of the class that runs: each call transfers at most the next
    limit's bytes (a limit of 0, or nothing to receive, is [EAGAIN]).  It has no
    event queue and does not record what has arrived. *)
Module Scripted.
Record t : Type := { input : gmap Z (list Z); output : gmap Z (list Z); limits : list nat }.

Definition bytes_of (m : gmap Z (list Z)) (fd : Z) : list Z := default [] (m !! fd).

Definition recv (fd : Z) (n : nat) (w : t) : recv_result * t :=
  let limit := default n (head (limits w)) in
  let got := take (min limit n) (bytes_of (input w) fd) in
  match got with
  | [] => (RecvFailed EAGAIN, {| input := input w; output := output w; limits := tail (limits w) |})
  | _ => (Received got, {| input := <[fd := drop (min limit n) (bytes_of (input w) fd)]> (input w);
                           output := output w; limits := tail (limits w) |})
  end.

Definition send (fd : Z) (bytes : list Z) (w : t) : send_result * t :=
  let limit := default (length bytes) (head (limits w)) in
  match min limit (length bytes) with
  | O => (SendFailed EAGAIN, {| input := input w; output := output w; limits := tail (limits w) |})
  | S n => (Sent (S n), {| input := input w;
                           output := <[fd := bytes_of (output w) fd ++ take (S n) bytes]> (output w);
                           limits := tail (limits w) |})
  end.

#[global] Instance socket : Socket t := {|
  sock_recv := recv; sock_send := send;
  sock_close _ w := w; register_oneshot_write_event _ w := (true, w); unregister_read_event _ w := (true, w);
  arrived _ _ := []; incoming w := bytes_of (input w); outgoing w := bytes_of (output w); watched _ := ∅;
|}.

Lemma bytes_of_insert m fd bs : bytes_of (<[fd := bs]> m) fd = bs.
Proof. unfold bytes_of. by rewrite lookup_insert_eq. Qed.
Lemma bytes_of_insert_ne m fd fd' bs : fd ≠ fd' → bytes_of (<[fd := bs]> m) fd' = bytes_of m fd'.
Proof. intros. unfold bytes_of. by rewrite lookup_insert_ne. Qed.

Lemma recv_cases fd n w r w' : recv fd n w = (r, w') →
  (∃ k, r = Received (take k (bytes_of (input w) fd)) ∧ (k ≤ n)%nat ∧ take k (bytes_of (input w) fd) ≠ [] ∧
     input w' = <[fd := drop k (bytes_of (input w) fd)]> (input w) ∧ output w' = output w) ∨
  (r = RecvFailed EAGAIN ∧ input w' = input w ∧ output w' = output w).
Proof.
  unfold recv. cbv zeta. set (k := min _ n). destruct (take k _) eqn:E; intros [= <- <-]; [by right|left].
  exists k. rewrite E. split_and!; try done. unfold k. lia.
Qed.

Lemma send_cases fd bytes w r w' : send fd bytes w = (r, w') →
  (∃ k, r = Sent k ∧ (k ≤ length bytes)%nat ∧ input w' = input w ∧
     output w' = <[fd := bytes_of (output w) fd ++ take k bytes]> (output w)) ∨
  (r = SendFailed EAGAIN ∧ input w' = input w ∧ output w' = output w).
Proof.
  unfold send. cbv zeta. destruct (min _ (length bytes)) as [|k] eqn:E; intros [= <- <-]; [by right|left].
  exists (S k). split_and!; try done. lia.
Qed.

#[global] Instance socket_laws : SocketLaws t.
Proof.
  split; simpl; try (by intros fd w b w' [= <- <-]); try done.
  - intros fd n w bs w' [(k & Hr & Hk & Hne & Hin & Hout)|(Hr & _)]%recv_cases Hn; [injection Hr as ->|done].
    rewrite Hin, Hout, bytes_of_insert, take_drop. split_and!; try done.
    + destruct (take k _); [done|simpl; lia].
    + rewrite length_take. lia.
  - intros fd n w r w' [(k & -> & _)|(-> & Hin & Hout)]%recv_cases Hne; [by destruct (Hne _ eq_refl)|].
    intros fd' _. simpl. by rewrite Hin, Hout.
  - intros fd n w r w' [(k & -> & Hk & Hne & Hin & Hout)|(-> & Hin & Hout)]%recv_cases fd' Hfd; simpl;
      rewrite Hin, Hout, ?bytes_of_insert_ne by done; done.
  - intros fd bs w n w' [(k & Hr & Hk & Hin & Hout)|(Hr & _)]%send_cases; [injection Hr as ->|done].
    rewrite Hin, Hout, bytes_of_insert. done.
  - intros fd bs w e w' [(k & Hr & _)|(_ & Hin & Hout)]%send_cases; [done|].
    intros fd' _. simpl. by rewrite Hin, Hout.
  - intros fd bs w r w' [(k & -> & Hk & Hin & Hout)|(-> & Hin & Hout)]%send_cases fd' Hfd; simpl;
      rewrite Hin, Hout, ?bytes_of_insert_ne by done; done.
  - intros fd w. set_solver.
Qed.
End Scripted.
