(* ===== verification/Connection.v ===== *)
(** * Connection ([includes/exchange/tcp-connection.hpp])

    One client socket and the message that is being sent to or received from
    it, across calls that the kernel answers only partly. *)

From S2P Require Import Prelude Types Codec Network.

Module Connection.

Inductive Status : Type := Clear | SavedMessage | PartialSend | PartialReceive.
#[global] Instance Status_eq_dec : EqDecision Status.
Proof. solve_decision. Defined.

(** [N] is the length of [buffer_], which starts indeterminate. *)
Record t : Type := {
  buffer_ : list Z;
  socket_fd_ : Z;
  head_ : Z;
  tail_ : Z;
  connection_status_ : Status;
}.

Definition make (fresh : list Z) : t :=
  {| buffer_ := fresh; socket_fd_ := -1; head_ := 0; tail_ := 0; connection_status_ := Clear |}.

Definition set_socket (fd : Z) (c : t) : t :=
  {| buffer_ := buffer_ c; socket_fd_ := fd; head_ := head_ c; tail_ := tail_ c;
     connection_status_ := connection_status_ c |}.
Definition clear (c : t) : t :=
  {| buffer_ := buffer_ c; socket_fd_ := socket_fd_ c; head_ := 0; tail_ := 0; connection_status_ := Clear |}.

(** The moved-from connection comes second. *)
Definition steal (other : t) : t * t := (other, clear (set_socket (-1) other)).

(** [assert] allows a message after another as long as the buffer has room. *)
Definition save (bytes : list Z) (c : t) : outcome t :=
  _ ← assert_ (bool_decide (connection_status_ c = Clear ∨ connection_status_ c = SavedMessage));
  _ ← assert_ (Z.of_nat (length bytes) <=? u64 (Z.of_nat (length (buffer_ c)) - head_ c));
  Ok {| buffer_ := EncodedMessage.overwrite (Z.to_nat (head_ c)) bytes (buffer_ c); socket_fd_ := socket_fd_ c;
        head_ := u64 (head_ c + Z.of_nat (length bytes)); tail_ := tail_ c; connection_status_ := SavedMessage |}.

Section Calls.
Context {W : Type} {SK : Socket W}.

Definition close (c : t) (w : W) : t * W :=
  let c := clear c in
  if 0 <=? socket_fd_ c then (set_socket (-1) c, sock_close (socket_fd_ c) w) else (c, w).

(** [operator=(Connection&&)]: a self-move leaves the connection as it is. *)
Definition move_assign (self other : t) (w : W) : t * t * W :=
  let '(_, w) := close self w in (steal other, w).

Definition send_error (e : errno) : ExchangeError.t :=
  match e with
  | EAGAIN | EWOULDBLOCK => ExchangeError.WouldBlock
  | ECONNRESET => ExchangeError.ClientConnectionClosed
  | _ => ExchangeError.SendToClient
  end.

Definition send (c : t) (w : W) : outcome (expected unit ExchangeError.t * t * W) :=
  _ ← assert_ (0 <=? socket_fd_ c);
  _ ← assert_ (bool_decide (connection_status_ c = SavedMessage ∨ connection_status_ c = PartialSend));
  '(result, tail, w) ← send_range (socket_fd_ c) (buffer_ c) (tail_ c) (head_ c) w;
  let c := {| buffer_ := buffer_ c; socket_fd_ := socket_fd_ c; head_ := head_ c; tail_ := tail;
              connection_status_ := PartialSend |} in
  match result with
  | Value _ => Ok (Value tt, clear c, w)
  | Unexpected e => Ok (Unexpected (send_error e), c, w)
  end.

Definition receive_error (e : errno) : ExchangeError.t :=
  match e with EAGAIN | EWOULDBLOCK => ExchangeError.WouldBlock | _ => ExchangeError.ReceiveFromClient end.

Definition receive (bytes : Z) (c : t) (w : W) : outcome (expected (list Z) ExchangeError.t * t * W) :=
  _ ← assert_ (0 <=? socket_fd_ c);
  _ ← assert_ (bool_decide ((connection_status_ c = Clear ∧ bytes ≤ Z.of_nat (length (buffer_ c))) ∨
                            connection_status_ c = PartialReceive));
  let head := if decide (connection_status_ c = Clear) then bytes else head_ c in
  '(status, buffer, tail, w) ← recv_range (socket_fd_ c) (buffer_ c) (tail_ c) head w;
  let c := {| buffer_ := buffer; socket_fd_ := socket_fd_ c; head_ := head; tail_ := tail;
              connection_status_ := PartialReceive |} in
  match status with
  | Success => span ← EncodedMessage.subspan 0 head buffer; Ok (Value span, clear c, w)
  | ConnectionClosed => Ok (Unexpected ExchangeError.ClientConnectionClosed, c, w)
  | ReceiveError e => Ok (Unexpected (receive_error e), c, w)
  end.
End Calls.

(** ** Whole messages across partial calls *)

Section Proofs.
Context {W : Type} {SK : Socket W} {L : SocketLaws W}.
Implicit Types (c : t) (w : W) (got : list Z).

(** [got] of the [n] bytes asked for have arrived. *)
Definition receiving (n : Z) got c : Prop :=
  0 ≤ socket_fd_ c ∧ n ≤ Z.of_nat (length (buffer_ c)) ∧ Z.of_nat (length got) ≤ n ∧
  tail_ c = Z.of_nat (length got) ∧ take (length got) (buffer_ c) = got ∧
  ((connection_status_ c = Clear ∧ got = []) ∨ (connection_status_ c = PartialReceive ∧ head_ c = n)).

(** Idle: nothing saved, nothing received. *)
Definition idle c : Prop := 0 ≤ socket_fd_ c ∧ head_ c = 0 ∧ tail_ c = 0 ∧ connection_status_ c = Clear.

Lemma idle_receiving n c : idle c → 0 ≤ n ≤ Z.of_nat (length (buffer_ c)) → receiving n [] c.
Proof. intros (Hfd & Hh & Ht & Hs) Hn. split_and!; try done; simpl; try lia. by left. Qed.

Lemma take_overwrite (a : nat) got bytes buffer : take a buffer = got → length got = a →
  (a + length bytes ≤ length buffer)%nat →
  take (a + length bytes) (EncodedMessage.overwrite a bytes buffer) = got ++ bytes.
Proof.
  intros <- Hl Hle. unfold EncodedMessage.overwrite. rewrite app_assoc. apply take_app_length'.
  rewrite length_app, Hl. done.
Qed.

Lemma receive_spec n got c w : receiving n got c →
  ∃ r more c' w', receive n c w = Ok (r, c', w') ∧ moved (socket_fd_ c) more [] w w' ∧
    socket_fd_ c' = socket_fd_ c ∧ length (buffer_ c') = length (buffer_ c) ∧
    match r with
    | Value bytes => bytes = got ++ more ∧ Z.of_nat (length bytes) = n ∧ idle c'
    | Unexpected e => receiving n (got ++ more) c' ∧ connection_status_ c' = PartialReceive ∧
        Z.of_nat (length (got ++ more)) < n ∧
        (e = ExchangeError.WouldBlock ∨ e = ExchangeError.ClientConnectionClosed ∨ e = ExchangeError.ReceiveFromClient)
    end.
Proof.
  intros (Hfd & Hn & Hgot & Htail & Htake & Hst). unfold receive.
  rewrite (proj2 (Z.leb_le _ _) Hfd). cbn [assert_ mbind outcome_bind].
  rewrite bool_decide_eq_true_2 by naive_solver. cbn [assert_ mbind outcome_bind].
  set (head := if decide (connection_status_ c = Clear) then n else head_ c).
  assert (head = n) as -> by (unfold head; case_decide; naive_solver congruence).
  destruct (recv_range_spec (socket_fd_ c) (buffer_ c) (tail_ c) n w) as
    (st & more & w' & -> & Hmoved & Hle & Hs); [lia|done|]. cbn [mbind outcome_bind].
  rewrite Htail in *. rewrite !Nat2Z.id in *.
  assert (length (EncodedMessage.overwrite (length got) more (buffer_ c)) = length (buffer_ c)) as Hlen
    by (apply overwrite_length; lia).
  assert (take (length (got ++ more)) (EncodedMessage.overwrite (length got) more (buffer_ c)) = got ++ more) as Htk.
  { rewrite length_app. apply take_overwrite; [done|done|lia]. }
  assert (∀ e, Z.of_nat (length got) + Z.of_nat (length more) ≠ n →
    receiving n (got ++ more) {| buffer_ := EncodedMessage.overwrite (length got) more (buffer_ c);
      socket_fd_ := socket_fd_ c; head_ := n; tail_ := Z.of_nat (length got) + Z.of_nat (length more);
      connection_status_ := PartialReceive |} ∧ Z.of_nat (length (got ++ more)) < n ∧
    (receive_error e = ExchangeError.WouldBlock ∨ receive_error e = ExchangeError.ClientConnectionClosed ∨
     receive_error e = ExchangeError.ReceiveFromClient)) as Hpartial.
  { intros e Hne. rewrite length_app in *. split; [|split; [lia|destruct e; naive_solver]].
    split_and!; simpl; rewrite ?length_app, ?Hlen; try done; try lia. by right. }
  destruct st as [| |e].
  - assert (Z.of_nat (length got) + Z.of_nat (length more) = n) as Hfull by (by apply Hs).
    rewrite subspan_ok by (rewrite ?Hlen; lia). cbn [mbind outcome_bind].
    exists (Value (got ++ more)), more. do 2 eexists. split.
    { rewrite drop_0. replace (Z.to_nat n) with (length (got ++ more)) by (rewrite length_app; lia). by rewrite Htk. }
    simpl. split_and!; try done; try (rewrite length_app; lia); by split_and!.
  - destruct (Hpartial EAGAIN) as (H1 & H2 & _); [intros Heq; by apply Hs in Heq|].
    do 4 eexists. split; [done|]. split_and!; try done. by right; left.
  - destruct (Hpartial e) as (H1 & H2 & H3); [intros Heq; by apply Hs in Heq|].
    do 4 eexists. split; [done|]. by split_and!.
Qed.

(** [sent] of the message [bytes] has been handed to the kernel. *)
Definition sending (bytes : list Z) (sent : nat) c : Prop :=
  0 ≤ socket_fd_ c ∧ (length bytes ≤ length (buffer_ c))%nat ∧ take (length bytes) (buffer_ c) = bytes ∧
  (sent ≤ length bytes)%nat ∧ head_ c = Z.of_nat (length bytes) ∧ tail_ c = Z.of_nat sent ∧
  (connection_status_ c = SavedMessage ∨ connection_status_ c = PartialSend).

Lemma save_spec bytes c : idle c → (length bytes ≤ length (buffer_ c))%nat →
  Z.of_nat (length (buffer_ c)) < 2 ^ 64 →
  ∃ c', save bytes c = Ok c' ∧ sending bytes 0 c' ∧ socket_fd_ c' = socket_fd_ c ∧
    length (buffer_ c') = length (buffer_ c).
Proof.
  intros (Hfd & Hh & Ht & Hs) Hl Hb. unfold save. rewrite bool_decide_eq_true_2 by (by left). rewrite Hh.
  cbn [assert_ mbind outcome_bind]. rewrite Z.sub_0_r, (uwrap_small 64 (Z.of_nat (length (buffer_ c)))) by (unfold in_u; lia).
  rewrite (proj2 (Z.leb_le (Z.of_nat (length bytes)) (Z.of_nat (length (buffer_ c))))) by lia.
  cbn [assert_ mbind outcome_bind].
  assert (length (EncodedMessage.overwrite 0 bytes (buffer_ c)) = length (buffer_ c)) as Hlen
    by (apply overwrite_length; lia).
  change (Z.to_nat 0) with 0%nat. eexists. split; [done|]. split; [|done]. split_and!; simpl; rewrite ?Hlen; try done; try lia.
  - by apply (take_overwrite 0 [] bytes).
  - apply uwrap_small. unfold in_u. lia.
  - by left.
Qed.

Lemma send_spec bytes sent c w : sending bytes sent c →
  ∃ r n c' w', send c w = Ok (r, c', w') ∧
    moved (socket_fd_ c) [] (take n (drop sent bytes)) w w' ∧ (sent + n ≤ length bytes)%nat ∧
    socket_fd_ c' = socket_fd_ c ∧ length (buffer_ c') = length (buffer_ c) ∧
    match r with
    | Value _ => (sent + n)%nat = length bytes ∧ idle c'
    | Unexpected e => sending bytes (sent + n) c' ∧ connection_status_ c' = PartialSend ∧
        (sent + n < length bytes)%nat ∧
        (e = ExchangeError.WouldBlock ∨ e = ExchangeError.ClientConnectionClosed ∨ e = ExchangeError.SendToClient)
    end.
Proof.
  intros (Hfd & Hl & Htake & Hsent & Hhead & Htail & Hst). unfold send.
  rewrite (proj2 (Z.leb_le _ _) Hfd). cbn [assert_ mbind outcome_bind].
  rewrite bool_decide_eq_true_2 by done. cbn [assert_ mbind outcome_bind].
  destruct (send_range_spec (socket_fd_ c) (buffer_ c) (tail_ c) (head_ c) w) as
    (r & n & w' & -> & Hmoved & Hle & Hr); [lia..|]. cbn [mbind outcome_bind].
  rewrite Htail, Hhead in *. rewrite Nat2Z.id in Hmoved.
  assert (take n (drop sent (buffer_ c)) = take n (drop sent bytes)) as Hsame.
  { assert (drop sent bytes = take (length bytes - sent) (drop sent (buffer_ c))) as ->
      by (rewrite <- Htake at 1; apply skipn_firstn_comm).
    rewrite take_take. f_equal. lia. }
  destruct r as [[]|e]; do 4 eexists; (split; [done|]); rewrite <- Hsame; split_and!; try done; try lia.
  - assert (Z.of_nat sent + Z.of_nat n = Z.of_nat (length bytes)) by (by apply Hr). lia.
  - split_and!; simpl; try done; try lia. by right.
  - assert (Z.of_nat sent + Z.of_nat n ≠ Z.of_nat (length bytes)); [|lia]. intros Heq. by apply Hr in Heq.
  - destruct e; simpl; naive_solver.
Qed.
End Proofs.

(** The calls a message takes: [receive] (or [send]) is called again, after the
    rest of the system has run, as long as it answers WouldBlock. *)
Section Messages.
Context {W : Type} {SK : Socket W}.

Fixpoint receive_message (n : Z) (others : list (W → W)) (c : t) (w : W) :
    outcome (expected (list Z) ExchangeError.t * t * W) :=
  '(r, c, w) ← receive n c w;
  match r, others with
  | Unexpected ExchangeError.WouldBlock, other :: others => receive_message n others c (other w)
  | _, _ => Ok (r, c, w)
  end.

Fixpoint send_message (others : list (W → W)) (c : t) (w : W) :
    outcome (expected unit ExchangeError.t * t * W) :=
  '(r, c, w) ← send c w;
  match r, others with
  | Unexpected ExchangeError.WouldBlock, other :: others => send_message others c (other w)
  | _, _ => Ok (r, c, w)
  end.

(** In between, more bytes may arrive on [fd] and nothing else is sent on it. *)
Definition only_arrivals (fd : Z) (other : W → W) : Prop :=
  ∀ w, (∃ more, incoming (other w) fd = incoming w fd ++ more) ∧ outgoing (other w) fd = outgoing w fd.
End Messages.

Section MessageProofs.
Context {W : Type} {SK : Socket W} {L : SocketLaws W}.
Implicit Types (c : t) (w : W) (others : list (W → W)).

Lemma receive_message_spec n others got c w : receiving n got c → Forall (only_arrivals (socket_fd_ c)) others →
  ∃ r c' w' arrived more, receive_message n others c w = Ok (r, c', w') ∧
    outgoing w' (socket_fd_ c) = outgoing w (socket_fd_ c) ∧
    incoming w (socket_fd_ c) ++ arrived = more ++ incoming w' (socket_fd_ c) ∧
    match r with
    | Value bytes => bytes = got ++ more ∧ Z.of_nat (length bytes) = n ∧ idle c'
    | Unexpected e => receiving n (got ++ more) c' ∧
        (e = ExchangeError.WouldBlock ∨ e = ExchangeError.ClientConnectionClosed ∨ e = ExchangeError.ReceiveFromClient)
    end.
Proof.
  revert got c w. induction others as [|other others IH]; intros got c w Hc Hothers;
    destruct (receive_spec n got c w Hc) as
      (r & more & c1 & w1 & Hr & (_ & Hin & Hout & _) & Hfd & _ & Hres); rewrite app_nil_r in Hout.
  - simpl. rewrite Hr. cbn [mbind outcome_bind]. exists r, c1, w1, [], more. rewrite app_nil_r.
    destruct r as [bytes|e]; [done|]. destruct Hres as (? & _ & _ & He). destruct e; done.
  - apply Forall_cons in Hothers as [Ho Hothers]. simpl. rewrite Hr. cbn [mbind outcome_bind].
    assert (∀ r, match r with Unexpected ExchangeError.WouldBlock => False | _ => True end →
      match r with Value bytes => bytes = got ++ more ∧ Z.of_nat (length bytes) = n ∧ idle c1
      | Unexpected e => receiving n (got ++ more) c1 ∧ connection_status_ c1 = PartialReceive ∧
        Z.of_nat (length (got ++ more)) < n ∧
        (e = ExchangeError.WouldBlock ∨ e = ExchangeError.ClientConnectionClosed ∨ e = ExchangeError.ReceiveFromClient) end →
      ∃ r' c' w' arrived more', Ok (r, c1, w1) = Ok (r', c', w') ∧
        outgoing w' (socket_fd_ c) = outgoing w (socket_fd_ c) ∧
        incoming w (socket_fd_ c) ++ arrived = more' ++ incoming w' (socket_fd_ c) ∧
        match r' with
        | Value bytes => bytes = got ++ more' ∧ Z.of_nat (length bytes) = n ∧ idle c'
        | Unexpected e => receiving n (got ++ more') c' ∧
          (e = ExchangeError.WouldBlock ∨ e = ExchangeError.ClientConnectionClosed ∨ e = ExchangeError.ReceiveFromClient)
        end) as Hstop.
    { intros r0 _ Hr0. exists r0, c1, w1, [], more. rewrite app_nil_r. destruct r0; naive_solver. }
    destruct r as [bytes|[]]; try (by apply Hstop). destruct Hres as (Hc1 & _).
    rewrite <- Hfd in Hothers. destruct (IH (got ++ more) c1 (other w1) Hc1 Hothers) as
      (r' & c' & w' & arrived & more' & Hrun & Hout' & Hin' & Hres'). rewrite Hfd in *.
    destruct (Ho w1) as [[extra Hextra] Hsame].
    exists r', c', w', (extra ++ arrived), (more ++ more'). split_and!; [done|congruence| |].
    + rewrite Hin, app_assoc, <- (app_assoc more), <- Hextra, <- !app_assoc. by f_equal.
    + destruct r' as [bytes|e]; rewrite <- ?app_assoc in *; done.
Qed.

Lemma send_message_spec bytes others sent c w : sending bytes sent c → Forall (only_arrivals (socket_fd_ c)) others →
  ∃ r c' w' n, send_message others c w = Ok (r, c', w') ∧
    outgoing w' (socket_fd_ c) = outgoing w (socket_fd_ c) ++ take n (drop sent bytes) ∧
    match r with
    | Value _ => (sent + n)%nat = length bytes ∧ idle c'
    | Unexpected e => sending bytes (sent + n) c' ∧ (sent + n < length bytes)%nat ∧
        (e = ExchangeError.WouldBlock ∨ e = ExchangeError.ClientConnectionClosed ∨ e = ExchangeError.SendToClient)
    end.
Proof.
  revert sent c w. induction others as [|other others IH]; intros sent c w Hc Hothers;
    destruct (send_spec bytes sent c w Hc) as
      (r & n & c1 & w1 & Hr & (_ & _ & Hout & _) & _ & Hfd & _ & Hres).
  - simpl. rewrite Hr. cbn [mbind outcome_bind]. exists r, c1, w1, n.
    destruct r as [[]|e]; [done|]. destruct Hres as (? & _ & ? & ?). destruct e; done.
  - apply Forall_cons in Hothers as [Ho Hothers]. simpl. rewrite Hr. cbn [mbind outcome_bind].
    destruct r as [[]|e]; [by exists (Value tt), c1, w1, n|]. destruct Hres as (Hc1 & _ & Hn & He).
    destruct (decide (e = ExchangeError.WouldBlock)) as [->|Hne].
    2: { exists (Unexpected e), c1, w1, n. split_and!; try done. by destruct e. }
    rewrite <- Hfd in Hothers. destruct (IH (sent + n)%nat c1 (other w1) Hc1 Hothers) as
      (r' & c' & w' & k & Hrun & Hout' & Hres'). rewrite Hfd in *. destruct (Ho w1) as [_ Hsame].
    exists r', c', w', (n + k)%nat. split_and!; [done| |].
    + rewrite Hout', Hsame, Hout, <- app_assoc. f_equal. rewrite <- drop_drop, take_take_drop. done.
    + destruct r' as [[]|e']; rewrite Nat.add_assoc; naive_solver.
Qed.
End MessageProofs.

(** C26: However the kernel cuts it up and however often a call answers WouldBlock
    in between, [receive] returns exactly the next [n] bytes of the stream, in
    order, and leaves the rest of the stream; an error is one of the three that
    [handle_request] expects, with the received part kept; nothing is undefined. *)
Theorem connection_receives_message {W} `{SocketLaws W} (n : Z) (others : list (W → W)) (c : t) (w : W) :
  idle c → 0 ≤ n ≤ Z.of_nat (length (buffer_ c)) → Forall (only_arrivals (socket_fd_ c)) others →
  ∃ r c' w' arrived bytes, receive_message n others c w = Ok (r, c', w') ∧
    incoming w (socket_fd_ c) ++ arrived = bytes ++ incoming w' (socket_fd_ c) ∧
    outgoing w' (socket_fd_ c) = outgoing w (socket_fd_ c) ∧
    match r with
    | Value bytes' => bytes' = bytes ∧ Z.of_nat (length bytes) = n ∧ idle c'
    | Unexpected e => receiving n bytes c' ∧
        (e = ExchangeError.WouldBlock ∨ e = ExchangeError.ClientConnectionClosed ∨ e = ExchangeError.ReceiveFromClient)
    end.
Proof.
  intros Hc Hn Ho. destruct (receive_message_spec n others [] c w (idle_receiving _ _ Hc Hn) Ho) as
    (r & c' & w' & arrived & more & Hr & Hout & Hin & Hres). exists r, c', w', arrived, more. split; [done|]. split; [done|]. split; [done|].
  destruct r as [b|e]; [destruct Hres as (-> & ? & ?); done|done].
Qed.

(** C27: A saved message goes out exactly once and in order, whatever part of it
    each [send] takes and however often it answers WouldBlock: at every point the
    stream has grown by a prefix of the message, by all of it exactly when a call
    succeeds, and the connection is then free for the next message. *)
Theorem connection_sends_message {W} `{SocketLaws W} (bytes : list Z) (others : list (W → W)) (c : t) (w : W) :
  idle c → (length bytes ≤ length (buffer_ c))%nat → Z.of_nat (length (buffer_ c)) < 2 ^ 64 →
  Forall (only_arrivals (socket_fd_ c)) others →
  ∃ r c' w' n, (saved ← save bytes c; send_message others saved w) = Ok (r, c', w') ∧
    outgoing w' (socket_fd_ c) = outgoing w (socket_fd_ c) ++ take n bytes ∧
    match r with
    | Value _ => n = length bytes ∧ idle c'
    | Unexpected e => sending bytes n c' ∧ (n < length bytes)%nat ∧
        (e = ExchangeError.WouldBlock ∨ e = ExchangeError.ClientConnectionClosed ∨ e = ExchangeError.SendToClient)
    end.
Proof.
  intros Hc Hl Hb Ho. destruct (save_spec bytes c Hc Hl Hb) as (saved & -> & Hsaved & Hfd & _). cbn [mbind outcome_bind].
  rewrite <- Hfd in Ho |- *. apply (send_message_spec bytes others 0 saved w Hsaved Ho).
Qed.

Definition test_connection : t := set_socket 4 (make (replicate 8 0)).
Definition test_world : Scripted.t :=
  {| Scripted.input := {[4 := [1; 2; 3]]}; Scripted.output := ∅; Scripted.limits := [2; 0; 0; 2; 1]%nat |}.
Definition more_bytes (w : Scripted.t) : Scripted.t :=
  {| Scripted.input := <[4 := Scripted.bytes_of (Scripted.input w) 4 ++ [5; 6]]> (Scripted.input w);
     Scripted.output := Scripted.output w; Scripted.limits := Scripted.limits w |}.

Lemma more_bytes_arrive : only_arrivals 4 more_bytes.
Proof. intros w. split; [exists [5; 6]; apply Scripted.bytes_of_insert|done]. Qed.

Lemma connection_receives_message_witness :
  ∃ c' w', receive_message 4 [more_bytes; more_bytes] test_connection test_world = Ok (Value [1; 2; 3; 5], c', w') ∧
    Z.of_nat (length [1; 2; 3; 5]) = 4 ∧ idle c'.
Proof.
  destruct (connection_receives_message 4 [more_bytes; more_bytes] test_connection test_world)
    as (r & c' & w' & arrived & bytes & Hr & _ & _ & Hres).
  - split; [|split; [|split]]; vm_compute; (reflexivity || (intros Hc; discriminate Hc)).
  - split; vm_compute; intros Hc; discriminate Hc.
  - constructor; [exact more_bytes_arrive|constructor; [exact more_bytes_arrive|constructor]].
  - destruct r as [bytes'|e]; [|vm_compute in Hr; discriminate Hr].
    destruct Hres as (-> & Hl & Hidle). exists c', w'.
    assert (bytes = [1; 2; 3; 5]) as -> by (vm_compute in Hr; injection Hr; intros; subst; reflexivity).
    split; [exact Hr|]. split; [exact Hl|exact Hidle].
Defined.

Definition send_world : Scripted.t :=
  {| Scripted.input := ∅; Scripted.output := ∅; Scripted.limits := [2; 0; 5]%nat |}.

Lemma connection_sends_message_witness :
  ∃ c' w', (saved ← save [9; 8; 7] test_connection; send_message [more_bytes] saved send_world) =
      Ok (Value tt, c', w') ∧
    outgoing w' 4 = outgoing send_world 4 ++ [9; 8; 7] ∧ idle c'.
Proof.
  destruct (connection_sends_message [9; 8; 7] [more_bytes] test_connection send_world)
    as (r & c' & w' & n & Hr & Hout & Hres).
  - split; [|split; [|split]]; vm_compute; (reflexivity || (intros Hc; discriminate Hc)).
  - vm_compute. repeat constructor.
  - reflexivity.
  - constructor; [exact more_bytes_arrive|constructor].
  - destruct r as [[]|e]; [|vm_compute in Hr; discriminate Hr].
    destruct Hres as [-> Hidle]. exists c', w'. split; [exact Hr|]. split; [exact Hout|exact Hidle].
Defined.
End Connection.
