(* ===== verification/RetransmitServer.v ===== *)
(** * RetransmitServer ([exchange/tcp-retransmit])

    The TCP server that re-sends cached packets: one saved connection per
    socket, driven by kqueue events.  The kernel is the [Socket] interface plus
    the [Listener] calls below; the cache is a function from the index to the
    answer of [try_get_item], so that the exchange thread may overwrite it
    between calls. *)

From S2P Require Import Prelude Types Bytes Codec CodecProof Network CircularCache Connection.

(** One [struct kevent]: [ident] and whether [EV_ERROR] is set. *)
Record event : Type := { ident : Z; ev_error : bool }.

(** The calls made on the listening socket and the event queue; [kevent] waits, so
    the rest of the system runs meanwhile. *)
Class Listener (W : Type) : Type := {
  sock_accept : Z → W → expected Z errno * W;
  set_socket_nonblocking : Z → W → bool * W;
  register_read_event : Z → W → bool * W;
  kevent : Z → W → expected (list event) errno * W;
}.

Module RetransmitServer.

Record SavedConnection : Type := {
  connection : Connection.t;
  request : option RetransmitRequest.t;
}.

Record t : Type := {
  socket_fd_ : Z;
  event_queue_ : Z;
  current_connections_ : Z;
  connection_buffers : list SavedConnection;
}.

Abbreviation answer := (outcome (expected EncodedMessage.t CircularCache.Error)).

Definition set_connections (n : Z) (s : t) : t :=
  {| socket_fd_ := socket_fd_ s; event_queue_ := event_queue_ s; current_connections_ := n;
     connection_buffers := connection_buffers s |}.
Definition set_client (fd : Z) (client : SavedConnection) (s : t) : t :=
  {| socket_fd_ := socket_fd_ s; event_queue_ := event_queue_ s; current_connections_ := current_connections_ s;
     connection_buffers := <[Z.to_nat fd := client]> (connection_buffers s) |}.

Section Operations.
Context {W : Type} {SK : Socket W} {LI : Listener W}.
(** [h]: the byte order; [fresh]: what uninitialised buffers hold. *)
Context (h : endian) (fresh : list Z).

Definition default_connection : SavedConnection := {| connection := Connection.make fresh; request := None |}.
Definition init : t := {|
  socket_fd_ := -1; event_queue_ := -1; current_connections_ := 0;
  connection_buffers := replicate (Z.to_nat Config.DEFAULT_CONNECTION_BUFFERS) default_connection;
|}.

(** Returns the client's new state with the server's. *)
Definition close_client (client : SavedConnection) (s : t) (w : W) : SavedConnection * t * W :=
  let w := if 0 <=? event_queue_ s
           then (unregister_read_event (Connection.socket_fd_ (connection client)) w).2 else w in
  let '(c, w) := Connection.close (connection client) w in
  ({| connection := c; request := None |}, set_connections (u64 (current_connections_ s - 1)) s, w).

Definition notify_and_close (client : SavedConnection) (error : ExchangeError.t) (s : t) (w : W) :
    outcome (SavedConnection * t * W) :=
  let error_header := {| MessageHeader.sequence_number := 0;
                         MessageHeader.payload_length := u16 (ExchangeError.code error) |} in
  message ← EncodedMessage.make fresh error_header [];
  message ← EncodedMessage.serialize h message;
  bytes ← EncodedMessage.message message;
  c ← Connection.save bytes (Connection.clear (connection client));
  '(_, c, w) ← Connection.send c w;
  Ok (close_client {| connection := c; request := request client |} s w).

Definition advance (r : RetransmitRequest.t) : RetransmitRequest.t :=
  {| RetransmitRequest.first_packet := u64 (RetransmitRequest.first_packet r + 1);
     RetransmitRequest.last_packet := RetransmitRequest.last_packet r |}.

(** The for loop; every round advances [first_packet] towards [last_packet]. *)
Fixpoint stream_loop (fuel : nat) (cache : Z → answer) (c : Connection.t) (r : RetransmitRequest.t) (w : W) :
    outcome (expected unit ExchangeError.t * SavedConnection * W) :=
  if RetransmitRequest.first_packet r <? RetransmitRequest.last_packet r then
    match fuel with
    | O => OutOfFuel
    | S fuel =>
        let client := {| connection := c; request := Some r |} in
        cache_result ← cache (u32 (RetransmitRequest.first_packet r - Config.FIRST_SEQUENCE_ID));
        match cache_result with
        | Unexpected CircularCache.DataTooOld => Ok (Unexpected ExchangeError.PacketTooOld, client, w)
        | Unexpected CircularCache.DataDoesNotExist => Ok (Unexpected ExchangeError.InvalidPacket, client, w)
        | Unexpected CircularCache.ConcurrentWrite => Ok (Unexpected ExchangeError.PacketUnavailable, client, w)
        | Value message =>
            bytes ← EncodedMessage.message message;
            c ← Connection.save bytes c;
            '(send_result, c, w) ← Connection.send c w;
            match send_result with
            | Unexpected e => Ok (Unexpected e, {| connection := c; request := Some r |}, w)
            | Value _ => stream_loop fuel cache c (advance r) w
            end
        end
    end
  else Ok (Value tt, {| connection := c; request := None |}, w).

Definition stream_packets (cache : Z → answer) (client : SavedConnection) (w : W) :
    outcome (expected unit ExchangeError.t * SavedConnection * W) :=
  r ← deref (request client);
  _ ← assert_ (0 <=? Connection.socket_fd_ (connection client));
  if RetransmitRequest.first_packet r <? Config.FIRST_SEQUENCE_ID
  then Ok (Unexpected ExchangeError.InvalidPacket, client, w) else
  '(resumed, c, r, w) ←
    (if decide (Connection.connection_status_ (connection client) = Connection.PartialSend) then
       '(result, c, w) ← Connection.send (connection client) w;
       Ok (result, c, (match result with Value _ => advance r | _ => r end), w)
     else Ok (Value tt, connection client, r, w));
  match resumed with
  | Unexpected e => Ok (Unexpected e, {| connection := c; request := Some r |}, w)
  | Value _ =>
      stream_loop (Z.to_nat (RetransmitRequest.last_packet r - RetransmitRequest.first_packet r)) cache c r w
  end.

Definition receive_request (client : SavedConnection) (w : W) :
    outcome (expected unit ExchangeError.t * SavedConnection * W) :=
  '(result, c, w) ← Connection.receive RetransmitRequest.PACKED_SIZE (connection client) w;
  match result with
  | Unexpected e => Ok (Unexpected e, {| connection := c; request := request client |}, w)
  | Value bytes =>
      r ← RetransmitRequest.parse h bytes;
      Ok (Value tt, {| connection := c; request := Some r |}, w)
  end.

(** The part of [handle_request] from [case PartialSend] on. *)
Definition handle_stream (cache : Z → answer) (fd : Z) (client : SavedConnection) (s : t) (w : W) :
    outcome (expected unit ExchangeError.t * t * W) :=
  '(result, client, w) ← stream_packets cache client w;
  match result with
  | Value _ => Ok (Value tt, set_client fd client s, w)
  | Unexpected ExchangeError.WouldBlock =>
      let '(registered, w) := register_oneshot_write_event fd w in
      if negb registered then
        '(client, s, w) ← notify_and_close client ExchangeError.ClientConnection s w;
        Ok (Unexpected ExchangeError.RegisterEvent, set_client fd client s, w)
      else Ok (Value tt, set_client fd client s, w)
  | Unexpected ((ExchangeError.ClientConnectionClosed | ExchangeError.PacketTooOld | ExchangeError.InvalidPacket
                | ExchangeError.PacketUnavailable | ExchangeError.SendToClient) as e) =>
      let '(client, s, w) := close_client client s w in Ok (Unexpected e, set_client fd client s, w)
  | Unexpected _ => Undefined
  end.

Definition handle_request (cache : Z → answer) (connected_socket : Z) (s : t) (w : W) :
    outcome (expected unit ExchangeError.t * t * W) :=
  _ ← assert_ (0 <=? connected_socket);
  _ ← assert_ (connected_socket <? Z.of_nat (length (connection_buffers s)));
  client ← array_get (connection_buffers s) connected_socket;
  match Connection.connection_status_ (connection client) with
  | Connection.Clear | Connection.PartialReceive =>
      '(result, client, w) ← receive_request client w;
      match result with
      | Value _ => handle_stream cache connected_socket client s w
      | Unexpected ExchangeError.WouldBlock => Ok (Value tt, set_client connected_socket client s, w)
      | Unexpected ExchangeError.ClientConnectionClosed =>
          let '(client, s, w) := close_client client s w in
          Ok (Unexpected ExchangeError.ClientConnectionClosed, set_client connected_socket client s, w)
      | Unexpected ExchangeError.ReceiveFromClient =>
          '(client, s, w) ← notify_and_close client ExchangeError.ClientConnection s w;
          Ok (Unexpected ExchangeError.ReceiveFromClient, set_client connected_socket client s, w)
      | Unexpected _ => Undefined
      end
  | Connection.SavedMessage | Connection.PartialSend => handle_stream cache connected_socket client s w
  end.

(** [accept] and the set-up of the accepted socket. *)
Definition get_connected_socket (s : t) (w : W) : expected Z ExchangeError.t * W :=
  if Config.MAX_TOTAL_CONNECTIONS <=? current_connections_ s then (Unexpected ExchangeError.ServerBusy, w) else
  let '(accepted, w) := sock_accept (socket_fd_ s) w in
  match accepted with
  | Unexpected (EAGAIN | EWOULDBLOCK) => (Unexpected ExchangeError.WouldBlock, w)
  | Unexpected (EINTR | ECONNABORTED) => (Unexpected ExchangeError.NewConnection, w)
  | Unexpected _ => (Unexpected ExchangeError.ServerFatal, w)
  | Value connected_socket =>
      let '(nonblocking, w) := set_socket_nonblocking connected_socket w in
      if negb nonblocking then (Unexpected ExchangeError.SetSocketNonblocking, sock_close connected_socket w) else
      let '(registered, w) := register_read_event connected_socket w in
      if negb registered then (Unexpected ExchangeError.RegisterEvent, sock_close connected_socket w)
      else (Value connected_socket, w)
  end.

(** [emplace_back] until the socket is an index, then [set_socket]. *)
Definition add_connection (new_socket : Z) (s : t) : t :=
  let missing := (S (Z.to_nat new_socket) - length (connection_buffers s))%nat in
  let buffers := connection_buffers s ++ replicate missing default_connection in
  {| socket_fd_ := socket_fd_ s; event_queue_ := event_queue_ s;
     current_connections_ := u64 (current_connections_ s + 1);
     connection_buffers := alter (λ client, {| connection := Connection.set_socket new_socket (connection client);
                                               request := request client |}) (Z.to_nat new_socket) buffers |}.

(** [while(true)]: ends when accept has no more connections; the fuel bounds the
    number of sockets the kernel hands out in one call. *)
Fixpoint handle_new_connections (fuel : nat) (s : t) (w : W) : outcome (expected unit ExchangeError.t * t * W) :=
  match fuel with
  | O => OutOfFuel
  | S fuel =>
      let '(result, w) := get_connected_socket s w in
      match result with
      | Value new_socket => handle_new_connections fuel (add_connection new_socket s) w
      | Unexpected (ExchangeError.RegisterEvent | ExchangeError.SetSocketNonblocking | ExchangeError.NewConnection) =>
          handle_new_connections fuel s w
      | Unexpected (ExchangeError.WouldBlock | ExchangeError.ServerBusy) => Ok (Value tt, s, w)
      | Unexpected ExchangeError.ServerFatal => Ok (Unexpected ExchangeError.ServerFatal, s, w)
      | Unexpected _ => Undefined
      end
  end.

(** Every client that still has a socket is notified. *)
Fixpoint close_clients (clients : list SavedConnection) (s : t) (w : W) : outcome (list SavedConnection * t * W) :=
  match clients with
  | [] => Ok ([], s, w)
  | client :: clients =>
      '(client, s, w) ← (if 0 <=? Connection.socket_fd_ (connection client)
                         then notify_and_close client ExchangeError.ServerFatal s w else Ok (client, s, w));
      '(clients, s, w) ← close_clients clients s w;
      Ok (client :: clients, s, w)
  end.

Definition close_server (s : t) (w : W) : outcome (t * W) :=
  let w := if 0 <=? socket_fd_ s then sock_close (socket_fd_ s) w else w in
  '(clients, s, w) ← close_clients (connection_buffers s) s w;
  Ok ({| socket_fd_ := if 0 <=? socket_fd_ s then -1 else socket_fd_ s;
         event_queue_ := if 0 <=? event_queue_ s then -1 else event_queue_ s;
         current_connections_ := current_connections_ s; connection_buffers := clients |},
      if 0 <=? event_queue_ s then sock_close (event_queue_ s) w else w).

(** [cache]: what a read of each index finds when this event makes it; [Some e]: the loop
    ends with that error. *)
Definition handle_event (fuel : nat) (cache : Z → answer) (e : event) (s : t) (w : W) :
    outcome (option ExchangeError.t * t * W) :=
  if ev_error e then
    if decide (ident e ≠ socket_fd_ s) then
      client ← array_get (connection_buffers s) (ident e);
      '(client, s, w) ← notify_and_close client ExchangeError.ClientConnection s w;
      Ok (None, set_client (ident e) client s, w)
    else '(s, w) ← close_server s w; Ok (Some ExchangeError.EventQueue, s, w)
  else if decide (ident e = socket_fd_ s) then
    '(result, s, w) ← handle_new_connections fuel s w;
    match result with
    | Unexpected ExchangeError.ServerFatal => '(s, w) ← close_server s w; Ok (Some ExchangeError.ServerFatal, s, w)
    | _ => Ok (None, s, w)
    end
  else '(_, s, w) ← handle_request cache (ident e) s w; Ok (None, s, w).

(** [cache i]: what the reads for the [i]-th event find; the exchange's thread puts
    items between one read and the next. *)
Fixpoint handle_batch (fuel : nat) (cache : nat → Z → answer) (events : list event) (s : t) (w : W) :
    outcome (option ExchangeError.t * t * W) :=
  match events with
  | [] => Ok (None, s, w)
  | e :: events =>
      '(fatal, s, w) ← handle_event fuel (cache O) e s w;
      match fatal with
      | Some e => Ok (Some e, s, w)
      | None => handle_batch fuel (λ i, cache (S i)) events s w
      end
  end.

(** One turn of the loop in [run_event_loop], when no stop was requested; [Some r]:
    the function returns [r]. *)
Definition turn (fuel : nat) (cache : nat → Z → answer) (s : t) (w : W) :
    outcome (option (expected unit ExchangeError.t) * t * W) :=
  let '(polled, w) := kevent (event_queue_ s) w in
  match polled with
  | Unexpected EINTR => Ok (None, s, w)
  | Unexpected _ => '(s, w) ← close_server s w; Ok (Some (Unexpected ExchangeError.EventQueue), s, w)
  | Value events =>
      '(fatal, s, w) ← handle_batch fuel cache events s w;
      Ok (match fatal with Some e => Some (Unexpected e) | None => None end, s, w)
  end.

(** The turns taken before the stop request, each with what its reads of the cache
    find. *)
Fixpoint turns (fuel : nat) (caches : list (nat → Z → answer)) (s : t) (w : W) :
    outcome (option (expected unit ExchangeError.t) * t * W) :=
  match caches with
  | [] => Ok (None, s, w)
  | cache :: caches =>
      '(result, s, w) ← turn fuel cache s w;
      match result with
      | Some _ => Ok (result, s, w)
      | None => turns fuel caches s w
      end
  end.

Definition run_event_loop (fuel : nat) (caches : list (nat → Z → answer)) (s : t) (w : W) :
    outcome (expected unit ExchangeError.t * t * W) :=
  '(result, s, w) ← turns fuel caches s w;
  match result with
  | Some result => Ok (result, s, w)
  | None => '(s, w) ← close_server s w; Ok (Value tt, s, w)
  end.
End Operations.

Section Proofs.
Context {W : Type} {SK : Socket W} {L : SocketLaws W} {LI : Listener W} (h : endian) (fresh : list Z).
(** [msg p]: the bytes of packet [p] on the wire. *)
Context (msg : Z → list Z).
Implicit Types (c : Connection.t) (w : W) (r : RetransmitRequest.t) (client : SavedConnection) (p q : Z) (sent : nat).

Abbreviation first_packet := RetransmitRequest.first_packet.
Abbreviation last_packet := RetransmitRequest.last_packet.

(** The cache may have lost a packet, but what it has is that packet. *)
Definition serves (cache : Z → answer) : Prop :=
  ∀ p, Config.FIRST_SEQUENCE_ID ≤ p → match cache (u32 (p - Config.FIRST_SEQUENCE_ID)) with
    | Ok (Value m) => EncodedMessage.message m = Ok (msg p)
    | Ok (Unexpected _) => True
    | _ => False
    end.

(** Packets [p .. q-1] and the first [sent] bytes of packet [q]. *)
Definition packets p q sent : list Z := concat (msg <$> seqZ p (q - p)) ++ take sent (msg q).

Lemma packets_start p : packets p p 0 = [].
Proof. unfold packets. by rewrite Z.sub_diag, take_0. Qed.

Lemma packets_next p q sent : p ≤ q → length (msg q) = sent → packets p q sent = packets p (q + 1) 0.
Proof.
  intros Hpq Hl. unfold packets. rewrite take_0, app_nil_r.
  replace (q + 1 - p) with (q - p + 1) by lia. rewrite seqZ_app, fmap_app, concat_app by lia. simpl.
  rewrite app_nil_r. replace (Z.of_nat 0 + (p + (q - p))) with q by lia. f_equal. by rewrite take_ge by lia.
Qed.

Lemma packets_app p q sent n : packets p q sent ++ take n (drop sent (msg q)) = packets p q (sent + n).
Proof. unfold packets. rewrite <- app_assoc. by rewrite take_take_drop. Qed.

Lemma packets_join p q sent q' : p ≤ q → q ≤ q' → packets p q 0 ++ packets q q' sent = packets p q' sent.
Proof.
  intros Hpq Hq. unfold packets. rewrite take_0, app_nil_r, app_assoc. f_equal.
  rewrite <- concat_app, <- fmap_app. do 2 f_equal. replace (q' - p) with ((q - p) + (q' - q)) by lia.
  rewrite seqZ_app by lia. do 2 f_equal. lia.
Qed.

(** A request that is being served, after packets up to [p] and [sent] bytes of it. *)
Definition in_progress p sent last client : Prop :=
  request client = Some {| RetransmitRequest.first_packet := p; RetransmitRequest.last_packet := last |} ∧ p < last ∧
  Connection.sending (msg p) sent (connection client) ∧
  Connection.connection_status_ (connection client) = Connection.PartialSend.

(** Why a call stopped, after packets up to [q] and [sent] bytes of it. *)
Definition stopped (result : expected unit ExchangeError.t) q sent last client : Prop :=
  match result with
  | Value _ => sent = O ∧ last ≤ q ∧ Connection.idle (connection client) ∧ request client = None
  | Unexpected (ExchangeError.WouldBlock | ExchangeError.ClientConnectionClosed | ExchangeError.SendToClient) =>
      in_progress q sent last client
  | Unexpected (ExchangeError.PacketTooOld | ExchangeError.InvalidPacket | ExchangeError.PacketUnavailable) =>
      sent = O ∧ Connection.idle (connection client) ∧
      request client = Some {| RetransmitRequest.first_packet := q; RetransmitRequest.last_packet := last |}
  | Unexpected _ => False
  end.

Lemma stopped_done c q last : last ≤ q → Connection.idle c →
  stopped (Value tt) q 0 last {| connection := c; request := None |}.
Proof. intros Hq Hc. by split_and!. Qed.

Lemma stopped_cache e c q last : Connection.idle c →
  e = ExchangeError.PacketTooOld ∨ e = ExchangeError.InvalidPacket ∨ e = ExchangeError.PacketUnavailable →
  stopped (Unexpected e) q 0 last {| connection := c;
    request := Some {| RetransmitRequest.first_packet := q; RetransmitRequest.last_packet := last |} |}.
Proof. intros Hc [->|[->| ->]]; by split_and!. Qed.

Lemma stopped_send e client q sent last : in_progress q sent last client →
  e = ExchangeError.WouldBlock ∨ e = ExchangeError.ClientConnectionClosed ∨ e = ExchangeError.SendToClient →
  stopped (Unexpected e) q sent last client.
Proof. by intros Hc [->|[->| ->]]. Qed.

Context (N : nat) (HN : Z.of_nat N < 2 ^ 64) (Hmsg : ∀ p, (length (msg p) ≤ N)%nat).

Lemma stream_loop_spec fuel cache c r w : serves cache → Connection.idle c →
  length (Connection.buffer_ c) = N → Config.FIRST_SEQUENCE_ID ≤ first_packet r → last_packet r < 2 ^ 64 →
  last_packet r - first_packet r ≤ Z.of_nat fuel →
  ∃ result client w' q sent, stream_loop fuel cache c r w = Ok (result, client, w') ∧
    moved (Connection.socket_fd_ c) [] (packets (first_packet r) q sent) w w' ∧
    first_packet r ≤ q ≤ Z.max (first_packet r) (last_packet r) ∧ stopped result q sent (last_packet r) client ∧
    Connection.socket_fd_ (connection client) = Connection.socket_fd_ c ∧
    length (Connection.buffer_ (connection client)) = N.
Proof using L HN Hmsg.
  intros Hcache. revert c r w. induction fuel as [|fuel IH]; intros c r w Hc Hlen Hfirst Hlast Hfuel.
  - simpl. rewrite (proj2 (Z.ltb_ge _ _)) by lia.
    exists (Value tt), {| connection := c; request := None |}, w, (first_packet r), O.
    rewrite packets_start. split_and!; try done; try lia; [apply moved_refl|apply stopped_done; [lia|done]].
  - simpl. destruct (Z.ltb_spec (first_packet r) (last_packet r)) as [Hlt|Hge].
    2: { exists (Value tt), {| connection := c; request := None |}, w, (first_packet r), O.
      rewrite packets_start. split_and!; first [done | lia | apply moved_refl]. }
    pose proof (Hcache (first_packet r) Hfirst) as Hserve.
    destruct (cache _) as [[m|e]| |]; [| |done..]; cbn [mbind outcome_bind].
    2: { destruct r as [p last]. destruct e; do 2 eexists; exists w, p, O;
      rewrite packets_start; (split; [done|]); (split; [apply moved_refl|]); split_and!; try done; simpl in *; lia. }
    rewrite Hserve. cbn [mbind outcome_bind].
    destruct (Connection.save_spec (msg (first_packet r)) c Hc) as (c1 & -> & Hsending & Hfd1 & Hl1);
      [by rewrite Hlen|by rewrite Hlen|]. cbn [mbind outcome_bind].
    destruct (Connection.send_spec (msg (first_packet r)) 0 c1 w Hsending) as
      (res & n & c2 & w2 & -> & Hout & _ & Hfd2 & Hl2 & Hres). cbn [mbind outcome_bind].
    rewrite Hfd1 in *. rewrite drop_0 in Hout. destruct res as [[]|e].
    + destruct Hres as [Hn Hidle].
      assert (u64 (first_packet r + 1) = first_packet r + 1) as Hsucc.
      { apply uwrap_small. unfold Config.FIRST_SEQUENCE_ID, in_u in *. lia. }
      destruct (IH c2 (advance r) w2) as (result & client & w' & q & sent & Hrun & Hout' & Hq & Hst & Hfd & Hlen');
        [done|congruence|simpl; lia|done|simpl; lia|].
      exists result, client, w', q, sent. simpl in *. rewrite Hsucc, Hfd2 in *.
      split_and!; [done| |lia|lia|done|congruence|done].
      rewrite <- (packets_join (first_packet r) (first_packet r + 1)) by lia. eapply moved_sent; [|exact Hout'].
      rewrite <- (packets_next (first_packet r) (first_packet r) n) by lia.
      unfold packets. by rewrite Z.sub_diag.
    + destruct Hres as (Hsending' & Hstatus & Hn & He).
      exists (Unexpected e), {| connection := c2; request := Some r |}, w2, (first_packet r), n.
      assert (in_progress (first_packet r) n (last_packet r) {| connection := c2; request := Some r |}) as Hprog
        by (split_and!; [by destruct r|done..]).
      split_and!; [done| |lia|lia| |simpl; congruence|simpl; congruence].
      * unfold packets. by rewrite Z.sub_diag.
      * by apply stopped_send.
Qed.

Lemma stream_packets_fresh cache client a last w : serves cache →
  request client = Some {| RetransmitRequest.first_packet := a; RetransmitRequest.last_packet := last |} →
  Connection.idle (connection client) → length (Connection.buffer_ (connection client)) = N →
  Config.FIRST_SEQUENCE_ID ≤ a → last < 2 ^ 64 →
  ∃ result client' w' q sent, stream_packets cache client w = Ok (result, client', w') ∧
    moved (Connection.socket_fd_ (connection client)) [] (packets a q sent) w w' ∧
    a ≤ q ≤ Z.max a last ∧ stopped result q sent last client' ∧
    Connection.socket_fd_ (connection client') = Connection.socket_fd_ (connection client) ∧
    length (Connection.buffer_ (connection client')) = N.
Proof using L HN Hmsg.
  intros Hcache Hreq Hidle Hlen Ha Hlast. unfold stream_packets. rewrite Hreq. cbn [deref mbind outcome_bind].
  pose proof Hidle as (Hfd & _ & _ & Hstatus). rewrite (proj2 (Z.leb_le _ _) Hfd). cbn [assert_ mbind outcome_bind].
  simpl first_packet. rewrite (proj2 (Z.ltb_ge _ _) Ha). rewrite decide_False by (rewrite Hstatus; done).
  cbn [mbind outcome_bind].
  destruct (stream_loop_spec (Z.to_nat (last - a)) cache (connection client)
    {| RetransmitRequest.first_packet := a; RetransmitRequest.last_packet := last |} w) as
    (result & client' & w' & q & sent & Hrun & Hrest); [done|done|done|done|done|simpl; lia|].
  by exists result, client', w', q, sent.
Qed.

Lemma stream_packets_resumed cache client p sent last w : serves cache → in_progress p sent last client →
  length (Connection.buffer_ (connection client)) = N → Config.FIRST_SEQUENCE_ID ≤ p → last < 2 ^ 64 →
  ∃ result client' w' q sent' new, stream_packets cache client w = Ok (result, client', w') ∧
    moved (Connection.socket_fd_ (connection client)) [] new w w' ∧
    packets p p sent ++ new = packets p q sent' ∧
    p ≤ q ≤ last ∧ stopped result q sent' last client' ∧
    Connection.socket_fd_ (connection client') = Connection.socket_fd_ (connection client) ∧
    length (Connection.buffer_ (connection client')) = N.
Proof using L HN Hmsg.
  intros Hcache (Hreq & Hlt & Hsending & Hstatus) Hlen Hp Hlast. unfold stream_packets. rewrite Hreq.
  cbn [deref mbind outcome_bind]. pose proof Hsending as (Hfd & _).
  rewrite (proj2 (Z.leb_le _ _) Hfd). cbn [assert_ mbind outcome_bind]. simpl first_packet.
  rewrite (proj2 (Z.ltb_ge _ _) Hp). rewrite decide_True by done.
  destruct (Connection.send_spec (msg p) sent (connection client) w Hsending) as
    (res & n & c2 & w2 & -> & Hout & _ & Hfd2 & Hl2 & Hres). cbn [mbind outcome_bind].
  destruct res as [[]|e]; cbn [mbind outcome_bind].
  - destruct Hres as [Hn Hidle].
    assert (u64 (p + 1) = p + 1) as Hsucc by (apply uwrap_small; unfold Config.FIRST_SEQUENCE_ID, in_u in *; lia).
    unfold advance. simpl. rewrite Hsucc.
    destruct (stream_loop_spec (Z.to_nat (last - (p + 1))) cache c2
      {| RetransmitRequest.first_packet := p + 1; RetransmitRequest.last_packet := last |} w2) as
      (result & client' & w' & q & sent' & Hrun & Hout' & Hq & Hst & Hfd' & Hlen');
      [done|done|congruence|simpl; lia|done|simpl; lia|].
    simpl in *. exists result, client', w', q, sent', (take n (drop sent (msg p)) ++ packets (p + 1) q sent').
    rewrite Hfd2 in *. split_and!; [done| | |lia|lia|done|done|done].
    + by eapply moved_sent.
    + rewrite app_assoc, packets_app. rewrite (packets_next p p (sent + n)) by lia. apply packets_join; lia.
  - destruct Hres as (Hsending' & Hstatus' & Hn & He).
    do 3 eexists. exists p, (sent + n)%nat, (take n (drop sent (msg p))). rewrite packets_app.
    split_and!; [done|done|done|lia|lia| |simpl; congruence|simpl; congruence].
    apply stopped_send; [by split_and!|done].
Qed.

(** The calls a request takes: after WouldBlock the rest of the system runs, and
    the next event resumes with the cache of that time. *)
Fixpoint serve_request (calls : list ((W → W) * (Z → answer))) (cache : Z → answer) client w :
    outcome (expected unit ExchangeError.t * SavedConnection * W) :=
  '(result, client, w) ← stream_packets cache client w;
  match result, calls with
  | Unexpected ExchangeError.WouldBlock, (other, cache) :: calls => serve_request calls cache client (other w)
  | _, _ => Ok (result, client, w)
  end.

Lemma serve_resumed calls cache client p sent last w : serves cache → Forall (λ call, serves call.2 ∧
    Connection.only_arrivals (Connection.socket_fd_ (connection client)) call.1) calls →
  in_progress p sent last client → length (Connection.buffer_ (connection client)) = N →
  Config.FIRST_SEQUENCE_ID ≤ p → last < 2 ^ 64 →
  ∃ result client' w' q sent' new, serve_request calls cache client w = Ok (result, client', w') ∧
    outgoing w' (Connection.socket_fd_ (connection client)) =
      outgoing w (Connection.socket_fd_ (connection client)) ++ new ∧
    packets p p sent ++ new = packets p q sent' ∧ p ≤ q ≤ last ∧ stopped result q sent' last client'.
Proof using L HN Hmsg.
  intros Hcache Hcalls. revert cache client p sent w Hcache Hcalls.
  induction calls as [|[other cache'] calls IH]; intros cache client p sent w Hcache Hcalls Hprog Hlen Hp Hlast;
    destruct (stream_packets_resumed cache client p sent last w Hcache Hprog Hlen Hp Hlast) as
      (result & client' & w' & q & sent' & new & Hrun & (_ & _ & Hout & _) & Hpk & Hq & Hst & Hfd & Hlen');
    simpl; rewrite Hrun; cbn [mbind outcome_bind].
  - exists result, client', w', q, sent', new. split_and!; try done; [|lia|lia]. by destruct result as [|[]].
  - apply Forall_cons in Hcalls as [[Hserve Hother] Hcalls]. simpl in Hserve, Hother.
    destruct (decide (result = Unexpected ExchangeError.WouldBlock)) as [->|Hne].
    2: { exists result, client', w', q, sent', new. split_and!; try done; [|lia|lia]. by destruct result as [|[]]. }
    simpl in Hst. rewrite <- Hfd in Hcalls.
    destruct (IH cache' client' q sent' (other w') Hserve Hcalls Hst Hlen' ltac:(lia) Hlast) as
      (result'' & client'' & w'' & q'' & sent'' & new' & Hrun' & Hout' & Hpk' & Hq' & Hst').
    rewrite Hfd in *. destruct (Hother w') as [_ Hsame].
    exists result'', client'', w'', q'', sent'', (new ++ new'). split_and!; [done| | |lia|lia|done].
    + by rewrite Hout', Hsame, Hout, <- app_assoc.
    + rewrite app_assoc, Hpk. rewrite <- (packets_join p q sent'' q'') by lia. rewrite <- Hpk', app_assoc.
      f_equal. unfold packets. by rewrite Z.sub_diag, take_0, app_nil_r.
Qed.

Lemma serve_fresh calls cache client a last w : serves cache → Forall (λ call, serves call.2 ∧
    Connection.only_arrivals (Connection.socket_fd_ (connection client)) call.1) calls →
  request client = Some {| RetransmitRequest.first_packet := a; RetransmitRequest.last_packet := last |} →
  Connection.idle (connection client) → length (Connection.buffer_ (connection client)) = N →
  Config.FIRST_SEQUENCE_ID ≤ a → last < 2 ^ 64 →
  ∃ result client' w' q sent, serve_request calls cache client w = Ok (result, client', w') ∧
    outgoing w' (Connection.socket_fd_ (connection client)) =
      outgoing w (Connection.socket_fd_ (connection client)) ++ packets a q sent ∧
    a ≤ q ≤ Z.max a last ∧ stopped result q sent last client'.
Proof using L HN Hmsg.
  intros Hcache Hcalls Hreq Hidle Hlen Ha Hlast.
  destruct (stream_packets_fresh cache client a last w Hcache Hreq Hidle Hlen Ha Hlast) as
    (result & client' & w' & q & sent & Hrun & (_ & _ & Hout & _) & Hq & Hst & Hfd & Hlen').
  destruct calls as [|[other cache'] calls]; simpl; rewrite Hrun; cbn [mbind outcome_bind].
  { exists result, client', w', q, sent. split_and!; try done; [|lia|lia]. by destruct result as [|[]]. }
  apply Forall_cons in Hcalls as [[Hserve Hother] Hcalls]. simpl in Hserve, Hother.
  destruct (decide (result = Unexpected ExchangeError.WouldBlock)) as [->|Hne].
  2: { exists result, client', w', q, sent. split_and!; try done; [|lia|lia]. by destruct result as [|[]]. }
  simpl in Hst. rewrite <- Hfd in Hcalls. pose proof Hst as (_ & Hql & _).
  destruct (serve_resumed calls cache' client' q sent last (other w') Hserve Hcalls Hst Hlen' ltac:(lia) Hlast) as
    (result'' & client'' & w'' & q'' & sent'' & new' & Hrun' & Hout' & Hpk' & Hq' & Hst').
  rewrite Hfd in *. destruct (Hother w') as [_ Hsame].
  exists result'', client'', w'', q'', sent''. split_and!; [done| |lia|lia|done].
  rewrite Hout', Hsame, Hout, <- app_assoc. f_equal.
  rewrite <- (packets_join a q sent'' q'') by lia. rewrite <- Hpk', app_assoc. f_equal.
  unfold packets. by rewrite Z.sub_diag, take_0, app_nil_r.
Qed.
End Proofs.

(** C19: Serving a request for packets [a, b) sends exactly packet a, a+1, ... in
    order, each whole, across any number of partial sends, WouldBlock answers,
    resumptions and cache changes: whenever it stops, the stream has grown by the
    packets up to [q] and a prefix of packet [q]; it succeeds only after packet
    b - 1, with the connection free again. *)
Theorem retransmit_streams_packets {W} `{SocketLaws W} (msg : Z → list Z)
    (calls : list ((W → W) * (Z → answer))) (cache : Z → answer) (client : SavedConnection) (a b : Z) (w : W) :
  (∀ p, (length (msg p) ≤ 42)%nat) → serves msg cache →
  Forall (λ call, serves msg call.2 ∧
    Connection.only_arrivals (Connection.socket_fd_ (connection client)) call.1) calls →
  request client = Some {| RetransmitRequest.first_packet := a; RetransmitRequest.last_packet := b |} →
  Connection.idle (connection client) → length (Connection.buffer_ (connection client)) = 42%nat →
  Config.FIRST_SEQUENCE_ID ≤ a → b < 2 ^ 64 →
  ∃ result client' w' q sent, serve_request calls cache client w = Ok (result, client', w') ∧
    outgoing w' (Connection.socket_fd_ (connection client)) =
      outgoing w (Connection.socket_fd_ (connection client)) ++ packets msg a q sent ∧
    a ≤ q ≤ Z.max a b ∧ stopped msg result q sent b client'.
Proof.
  intros Hmsg Hcache Hcalls Hreq Hidle Hlen Ha Hb.
  by apply (serve_fresh msg 42 ltac:(done) Hmsg calls cache client a b w).
Qed.

Definition test_cache (i : Z) : answer :=
  Ok (Value {| EncodedMessage.header := {| MessageHeader.sequence_number := 1; MessageHeader.payload_length := 18 |};
               EncodedMessage.buffer := replicate 42 i |}).
Definition test_msg (p : Z) : list Z := replicate 28 (u32 (p - 1)).
Definition test_client (request : option RetransmitRequest.t) : SavedConnection :=
  {| connection := Connection.set_socket 4 (Connection.make (replicate 42 0)); request := request |}.
Definition test_request : RetransmitRequest.t :=
  {| RetransmitRequest.first_packet := 3; RetransmitRequest.last_packet := 6 |}.

Lemma test_serves : serves test_msg test_cache.
Proof. intros p Hp. reflexivity. Qed.
Lemma test_msg_length p : (length (test_msg p) ≤ 42)%nat.
Proof. unfold test_msg. rewrite length_replicate. lia. Qed.
Lemma test_idle request : Connection.idle (connection (test_client request)).
Proof. split; [|split; [|split]]; vm_compute; (reflexivity || (intros Hc; discriminate Hc)). Qed.

Definition slow_world : Scripted.t :=
  {| Scripted.input := ∅; Scripted.output := ∅; Scripted.limits := [28; 5; 0; 10; 0]%nat |}.

Lemma retransmit_streams_packets_witness :
  ∃ client' w', serve_request [(id, test_cache); (id, test_cache)] test_cache (test_client (Some test_request)) slow_world
      = Ok (Value tt, client', w') ∧
    ∃ q sent, outgoing w' 4 = outgoing slow_world 4 ++ packets test_msg 3 q sent ∧ 6 ≤ q ∧ sent = O.
Proof.
  destruct (retransmit_streams_packets test_msg [(id, test_cache); (id, test_cache)] test_cache
    (test_client (Some test_request)) 3 6 slow_world) as (result & client' & w' & q & sent & Hrun & Hout & Hq & Hst).
  - exact test_msg_length.
  - exact test_serves.
  - repeat constructor; try exact test_serves; cbn [fst]; (exists []; rewrite app_nil_r; reflexivity).
  - reflexivity.
  - apply test_idle.
  - reflexivity.
  - intros Hc; discriminate Hc.
  - reflexivity.
  - destruct result as [[]|e]; [|vm_compute in Hrun; discriminate Hrun]. destruct Hst as (Hsent & Hlast & _).
    exists client', w'. split; [exact Hrun|]. exists q, sent. split; [exact Hout|]. split; [exact Hlast|exact Hsent].
Defined.

End RetransmitServer.
