(* ===== verification/ServerWorld.v ===== *)
(** * The kernel under the retransmit server

    What [accept], [kevent] and the set-up calls are relied on for, and a kernel
    that behaves so and can be run. *)

From S2P Require Import Prelude Types Bytes Network CircularCache Connection RetransmitServer.

(** The documented behaviour of the calls on the listening socket and the event
    queue.  A descriptor in the event queue is open, so [accept] does not return
    it again; [kevent] reports descriptors in the queue, and meanwhile peers send;
    [backlog] bounds the answers of [accept] other than "nothing more" and errors
    of the listening socket. *)
Class ListenerLaws (W : Type) {SK : Socket W} {LI : Listener W} : Type := {
  backlog : W → nat;
  accept_new listener w fd w' : sock_accept listener w = (Value fd, w') →
    (0 ≤ fd ∧ fd ≠ listener ∧ fd ∉ watched w) ∧ watched w' = watched w ∧ (backlog w' < backlog w)%nat ∧
    arrived w' fd = incoming w' fd ∧ outgoing w' fd = [] ∧ same_streams w w' (λ fd', fd' ≠ fd);
  accept_none listener w e w' : sock_accept listener w = (Unexpected e, w') →
    same_streams w w' (λ _, True) ∧ watched w' = watched w ∧
    (e = EINTR ∨ e = ECONNABORTED → (backlog w' < backlog w)%nat);
  nonblocking_quiet fd w b w' : set_socket_nonblocking fd w = (b, w') →
    same_streams w w' (λ _, True) ∧ watched w' = watched w ∧ (backlog w' ≤ backlog w)%nat;
  register_quiet fd w b w' : register_read_event fd w = (b, w') →
    same_streams w w' (λ _, True) ∧ watched w' = (if b : bool then {[fd]} ∪ watched w else watched w) ∧
    (backlog w' ≤ backlog w)%nat;
  close_backlog fd w : (backlog (sock_close fd w) ≤ backlog w)%nat;
  kevent_arrivals queue w r w' : kevent queue w = (r, w') → watched w' = watched w ∧
    ∀ fd, outgoing w' fd = outgoing w fd ∧
      ∃ more, arrived w' fd = arrived w fd ++ more ∧ incoming w' fd = incoming w fd ++ more;
  kevent_reports queue w events w' : kevent queue w = (Value events, w') → Forall (λ e, ident e ∈ watched w') events;
  arrived_bytes w fd : Forall byte_range (arrived w fd);
}.

(** ** A concrete kernel

    It moves at most the next limit's bytes per call (a limit of 0, or nothing to
    receive, is [EAGAIN]), hands out the pending connections, and plays a script
    of what happens while [kevent] waits.  A byte is a number's last eight bits. *)
Module Playback.

Record happening : Type := {
  calls_in : list (list Z);        (* new connections, with their first bytes *)
  sends : list (Z * list Z);       (* what the peers send *)
  reports : gmap Z bool;           (* the descriptors reported, with [EV_ERROR], if they are watched *)
}.

Record t : Type := {
  log : gmap Z (list Z);
  input : gmap Z (list Z);
  output : gmap Z (list Z);
  limits : list nat;
  queue : gset Z;
  pending : list (list Z);
  script : list (expected happening errno);
}.

Definition byte (b : Z) : Z := b `mod` 256.
Definition bytes_of (m : gmap Z (list Z)) (fd : Z) : list Z := byte <$> Scripted.bytes_of m fd.

Definition with_input (input' : gmap Z (list Z)) (w : t) : t :=
  {| log := log w; input := input'; output := output w; limits := limits w; queue := queue w;
     pending := pending w; script := script w |}.
Definition with_output (output' : gmap Z (list Z)) (w : t) : t :=
  {| log := log w; input := input w; output := output'; limits := limits w; queue := queue w;
     pending := pending w; script := script w |}.
Definition with_queue (queue' : gset Z) (w : t) : t :=
  {| log := log w; input := input w; output := output w; limits := limits w; queue := queue';
     pending := pending w; script := script w |}.
Definition next_limit (w : t) : t :=
  {| log := log w; input := input w; output := output w; limits := tail (limits w); queue := queue w;
     pending := pending w; script := script w |}.

Definition recv (fd : Z) (n : nat) (w : t) : recv_result * t :=
  let k := min (default n (head (limits w))) n in
  match take k (bytes_of (input w) fd) with
  | [] => (RecvFailed EAGAIN, next_limit w)
  | got => (Received got, next_limit (with_input (<[fd := drop k (Scripted.bytes_of (input w) fd)]> (input w)) w))
  end.

Definition send (fd : Z) (bytes : list Z) (w : t) : send_result * t :=
  match min (default (length bytes) (head (limits w))) (length bytes) with
  | O => (SendFailed EAGAIN, next_limit w)
  | S n => (Sent (S n), next_limit (with_output (<[fd := Scripted.bytes_of (output w) fd ++ take (S n) bytes]> (output w)) w))
  end.

#[global] Instance socket : Socket t := {|
  sock_recv := recv; sock_send := send;
  sock_close fd w := with_queue (queue w ∖ {[fd]}) w;
  register_oneshot_write_event fd w := (true, with_queue ({[fd]} ∪ queue w) w);
  unregister_read_event fd w := (true, with_queue (queue w ∖ {[fd]}) w);
  arrived w := bytes_of (log w); incoming w := bytes_of (input w); outgoing w := Scripted.bytes_of (output w);
  watched := queue;
|}.

(** A descriptor above all others in use. *)
Definition fresh_descriptor (listener : Z) (w : t) : Z := foldr Z.max (Z.max 0 listener) (elements (queue w)) + 1.

Definition accept (listener : Z) (w : t) : expected Z errno * t :=
  match pending w with
  | [] => (Unexpected EAGAIN, w)
  | bytes :: pending =>
      let fd := fresh_descriptor listener w in
      (Value fd, {| log := <[fd := bytes]> (log w); input := <[fd := bytes]> (input w); output := <[fd := []]> (output w);
                    limits := limits w; queue := queue w; pending := pending; script := script w |})
  end.

Definition arrive (w : t) (sent : Z * list Z) : t :=
  {| log := <[sent.1 := Scripted.bytes_of (log w) sent.1 ++ sent.2]> (log w);
     input := <[sent.1 := Scripted.bytes_of (input w) sent.1 ++ sent.2]> (input w); output := output w;
     limits := limits w; queue := queue w; pending := pending w; script := script w |}.

Definition reported (w : t) (reports : gmap Z bool) : list event :=
  (λ report, {| ident := report.1; ev_error := report.2 |}) <$> map_to_list (filter (λ report, report.1 ∈ queue w) reports).

Definition wait (_ : Z) (w : t) : expected (list event) errno * t :=
  match script w with
  | [] => (Value [], w)
  | Unexpected e :: script =>
      (Unexpected e, {| log := log w; input := input w; output := output w; limits := limits w; queue := queue w;
                        pending := pending w; script := script |})
  | Value happening :: script =>
      (Value (reported w (reports happening)),
       foldl arrive {| log := log w; input := input w; output := output w; limits := limits w; queue := queue w;
                       pending := pending w ++ calls_in happening; script := script |} (sends happening))
  end.

#[global] Instance listener : Listener t := {|
  sock_accept := accept;
  set_socket_nonblocking _ w := (true, w);
  register_read_event fd w := (true, with_queue ({[fd]} ∪ queue w) w);
  kevent := wait;
|}.

Lemma playback_insert m fd bs : bytes_of (<[fd := bs]> m) fd = byte <$> bs.
Proof. unfold bytes_of. by rewrite Scripted.bytes_of_insert. Qed.
Lemma playback_insert_ne m fd fd' bs : fd ≠ fd' → bytes_of (<[fd := bs]> m) fd' = bytes_of m fd'.
Proof. intros. unfold bytes_of. by rewrite Scripted.bytes_of_insert_ne. Qed.

Lemma playback_recv fd n w r w' : recv fd n w = (r, w') → log w' = log w ∧ output w' = output w ∧ queue w' = queue w ∧
  (∃ k, r = Received (take k (bytes_of (input w) fd)) ∧ (k ≤ n)%nat ∧ take k (bytes_of (input w) fd) ≠ [] ∧
     input w' = <[fd := drop k (Scripted.bytes_of (input w) fd)]> (input w) ∨ r = RecvFailed EAGAIN ∧ input w' = input w).
Proof.
  unfold recv. cbv zeta. set (k := min _ n). destruct (take k _) eqn:E; intros [= <- <-]; (split; [done|]); (split; [done|]);
    (split; [done|]); exists k; [by right|left]. rewrite E. split_and!; try done. unfold k. lia.
Qed.

Lemma playback_send fd bytes w r w' : send fd bytes w = (r, w') → log w' = log w ∧ input w' = input w ∧ queue w' = queue w ∧
  (∃ k, r = Sent k ∧ (k ≤ length bytes)%nat ∧ output w' = <[fd := Scripted.bytes_of (output w) fd ++ take k bytes]> (output w) ∨
     r = SendFailed EAGAIN ∧ output w' = output w).
Proof.
  unfold send. destruct (min _ (length bytes)) as [|k] eqn:E; intros [= <- <-]; (split; [done|]); (split; [done|]);
    (split; [done|]); [exists O; by right|exists (S k); left]. split_and!; try done. lia.
Qed.

#[global] Instance socket_laws : SocketLaws t.
Proof.
  split; simpl; try (by intros fd w b w' [= <- <-]); try done.
  - intros fd n w bs w' (Hlog & Hout & _ & k & [(Hr & Hk & Hne & Hin)|[Hr _]])%playback_recv Hn; [injection Hr as ->|done].
    rewrite Hlog, Hin, Hout, playback_insert. unfold bytes_of in *. rewrite fmap_drop, take_drop. split_and!; try done.
    + destruct (take k _); [done|simpl; lia].
    + rewrite length_take. lia.
  - intros fd n w r w' (Hlog & Hout & _ & k & [(-> & _)|[-> Hin]])%playback_recv Hne; [by destruct (Hne _ eq_refl)|].
    intros fd' _. simpl. by rewrite Hlog, Hin, Hout.
  - intros fd n w r w' (Hlog & Hout & _ & k & [(_ & _ & _ & Hin)|[_ Hin]])%playback_recv fd' Hfd; simpl;
      rewrite Hlog, Hin, Hout, ?playback_insert_ne by done; done.
  - intros fd bs w n w' (Hlog & Hin & _ & k & [(Hr & Hk & Hout)|[Hr _]])%playback_send; [injection Hr as ->|done].
    by rewrite Hlog, Hin, Hout, Scripted.bytes_of_insert.
  - intros fd bs w e w' (Hlog & Hin & _ & k & [(Hr & _)|[_ Hout]])%playback_send; [done|].
    intros fd' _. simpl. by rewrite Hlog, Hin, Hout.
  - intros fd bs w r w' (Hlog & Hin & _ & k & [(_ & _ & Hout)|[_ Hout]])%playback_send fd' Hfd; simpl;
      rewrite Hlog, Hin, Hout, ?Scripted.bytes_of_insert_ne by done; done.
  - by intros fd n w r w' (_ & _ & Hq & _)%playback_recv.
  - by intros fd bs w r w' (_ & _ & Hq & _)%playback_send.
  - intros fd w b w' [= <- <-] Hfd. simpl. set_solver.
  - intros fd w b w' [= <- <-]. simpl. set_solver.
Qed.

Lemma max_above (l : list Z) z x : x ∈ l → x ≤ foldr Z.max z l.
Proof. induction 1; simpl; lia. Qed.
Lemma max_start (l : list Z) z : z ≤ foldr Z.max z l.
Proof. induction l; simpl; lia. Qed.

Lemma arrive_all sent w : queue (foldl arrive w sent) = queue w ∧ output (foldl arrive w sent) = output w ∧
  ∀ fd, ∃ more, bytes_of (log (foldl arrive w sent)) fd = bytes_of (log w) fd ++ more ∧
    bytes_of (input (foldl arrive w sent)) fd = bytes_of (input w) fd ++ more.
Proof.
  revert w. induction sent as [|[fd bs] sent IH]; intros w; simpl.
  { split; [done|]. split; [done|]. intros fd. exists []. by rewrite !app_nil_r. }
  destruct (IH (arrive w (fd, bs))) as (-> & -> & Hmore). split; [done|]. split; [done|]. intros fd'.
  destruct (Hmore fd') as (more & -> & ->). simpl. destruct (decide (fd = fd')) as [->|Hne].
  - exists ((byte <$> bs) ++ more). unfold bytes_of. rewrite !Scripted.bytes_of_insert, !fmap_app, <- !app_assoc. done.
  - exists more. by rewrite !playback_insert_ne.
Qed.

Lemma reported_watched w reports : Forall (λ e, ident e ∈ queue w) (reported w reports).
Proof.
  unfold reported. apply Forall_fmap, Forall_forall. intros [fd err] Hin%elem_of_map_to_list. simpl.
  by apply map_lookup_filter_Some in Hin as [_ Hq].
Qed.

Lemma reported_once w reports : NoDup (ident <$> reported w reports).
Proof. unfold reported. rewrite <- list_fmap_compose. apply NoDup_fst_map_to_list. Qed.

#[global] Instance listener_laws : ListenerLaws t.
Proof.
  refine {| backlog w := length (pending w) |}.
  - intros q w fd w'. simpl. unfold accept. destruct (pending w) as [|bs rest] eqn:Hp; [done|]. intros [= <- <-].
    set (fd := fresh_descriptor q w). split.
    { pose proof (max_start (elements (queue w)) (Z.max 0 q)). split; [|split].
      - unfold fd, fresh_descriptor. lia.
      - unfold fd, fresh_descriptor. lia.
      - intros Hin%elem_of_elements. apply (max_above _ (Z.max 0 q)) in Hin. unfold fd, fresh_descriptor in Hin. lia. }
    simpl. split; [done|]. split; [simpl; lia|]. rewrite !playback_insert, Scripted.bytes_of_insert.
    split; [done|]. split; [done|]. intros fd' Hne. simpl. by rewrite !playback_insert_ne, Scripted.bytes_of_insert_ne by done.
  - intros q w e w'. simpl. unfold accept. destruct (pending w); [|done]. intros [= <- <-]. split; [done|]. split; [done|].
    by intros [|].
  - by intros fd w b w' [= <- <-].
  - by intros fd w b w' [= <- <-].
  - done.
  - intros q w r w'. simpl. unfold wait. destruct (script w) as [|[happening|e] script']; intros [= <- <-];
      try (split; [done|]; intros fd; split; [done|]; exists []; by rewrite !app_nil_r).
    destruct (arrive_all (sends happening) {| log := log w; input := input w; output := output w; limits := limits w;
      queue := queue w; pending := pending w ++ calls_in happening; script := script' |}) as (-> & -> & Hmore).
    split; [done|]. intros fd. split; [done|]. apply Hmore.
  - intros q w events w'. simpl. unfold wait. destruct (script w) as [|[happening|e] script']; intros [= <- <-]; [by constructor|].
    destruct (arrive_all (sends happening) {| log := log w; input := input w; output := output w; limits := limits w;
      queue := queue w; pending := pending w ++ calls_in happening; script := script' |}) as (-> & _).
    apply (reported_watched w).
  - intros w fd. simpl. unfold bytes_of. apply Forall_fmap, Forall_forall. intros b _. simpl. unfold byte_range, byte.
    apply Z.mod_pos_bound. lia.
Defined.
End Playback.
