(* ===== verification/ServerEvents.v ===== *)
(** * One event of the retransmit server

    What the bytes that have passed on a connection amount to: whole requests,
    each answered with its packets, then part of a request or part of an answer.
    An event on a connected client keeps that, or closes the client. *)

From S2P Require Import Prelude Types Bytes Codec CodecProof Network CircularCache Connection RetransmitServer ServerWorld.

Module ServerEvents.
Import RetransmitServer.

Section Events.
Context {W : Type} {SK : Socket W} {L : SocketLaws W} (h : endian) (fresh : list Z) (Hfresh : is_buffer fresh).
Context (msg : Z → list Z) (Hmsg : ∀ p, (length (msg p) ≤ 42)%nat).
Implicit Types (client : SavedConnection) (s : t) (w : W) (fd : Z) (r : RetransmitRequest.t) (requests : list RetransmitRequest.t).

(** ** Conversations *)

(** [bytes] is a sequence of whole requests, as [RetransmitRequest::parse] reads them. *)
Definition parsed (bytes : list Z) requests : Prop :=
  ∃ chunks, bytes = concat chunks ∧ Forall2 (λ chunk r, RetransmitRequest.parse h chunk = Ok r) chunks requests.

(** The packets that answer them. *)
Definition answers requests : list Z :=
  concat ((λ r, packets msg (RetransmitRequest.first_packet r) (RetransmitRequest.last_packet r) 0) <$> requests).

(** [heard] has been received and [said] has been sent: every request so far has
    been answered and the connection is free; or part of a request has been
    received; or the last request has been answered up to part of packet [p]. *)
Inductive conversation (heard said : list Z) client : Prop :=
  | AtRest requests : parsed heard requests → said = answers requests → Connection.idle (connection client) →
      conversation heard said client
  | Hearing requests complete got : parsed complete requests → heard = complete ++ got → said = answers requests →
      Forall byte_range got → Z.of_nat (length got) < RetransmitRequest.PACKED_SIZE → Connection.receiving RetransmitRequest.PACKED_SIZE got (connection client) →
      Connection.connection_status_ (connection client) = Connection.PartialReceive → conversation heard said client
  | Answering requests r p sent : parsed heard (requests ++ [r]) →
      said = answers requests ++ packets msg (RetransmitRequest.first_packet r) p sent →
      Config.FIRST_SEQUENCE_ID ≤ RetransmitRequest.first_packet r ≤ p → RetransmitRequest.last_packet r < 2 ^ 64 →
      in_progress msg p sent (RetransmitRequest.last_packet r) client → conversation heard said client.

Definition history fd w (heard said : list Z) : Prop := arrived w fd = heard ++ incoming w fd ∧ outgoing w fd = said.

(** A connected client between two events. *)
Definition client_ok fd client w : Prop :=
  Connection.socket_fd_ (connection client) = fd ∧ length (Connection.buffer_ (connection client)) = 42%nat ∧
  ∃ heard said, history fd w heard said ∧ conversation heard said client.

(** A place for a client without a socket. *)
Definition closed client : Prop :=
  Connection.socket_fd_ (connection client) < 0 ∧ length (Connection.buffer_ (connection client)) = 42%nat ∧
  Connection.head_ (connection client) = 0 ∧ Connection.tail_ (connection client) = 0 ∧
  Connection.connection_status_ (connection client) = Connection.Clear ∧ request client = None.

(** Since [w0], only [fd] has been used. *)
Definition reached fd w0 w (heard said : list Z) : Prop :=
  history fd w heard said ∧ same_streams w0 w (λ fd', fd' ≠ fd) ∧ watched w = watched w0.

(** Since [w0], only [fd] has been used and it has been closed. *)
Definition shut fd w0 w : Prop := same_streams w0 w (λ fd', fd' ≠ fd) ∧ watched w = watched w0 ∖ {[fd]}.

Lemma reached_start fd w heard said : history fd w heard said → reached fd w w heard said.
Proof using Type. intros Hh. split; [exact Hh|]. split; [|done]. by intros fd'. Qed.

Lemma reached_moved fd w0 w w' heard said more new : reached fd w0 w heard said → moved fd more new w w' →
  reached fd w0 w' (heard ++ more) (said ++ new).
Proof using Type.
  intros ([Ha Ho] & Hs & Hw) (Ha' & Hi' & Ho' & Hs' & Hw'). split; [|split; [by eapply same_streams_trans|congruence]].
  split; [|congruence]. by rewrite Ha', Ha, Hi', app_assoc.
Qed.

Lemma reached_shut fd w0 w w' heard said : reached fd w0 w heard said → shut fd w w' → shut fd w0 w'.
Proof using Type. intros (_ & Hs & Hw) [Hs' Hw']. split; [by eapply same_streams_trans|congruence]. Qed.

Lemma moved_shut fd more new w0 w w' : moved fd more new w0 w → shut fd w w' → shut fd w0 w'.
Proof using Type.
  intros (_ & _ & _ & Hs & Hw) [Hs' Hw']. split; [by eapply same_streams_trans|congruence].
Qed.

Lemma parsed_nil : parsed [] [].
Proof using Type. by exists []. Qed.

Lemma parsed_snoc bytes requests chunk r : parsed bytes requests → RetransmitRequest.parse h chunk = Ok r →
  parsed (bytes ++ chunk) (requests ++ [r]).
Proof using Type.
  intros (chunks & -> & Hall) Hr. exists (chunks ++ [chunk]). rewrite concat_app. simpl. rewrite app_nil_r.
  split; [done|]. apply Forall2_app; [done|]. by constructor.
Qed.

Lemma answers_snoc requests r q : RetransmitRequest.last_packet r ≤ q →
  q ≤ Z.max (RetransmitRequest.first_packet r) (RetransmitRequest.last_packet r) →
  RetransmitRequest.first_packet r ≤ q →
  answers requests ++ packets msg (RetransmitRequest.first_packet r) q 0 = answers (requests ++ [r]).
Proof using Type.
  intros Hl Hq Hf. unfold answers. rewrite fmap_app, concat_app. simpl. rewrite app_nil_r. f_equal.
  destruct (decide (q = RetransmitRequest.last_packet r)) as [->|Hne]; [done|].
  assert (q = RetransmitRequest.first_packet r) as -> by lia. unfold packets. rewrite Z.sub_diag. simpl.
  by rewrite seqZ_nil by lia.
Qed.

(** ** Closing *)

Lemma close_client_spec client s w : let fd := Connection.socket_fd_ (connection client) in
  0 ≤ fd → length (Connection.buffer_ (connection client)) = 42%nat →
  ∃ client' w', close_client client s w = (client', set_connections (u64 (current_connections_ s - 1)) s, w') ∧
    closed client' ∧ shut fd w w' ∧ ∀ fd, outgoing w' fd = outgoing w fd.
Proof using L.
  intros fd Hfd Hlen. unfold close_client, Connection.close. cbv zeta. simpl. fold fd.
  rewrite (proj2 (Z.leb_le _ _) Hfd). do 2 eexists. split; [done|]. split; [by split_and!|].
  set (w1 := if 0 <=? event_queue_ s then _ else w).
  assert (same_streams w w1 (λ _, True) ∧ watched w1 ∖ {[fd]} = watched w ∖ {[fd]}) as [Hs1 Hw1].
  { unfold w1. destruct (0 <=? event_queue_ s); [|done]. destruct (unregister_read_event fd w) as [b w2] eqn:Hu.
    split; [by eapply unregister_streams|by eapply unregister_watched]. }
  split; [split|].
  - eapply same_streams_trans; [by eapply same_streams_weaken|apply close_other].
  - by rewrite close_watched.
  - intros fd'. destruct (Hs1 fd' I) as (_ & _ & <-). destruct (decide (fd' = fd)) as [->|Hne]; [apply close_outgoing|].
    by apply close_other.
Qed.

Lemma notify_and_close_spec client e s w : let fd := Connection.socket_fd_ (connection client) in
  0 ≤ fd → length (Connection.buffer_ (connection client)) = 42%nat →
  ∃ client' w', notify_and_close h fresh client e s w =
    Ok (client', set_connections (u64 (current_connections_ s - 1)) s, w') ∧ closed client' ∧ shut fd w w'.
Proof using L Hfresh.
  intros fd Hfd Hlen. unfold notify_and_close. cbv zeta.
  destruct (make_serialize h fresh (error_header e) [] Hfresh ltac:(simpl; lia)) as (m & Hm & Hhd & Hb).
  fold (error_header e). destruct (EncodedMessage.make fresh (error_header e) []) as [m0| |]; [|done..].
  cbn [mbind outcome_bind] in *. rewrite Hm. cbn [mbind outcome_bind].
  assert (EncodedMessage.message m = Ok (header_wire (error_header e))) as ->.
  { unfold EncodedMessage.message. rewrite Hhd, Hb. apply subspan_prefix. by rewrite header_wire_length. }
  cbn [mbind outcome_bind].
  destruct (Connection.save_spec (header_wire (error_header e)) (Connection.clear (connection client)))
    as (c & -> & Hsending & Hfd' & Hl').
  { by split_and!. } { rewrite header_wire_length. simpl. rewrite Hlen. lia. } { simpl. rewrite Hlen. lia. }
  cbn [mbind outcome_bind]. simpl in Hfd', Hl'. fold fd in Hfd'.
  destruct (Connection.send_spec _ 0 c w Hsending) as (r & n & c2 & w2 & -> & Hmoved & _ & Hfd2 & Hl2 & _).
  cbn [mbind outcome_bind]. rewrite Hfd' in *.
  destruct (close_client_spec {| connection := c2; request := request client |} s w2) as (client' & w' & -> & Hc & Hshut & _);
    [simpl; lia|simpl; congruence|]. simpl in Hshut. rewrite Hfd2 in Hshut. exists client', w'. split; [done|]. split; [done|].
  by eapply moved_shut.
Qed.

Lemma parse_request bytes : Forall byte_range bytes → Z.of_nat (length bytes) = RetransmitRequest.PACKED_SIZE →
  ∃ r, RetransmitRequest.parse h bytes = Ok r ∧ RetransmitRequest.wf r.
Proof.
  intros Hb Hl. unfold RetransmitRequest.parse. rewrite (proj2 (Z.eqb_eq _ _) Hl). eexists. split; [done|].
  unfold RetransmitRequest.PACKED_SIZE in Hl.
  assert (∀ off, (off + 8 ≤ 16)%nat → in_u 64 (host_to_network h 8 (BinaryProtocol.read h bytes off 8))) as Hr.
  { intros off Hoff. unfold BinaryProtocol.read. set (bs := take 8 (drop off bytes)).
    assert (Forall byte_range bs) as Hbs by (by apply Forall_take, Forall_drop).
    assert (length bs = 8%nat) as Hlen by (unfold bs; rewrite length_take, length_drop; lia).
    destruct h; simpl.
    - pose proof (le_value_range (be_bytes 8 (le_value bs)) (be_bytes_range _ _)) as Hv.
      by rewrite be_bytes_length in Hv.
    - pose proof (le_value_range (rev bs)) as Hv. rewrite length_rev, Hlen in Hv. apply Hv. by apply Forall_rev. }
  split; apply Hr; lia.
Qed.

(** ** An event *)

(** What an event leaves of its client, the server and the kernel. *)
Definition event_result fd s w (res : expected unit ExchangeError.t) (s' : t) w' : Prop :=
  ∃ client', connection_buffers s' = <[Z.to_nat fd := client']> (connection_buffers s) ∧
    socket_fd_ s' = socket_fd_ s ∧ event_queue_ s' = event_queue_ s ∧
    match res with
    | Value _ => client_ok fd client' w' ∧ current_connections_ s' = current_connections_ s ∧
        same_streams w w' (λ fd', fd' ≠ fd) ∧ watched w' = watched w
    | Unexpected _ => closed client' ∧ current_connections_ s' = u64 (current_connections_ s - 1) ∧ shut fd w w'
    end.

Lemma event_kept fd s w0 client w heard said : Connection.socket_fd_ (connection client) = fd →
  length (Connection.buffer_ (connection client)) = 42%nat → reached fd w0 w heard said → conversation heard said client →
  event_result fd s w0 (Value tt) (set_client fd client s) w.
Proof using Type.
  intros Hfd Hlen (Hh & Hs & Hw) Hc. exists client. do 3 (split; [done|]). split; [|done].
  split; [done|]. split; [done|]. exists heard, said. by split.
Qed.

Lemma close_event_result fd s w0 e client w heard said : 0 ≤ fd → Connection.socket_fd_ (connection client) = fd →
  length (Connection.buffer_ (connection client)) = 42%nat → reached fd w0 w heard said →
  ∃ s' w', (let '(client, s, w) := close_client client s w in
      Ok (Unexpected e : expected unit ExchangeError.t, set_client fd client s, w)) =
    Ok (Unexpected e : expected unit ExchangeError.t, s', w') ∧ event_result fd s w0 (Unexpected e) s' w'.
Proof using L.
  intros Hfd <- Hlen Hreach. destruct (close_client_spec client s w Hfd Hlen) as (client' & w' & -> & Hc & Hshut & _).
  do 2 eexists. split; [done|]. exists client'. split_and!; try done; by eapply reached_shut.
Qed.

Lemma notify_event_result fd s w0 e e' client w heard said : 0 ≤ fd → Connection.socket_fd_ (connection client) = fd →
  length (Connection.buffer_ (connection client)) = 42%nat → reached fd w0 w heard said →
  ∃ s' w', ('(client, s, w) ← notify_and_close h fresh client e' s w;
            Ok (Unexpected e : expected unit ExchangeError.t, set_client fd client s, w)) =
    Ok (Unexpected e : expected unit ExchangeError.t, s', w') ∧ event_result fd s w0 (Unexpected e) s' w'.
Proof using L Hfresh.
  intros Hfd <- Hlen Hreach. destruct (notify_and_close_spec client e' s w Hfd Hlen) as (client' & w' & -> & Hc & Hshut).
  do 2 eexists. split; [done|]. exists client'. split_and!; try done; by eapply reached_shut.
Qed.

(** The end of a streaming call, by why it stopped. *)
Lemma finish_stream fd s w0 result q sent client w heard requests r :
  0 ≤ fd → fd ∈ watched w0 → Connection.socket_fd_ (connection client) = fd →
  length (Connection.buffer_ (connection client)) = 42%nat →
  Config.FIRST_SEQUENCE_ID ≤ RetransmitRequest.first_packet r ≤ q →
  q ≤ Z.max (RetransmitRequest.first_packet r) (RetransmitRequest.last_packet r) → RetransmitRequest.last_packet r < 2 ^ 64 →
  parsed heard (requests ++ [r]) →
  reached fd w0 w heard (answers requests ++ packets msg (RetransmitRequest.first_packet r) q sent) →
  stopped msg result q sent (RetransmitRequest.last_packet r) client →
  ∃ res s' w', match result with
    | Value _ => Ok (Value tt, set_client fd client s, w)
    | Unexpected ExchangeError.WouldBlock =>
        let '(registered, w) := register_oneshot_write_event fd w in
        if negb registered then
          '(client, s, w) ← notify_and_close h fresh client ExchangeError.ClientConnection s w;
          Ok (Unexpected ExchangeError.RegisterEvent, set_client fd client s, w)
        else Ok (Value tt, set_client fd client s, w)
    | Unexpected ((ExchangeError.ClientConnectionClosed | ExchangeError.PacketTooOld | ExchangeError.InvalidPacket
                  | ExchangeError.PacketUnavailable | ExchangeError.SendToClient) as e) =>
        let '(client, s, w) := close_client client s w in Ok (Unexpected e, set_client fd client s, w)
    | Unexpected _ => Undefined
    end = Ok (res, s', w') ∧ event_result fd s w0 res s' w'.
Proof using L Hfresh.
  intros Hfd Hwatch Hsock Hlen Hq Hmax Hlast Hparsed Hreach Hst.
  assert (∀ e, ∃ res s' w', (let '(client, s, w) := close_client client s w in
      Ok (Unexpected e, set_client fd client s, w)) = Ok (res, s', w') ∧ event_result fd s w0 res s' w') as Hclose.
  { intros e. destruct (close_event_result fd s w0 e client w _ _ Hfd Hsock Hlen Hreach) as (s' & w' & H1 & H2).
    by exists (Unexpected e), s', w'. }
  destruct result as [[]|e].
  - exists (Value tt), (set_client fd client s), w. split; [done|]. destruct Hst as (-> & Hle & Hidle & _).
    eapply event_kept; [done|done|exact Hreach|]. eapply AtRest; [done| |done]. apply answers_snoc; lia.
  - destruct e; try done; try apply Hclose.
    destruct (register_oneshot_write_event fd w) as [registered w1] eqn:Hreg.
    assert (reached fd w0 w1 (heard ++ []) ((answers requests ++ packets msg (RetransmitRequest.first_packet r) q sent) ++ [])) as Hreach1.
    { eapply reached_moved; [exact Hreach|]. apply moved_same; [by eapply register_streams|].
      eapply register_watched; [exact Hreg|]. by rewrite (proj2 (proj2 Hreach)). }
    rewrite !app_nil_r in Hreach1. destruct registered; simpl.
    + exists (Value tt), (set_client fd client s), w1. split; [done|].
      eapply event_kept; [done|done|exact Hreach1|]. by eapply (Answering _ _ _ requests r q sent).
    + destruct (notify_event_result fd s w0 ExchangeError.RegisterEvent ExchangeError.ClientConnection client w1 _ _ Hfd Hsock Hlen Hreach1)
        as (s' & w' & H1 & H2). by exists (Unexpected ExchangeError.RegisterEvent), s', w'.
Qed.

Lemma handle_stream_new cache fd s w0 client r w heard requests : 0 ≤ fd → fd ∈ watched w0 → serves msg cache →
  request client = Some r → RetransmitRequest.wf r → Connection.idle (connection client) →
  Connection.socket_fd_ (connection client) = fd → length (Connection.buffer_ (connection client)) = 42%nat →
  parsed heard (requests ++ [r]) → reached fd w0 w heard (answers requests) →
  ∃ res s' w', handle_stream h fresh cache fd client s w = Ok (res, s', w') ∧ event_result fd s w0 res s' w'.
Proof using L Hfresh Hmsg.
  intros Hfd Hwatch Hcache Hreq [Hfirst Hlast] Hidle Hsock Hlen Hparsed Hreach. unfold handle_stream, in_u in *.
  destruct r as [a last]. simpl in Hfirst, Hlast. destruct (decide (Config.FIRST_SEQUENCE_ID ≤ a)) as [Ha|Ha].
  - destruct (stream_packets_fresh msg 42 ltac:(done) Hmsg cache client a last w Hcache Hreq Hidle Hlen Ha ltac:(lia)) as
      (result & client' & w' & q & sent & -> & Hmoved & Hq & Hst & Hfd' & Hlen'). cbn [mbind outcome_bind].
    rewrite Hsock in *. pose proof (reached_moved _ _ _ _ _ _ _ _ Hreach Hmoved) as Hreach'. rewrite app_nil_r in Hreach'.
    by apply (finish_stream fd s w0 result q sent client' w' heard requests
      {| RetransmitRequest.first_packet := a; RetransmitRequest.last_packet := last |}); simpl; try lia.
  - unfold stream_packets. rewrite Hreq. cbn [deref mbind outcome_bind].
    rewrite Hsock, (proj2 (Z.leb_le _ _) Hfd). cbn [assert_ mbind outcome_bind].
    simpl RetransmitRequest.first_packet. rewrite (proj2 (Z.ltb_lt a Config.FIRST_SEQUENCE_ID)) by lia.
    cbn [mbind outcome_bind].
    destruct (close_event_result fd s w0 ExchangeError.InvalidPacket client w _ _ Hfd Hsock Hlen Hreach) as (s' & w' & H1 & H2).
    by exists (Unexpected ExchangeError.InvalidPacket), s', w'.
Qed.

Lemma packets_resume p q q' sent sent' new : p ≤ q ≤ q' → packets msg q q sent ++ new = packets msg q q' sent' →
  packets msg p q sent ++ new = packets msg p q' sent'.
Proof using Type.
  intros Hpq Hnew. rewrite <- (packets_join msg p q sent q) by lia. rewrite <- app_assoc, Hnew. apply packets_join; lia.
Qed.

Lemma handle_stream_resumed cache fd s client p sent w heard requests r : 0 ≤ fd → fd ∈ watched w → serves msg cache →
  in_progress msg p sent (RetransmitRequest.last_packet r) client →
  Config.FIRST_SEQUENCE_ID ≤ RetransmitRequest.first_packet r ≤ p → RetransmitRequest.last_packet r < 2 ^ 64 →
  Connection.socket_fd_ (connection client) = fd → length (Connection.buffer_ (connection client)) = 42%nat →
  parsed heard (requests ++ [r]) →
  history fd w heard (answers requests ++ packets msg (RetransmitRequest.first_packet r) p sent) →
  ∃ res s' w', handle_stream h fresh cache fd client s w = Ok (res, s', w') ∧ event_result fd s w res s' w'.
Proof using L Hfresh Hmsg.
  intros Hfd Hwatch Hcache Hprog Hp Hlast Hsock Hlen Hparsed Hhist. unfold handle_stream. pose proof Hprog as (_ & Hlt & _).
  destruct (stream_packets_resumed msg 42 ltac:(done) Hmsg cache client p sent _ w Hcache Hprog Hlen ltac:(lia) Hlast) as
    (result & client' & w' & q & sent' & new & -> & Hmoved & Hnew & Hq & Hst & Hfd' & Hlen'). cbn [mbind outcome_bind].
  rewrite Hsock in *. pose proof (reached_moved _ _ _ _ _ _ _ _ (reached_start _ _ _ _ Hhist) Hmoved) as Hreach.
  rewrite app_nil_r, <- app_assoc, (packets_resume _ _ q _ sent' _) in Hreach by (done || lia).
  apply (finish_stream fd s w result q sent' client' w' heard requests r); (done || lia).
Qed.

Lemma receive_and_stream cache fd s client got w complete requests : 0 ≤ fd → fd ∈ watched w → serves msg cache →
  Forall byte_range (incoming w fd) → Forall byte_range got →
  Connection.receiving RetransmitRequest.PACKED_SIZE got (connection client) →
  Connection.socket_fd_ (connection client) = fd → length (Connection.buffer_ (connection client)) = 42%nat →
  parsed complete requests → history fd w (complete ++ got) (answers requests) →
  ∃ res s' w', ('(result, client, w) ← receive_request h client w;
    match result with
    | Value _ => handle_stream h fresh cache fd client s w
    | Unexpected ExchangeError.WouldBlock => Ok (Value tt, set_client fd client s, w)
    | Unexpected ExchangeError.ClientConnectionClosed =>
        let '(client, s, w) := close_client client s w in
        Ok (Unexpected ExchangeError.ClientConnectionClosed, set_client fd client s, w)
    | Unexpected ExchangeError.ReceiveFromClient =>
        '(client, s, w) ← notify_and_close h fresh client ExchangeError.ClientConnection s w;
        Ok (Unexpected ExchangeError.ReceiveFromClient, set_client fd client s, w)
    | Unexpected _ => Undefined
    end) = Ok (res, s', w') ∧ event_result fd s w res s' w'.
Proof using L Hfresh Hmsg.
  intros Hfd Hwatch Hcache Hin Hgot Hrec Hsock Hlen Hparsed Hhist. unfold receive_request.
  destruct (Connection.receive_spec RetransmitRequest.PACKED_SIZE got (connection client) w Hrec) as
    (r & more & c' & w' & -> & Hmoved & Hfd' & Hlen' & Hres). cbn [mbind outcome_bind]. rewrite Hsock in *.
  pose proof (reached_moved _ _ _ _ _ _ _ _ (reached_start _ _ _ _ Hhist) Hmoved) as Hreach.
  rewrite app_nil_r, <- app_assoc in Hreach. destruct Hmoved as (_ & Hmore & _).
  assert (Forall byte_range (got ++ more)) as Hrange.
  { apply Forall_app. split; [done|]. rewrite Hmore in Hin. by apply Forall_app in Hin as [? _]. }
  destruct r as [bytes|e].
  - destruct Hres as (-> & Hbytes & Hidle).
    destruct (parse_request (got ++ more) Hrange Hbytes) as (r & Hr & Hwf). rewrite Hr. cbn [mbind outcome_bind].
    apply (handle_stream_new cache fd s w _ r w' (complete ++ got ++ more) requests); simpl; try (done || congruence).
    by apply parsed_snoc.
  - destruct Hres as (Hrec' & Hstatus & Hlt & [->|[->| ->]]); cbn [mbind outcome_bind].
    + eexists (Value tt), _, w'. split; [done|]. eapply event_kept; [done|simpl; congruence|exact Hreach|].
      by eapply Hearing.
    + destruct (close_event_result fd s w ExchangeError.ClientConnectionClosed
        {| connection := c'; request := request client |} w' _ _ Hfd Hfd' ltac:(simpl; congruence) Hreach) as (s' & w'' & H1 & H2).
      by eexists _, s', w''.
    + destruct (notify_event_result fd s w ExchangeError.ReceiveFromClient ExchangeError.ClientConnection
        {| connection := c'; request := request client |} w' _ _ Hfd Hfd' ltac:(simpl; congruence) Hreach) as (s' & w'' & H1 & H2).
      by eexists _, s', w''.
Qed.

Lemma handle_request_spec cache fd s client w : serves msg cache → Forall byte_range (incoming w fd) →
  0 ≤ fd → fd ∈ watched w → connection_buffers s !! Z.to_nat fd = Some client → client_ok fd client w →
  ∃ res s' w', handle_request h fresh cache fd s w = Ok (res, s', w') ∧ event_result fd s w res s' w'.
Proof using L Hfresh Hmsg.
  intros Hcache Hin Hfd Hwatch Hclient (Hsock & Hlen & heard & said & Hhist & Hconv). unfold handle_request.
  pose proof (lookup_lt_Some _ _ _ Hclient) as Hlt.
  rewrite (proj2 (Z.leb_le 0 fd) Hfd). cbn [assert_ mbind outcome_bind].
  rewrite (proj2 (Z.ltb_lt fd (Z.of_nat (length (connection_buffers s))))) by lia. cbn [assert_ mbind outcome_bind].
  assert (array_get (connection_buffers s) fd = Ok client) as -> by (by apply array_get_Ok).
  cbn [mbind outcome_bind].
  destruct Hconv as [requests Hp -> Hidle|requests complete got Hp -> -> Hgot _ Hrec ->|requests r p sent Hp -> Hfirst Hlast Hprog].
  - pose proof Hidle as (_ & _ & _ & ->). apply (receive_and_stream cache fd s client [] w heard requests); rewrite ?app_nil_r; try done.
    apply Connection.idle_receiving; [done|]. rewrite Hlen. vm_compute. split; intros Hc; discriminate Hc.
  - by apply (receive_and_stream cache fd s client got w complete requests).
  - pose proof Hprog as (_ & _ & _ & ->). by apply (handle_stream_resumed cache fd s client p sent w heard requests r).
Qed.
End Events.

(** An event on a connected client is never undefined behaviour and touches no
    other client or socket.  Afterwards every request that has arrived whole has
    been answered, in order, with exactly its packets, except for the part of a
    request or of an answer that is still under way; or the client has been
    closed: then the socket is gone, the request forgotten and one connection
    fewer is counted. *)
Theorem retransmit_event_safe {W} `{SocketLaws W} (h : endian) (fresh : list Z) (msg : Z → list Z)
    (cache : Z → answer) (fd : Z) (s : t) (client : SavedConnection) (w : W) :
  is_buffer fresh → (∀ p, (length (msg p) ≤ 42)%nat) → serves msg cache → Forall byte_range (incoming w fd) →
  0 ≤ fd → fd ∈ watched w → connection_buffers s !! Z.to_nat fd = Some client → client_ok h msg fd client w →
  ∃ res s' w', handle_request h fresh cache fd s w = Ok (res, s', w') ∧ event_result h msg fd s w res s' w'.
Proof. intros Hf Hm Hc Hin Hfd Hw Hcl Hok. by apply (handle_request_spec h fresh Hf msg Hm cache fd s client w). Qed.

(** When the requested packet is too old, does not exist or is being written, the
    client is closed and nothing at all is sent to it, although the three errors
    are public error codes. *)
Theorem retransmit_refusal_is_silent {W} `{SocketLaws W} (h : endian) (fresh : list Z)
    (cache : Z → answer) (fd a b : Z) (s : t) (client : SavedConnection) (e : CircularCache.Error) (w : W) :
  request client = Some {| RetransmitRequest.first_packet := a; RetransmitRequest.last_packet := b |} →
  Connection.idle (connection client) → length (Connection.buffer_ (connection client)) = 42%nat →
  Config.FIRST_SEQUENCE_ID ≤ a < b → cache (u32 (a - Config.FIRST_SEQUENCE_ID)) = Ok (Unexpected e) →
  ∃ e' s' w' client', handle_stream h fresh cache fd client s w = Ok (Unexpected e', s', w') ∧
    1 ≤ ExchangeError.code e' ≤ 3 ∧ (∀ fd', outgoing w' fd' = outgoing w fd') ∧
    connection_buffers s' = <[Z.to_nat fd := client']> (connection_buffers s) ∧ closed client'.
Proof.
  intros Hreq Hidle Hlen Hab Hcache. pose proof Hidle as (Hfd & _ & _ & Hstatus).
  unfold handle_stream, stream_packets. rewrite Hreq. cbn [deref mbind outcome_bind].
  rewrite (proj2 (Z.leb_le _ _) Hfd). cbn [assert_ mbind outcome_bind]. simpl RetransmitRequest.first_packet.
  rewrite (proj2 (Z.ltb_ge a Config.FIRST_SEQUENCE_ID)) by lia. rewrite Hstatus. cbn [mbind outcome_bind decide].
  rewrite decide_False by done. cbn [mbind outcome_bind RetransmitRequest.first_packet RetransmitRequest.last_packet].
  destruct (Z.to_nat (b - a)) as [|fuel] eqn:Hfuel; [lia|].
  cbn [stream_loop RetransmitRequest.first_packet RetransmitRequest.last_packet].
  rewrite (proj2 (Z.ltb_lt a b)) by lia. rewrite Hcache.
  destruct (close_client_spec {| connection := connection client;
    request := Some {| RetransmitRequest.first_packet := a; RetransmitRequest.last_packet := b |} |} s w Hfd Hlen)
    as (client' & w' & Hclose & Hclosed & _ & Hout).
  destruct e; cbn [mbind outcome_bind]; rewrite Hclose; do 4 eexists; split_and!; try done; simpl; lia.
Qed.

(** After an event that closed its client, a second event for the same
    socket in the batch runs into the assertion on the closed connection (kqueue
    reports the read and the write filter of a socket separately). *)
Theorem retransmit_second_event_undefined {W} `{SocketLaws W} `{Listener W} (h : endian) (fresh : list Z)
    (msg : Z → list Z) (cache : Z → answer) (fuel : nat) (fd : Z) (s s' : t) (client : SavedConnection)
    (e : ExchangeError.t) (w w' : W) :
  is_buffer fresh → (∀ p, (length (msg p) ≤ 42)%nat) → serves msg cache → Forall byte_range (incoming w fd) →
  0 ≤ fd → fd ≠ socket_fd_ s → fd ∈ watched w →
  connection_buffers s !! Z.to_nat fd = Some client → client_ok h msg fd client w →
  handle_request h fresh cache fd s w = Ok (Unexpected e, s', w') →
  handle_batch h fresh fuel (λ _, cache) [{| ident := fd; ev_error := false |}; {| ident := fd; ev_error := false |}] s w =
    Undefined.
Proof.
  intros Hf Hm Hc Hin Hfd Hne Hw Hcl Hok Hfirst.
  destruct (handle_request_spec h fresh Hf msg Hm cache fd s client w Hc Hin Hfd Hw Hcl Hok) as
    (res & s1 & w1 & Hrun & (client' & Hbuf & Hsame & _ & Hres)).
  rewrite Hfirst in Hrun. injection Hrun as <- <- <-. destruct Hres as ((Hsock & _ & _ & _ & Hstatus & _) & _).
  simpl. unfold handle_event. simpl. rewrite decide_False by done. rewrite Hfirst. cbn [mbind outcome_bind].
  rewrite decide_False by (by rewrite Hsame). unfold handle_request.
  pose proof (lookup_lt_Some _ _ _ Hcl) as Hlt. rewrite (proj2 (Z.leb_le 0 fd) Hfd). cbn [assert_ mbind outcome_bind].
  rewrite Hbuf, length_insert, (proj2 (Z.ltb_lt fd (Z.of_nat (length (connection_buffers s))))) by lia.
  cbn [assert_ mbind outcome_bind].
  assert (array_get (<[Z.to_nat fd := client']> (connection_buffers s)) fd = Ok client') as ->.
  { apply array_get_Ok. split; [done|]. by apply list_lookup_insert_eq. }
  cbn [mbind outcome_bind]. rewrite Hstatus. unfold receive_request, Connection.receive.
  by rewrite (proj2 (Z.leb_gt 0 _) Hsock).
Qed.

Definition test_server (client : SavedConnection) : t :=
  {| socket_fd_ := 3; event_queue_ := 9; current_connections_ := 2;
     connection_buffers := <[4%nat := client]> (replicate 5 (test_client None)) |}.
Definition playback (bytes : list Z) (limits : list nat) : Playback.t :=
  {| Playback.log := {[4 := bytes]}; Playback.input := {[4 := bytes]}; Playback.output := ∅; Playback.limits := limits;
     Playback.queue := {[3; 4]}; Playback.pending := []; Playback.script := [] |}.
Definition request_world : Playback.t := playback (RetransmitRequest.serialize LittleEndian test_request) [7; 0]%nat.

Lemma test_client_ok bytes limits : client_ok LittleEndian test_msg 4 (test_client None) (playback bytes limits).
Proof.
  split; [reflexivity|]. split; [reflexivity|]. exists [], []. split; [split; reflexivity|].
  apply (AtRest _ _ _ _ _ []); [apply parsed_nil|reflexivity|apply test_idle].
Qed.

Lemma retransmit_event_safe_witness :
  ∃ s' w', handle_request LittleEndian (replicate 42 0) test_cache 4 (test_server (test_client None)) request_world =
      Ok (Value tt, s', w') ∧
    event_result LittleEndian test_msg 4 (test_server (test_client None)) request_world (Value tt) s' w'.
Proof.
  destruct (retransmit_event_safe LittleEndian (replicate 42 0) test_msg test_cache 4 (test_server (test_client None))
    (test_client None) request_world) as (res & s' & w' & Hrun & Hres).
  - reflexivity.
  - exact test_msg_length.
  - exact test_serves.
  - vm_compute. repeat constructor; intros Hc; discriminate Hc.
  - intros Hc; discriminate Hc.
  - apply (bool_decide_eq_true_1 (4 ∈ watched request_world)). reflexivity.
  - reflexivity.
  - apply test_client_ok.
  - destruct res as [[]|e]; [|vm_compute in Hrun; discriminate Hrun]. exists s', w'. split; [exact Hrun|exact Hres].
Defined.

Definition empty_cache (i : Z) : answer := Ok (Unexpected CircularCache.DataDoesNotExist).

Lemma retransmit_refusal_is_silent_witness :
  ∃ e' s' w', handle_stream LittleEndian (replicate 42 0) empty_cache 4 (test_client (Some test_request))
      (test_server (test_client None)) slow_world = Ok (Unexpected e', s', w') ∧
    1 ≤ ExchangeError.code e' ≤ 3 ∧ outgoing w' 4 = [].
Proof.
  destruct (retransmit_refusal_is_silent LittleEndian (replicate 42 0) empty_cache 4 3 6 (test_server (test_client None))
    (test_client (Some test_request)) CircularCache.DataDoesNotExist slow_world) as
    (e' & s' & w' & client' & Hrun & Hcode & Hout & _).
  - reflexivity.
  - apply test_idle.
  - reflexivity.
  - split; [intros Hc; discriminate Hc|reflexivity].
  - reflexivity.
  - exists e', s', w'. split; [exact Hrun|]. split; [exact Hcode|exact (Hout 4)].
Defined.

Definition refused_world : Playback.t := playback (RetransmitRequest.serialize LittleEndian test_request) [].

Lemma retransmit_second_event_undefined_witness :
  handle_batch LittleEndian (replicate 42 0) 1 (λ _, empty_cache)
    [{| ident := 4; ev_error := false |}; {| ident := 4; ev_error := false |}]
    (test_server (test_client None)) refused_world = Undefined.
Proof.
  destruct (handle_request LittleEndian (replicate 42 0) empty_cache 4 (test_server (test_client None)) refused_world)
    as [[[[[]|e] s'] w']| |] eqn:Hrun; try (vm_compute in Hrun; discriminate Hrun).
  apply (retransmit_second_event_undefined LittleEndian (replicate 42 0) test_msg empty_cache 1 4
    (test_server (test_client None)) s' (test_client None) e refused_world w').
  - reflexivity.
  - exact test_msg_length.
  - intros p Hp. exact I.
  - vm_compute. repeat constructor; intros Hc; discriminate Hc.
  - intros Hc; discriminate Hc.
  - intros Hc; discriminate Hc.
  - apply (bool_decide_eq_true_1 (4 ∈ watched refused_world)). reflexivity.
  - reflexivity.
  - apply test_client_ok.
  - exact Hrun.
Defined.
End ServerEvents.
