(* ===== verification/ServerLoop.v ===== *)
(** * The retransmit server's event loop

    [run_event_loop] over any sequence of turns, with connections coming in,
    requests arriving in parts, sends that are cut short and clients that are
    closed. *)

From S2P Require Import Prelude Types Bytes Codec CodecProof Network CircularCache Connection RetransmitServer ServerWorld ServerEvents.

Module ServerLoop.
Import RetransmitServer ServerEvents.

(** With enough fuel the result is there, does not depend on the fuel, and
    satisfies [P]. *)
Definition settles {A} (f : nat → outcome A) (P : A → Prop) : Prop :=
  ∃ F a, P a ∧ ∀ fuel, (F ≤ fuel)%nat → f fuel = Ok a.

Lemma settles_ok {A} (a : A) (P : A → Prop) : P a → settles (λ _, Ok a) P.
Proof. intros Ha. by exists O, a. Qed.

Lemma settles_bind {A B} (f : nat → outcome A) (g : A → nat → outcome B) P Q :
  settles f P → (∀ a, P a → settles (g a) Q) → settles (λ fuel, a ← f fuel; g a fuel) Q.
Proof.
  intros (F & a & Ha & Hf) Hg. destruct (Hg a Ha) as (G & b & Hb & Hrun). exists (max F G), b. split; [done|].
  intros fuel Hfuel. rewrite Hf by lia. cbn [mbind outcome_bind]. apply Hrun. lia.
Qed.

Lemma settles_weaken {A} (f : nat → outcome A) (P Q : A → Prop) : settles f P → (∀ a, P a → Q a) → settles f Q.
Proof. intros (F & a & Ha & Hf) HPQ. exists F, a. auto. Qed.

(** ** Counting clients *)

Definition is_open (client : SavedConnection) : bool := 0 <=? Connection.socket_fd_ (connection client).
Definition open_count (clients : list SavedConnection) : nat := length (filter (λ client, is_open client = true) clients).

Lemma open_count_app l1 l2 : open_count (l1 ++ l2) = (open_count l1 + open_count l2)%nat.
Proof. unfold open_count. by rewrite filter_app, length_app. Qed.

Lemma open_count_cons client l : open_count (client :: l) = (Nat.b2n (is_open client) + open_count l)%nat.
Proof. unfold open_count. rewrite filter_cons. destruct (is_open client); [by rewrite decide_True|by rewrite decide_False]. Qed.

Lemma open_count_insert l i client client' : l !! i = Some client →
  (open_count (<[i := client']> l) + Nat.b2n (is_open client) = open_count l + Nat.b2n (is_open client'))%nat.
Proof.
  intros Hi. rewrite <- (take_drop_middle l i client Hi) at 2. pose proof (lookup_lt_Some _ _ _ Hi) as Hlt.
  rewrite insert_take_drop by done. rewrite !open_count_app, !open_count_cons. lia.
Qed.

Lemma open_count_closed l : Forall closed l → open_count l = O.
Proof.
  induction 1 as [|client l (Hfd & _) Hl IH]; [done|]. rewrite open_count_cons, IH. unfold is_open.
  by rewrite (proj2 (Z.leb_gt _ _)).
Qed.

Lemma alter_insert_lookup {A} (f : A → A) (l : list A) (i : nat) x : l !! i = Some x → alter f i l = <[i := f x]> l.
Proof.
  revert i. induction l as [|y l IH]; intros [|i] Hi; simplify_eq/=; [done|]. f_equal. by apply IH.
Qed.

Section Loop.
Context {W : Type} {SK : Socket W} {L : SocketLaws W} {LI : Listener W} {LL : ListenerLaws W}.
Context (h : endian) (msg : Z → list Z).
Implicit Types (client : SavedConnection) (s : t) (w : W) (fd : Z).

(** The place [i] of [connection_buffers]: no client; or client [i], connected,
    with all its requests answered in order so far. *)
Definition slot_ok s w (i : nat) client : Prop :=
  (closed client ∧ (Z.of_nat i ∈ watched w → Z.of_nat i = socket_fd_ s)) ∨
  (client_ok h msg (Z.of_nat i) client w ∧ Z.of_nat i ∈ watched w ∧ Z.of_nat i ≠ socket_fd_ s).

(** A running server. *)
Record serving s w : Prop := {
  serving_listener : 0 ≤ socket_fd_ s ∧ 0 ≤ event_queue_ s;
  serving_slots i client : connection_buffers s !! i = Some client → slot_ok s w i client;
  serving_watched fd : fd ∈ watched w → fd ≠ socket_fd_ s → 0 ≤ fd ∧ (Z.to_nat fd < length (connection_buffers s))%nat;
  serving_count : current_connections_ s = 1 + Z.of_nat (open_count (connection_buffers s));
  serving_bound : current_connections_ s ≤ Config.MAX_TOTAL_CONNECTIONS;
}.

(** A server that has shut down: every socket has been closed and nothing is watched. *)
Definition shut_down s w : Prop :=
  socket_fd_ s = -1 ∧ event_queue_ s = -1 ∧ Forall closed (connection_buffers s) ∧
  current_connections_ s = 1 ∧ watched w = ∅.

Lemma slot_open s w i client : slot_ok s w i client → is_open client = true →
  client_ok h msg (Z.of_nat i) client w ∧ Z.of_nat i ∈ watched w ∧ Z.of_nat i ≠ socket_fd_ s.
Proof using Type.
  intros [[(Hfd & _) _]|Hok]; [|done]. unfold is_open. by rewrite (proj2 (Z.leb_gt _ _)).
Qed.

Lemma client_ok_open fd client w : 0 ≤ fd → client_ok h msg fd client w → is_open client = true.
Proof using Type. intros Hfd (<- & _). by apply Z.leb_le. Qed.

(** A watched descriptor other than the listener's is a client's. *)
Lemma watched_client s w fd : serving s w → fd ∈ watched w → fd ≠ socket_fd_ s →
  0 ≤ fd ∧ ∃ client, connection_buffers s !! Z.to_nat fd = Some client ∧ client_ok h msg fd client w.
Proof using Type.
  intros Hs Hin Hne. destruct (serving_watched s w Hs fd Hin Hne) as [Hfd Hlt]. split; [done|].
  destruct (lookup_lt_is_Some_2 _ _ Hlt) as [client Hcl]. exists client. split; [done|].
  pose proof (serving_slots s w Hs _ _ Hcl) as Hslot. unfold slot_ok in Hslot. rewrite Z2Nat.id in Hslot by done.
  destruct Hslot as [[_ Hc]|[Hok _]]; [by destruct (Hne (Hc Hin))|done].
Qed.

Lemma client_ok_same fd client w w' : client_ok h msg fd client w → same_streams w w' (λ fd', fd' = fd) →
  client_ok h msg fd client w'.
Proof using Type.
  intros (H1 & H2 & heard & said & [Ha Ho] & Hc) Hsame. destruct (Hsame fd eq_refl) as (Ha' & Hi' & Ho').
  split; [done|]. split; [done|]. exists heard, said. split; [|done]. split; congruence.
Qed.

Lemma client_ok_bytes fd client w : client_ok h msg fd client w → Forall byte_range (incoming w fd).
Proof using LL.
  intros (_ & _ & heard & said & [Ha _] & _). pose proof (arrived_bytes w fd) as Hb. rewrite Ha in Hb.
  by apply Forall_app in Hb as [_ Hb].
Qed.

(** What happens elsewhere leaves the server as it is. *)
Lemma serving_same s w w' : serving s w → same_streams w w' (λ fd, fd ∈ watched w) → watched w' = watched w → serving s w'.
Proof using Type.
  intros Hs Hsame Hw. destruct Hs as [H1 H2 H3 H4 H5]. split; try done; [|by rewrite Hw].
  intros i client Hcl. unfold slot_ok. rewrite Hw. destruct (H2 i client Hcl) as [[Hc Hin]|(Hok & Hin & Hne)]; [by left|right].
  split; [|done]. apply (client_ok_same _ _ w); [done|]. intros fd ->. by apply Hsame.
Qed.

(** More bytes arrive. *)
Lemma serving_arrivals s w w' r : serving s w → kevent (event_queue_ s) w = (r, w') → serving s w'.
Proof using LL.
  intros Hs Hrun. destruct (kevent_arrivals _ _ _ _ Hrun) as [Hw Hmore]. destruct Hs as [H1 H2 H3 H4 H5].
  split; try done; [|by rewrite Hw]. intros i client Hcl. unfold slot_ok. rewrite Hw.
  destruct (H2 i client Hcl) as [[Hc Hin]|((Hfd & Hlen & heard & said & [Ha Ho] & Hconv) & Hin & Hne)]; [by left|right].
  split; [|done]. destruct (Hmore (Z.of_nat i)) as (Ho' & more & Ha' & Hi').
  split; [done|]. split; [done|]. exists heard, said. split; [|done]. split; [|congruence]. by rewrite Ha', Ha, Hi', app_assoc.
Qed.

(** ** An event on a client *)

(** What the rest of a batch can rely on. *)
Definition other_events s w s' w' fd : Prop :=
  socket_fd_ s' = socket_fd_ s ∧ ∀ fd', fd' ≠ fd → fd' ∈ watched w → fd' ∈ watched w'.

Lemma serving_event s w fd client res s' w' : serving s w → fd ∈ watched w → fd ≠ socket_fd_ s → 0 ≤ fd →
  connection_buffers s !! Z.to_nat fd = Some client → client_ok h msg fd client w →
  event_result h msg fd s w res s' w' → serving s' w' ∧ other_events s w s' w' fd.
Proof using L.
  intros Hs Hin Hne Hfd Hcl Hok (client' & Hbuf & Hsock & Hqueue & Hres).
  pose proof (open_count_insert _ _ _ client' Hcl) as Hcount. rewrite (client_ok_open _ _ _ Hfd Hok) in Hcount.
  assert (∀ i c, i ≠ Z.to_nat fd → same_streams w w' (λ fd', fd' ≠ fd) →
    (∀ fd', fd' ≠ fd → fd' ∈ watched w ↔ fd' ∈ watched w') → slot_ok s w i c → slot_ok s' w' i c) as Hothers.
  { intros i c Hi Hsame Hwatch Hc. assert (Z.of_nat i ≠ fd) as Hifd by lia. unfold slot_ok. rewrite Hsock.
    rewrite <- (Hwatch _ Hifd). destruct Hc as [?|(? & ?)]; [by left|right]. split; [|done].
    eapply client_ok_same; [done|]. intros fd' ->. by apply Hsame. }
  assert (∀ i c, <[Z.to_nat fd := client']> (connection_buffers s) !! i = Some c →
    (i = Z.to_nat fd ∧ c = client') ∨ (i ≠ Z.to_nat fd ∧ connection_buffers s !! i = Some c)) as Hlookup.
  { intros i c [(<- & <- & _)|[Hi Hc]]%list_lookup_insert_Some; [by left|right]. done. }
  destruct Hs as [[H1 H1'] H2 H3 H4 H5]. destruct res as [[]|e].
  - destruct Hres as (Hok' & Hcur & Hsame & Hw). rewrite (client_ok_open _ _ _ Hfd Hok') in Hcount.
    split; [|split; [done|by rewrite Hw]]. split; rewrite ?Hsock, ?Hqueue, ?Hcur, ?Hw, ?Hbuf, ?length_insert; try done; [|lia].
    intros i c [[-> ->]|[Hi Hc]]%Hlookup.
    + right. rewrite Hw, Hsock, Z2Nat.id by done. done.
    + apply Hothers; [done|done|by rewrite Hw|by apply H2].
  - destruct Hres as (Hclosed & Hcur & Hsame & Hw). pose proof Hclosed as (Hneg & _).
    assert (is_open client' = false) as Hshut by (by apply Z.leb_gt). rewrite Hshut in Hcount. simpl in Hcount.
    rewrite uwrap_small in Hcur by (unfold in_u; unfold Config.MAX_TOTAL_CONNECTIONS in H5; lia).
    split; [|split; [done|rewrite Hw; set_solver]].
    split; rewrite ?Hsock, ?Hqueue, ?Hcur, ?Hw, ?Hbuf, ?length_insert; try done; [|set_solver|lia|lia].
    intros i c [[-> ->]|[Hi Hc]]%Hlookup.
    + left. split; [done|]. rewrite Hw, Z2Nat.id by done. set_solver.
    + apply Hothers; [done|done|rewrite Hw; set_solver|by apply H2].
Qed.

(** The result of [get_connected_socket], by what [handle_new_connections] does with it. *)
Definition accepted s w (result : expected Z ExchangeError.t) w' : Prop :=
  match result with
  | Value fd => (0 ≤ fd ∧ fd ≠ socket_fd_ s ∧ fd ∉ watched w) ∧ current_connections_ s < Config.MAX_TOTAL_CONNECTIONS ∧
      watched w' = {[fd]} ∪ watched w ∧ (backlog w' < backlog w)%nat ∧
      arrived w' fd = incoming w' fd ∧ outgoing w' fd = [] ∧ same_streams w w' (λ fd', fd' ≠ fd)
  | Unexpected e => same_streams w w' (λ fd, fd ∈ watched w) ∧ watched w' = watched w ∧
      match e with
      | ExchangeError.RegisterEvent | ExchangeError.SetSocketNonblocking | ExchangeError.NewConnection =>
          (backlog w' < backlog w)%nat
      | ExchangeError.WouldBlock | ExchangeError.ServerBusy | ExchangeError.ServerFatal => True
      | _ => False
      end
  end.

(** A socket whose set-up failed is closed again. *)
Lemma accepted_closed s w w1 w2 fd e : fd ∉ watched w → watched w1 = watched w → same_streams w w1 (λ fd', fd' ≠ fd) →
  (backlog w1 < backlog w)%nat → same_streams w1 w2 (λ _, True) → watched w2 = watched w1 → (backlog w2 ≤ backlog w1)%nat →
  e = ExchangeError.RegisterEvent ∨ e = ExchangeError.SetSocketNonblocking →
  accepted s w (Unexpected e) (sock_close fd w2).
Proof using L.
  clear msg. intros Hnew Hw1 Hs1 Hb1 Hs2 Hw2 Hb2 He. pose proof (close_backlog fd w2). split; [|split].
  - intros fd' Hin. assert (fd' ≠ fd) as Hne by (by intros ->).
    destruct (Hs1 fd' Hne) as (? & ? & ?), (Hs2 fd' I) as (? & ? & ?), (close_other fd w2 fd' Hne) as (? & ? & ?).
    split_and!; congruence.
  - rewrite close_watched, Hw2, Hw1. set_solver.
  - destruct He as [->| ->]; lia.
Qed.

Lemma get_connected_socket_spec s w result w' : get_connected_socket s w = (result, w') → accepted s w result w'.
Proof using L.
  clear msg. unfold get_connected_socket. destruct (Z.leb_spec Config.MAX_TOTAL_CONNECTIONS (current_connections_ s)) as [|Hcur];
    [by intros [= <- <-]|].
  destruct (sock_accept (socket_fd_ s) w) as [[fd|e] w1] eqn:Hacc.
  2: { destruct (accept_none _ _ _ _ Hacc) as (Hs1 & Hw1 & Hb1).
    assert (same_streams w w1 (λ fd, fd ∈ watched w)) by (by eapply same_streams_weaken).
    destruct e; intros [= <- <-]; (split; [done|]); (split; [done|]); try done; apply Hb1; auto. }
  destruct (accept_new _ _ _ _ Hacc) as ((Hfd & Hne & Hnew) & Hw1 & Hb1 & Ha1 & Ho1 & Hs1).
  destruct (set_socket_nonblocking fd w1) as [nonblocking w2] eqn:Hnb.
  destruct (nonblocking_quiet _ _ _ _ Hnb) as (Hs2 & Hw2 & Hb2). destruct nonblocking; simpl.
  2: { intros [= <- <-]. apply (accepted_closed s w w1 w2); auto. }
  destruct (register_read_event fd w2) as [registered w3] eqn:Hreg.
  destruct (register_quiet _ _ _ _ Hreg) as (Hs3 & Hw3 & Hb3).
  assert (same_streams w1 w3 (λ _, True)) as Hs13 by (by eapply same_streams_trans).
  destruct registered; simpl; intros [= <- <-].
  - split; [done|]. split; [done|]. split; [congruence|]. split; [lia|].
    destruct (Hs13 fd I) as (-> & -> & ->). split; [done|]. split; [done|].
    eapply same_streams_trans; [done|]. by eapply same_streams_weaken.
  - apply (accepted_closed s w w1 w3); auto; [congruence|lia].
Qed.

Context (fresh : list Z) (Hfresh : is_buffer fresh) (Hmsg : ∀ p, (length (msg p) ≤ 42)%nat).

(** ** New connections *)

Lemma default_closed : closed (default_connection fresh).
Proof using Hfresh. split; [done|]. split; [by apply buffer_length|done]. Qed.

Lemma missing_closed s fd : Forall closed (replicate (S (Z.to_nat fd) - length (connection_buffers s)) (default_connection fresh)).
Proof using Hfresh. apply Forall_replicate, default_closed. Qed.

Lemma add_connection_ok s w fd : serving s w → 0 ≤ fd → fd ≠ socket_fd_ s → fd ∉ watched w →
  current_connections_ s < Config.MAX_TOTAL_CONNECTIONS → ∀ w', watched w' = {[fd]} ∪ watched w →
  arrived w' fd = incoming w' fd → outgoing w' fd = [] → same_streams w w' (λ fd', fd' ≠ fd) →
  serving (add_connection fresh fd s) w'.
Proof using L Hfresh Hmsg.
  intros Hs Hfd Hne Hnew Hcur w' Hw Harr Hout Hsame.
  pose proof (open_count_closed _ (missing_closed s fd)) as Hnone. set (n := Z.to_nat fd).
  set (buffers := connection_buffers s ++ replicate (S n - length (connection_buffers s)) (default_connection fresh)).
  assert (∀ i c, buffers !! i = Some c → slot_ok s w i c) as Hslots.
  { intros i c [Hc|[Hge Hc]]%lookup_app_Some; [by apply (serving_slots s w Hs)|left].
    assert (closed c) as Hclosed by (eapply Forall_lookup_1; [apply (missing_closed s fd)|exact Hc]). split; [done|].
    intros Hin. destruct (decide (Z.of_nat i = socket_fd_ s)) as [->|Hi]; [done|].
    destruct (serving_watched s w Hs _ Hin Hi) as [_ Hlt]. lia. }
  assert (n < length buffers)%nat as Hn by (unfold buffers; rewrite length_app, length_replicate; lia).
  destruct (lookup_lt_is_Some_2 _ _ Hn) as [c Hc]. pose proof (Hslots n c Hc) as Hslot. unfold slot_ok in Hslot.
  replace (Z.of_nat n) with fd in Hslot by (unfold n; lia). destruct Hslot as [[Hclosed _]|(_ & Hin & _)]; [|done].
  assert (open_count buffers = open_count (connection_buffers s)) as Hsum.
  { unfold buffers. rewrite open_count_app. unfold n. lia. }
  set (client := {| connection := Connection.set_socket fd (connection c); request := request c |}).
  assert (connection_buffers (add_connection fresh fd s) = <[n := client]> buffers) as Hbuf.
  { unfold add_connection. simpl. fold n buffers. by rewrite (alter_insert_lookup _ buffers n c). }
  destruct Hclosed as (Hneg & Hlen & Hhead & Htail & Hstatus & Hreq).
  assert (client_ok h msg fd client w') as Hok.
  { split; [done|]. split; [done|]. exists [], []. split; [by split|].
    apply (AtRest _ _ _ _ _ []); [apply parsed_nil|done|]. by split_and!. }
  pose proof (open_count_insert buffers n c client Hc) as Hcount. rewrite (client_ok_open _ _ _ Hfd Hok) in Hcount.
  replace (is_open c) with false in Hcount by (symmetry; by apply Z.leb_gt). simpl in Hcount.
  destruct (serving_listener s w Hs). pose proof (serving_count s w Hs) as Hs4.
  assert (current_connections_ (add_connection fresh fd s) = current_connections_ s + 1) as Hcur'.
  { simpl. apply uwrap_small. unfold in_u, Config.MAX_TOTAL_CONNECTIONS in *. lia. }
  split; rewrite ?Hcur'; [done| | |rewrite Hbuf; lia|lia].
  - rewrite Hbuf. intros i c' [(<- & <- & _)|[Hi Hc']]%list_lookup_insert_Some.
    + right. replace (Z.of_nat n) with fd by (unfold n; lia). rewrite Hw. split; [done|]. split; [set_solver|done].
    + assert (Z.of_nat i ≠ fd) as Hifd by (unfold n in Hi; lia).
      destruct (Hslots i c' Hc') as [[? Hin]|(Hok' & Hin & Hi')]; [left|right]; rewrite Hw.
      * split; [done|]. intros Hin'. apply Hin. set_solver.
      * split; [|split; [set_solver|done]]. eapply client_ok_same; [done|]. intros fd' ->. by apply Hsame.
  - rewrite Hw, Hbuf, length_insert. intros fd' Hin Hne'. destruct (decide (fd' = fd)) as [->|Hdiff]; [done|].
    destruct (serving_watched s w Hs fd') as [Hge Hlt]; [set_solver|done|]. split; [done|].
    unfold buffers. rewrite length_app. lia.
Qed.

Lemma handle_new_connections_spec s w : serving s w →
  settles (λ fuel, handle_new_connections fresh fuel s w) (λ '(res, s', w'), serving s' w' ∧
    (res = Value tt ∨ res = Unexpected ExchangeError.ServerFatal) ∧ socket_fd_ s' = socket_fd_ s ∧ watched w ⊆ watched w').
Proof using L LL Hfresh Hmsg.
  remember (backlog w) as n eqn:Hn. revert s w Hn. induction n as [n IH] using lt_wf_ind. intros s w -> Hs.
  destruct (get_connected_socket s w) as [result w1] eqn:Hget. pose proof (get_connected_socket_spec _ _ _ _ Hget) as Hacc.
  assert (∀ s1, match result with Value fd => s1 = add_connection fresh fd s | Unexpected _ => s1 = s end →
    (backlog w1 < backlog w)%nat → serving s1 w1 → watched w ⊆ watched w1 →
    (∀ fuel, handle_new_connections fresh (S fuel) s w = handle_new_connections fresh fuel s1 w1) →
    settles (λ fuel, handle_new_connections fresh fuel s w) (λ '(res, s', w'), serving s' w' ∧
      (res = Value tt ∨ res = Unexpected ExchangeError.ServerFatal) ∧ socket_fd_ s' = socket_fd_ s ∧ watched w ⊆ watched w')) as Hagain.
  { intros s1 Hs1 Hlt Hserving Hsub Hstep. destruct (IH _ Hlt s1 w1 eq_refl Hserving) as (F & [[res s'] w'] & (H1 & H2 & H3 & H4) & Hrun).
    exists (S F), (res, s', w'). split.
    - split; [done|]. split; [done|]. split; [|set_solver]. rewrite H3. by destruct result; subst s1.
    - intros [|fuel] Hfuel; [lia|]. rewrite Hstep. apply Hrun. lia. }
  assert (∀ res, (res = Value tt ∨ res = Unexpected ExchangeError.ServerFatal) → same_streams w w1 (λ fd, fd ∈ watched w) → watched w1 = watched w →
    (∀ fuel, handle_new_connections fresh (S fuel) s w = Ok (res, s, w1)) →
    settles (λ fuel, handle_new_connections fresh fuel s w) (λ '(res, s', w'), serving s' w' ∧
      (res = Value tt ∨ res = Unexpected ExchangeError.ServerFatal) ∧ socket_fd_ s' = socket_fd_ s ∧ watched w ⊆ watched w')) as Hend.
  { intros res Hres Hsame Hw Hstep. exists 1%nat, (res, s, w1). split; [|intros [|fuel] Hfuel; [lia|apply Hstep]].
    split; [by eapply serving_same|]. split; [done|]. split; [done|]. by rewrite Hw. }
  destruct result as [fd|e].
  - destruct Hacc as ((Hfd & Hne & Hnew) & Hcur & Hw & Hb & Ha & Ho & Hsame).
    apply (Hagain (add_connection fresh fd s)); [done|done| |set_solver|by intros fuel; simpl; rewrite Hget].
    by apply (add_connection_ok s w fd).
  - destruct Hacc as (Hsame & Hw & Hb).
    destruct e; try done; first
      [apply (Hagain s); [done|exact Hb|by eapply serving_same|by rewrite Hw|by intros fuel; simpl; rewrite Hget]
      |eapply Hend; [|done|done|intros fuel; simpl; rewrite Hget; reflexivity]; auto].
Qed.

(** ** Shutting down *)

Lemma close_clients_spec clients s w :
  Forall (λ c, closed c ∨ is_open c = true ∧ length (Connection.buffer_ (connection c)) = 42%nat) clients →
  Z.of_nat (open_count clients) ≤ current_connections_ s < 2 ^ 64 →
  ∃ clients' w', close_clients h fresh clients s w =
      Ok (clients', set_connections (current_connections_ s - Z.of_nat (open_count clients)) s, w') ∧
    Forall closed clients' ∧
    ∀ fd, fd ∈ watched w' → fd ∈ watched w ∧ Forall (λ c, is_open c = true → Connection.socket_fd_ (connection c) ≠ fd) clients.
Proof using L Hfresh Hmsg.
  intros Hclients. revert s w. induction Hclients as [|c clients Hc Hclients IH]; intros s w Hcur.
  { exists [], w. split; [|by split]. simpl. rewrite Z.sub_0_r. by destruct s. }
  rewrite open_count_cons in *. simpl. fold (is_open c). destruct Hc as [Hclosed|[Hopen Hlen]].
  - assert (is_open c = false) as Hno by (apply Z.leb_gt, Hclosed). rewrite Hno in *. cbn [mbind outcome_bind] in *. simpl in *.
    destruct (IH s w Hcur) as (clients' & w' & -> & Hall & Hw). cbn [mbind outcome_bind].
    exists (c :: clients'), w'. split; [done|]. split; [by constructor|]. intros fd Hfd. destruct (Hw fd Hfd).
    split; [done|]. constructor; [by rewrite Hno|done].
  - rewrite Hopen in *. simpl in Hcur. assert (0 ≤ Connection.socket_fd_ (connection c)) as Hfd by (by apply Z.leb_le).
    destruct (notify_and_close_spec h fresh Hfresh c ExchangeError.ServerFatal s w Hfd Hlen) as (c' & w1 & -> & Hc' & _ & Hw1).
    cbn [mbind outcome_bind]. rewrite uwrap_small by (unfold in_u; lia).
    destruct (IH (set_connections (current_connections_ s - 1) s) w1) as (clients' & w' & -> & Hall & Hw);
      [simpl; lia|]. cbn [mbind outcome_bind]. exists (c' :: clients'), w'. split.
    { do 2 f_equal. unfold set_connections. simpl. do 2 f_equal. lia. }
    split; [by constructor|]. intros fd Hin. destruct (Hw fd Hin) as [Hin1 Hothers]. rewrite Hw1 in Hin1.
    split; [set_solver|]. constructor; [set_solver|done].
Qed.

Lemma serving_current s w : serving s w →
  Z.of_nat (open_count (connection_buffers s)) ≤ current_connections_ s < 2 ^ 64.
Proof using Type.
  intros Hs. pose proof (serving_count s w Hs). pose proof (serving_bound s w Hs). unfold Config.MAX_TOTAL_CONNECTIONS in *. lia.
Qed.

Lemma serving_closable s w : serving s w →
  Forall (λ c, closed c ∨ is_open c = true ∧ length (Connection.buffer_ (connection c)) = 42%nat) (connection_buffers s).
Proof using Type.
  intros Hs. apply Forall_lookup. intros i c Hc.
  destruct (serving_slots s w Hs i c Hc) as [[Hclosed _]|[Hok _]]; [by left|right].
  split; [apply (client_ok_open (Z.of_nat i) c w); [lia|done]|apply Hok].
Qed.

Lemma close_server_spec s w : serving s w → ∃ s' w', close_server h fresh s w = Ok (s', w') ∧ shut_down s' w'.
Proof using L Hfresh Hmsg.
  intros Hs. destruct (serving_listener s w Hs) as [Hsock Hqueue]. unfold close_server.
  rewrite (proj2 (Z.leb_le _ _) Hsock).
  destruct (close_clients_spec (connection_buffers s) s (sock_close (socket_fd_ s) w) (serving_closable s w Hs) (serving_current s w Hs))
    as (clients' & w' & -> & Hclosed & Hw). cbn [mbind outcome_bind set_connections socket_fd_ event_queue_].
  rewrite (proj2 (Z.leb_le _ _) Hsock), (proj2 (Z.leb_le _ _) Hqueue). do 2 eexists. split; [done|]. split; [done|]. split; [done|]. split; [done|]. split.
  { simpl. rewrite (serving_count s w Hs). lia. }
  rewrite close_watched. apply elem_of_equiv_empty_L. intros fd [Hin _]%elem_of_difference.
  destruct (Hw fd Hin) as [Hin' Hothers]. rewrite close_watched in Hin'. apply elem_of_difference in Hin' as [Hfd Hne].
  destruct (watched_client s w fd Hs Hfd) as (Hpos & c & Hc & Hok); [set_solver|].
  rewrite Forall_lookup in Hothers. apply (Hothers _ _ Hc); [by apply (client_ok_open fd c w)|apply Hok].
Qed.

(** ** The loop *)

Definition fatal_error (e : ExchangeError.t) : Prop := e = ExchangeError.EventQueue ∨ e = ExchangeError.ServerFatal.

(** What an event, a batch or a turn leaves. *)
Definition left_serving s w (fatal : option ExchangeError.t) s' w' : Prop :=
  match fatal with
  | None => serving s' w' ∧ socket_fd_ s' = socket_fd_ s
  | Some e => fatal_error e ∧ shut_down s' w'
  end.

(** None of the events asks for the cache: they are on the listener, or errors. *)
Definition calm s (events : list event) : Prop := Forall (λ e, ident e = socket_fd_ s ∨ ev_error e = true) events.
#[global] Instance calm_dec s events : Decision (calm s events).
Proof using Type. unfold calm. apply _. Defined.

Lemma handle_event_spec cache e s w : serves msg cache ∨ calm s [e] → serving s w → ident e ∈ watched w →
  settles (λ fuel, handle_event h fresh fuel cache e s w) (λ '(fatal, s', w'), left_serving s w fatal s' w' ∧
    (fatal = None → ∀ fd, fd ≠ ident e → fd ∈ watched w → fd ∈ watched w')).
Proof using L LL Hfresh Hmsg.
  intros Hcache Hs Hin. unfold handle_event. destruct (decide (ident e = socket_fd_ s)) as [Heq|Hne].
  - destruct (ev_error e).
    + rewrite decide_False by (by intros Hn; apply Hn).
      destruct (close_server_spec s w Hs) as (s' & w' & -> & Hdown). cbn [mbind outcome_bind].
      apply settles_ok. split; [|done]. split; [by left|done].
    + eapply settles_bind; [by apply handle_new_connections_spec|].
      intros [[res s'] w'] (Hs' & Hres & Hsock & Hsub). destruct Hres as [->| ->].
      { apply settles_ok. split; [done|]. intros _ fd _. apply Hsub. }
      destruct (close_server_spec s' w' Hs') as (s2 & w2 & -> & Hdown). cbn [mbind outcome_bind].
      apply settles_ok. split; [|done]. split; [by right|done].
  - destruct (watched_client s w _ Hs Hin Hne) as (Hfd & client & Hcl & Hok).
    assert (∀ res s' w', event_result h msg (ident e) s w res s' w' → left_serving s w None s' w' ∧
      (None (A := ExchangeError.t) = None → ∀ fd, fd ≠ ident e → fd ∈ watched w → fd ∈ watched w')) as Hleft.
    { intros res s' w' Hres. destruct (serving_event s w _ client res s' w' Hs Hin Hne Hfd Hcl Hok Hres) as [Hs' [Hsock Hw]].
      split; [by split|]. intros _. apply Hw. }
    destruct (ev_error e) eqn:Heq.
    + rewrite decide_True by done. assert (array_get (connection_buffers s) (ident e) = Ok client) as -> by (by apply array_get_Ok).
      cbn [mbind outcome_bind]. pose proof Hok as (Hsock & Hlen & heard & said & Hhist & _).
      destruct (notify_event_result h fresh Hfresh msg (ident e) s w ExchangeError.EventQueue ExchangeError.ClientConnection client w
        heard said Hfd Hsock Hlen (reached_start _ _ _ _ Hhist)) as (s' & w' & Hrun & Hres).
      destruct (notify_and_close h fresh client ExchangeError.ClientConnection s w) as [[[c1 s1] w1]| |]; [|done..].
      cbn [mbind outcome_bind] in *. injection Hrun as -> ->. apply settles_ok. by eapply Hleft.
    + assert (serves msg cache) as Hserves.
      { destruct Hcache as [|Hcalm]; [done|]. pose proof (Forall_inv Hcalm) as []; congruence. }
      destruct (handle_request_spec h fresh Hfresh msg Hmsg cache (ident e) s client w Hserves (client_ok_bytes _ _ _ Hok) Hfd Hin Hcl Hok)
        as (res & s' & w' & -> & Hres). cbn [mbind outcome_bind]. apply settles_ok. by eapply Hleft.
Qed.

(** What the reads of a turn find has not been tampered with. *)
Definition serves_all (cache : nat → Z → answer) : Prop := ∀ i, serves msg (cache i).

Lemma handle_batch_spec cache events s w : serves_all cache ∨ calm s events → serving s w → Forall (λ e, ident e ∈ watched w) events →
  NoDup (ident <$> events) →
  settles (λ fuel, handle_batch h fresh fuel cache events s w) (λ '(fatal, s', w'), left_serving s w fatal s' w').
Proof using L LL Hfresh Hmsg.
  revert cache s w. induction events as [|e events IH]; intros cache s w Hcache Hs Hwatched Hdup.
  { by apply (settles_ok (None, s, w)). }
  apply Forall_cons in Hwatched as [Hin Hwatched]. cbn [fmap list_fmap] in Hdup. apply NoDup_cons in Hdup as [Hnew Hdup].
  simpl. eapply settles_bind; [apply handle_event_spec; [|exact Hs|exact Hin]|intros [[[e'|] s'] w'] [Hleft Hothers]].
  { destruct Hcache as [Hall|[Hcalm _]%Forall_cons]; [left; apply Hall|right]. by apply Forall_singleton. }
  { by apply (settles_ok (Some e', s', w')). }
  destruct Hleft as [Hs' Hsock]. eapply settles_weaken; [apply (IH _ s' w'); [|exact Hs'| |done]|].
  - destruct Hcache as [Hall|[_ Hcalm]%Forall_cons]; [left; intros i; apply Hall|right]. unfold calm. by rewrite Hsock.
  - apply Forall_forall. intros e' He'. apply Hothers; [done| |].
    + intros Heq. apply Hnew. rewrite <- Heq. by apply list_elem_of_fmap_2.
    + rewrite Forall_forall in Hwatched. by apply Hwatched.
  - intros [[fatal s2] w2]. unfold left_serving. by rewrite Hsock.
Qed.

(** Each descriptor is reported at most once per batch. *)
Definition reports_once : Prop := ∀ queue w events w', kevent queue w = (Value events, w') → NoDup (ident <$> events).

(** How the turns end: still running; or shut down, with the error that is returned. *)
Definition turned s (result : option (expected unit ExchangeError.t)) s' w' : Prop :=
  match result with
  | None => serving s' w' ∧ socket_fd_ s' = socket_fd_ s
  | Some r => ∃ e, r = Unexpected e ∧ fatal_error e ∧ shut_down s' w'
  end.

Lemma turn_spec cache s w : reports_once →
  serves_all cache ∨ (∀ events w', kevent (event_queue_ s) w = (Value events, w') → calm s events) → serving s w →
  settles (λ fuel, turn h fresh fuel cache s w) (λ '(result, s', w'), turned s result s' w').
Proof using L LL Hfresh Hmsg.
  intros Honce Hcache Hs. unfold turn. destruct (kevent (event_queue_ s) w) as [[events|e] w1] eqn:Hpoll.
  - pose proof (serving_arrivals _ _ _ _ Hs Hpoll) as Hs1.
    eapply settles_bind; [apply handle_batch_spec; [destruct Hcache as [|Hcalm]; [by left|right; by eapply Hcalm]|exact Hs1|by eapply kevent_reports|by eapply Honce]|].
    intros [[[e|] s'] w'] Hleft; apply settles_ok; [|done]. by exists e.
  - pose proof (serving_arrivals _ _ _ _ Hs Hpoll) as Hs1.
    destruct (close_server_spec s w1 Hs1) as (s' & w' & Hclose & Hdown).
    destruct e; try (by apply (settles_ok (None, s, w1)));
      rewrite Hclose; apply (settles_ok (Some (Unexpected ExchangeError.EventQueue), s', w'));
      exists ExchangeError.EventQueue; (split; [done|]); (split; [by left|done]).
Qed.

Lemma turns_spec caches s w : reports_once → Forall serves_all caches → serving s w →
  settles (λ fuel, turns h fresh fuel caches s w) (λ '(result, s', w'), turned s result s' w').
Proof using L LL Hfresh Hmsg.
  intros Honce Hcaches. revert s w. induction Hcaches as [|cache caches Hcache Hcaches IH]; intros s w Hs.
  { by apply (settles_ok (None, s, w)). }
  simpl. eapply settles_bind; [apply turn_spec; [done|by left|done]|]. intros [[[r|] s'] w'] Hturned.
  { by apply (settles_ok (Some r, s', w')). }
  destruct Hturned as [Hs' Hsock]. eapply settles_weaken; [by apply IH|].
  intros [[result s2] w2]. unfold turned. by rewrite Hsock.
Qed.

(** After [initialize] and [listen], for the first time or after [close_server]:
    no clients, nothing watched but the listener. *)
Definition started s w : Prop :=
  (0 ≤ socket_fd_ s ∧ 0 ≤ event_queue_ s) ∧ current_connections_ s = 1 ∧ Forall closed (connection_buffers s) ∧
  watched w = {[socket_fd_ s]}.

Lemma started_serving s w : started s w → serving s w.
Proof using Type.
  intros (Hfds & Hcur & Hbuf & Hw). split; rewrite ?Hcur; [done| | |by rewrite open_count_closed|done]; rewrite ?Hw.
  - intros i client Hi. left. split; [by eapply Forall_lookup_1|]. by rewrite Hw, elem_of_singleton.
  - by intros fd ->%elem_of_singleton.
Qed.
End Loop.

(** C8: The retransmit server's event loop, from a started server and over any
    turns: connections that come in and fail to be set up, requests that arrive
    in parts, sends that are cut short, clients that are reported with an error,
    packets that have left the cache or are being overwritten, each read finding the
    packet of its number or an error.  If a batch names
    no descriptor twice, nothing is undefined and every turn ends; a client in
    the table is one that is connected, with every request it has sent whole
    answered in order by exactly its packets; the watched descriptors are the
    listener and the clients, one more than are counted, never more than
    MAX_TOTAL_CONNECTIONS.  If the loop gives up, everything has been closed. *)
Theorem retransmit_server_serves {W} `{SocketLaws W} {LI : Listener W} {LL : ListenerLaws W} (h : endian) (fresh : list Z)
    (msg : Z → list Z) (caches : list (nat → Z → answer)) (s : t) (w : W) :
  is_buffer fresh → (∀ p, (length (msg p) ≤ 42)%nat) → Forall (serves_all msg) caches → reports_once (W := W) → started s w →
  settles (λ fuel, turns h fresh fuel caches s w) (λ '(result, s', w'), turned h msg s result s' w').
Proof. intros Hf Hm Hc Ho Hs. apply turns_spec; try done. by apply started_serving. Qed.

(** C18: Once a stop is requested [run_event_loop] returns, with success or, if it had
    given up before, with the fatal error: every client has been notified or
    closed, listener and event queue are closed, nothing is watched any more.  This holds of
    a started server and any turns before the stop in which no batch of [kevent] names a descriptor twice
    and the reads of the cache find the packets of their numbers or an error.  (A batch may name one twice, as
    its read and its write filter are events of their own: if the first of the two closes the client, the
    second fails the assertion on its socket, [retransmit_second_event_undefined].) *)
Theorem retransmit_server_stops {W} `{SocketLaws W} {LI : Listener W} {LL : ListenerLaws W} (h : endian) (fresh : list Z)
    (msg : Z → list Z) (caches : list (nat → Z → answer)) (s : t) (w : W) :
  is_buffer fresh → (∀ p, (length (msg p) ≤ 42)%nat) → Forall (serves_all msg) caches → reports_once (W := W) → started s w →
  settles (λ fuel, run_event_loop h fresh fuel caches s w) (λ '(result, s', w'), shut_down s' w' ∧
    match result with Value _ => True | Unexpected e => fatal_error e end).
Proof.
  intros Hf Hm Hc Ho Hs. unfold run_event_loop.
  eapply settles_bind; [apply (turns_spec h msg); [done..|by apply started_serving]|].
  intros [[[r|] s'] w'] Hturned.
  - apply settles_ok. by destruct Hturned as (e & -> & He & Hdown).
  - destruct Hturned as [Hs' _]. destruct (close_server_spec h msg fresh Hf Hm s' w' Hs') as (s2 & w2 & -> & Hdown).
    by apply (settles_ok (Value tt, s2, w2)).
Qed.

(** Two clients: the first one's request arrives in two parts and its answer goes
    out in three, the second one is reported with an error. *)
Definition session_server : t := {|
  socket_fd_ := 3; event_queue_ := 9; current_connections_ := 1; connection_buffers := connection_buffers (init (replicate 42 0)) |}.
Definition session_world : Playback.t :=
  {| Playback.log := ∅; Playback.input := ∅; Playback.output := ∅; Playback.limits := [16; 0; 16; 28; 5]%nat;
     Playback.queue := {[3]}; Playback.pending := [];
     Playback.script :=
       [Value {| Playback.calls_in := [take 9 (RetransmitRequest.serialize LittleEndian test_request); []];
                 Playback.sends := []; Playback.reports := {[3 := false]} |};
        Value {| Playback.calls_in := []; Playback.sends := []; Playback.reports := {[4 := false; 5 := true]} |};
        Unexpected EINTR;
        Value {| Playback.calls_in := []; Playback.sends := [(4, drop 9 (RetransmitRequest.serialize LittleEndian test_request))];
                 Playback.reports := {[4 := false]} |};
        Value {| Playback.calls_in := []; Playback.sends := []; Playback.reports := {[4 := false]} |}] |}.
Definition session_caches : list (nat → Z → answer) := replicate 5 (λ _, test_cache).

Lemma session_serves : Forall (serves_all test_msg) session_caches.
Proof. apply Forall_replicate. intros i. apply test_serves. Qed.

Lemma playback_reports_once : reports_once (W := Playback.t).
Proof.
  intros q w events w'. simpl. unfold Playback.wait. destruct (Playback.script w) as [|[happening|e] script']; intros [= <- <-].
  - constructor.
  - apply Playback.reported_once.
Qed.

Lemma session_started : started session_server session_world.
Proof. split_and!; try done. apply Forall_replicate. by apply default_closed. Qed.

Example session_output :
  (λ '(r, s, w), (r, current_connections_ s, outgoing w 4)) <$>
    turns LittleEndian (replicate 42 0) 10 session_caches session_server session_world =
  Ok (None, 2, packets test_msg 3 6 0).
Proof. vm_compute. reflexivity. Qed.

Lemma retransmit_server_serves_witness :
  ∃ fuel s' w', turns LittleEndian (replicate 42 0) fuel session_caches session_server session_world = Ok (None, s', w') ∧
    serving LittleEndian test_msg s' w'.
Proof.
  destruct (retransmit_server_serves (W := Playback.t) LittleEndian (replicate 42 0) test_msg session_caches session_server session_world)
    as (F & [[result s'] w'] & Hturned & Hrun).
  - reflexivity.
  - exact test_msg_length.
  - exact session_serves.
  - exact playback_reports_once.
  - exact session_started.
  - exists (10 + F)%nat, s', w'. assert (F ≤ 10 + F)%nat as Hle by lia. pose proof (Hrun _ Hle) as Hr.
    destruct result as [r|]; [vm_compute in Hr; discriminate Hr|]. split; [exact Hr|apply Hturned].
Defined.

Lemma retransmit_server_stops_witness :
  ∃ fuel s' w', run_event_loop LittleEndian (replicate 42 0) fuel session_caches session_server session_world =
      Ok (Value tt, s', w') ∧ shut_down s' w'.
Proof.
  destruct (retransmit_server_stops (W := Playback.t) LittleEndian (replicate 42 0) test_msg session_caches session_server session_world)
    as (F & [[result s'] w'] & (Hdown & Hresult) & Hrun).
  - reflexivity.
  - exact test_msg_length.
  - exact session_serves.
  - exact playback_reports_once.
  - exact session_started.
  - exists (10 + F)%nat, s', w'. assert (F ≤ 10 + F)%nat as Hle by lia. pose proof (Hrun _ Hle) as Hr.
    destruct result as [[]|e]; [|vm_compute in Hr; discriminate Hr]. split; [exact Hr|exact Hdown].
Defined.
End ServerLoop.
