(* ===== verification/Handler.v ===== *)
(** * The market data handler ([market-data-handler/])

    GapDetector, [write_market_data_to_reorder_buffer], the loop bodies of
    MarketDataHandler ([run]), RealTimeListener ([run]) and MarketEventPublisher
    ([run]), and RetransmitListener ([tcp-client]) over the [Socket] interface. *)

From S2P Require Import Prelude Types Bytes Codec Ring RingBuffers ReorderBuffer Network.

Module HandlerError.
Inductive t : Type :=
  | StartUDPListener | InvalidMulticastGroup | UDPListen | HandlerTooSlow
  | StartRetransmitClient | InvalidRetransmitServer | ConnectToRetransmitServer | RetransmitServer
  | RetransmitClientSend | RetransmitClientReceive
  | ReaderTooFarBehind | WriterTooFarBehind | RetransmitRequestBufferFull.
#[global] Instance eq_dec : EqDecision t.
Proof. solve_decision. Defined.
End HandlerError.

Module GapDetector.
(** [most_recent_packet_id] *)
Definition init : Z := u64 (Config.FIRST_SEQUENCE_ID - 1).

Definition has_gap (new_packet_header : MessageHeader.t) (most_recent_packet_id : Z) : option RetransmitRequest.t * Z :=
  let new_sequence_id := MessageHeader.sequence_number new_packet_header in
  if u64 (most_recent_packet_id + 1) <? new_sequence_id then
    (Some {| RetransmitRequest.first_packet := u64 (most_recent_packet_id + 1);
             RetransmitRequest.last_packet := new_sequence_id |}, new_sequence_id)
  else if new_sequence_id =? u64 (most_recent_packet_id + 1) then (None, u64 (most_recent_packet_id + 1))
  else (None, most_recent_packet_id).
End GapDetector.

Section WriteMarketData.
Context (REORDER_BUFFER_SIZE : Z).

(** [event.subspan<0, BUFFER_SIZE>()] of a shorter span is undefined. *)
Definition write_market_data_to_reorder_buffer (reorder_buffer : ReorderBuffer.t (list Z)) (event : list Z)
    (packet_id : Z) : outcome (expected unit HandlerError.t * ReorderBuffer.t (list Z)) :=
  data ← EncodedMessage.subspan 0 BinaryProtocol.BUFFER_SIZE event;
  '(result, reorder_buffer) ← ReorderBuffer.try_write_span REORDER_BUFFER_SIZE BinaryProtocol.BUFFER_SIZE data packet_id reorder_buffer;
  Ok (match result with
      | ReorderBuffer.LikelySlowReader => Unexpected HandlerError.ReaderTooFarBehind
      | ReorderBuffer.LikelySlowWriter => Unexpected HandlerError.WriterTooFarBehind
      | _ => Value tt
      end, reorder_buffer).
End WriteMarketData.

Module MarketDataHandler.

Record t : Type := {
  udp_packet_buffer_ : LazyRingBuffer.t EncodedMessage.t;
  gap_detector_ : Z;
  retransmit_request_buffer_ : SharedRingBuffer.t RetransmitRequest.t;
  reorder_buffer_ : ReorderBuffer.t (list Z);
}.

(** The program's capacities are [Config.UDP_PACKET_BUFFER_SIZE],
    [Config.RETRANSMIT_BUFFER_SIZE] and [Config.REORDER_BUFFER_SIZE]. *)
Section Run.
Context (h : endian) (UDP_PACKET_BUFFER_SIZE RETRANSMIT_BUFFER_SIZE REORDER_BUFFER_SIZE : Z).

(** [m]: what the slots of the packet buffer hold before. *)
Definition init (m : EncodedMessage.t) : t := {|
  udp_packet_buffer_ := LazyRingBuffer.init UDP_PACKET_BUFFER_SIZE m;
  gap_detector_ := GapDetector.init;
  retransmit_request_buffer_ := SharedRingBuffer.init RETRANSMIT_BUFFER_SIZE;
  reorder_buffer_ := ReorderBuffer.init REORDER_BUFFER_SIZE Config.FIRST_SEQUENCE_ID;
|}.

(** The handling of one packet between [wait_get_tail_ref] and [consume]; an
    error stops the handler, with the packet's slot released or not. *)
Definition handle_packet (new_packet : EncodedMessage.t) (s : t) : outcome (expected unit HandlerError.t * t) :=
  let new_packet := EncodedMessage.decode_header_from_buffer h new_packet in
  let '(request, detector) := GapDetector.has_gap (EncodedMessage.header new_packet) (gap_detector_ s) in
  '(queued, requests) ←
    match request with
    | None => Ok (true, retransmit_request_buffer_ s)
    | Some r => SharedRingBuffer.try_push_internal RETRANSMIT_BUFFER_SIZE r (retransmit_request_buffer_ s)
    end;
  if negb queued then
    Ok (Unexpected HandlerError.RetransmitRequestBufferFull,
        {| udp_packet_buffer_ := udp_packet_buffer_ s; gap_detector_ := detector;
           retransmit_request_buffer_ := requests; reorder_buffer_ := reorder_buffer_ s |})
  else
  payload ← EncodedMessage.get_payload_ref new_packet;
  '(result, reorder) ← write_market_data_to_reorder_buffer REORDER_BUFFER_SIZE (reorder_buffer_ s) payload
    (MessageHeader.sequence_number (EncodedMessage.header new_packet));
  Ok (result, {| udp_packet_buffer_ := LazyRingBuffer.consume (udp_packet_buffer_ s); gap_detector_ := detector;
                 retransmit_request_buffer_ := requests; reorder_buffer_ := reorder |}).

(** [None]: [wait_get_tail_ref] keeps spinning on the empty buffer. *)
Definition run_step (s : t) : outcome (option (expected unit HandlerError.t) * t) :=
  match LazyRingBuffer.try_get_tail_ref UDP_PACKET_BUFFER_SIZE (udp_packet_buffer_ s) with
  | None => Ok (None, s)
  | Some slot =>
      new_packet ← LazyRingBuffer.read slot (udp_packet_buffer_ s);
      '(result, s) ← handle_packet new_packet s;
      Ok (Some result, s)
  end.

(** One round of [RealTimeListener::run]: [datagram] is what [recv] returned, cut
    to the buffer's size ([None]: an error), [stop] whether a stop was requested
    meanwhile. *)
Definition listen_step (datagram : option (list Z)) (stop : bool) (buffer : LazyRingBuffer.t EncodedMessage.t) :
    outcome (expected unit HandlerError.t * LazyRingBuffer.t EncodedMessage.t) :=
  match LazyRingBuffer.try_get_head_ref UDP_PACKET_BUFFER_SIZE buffer with
  | None => Ok (Unexpected HandlerError.HandlerTooSlow, buffer)
  | Some slot =>
      match datagram with
      | None => Ok (Unexpected HandlerError.UDPListen, buffer)
      | Some bytes =>
          new_message ← LazyRingBuffer.read slot buffer;
          buffer ← LazyRingBuffer.write slot
            {| EncodedMessage.header := EncodedMessage.header new_message;
               EncodedMessage.buffer :=
                 EncodedMessage.overwrite 0 (take (Z.to_nat EncodedMessage.MAX_WIRE_SIZE) bytes)
                   (EncodedMessage.buffer new_message) |} buffer;
          Ok (Value tt, if stop then buffer else LazyRingBuffer.publish buffer)
      end
  end.
End Run.
End MarketDataHandler.

Module MarketEventPublisher.
Section Run.
Context (h : endian) (MARKET_EVENT_BUFFER_SIZE REORDER_BUFFER_SIZE : Z).

(** One poll of the wait that [run] is in: [wait_consume_next] while no packet is
    [in_hand], [wait_get_head_ref] and the rest of the round while one is.  A
    failed poll changes nothing. *)
Definition run_step (in_hand : option (list Z)) (reorder_buffer : ReorderBuffer.t (list Z))
    (order_buffer : LazyRingBuffer.t RawEvent.t) :
    outcome (option (list Z) * ReorderBuffer.t (list Z) * LazyRingBuffer.t RawEvent.t) :=
  match in_hand with
  | None =>
      '(result, reorder_buffer) ← ReorderBuffer.try_consume_next REORDER_BUFFER_SIZE reorder_buffer;
      Ok (result, reorder_buffer, order_buffer)
  | Some result =>
      match LazyRingBuffer.try_get_head_ref MARKET_EVENT_BUFFER_SIZE order_buffer with
      | None => Ok (Some result, reorder_buffer, order_buffer)
      | Some slot =>
          event ← BinaryProtocol.decode h result;
          order_buffer ← LazyRingBuffer.write slot event order_buffer;
          Ok (None, reorder_buffer, LazyRingBuffer.publish order_buffer)
      end
  end.
End Run.
End MarketEventPublisher.

Module RetransmitListener.
Section Client.
Context {W : Type} {SK : Socket W}.
(** [fresh]: what an uninitialised [EncodedMessage] holds. *)
Context (h : endian) (fresh : EncodedMessage.t) (REORDER_BUFFER_SIZE : Z) (socket_fd_ : Z).

Definition send_request_to_server (request : RetransmitRequest.t) (w : W) :
    outcome (expected unit HandlerError.t * W) :=
  let serialized_request := RetransmitRequest.serialize h request in
  '(sent, _, w) ← send_range socket_fd_ serialized_request 0 (Z.of_nat (length serialized_request)) w;
  Ok (match sent with Value _ => Value tt | Unexpected _ => Unexpected HandlerError.RetransmitClientSend end, w).

Definition receive_and_decode_header (new_message : EncodedMessage.t) (w : W) :
    outcome (expected unit HandlerError.t * EncodedMessage.t * W) :=
  '(recv_status, buffer, _, w) ← recv_range socket_fd_ (EncodedMessage.buffer new_message) 0
    MessageHeader.PACKED_WIRE_SIZE w;
  let new_message := {| EncodedMessage.header := EncodedMessage.header new_message; EncodedMessage.buffer := buffer |} in
  match recv_status with
  | ReceiveError _ => Ok (Unexpected HandlerError.RetransmitClientReceive, new_message, w)
  | ConnectionClosed => Ok (Unexpected HandlerError.RetransmitServer, new_message, w)
  | Success =>
      let new_message := EncodedMessage.decode_header_from_buffer h new_message in
      if MessageHeader.sequence_number (EncodedMessage.header new_message) =? 0
      then Ok (Unexpected HandlerError.RetransmitServer, new_message, w) else Ok (Value tt, new_message, w)
  end.

(** [recv_range] writes through the payload's span. *)
Definition receive_payload (new_message : EncodedMessage.t) (w : W) :
    outcome (expected unit HandlerError.t * EncodedMessage.t * W) :=
  let length := MessageHeader.payload_length (EncodedMessage.header new_message) in
  _ ← assert_ (0 <? length);
  _ ← assert_ (length <=? Config.MAX_MESSAGE_BYTES);
  span ← EncodedMessage.get_payload_ref new_message;
  '(status, span, _, w) ← recv_range socket_fd_ span 0 length w;
  let new_message := {| EncodedMessage.header := EncodedMessage.header new_message;
    EncodedMessage.buffer := EncodedMessage.overwrite (Z.to_nat MessageHeader.PACKED_WIRE_SIZE) span
      (EncodedMessage.buffer new_message) |} in
  Ok (match status with
      | ConnectionClosed => Unexpected HandlerError.RetransmitServer
      | ReceiveError _ => Unexpected HandlerError.RetransmitClientReceive
      | Success => Value tt
      end, new_message, w).

(** One round of the loop of [handle_request]. *)
Definition receive_packet (first_packet : Z) (reorder_buffer : ReorderBuffer.t (list Z)) (w : W) :
    outcome (expected unit HandlerError.t * ReorderBuffer.t (list Z) * W) :=
  '(result, new_message, w) ← receive_and_decode_header fresh w;
  match result with
  | Unexpected e => Ok (Unexpected e, reorder_buffer, w)
  | Value _ =>
      '(result, new_message, w) ← receive_payload new_message w;
      match result with
      | Unexpected e => Ok (Unexpected e, reorder_buffer, w)
      | Value _ =>
          payload ← EncodedMessage.get_payload_ref new_message;
          _ ← assert_ (Z.of_nat (length payload) =? BinaryProtocol.BUFFER_SIZE);
          _ ← assert_ (MessageHeader.sequence_number (EncodedMessage.header new_message) =? first_packet);
          '(result, reorder_buffer) ← write_market_data_to_reorder_buffer REORDER_BUFFER_SIZE reorder_buffer payload
            (MessageHeader.sequence_number (EncodedMessage.header new_message));
          Ok (result, reorder_buffer, w)
      end
  end.

(** [stops]: what the stop token answers in each round. *)
Fixpoint receive_packets (fuel : nat) (request : RetransmitRequest.t) (stops : list bool)
    (reorder_buffer : ReorderBuffer.t (list Z)) (w : W) :
    outcome (expected unit HandlerError.t * RetransmitRequest.t * ReorderBuffer.t (list Z) * W) :=
  if (RetransmitRequest.first_packet request <? RetransmitRequest.last_packet request) &&
     negb (default false (head stops)) then
    match fuel with
    | O => OutOfFuel
    | S fuel =>
        '(result, reorder_buffer, w) ← receive_packet (RetransmitRequest.first_packet request) reorder_buffer w;
        match result with
        | Unexpected e => Ok (Unexpected e, request, reorder_buffer, w)
        | Value _ =>
            receive_packets fuel {| RetransmitRequest.first_packet := u64 (RetransmitRequest.first_packet request + 1);
                                    RetransmitRequest.last_packet := RetransmitRequest.last_packet request |}
              (tail stops) reorder_buffer w
        end
    end
  else Ok (Value tt, request, reorder_buffer, w).

Definition handle_request (request : RetransmitRequest.t) (stops : list bool)
    (reorder_buffer : ReorderBuffer.t (list Z)) (w : W) :
    outcome (expected unit HandlerError.t * RetransmitRequest.t * ReorderBuffer.t (list Z) * W) :=
  '(result, w) ← send_request_to_server request w;
  match result with
  | Unexpected e => Ok (Unexpected e, request, reorder_buffer, w)
  | Value _ =>
      receive_packets (Z.to_nat (RetransmitRequest.last_packet request - RetransmitRequest.first_packet request))
        request stops reorder_buffer w
  end.
End Client.
End RetransmitListener.
