(* ===== verification/Sockets.v ===== *)
(** * Setting up and closing the sockets

    The one-call wrappers of [utils/network-utils], and what opens, configures
    and closes the descriptors of Broadcaster ([exchange/broadcaster]),
    RetransmitServer ([exchange/tcp-retransmit]), RealTimeListener
    ([market-data-handler/udp-listener]) and RetransmitListener ([tcp-client]).

    The operating system is a parameter: a class of system calls whose history
    can be observed, with the one law the proofs need, that a new descriptor is
    not one that is still open. *)

From Stdlib Require Import String.
From stdpp Require Import strings.
From S2P Require Import Prelude Types Bytes Network Handler RetransmitServer.

Definition INVALID : Z := -1.

(** The members of [struct sockaddr_in] that the program sets, the port in network order. *)
Record sockaddr_in : Type := { sin_port : Z; s_addr : Z }.
#[global] Instance sockaddr_in_eq_dec : EqDecision sockaddr_in.
Proof. solve_decision. Defined.
Definition INADDR_ANY : Z := 0.

Inductive socket_type : Type := SOCK_DGRAM | SOCK_STREAM.
#[global] Instance socket_type_eq_dec : EqDecision socket_type.
Proof. solve_decision. Defined.

(** The options of [setsockopt], with the value passed. *)
Inductive socket_option : Type :=
  | IP_MULTICAST_TTL (TTL : Z) | IP_MULTICAST_LOOP (LOOP : Z) | IP_MULTICAST_IF (interface : Z)
  | IP_ADD_MEMBERSHIP (imr_multiaddr imr_interface : Z)
  | SO_REUSEADDR (MULTI_BIND : Z) | SO_RCVBUF (new_size_in_bytes : Z) | SO_NOSIGPIPE (NO_SIGPIPE : Z).
#[global] Instance socket_option_eq_dec : EqDecision socket_option.
Proof. solve_decision. Defined.

Inductive event_filter : Type := EVFILT_READ | EVFILT_WRITE.
#[global] Instance event_filter_eq_dec : EqDecision event_filter.
Proof. solve_decision. Defined.
Inductive event_flag : Type := EV_ADD | EV_ENABLE | EV_ONESHOT | EV_DELETE.
#[global] Instance event_flag_eq_dec : EqDecision event_flag.
Proof. solve_decision. Defined.

Inductive syscall : Type :=
  | SysSocket (type : socket_type)
  | SysGetFlags (fd : Z) | SysSetFlags (fd flags : Z)
  | SysSetOption (fd : Z) (option : socket_option)
  | SysBind (fd : Z) (address : sockaddr_in) | SysConnect (fd : Z) (address : sockaddr_in)
  | SysListen (fd backlog : Z)
  | SysKqueue | SysKevent (kq fd : Z) (filter : event_filter) (flags : list event_flag)
  | SysClose (fd : Z).
#[global] Instance syscall_eq_dec : EqDecision syscall.
Proof. solve_decision. Defined.

(** A call and what it returned. *)
Abbreviation record := (syscall * Z)%type.

Definition opens (call : syscall) : bool := match call with SysSocket _ | SysKqueue => true | _ => false end.

(** The descriptors open after a history: [close] releases its descriptor. *)
Definition descriptors_step (fds : gset Z) (r : record) : gset Z :=
  match r with
  | ((SysSocket _ | SysKqueue), fd) => if fd =? INVALID then fds else {[fd]} ∪ fds
  | (SysClose fd, _) => fds ∖ {[fd]}
  | _ => fds
  end.
Definition descriptors (history : list record) : gset Z := foldl descriptors_step ∅ history.

Class Kernel (W : Type) : Type := {
  sys : syscall → W → Z * W;
  history : W → list record;
}.
Definition open_fds {W} `{Kernel W} (w : W) : gset Z := descriptors (history w).

Class KernelLaws (W : Type) {K : Kernel W} : Prop := {
  sys_recorded call w r w' : sys call w = (r, w') → history w' = history w ++ [(call, r)];
  sys_fresh call w r w' : sys call w = (r, w') → opens call = true → r ≠ INVALID → 0 ≤ r ∧ r ∉ open_fds w;
}.

(** What the C library and its headers say: [inet_pton]'s status and address,
    the value of [O_NONBLOCK], whether [SO_NOSIGPIPE] is defined, the byte order. *)
Record platform : Type := {
  inet_pton : string → Z * Z;
  O_NONBLOCK : Z;
  has_SO_NOSIGPIPE : bool;
  byte_order : endian;
}.

Module SocketConfig.
(** exchange::config *)
Definition MCAST_GROUP : string := "239.255.0.1".
Definition MCAST_INTERFACE : string := "0.0.0.0".
Definition MCAST_PORT : Z := 50000.
Definition RETRANSMIT_PORT : Z := 40000.
Definition MAX_PENDING_CONNECTIONS : Z := 10.
(** handler::config *)
Definition LISTENER_SOCKET_BUFFER_SIZE : Z := 8 * 1024 * 1024.
Definition SERVER_IP : string := "127.0.0.1".
End SocketConfig.

Definition htons (P : platform) (port : Z) : Z := host_to_network (byte_order P) 2 (u16 port).

(** ** [network-utils] *)
Module network.
Section Calls.
Context {W : Type} {K : Kernel W} (P : platform).

(** [sys(...) != INVALID] *)
Definition valid (call : syscall) (w : W) : bool * W :=
  let '(r, w) := sys call w in (negb (r =? INVALID), w).

(** [a && b], short-circuiting. *)
Definition both (a b : W → bool * W) (w : W) : bool * W :=
  let '(ok, w) := a w in if ok then b w else (false, w).

Definition set_socket_nonblocking (socket_fd : Z) (w : W) : bool * W :=
  let '(flags, w) := sys (SysGetFlags socket_fd) w in
  if flags =? INVALID then (false, w)
  else valid (SysSetFlags socket_fd (Z.lor flags (O_NONBLOCK P))) w.

Definition register_read_event (kq socket_fd : Z) : W → bool * W :=
  valid (SysKevent kq socket_fd EVFILT_READ [EV_ADD; EV_ENABLE]).
Definition register_oneshot_write_event (kq socket_fd : Z) : W → bool * W :=
  valid (SysKevent kq socket_fd EVFILT_WRITE [EV_ADD; EV_ENABLE; EV_ONESHOT]).
Definition unregister_read_event (kq socket_fd : Z) : W → bool * W :=
  valid (SysKevent kq socket_fd EVFILT_READ [EV_DELETE]).

Definition limit_multicast_to_local_subnet (socket_fd : Z) : W → bool * W :=
  valid (SysSetOption socket_fd (IP_MULTICAST_TTL 1)).
Definition enable_multicast_loopback (socket_fd : Z) : W → bool * W :=
  valid (SysSetOption socket_fd (IP_MULTICAST_LOOP 1)).
Definition set_multicast_interface (socket_fd interface : Z) : W → bool * W :=
  valid (SysSetOption socket_fd (IP_MULTICAST_IF interface)).
Definition enable_udp_port_sharing (socket_fd : Z) : W → bool * W :=
  valid (SysSetOption socket_fd (SO_REUSEADDR 1)).
Definition resize_recv_buffer (socket_fd new_size_in_bytes : Z) : W → bool * W :=
  valid (SysSetOption socket_fd (SO_RCVBUF new_size_in_bytes)).
Definition suppress_sigpipe (socket_fd : Z) (w : W) : bool * W :=
  if has_SO_NOSIGPIPE P then valid (SysSetOption socket_fd (SO_NOSIGPIPE 1)) w else (true, w).

Inductive JoinStatus : Type := JoinSuccess | InvalidIPAddress | ProcedureError.

Definition join_multicast_group (socket_fd : Z) (mcast_group : string) (w : W) : JoinStatus * W :=
  let '(status, imr_multiaddr) := inet_pton P mcast_group in
  if status =? 0 then (InvalidIPAddress, w) else
  if status =? -1 then (ProcedureError, w) else
  let '(r, w) := sys (SysSetOption socket_fd (IP_ADD_MEMBERSHIP imr_multiaddr INADDR_ANY)) w in
  (if r =? INVALID then ProcedureError else JoinSuccess, w).
End Calls.
End network.

(** ** Broadcaster *)
Module BroadcasterSocket.
Record t : Type := { socket_fd_ : Z; destination_ : sockaddr_in }.
Definition init : t := {| socket_fd_ := INVALID; destination_ := {| sin_port := 0; s_addr := 0 |} |}.

Section Operations.
Context {W : Type} {K : Kernel W} (P : platform).

Definition start (s : t) (w : W) : expected unit ExchangeError.t * t * W :=
  let '(fd, w) := sys (SysSocket SOCK_DGRAM) w in
  let s := {| socket_fd_ := fd; destination_ := destination_ s |} in
  if fd =? INVALID then (Unexpected ExchangeError.StartBroadcast, s, w) else
  let '(configured, w) := network.both (network.set_socket_nonblocking P fd)
    (network.both (network.suppress_sigpipe P fd)
    (network.both (network.limit_multicast_to_local_subnet fd) (network.enable_multicast_loopback fd))) w in
  if negb configured then (Unexpected ExchangeError.StartBroadcast, s, w) else
  let '(status, address) := inet_pton P SocketConfig.MCAST_GROUP in
  let s := {| socket_fd_ := fd; destination_ := {| sin_port := htons P SocketConfig.MCAST_PORT;
    s_addr := if status =? 1 then address else s_addr (destination_ s) |} |} in
  if status =? 0 then (Unexpected ExchangeError.InvalidBroadcastIP, s, w) else
  if status =? INVALID then (Unexpected ExchangeError.StartBroadcast, s, w) else
  let '(status, multicast_interface) := inet_pton P SocketConfig.MCAST_INTERFACE in
  if negb (status =? 1) then (Unexpected ExchangeError.StartBroadcast, s, w) else
  let '(selected, w) := network.set_multicast_interface fd multicast_interface w in
  if negb selected then (Unexpected ExchangeError.StartBroadcast, s, w) else (Value tt, s, w).

(** [~Broadcaster] *)
Definition destroy (s : t) (w : W) : t * W :=
  if 0 <=? socket_fd_ s then
    ({| socket_fd_ := INVALID; destination_ := destination_ s |}, (sys (SysClose (socket_fd_ s)) w).2)
  else (s, w).
End Operations.
End BroadcasterSocket.

(** ** RealTimeListener *)
Module RealTimeListenerSocket.
Record t : Type := { socket_fd_ : Z; local : sockaddr_in }.
Definition init : t := {| socket_fd_ := INVALID; local := {| sin_port := 0; s_addr := 0 |} |}.

Section Operations.
Context {W : Type} {K : Kernel W} (P : platform).

Definition initialize (s : t) (w : W) : expected unit HandlerError.t * t * W :=
  let '(fd, w) := sys (SysSocket SOCK_DGRAM) w in
  let s := {| socket_fd_ := fd; local := local s |} in
  if fd =? INVALID then (Unexpected HandlerError.StartUDPListener, s, w) else
  let '(configured, w) := network.both (network.enable_udp_port_sharing fd)
    (network.resize_recv_buffer fd SocketConfig.LISTENER_SOCKET_BUFFER_SIZE) w in
  if negb configured then (Unexpected HandlerError.StartUDPListener, s, w) else
  let s := {| socket_fd_ := fd;
              local := {| sin_port := htons P SocketConfig.MCAST_PORT; s_addr := INADDR_ANY |} |} in
  let '(bound, w) := sys (SysBind fd (local s)) w in
  if bound =? -1 then (Unexpected HandlerError.StartUDPListener, s, w) else
  let '(status, w) := network.join_multicast_group P fd SocketConfig.MCAST_GROUP w in
  match status with
  | network.InvalidIPAddress => (Unexpected HandlerError.InvalidMulticastGroup, s, w)
  | network.ProcedureError => (Unexpected HandlerError.StartUDPListener, s, w)
  | network.JoinSuccess => (Value tt, s, w)
  end.

(** [start] as far as [run]. *)
Definition ensure_initialized (s : t) (w : W) : expected unit HandlerError.t * t * W :=
  if socket_fd_ s =? INVALID then initialize s w else (Value tt, s, w).

(** [~RealTimeListener] *)
Definition destroy (s : t) (w : W) : W :=
  if negb (socket_fd_ s =? INVALID) then (sys (SysClose (socket_fd_ s)) w).2 else w.
End Operations.
End RealTimeListenerSocket.

(** ** RetransmitListener, whose state is its socket *)
Module RetransmitListenerSocket.
Definition init : Z := INVALID.

Section Operations.
Context {W : Type} {K : Kernel W} (P : platform).

Definition connect_to_server (socket_fd_ : Z) (w : W) : outcome (expected unit HandlerError.t * W) :=
  _ ← assert_ (0 <=? socket_fd_);
  let '(status, address) := inet_pton P SocketConfig.SERVER_IP in
  let server_info := {| sin_port := htons P SocketConfig.RETRANSMIT_PORT; s_addr := address |} in
  if status =? 0 then Ok (Unexpected HandlerError.InvalidRetransmitServer, w) else
  if status =? INVALID then Ok (Unexpected HandlerError.StartRetransmitClient, w) else
  let '(connected, w) := sys (SysConnect socket_fd_ server_info) w in
  if connected =? INVALID then Ok (Unexpected HandlerError.ConnectToRetransmitServer, w) else Ok (Value tt, w).

Definition initialize_and_connect (w : W) : outcome (expected unit HandlerError.t * Z * W) :=
  let '(fd, w) := sys (SysSocket SOCK_STREAM) w in
  if fd =? -1 then Ok (Unexpected HandlerError.StartRetransmitClient, fd, w) else
  '(result, w) ← connect_to_server fd w;
  Ok (result, fd, w).

(** [start] as far as [run]. *)
Definition ensure_connected (socket_fd_ : Z) (w : W) : outcome (expected unit HandlerError.t * Z * W) :=
  if socket_fd_ =? INVALID then initialize_and_connect w else Ok (Value tt, socket_fd_, w).

(** [~RetransmitListener] *)
Definition destroy (socket_fd_ : Z) (w : W) : W :=
  if 0 <=? socket_fd_ then (sys (SysClose socket_fd_) w).2 else w.
End Operations.
End RetransmitListenerSocket.

(** ** RetransmitServer, which has no destructor *)
Module RetransmitServerSocket.
Section Operations.
Context {W : Type} {K : Kernel W} (P : platform).
Implicit Types (s : RetransmitServer.t) (w : W).

Definition close (fd : Z) w : W := (sys (SysClose fd) w).2.

Definition get_listener w : expected Z ExchangeError.t * W :=
  let server_address := {| sin_port := htons P SocketConfig.RETRANSMIT_PORT; s_addr := INADDR_ANY |} in
  let '(new_socket, w) := sys (SysSocket SOCK_STREAM) w in
  if new_socket =? INVALID then (Unexpected ExchangeError.StartRetransmitServer, w) else
  let '(nonblocking, w) := network.set_socket_nonblocking P new_socket w in
  if negb nonblocking then (Unexpected ExchangeError.SetSocketNonblocking, close new_socket w) else
  let '(bound, w) := sys (SysBind new_socket server_address) w in
  if bound =? INVALID then (Unexpected ExchangeError.StartRetransmitServer, close new_socket w)
  else (Value new_socket, w).

Definition set_listener (fd : Z) s : RetransmitServer.t :=
  {| RetransmitServer.socket_fd_ := fd; RetransmitServer.event_queue_ := RetransmitServer.event_queue_ s;
     RetransmitServer.current_connections_ := 1;
     RetransmitServer.connection_buffers := RetransmitServer.connection_buffers s |}.
Definition set_event_queue (kq : Z) s : RetransmitServer.t :=
  {| RetransmitServer.socket_fd_ := RetransmitServer.socket_fd_ s; RetransmitServer.event_queue_ := kq;
     RetransmitServer.current_connections_ := RetransmitServer.current_connections_ s;
     RetransmitServer.connection_buffers := RetransmitServer.connection_buffers s |}.

Definition initialize s w : expected unit ExchangeError.t * RetransmitServer.t * W :=
  let '(result, w) := get_listener w in
  match result with
  | Unexpected e => (Unexpected e, s, w)
  | Value fd =>
      let s := set_listener fd s in
      let '(kq, w) := sys SysKqueue w in
      let s := set_event_queue kq s in
      if kq =? INVALID then (Unexpected ExchangeError.EventQueue, s, w) else
      let '(registered, w) := network.register_read_event kq fd w in
      if negb registered then (Unexpected ExchangeError.RegisterEvent, s, w) else (Value tt, s, w)
  end.

(** [start] as far as [run_event_loop]. *)
Definition ensure_listening s w : expected unit ExchangeError.t * RetransmitServer.t * W :=
  let '(result, s, w) :=
    (if RetransmitServer.socket_fd_ s =? INVALID then initialize s w else (Value tt, s, w)) in
  match result with
  | Unexpected e => (Unexpected e, s, w)
  | Value _ =>
      let '(status, w) := sys (SysListen (RetransmitServer.socket_fd_ s) SocketConfig.MAX_PENDING_CONNECTIONS) w in
      if status =? INVALID then (Unexpected ExchangeError.StartRetransmitServer, s, w) else (Value tt, s, w)
  end.
End Operations.

(** [start]: the event loop runs over the wrappers, with the event queue that was
    set up; [accept] and the waiting [kevent] are the system's. *)
Section Start.
Context {W : Type} {K : Kernel W} {SK : Socket W} (P : platform) (fresh : list Z).
Context (accept : Z → W → expected Z errno * W) (wait : Z → W → expected (list event) errno * W).

Definition listener (event_queue_ : Z) : Listener W := {|
  sock_accept := accept;
  set_socket_nonblocking := network.set_socket_nonblocking P;
  register_read_event := network.register_read_event event_queue_;
  kevent := wait;
|}.

Definition start (fuel : nat) (caches : list (nat → Z → RetransmitServer.answer)) (s : RetransmitServer.t) (w : W) :
    outcome (expected unit ExchangeError.t * RetransmitServer.t * W) :=
  let '(result, s, w) := ensure_listening P s w in
  match result with
  | Unexpected e => Ok (Unexpected e, s, w)
  | Value _ => RetransmitServer.run_event_loop (LI := listener (RetransmitServer.event_queue_ s))
                 (byte_order P) fresh fuel caches s w
  end.
End Start.
End RetransmitServerSocket.
