(* ===== verification/SocketsProof.v ===== *)
(** * The descriptors are configured and released ([Sockets])

    Which system calls a set-up makes, which failures its errors stand for, and
    what happens to the descriptors it opened. *)

From Stdlib Require Import String.
From stdpp Require Import strings.
From S2P Require Import Prelude Types Bytes Network Handler RetransmitServer Sockets.

(** ** One call after the other *)

Section Runs.
Context {W : Type} {K : Kernel W}.
Implicit Types (w : W) (calls : list syscall) (new : list record).

(** From [w] to [w'] exactly [calls] were made, all successful. *)
Definition did w w' calls : Prop :=
  ∃ new, history w' = history w ++ new ∧ new.*1 = calls ∧ Forall (λ r, r.2 ≠ INVALID) new.
(** One of the calls from [w] to [w'] failed. *)
Definition broke w w' : Prop := ∃ new call, history w' = (history w ++ new) ∧ (call, INVALID) ∈ new.

Lemma did_nil w : did w w [].
Proof. exists []. by rewrite app_nil_r. Qed.

Lemma did_app w1 w2 w3 calls1 calls2 : did w1 w2 calls1 → did w2 w3 calls2 → did w1 w3 (calls1 ++ calls2).
Proof.
  intros (n1 & H1 & <- & F1) (n2 & H2 & <- & F2). exists (n1 ++ n2).
  rewrite H2, H1, app_assoc, fmap_app. split_and!; [done..|]. by apply Forall_app.
Qed.

Lemma did_broke w1 w2 w3 calls : did w1 w2 calls → broke w2 w3 → broke w1 w3.
Proof.
  intros (n1 & H1 & _) (n2 & call & H2 & Hin). exists (n1 ++ n2), call.
  rewrite H2, H1, app_assoc. split; [done|]. apply elem_of_app. by right.
Qed.

Lemma did_history w w' calls r : did w w' calls → r ∈ history w → r ∈ history w'.
Proof. intros (new & -> & _) Hr. apply elem_of_app. by left. Qed.

Lemma invalid_not_open w : INVALID ∉ open_fds w.
Proof.
  unfold open_fds, descriptors. induction (history w) as [|r l IH] using rev_ind; [set_solver|].
  rewrite foldl_app. simpl. destruct r as [[] fd]; simpl; try destruct (Z.eqb_spec fd INVALID); set_solver.
Qed.

Context {L : KernelLaws W}.

Lemma did_one call w r w' : sys call w = (r, w') → r ≠ INVALID → did w w' [call].
Proof. intros H%sys_recorded Hr. exists [(call, r)]. split_and!; [done..|]. by repeat constructor. Qed.

Lemma broke_one call w w' : sys call w = (INVALID, w') → broke w w'.
Proof. intros H%sys_recorded. exists [(call, INVALID)], call. split; [done|]. by constructor. Qed.

Lemma broke_then call w1 w2 : broke w1 w2 → broke w1 (sys call w2).2.
Proof.
  intros (new & c & H & Hin). destruct (sys call w2) as [r w3] eqn:Hs. apply sys_recorded in Hs. simpl.
  exists (new ++ [(call, r)]), c. rewrite Hs, H, app_assoc. split; [done|]. apply elem_of_app. by left.
Qed.

(** ** What is open *)

Lemma open_fds_step call w r w' : sys call w = (r, w') → open_fds w' = descriptors_step (open_fds w) (call, r).
Proof. intros H%sys_recorded. unfold open_fds, descriptors. by rewrite H, foldl_app. Qed.

Lemma open_fds_opened call w r w' : sys call w = (r, w') → opens call = true → r ≠ INVALID →
  0 ≤ r ∧ (r ∉ open_fds w) ∧ open_fds w' = ({[r]} ∪ open_fds w).
Proof.
  intros H Ho Hr. destruct (sys_fresh _ _ _ _ H Ho Hr). split_and!; [done..|].
  rewrite (open_fds_step _ _ _ _ H). by destruct call; try done; simpl; rewrite (proj2 (Z.eqb_neq _ _)).
Qed.

Lemma open_fds_not_opened call w w' : sys call w = (INVALID, w') → opens call = true → open_fds w' = open_fds w.
Proof. intros H Ho. rewrite (open_fds_step _ _ _ _ H). by destruct call. Qed.

Lemma open_fds_close fd w : open_fds (sys (SysClose fd) w).2 = open_fds w ∖ {[fd]}.
Proof. destruct (sys (SysClose fd) w) as [r w'] eqn:H. simpl. by rewrite (open_fds_step _ _ _ _ H). Qed.

Definition touches_no_fd (call : syscall) : bool :=
  match call with SysSocket _ | SysKqueue | SysClose _ => false | _ => true end.

Lemma open_fds_neutral call w r w' : sys call w = (r, w') → touches_no_fd call = true → open_fds w' = open_fds w.
Proof. intros H Ht. rewrite (open_fds_step _ _ _ _ H). by destruct call. Qed.

(** ** The wrappers

    [Steps f calls]: [f] answers [true] after exactly [calls] and [false] after a
    failure, and leaves the descriptors alone. *)
Class Steps (f : W → bool * W) (calls : list syscall) : Prop := steps w b w' :
  f w = (b, w') → (if b then did w w' calls else broke w w') ∧ open_fds w' = open_fds w.

Lemma valid_steps call : touches_no_fd call = true → Steps (network.valid call) [call].
Proof.
  intros Ht w b w'. unfold network.valid. destruct (sys call w) as [r w1] eqn:H. intros [= <- <-].
  split; [|by eapply open_fds_neutral]. destruct (Z.eqb_spec r INVALID) as [->|Hr]; simpl.
  - by eapply broke_one.
  - by eapply did_one.
Qed.

Context (P : platform).

#[export] Instance both_steps f g calls1 calls2 : Steps f calls1 → Steps g calls2 →
  Steps (network.both f g) (calls1 ++ calls2).
Proof.
  intros Hf Hg w b w'. unfold network.both. destruct (f w) as [[|] w1] eqn:H1.
  - destruct (Hf _ _ _ H1) as [Hd Ho]. intros H2. destruct (Hg _ _ _ H2) as [Hd' Ho']. split; [|congruence].
    destruct b; [by eapply did_app|by eapply did_broke].
  - intros [= <- <-]. by apply (Hf _ _ _ H1).
Qed.

#[export] Instance ttl_steps fd : Steps (network.limit_multicast_to_local_subnet fd) [SysSetOption fd (IP_MULTICAST_TTL 1)].
Proof. by apply valid_steps. Qed.
#[export] Instance loopback_steps fd : Steps (network.enable_multicast_loopback fd) [SysSetOption fd (IP_MULTICAST_LOOP 1)].
Proof. by apply valid_steps. Qed.
#[export] Instance interface_steps fd a : Steps (network.set_multicast_interface fd a) [SysSetOption fd (IP_MULTICAST_IF a)].
Proof. by apply valid_steps. Qed.
#[export] Instance sharing_steps fd : Steps (network.enable_udp_port_sharing fd) [SysSetOption fd (SO_REUSEADDR 1)].
Proof. by apply valid_steps. Qed.
#[export] Instance resize_steps fd n : Steps (network.resize_recv_buffer fd n) [SysSetOption fd (SO_RCVBUF n)].
Proof. by apply valid_steps. Qed.
#[export] Instance register_steps kq fd :
  Steps (network.register_read_event kq fd) [SysKevent kq fd EVFILT_READ [EV_ADD; EV_ENABLE]].
Proof. by apply valid_steps. Qed.

Definition sigpipe_calls fd : list syscall :=
  if has_SO_NOSIGPIPE P then [SysSetOption fd (SO_NOSIGPIPE 1)] else [].
#[export] Instance sigpipe_steps fd : Steps (network.suppress_sigpipe P fd) (sigpipe_calls fd).
Proof.
  intros w b w'. unfold network.suppress_sigpipe, sigpipe_calls. destruct (has_SO_NOSIGPIPE P).
  - by apply (valid_steps (SysSetOption fd (SO_NOSIGPIPE 1))).
  - intros [= <- <-]. split; [apply did_nil|done].
Qed.

(** The flags that were there are kept. *)
Definition nonblocking_calls fd flags : list syscall := [SysGetFlags fd; SysSetFlags fd (Z.lor flags (O_NONBLOCK P))].

Lemma set_socket_nonblocking_steps fd w b w' : network.set_socket_nonblocking P fd w = (b, w') →
  (if b then ∃ flags, did w w' (nonblocking_calls fd flags) ∧ (SysGetFlags fd, flags) ∈ history w' else broke w w') ∧
  open_fds w' = open_fds w.
Proof.
  unfold network.set_socket_nonblocking. destruct (sys (SysGetFlags fd) w) as [flags w1] eqn:H1.
  pose proof (open_fds_neutral _ _ _ _ H1 eq_refl) as Ho1. destruct (Z.eqb_spec flags INVALID) as [->|Hf].
  - intros [= <- <-]. split; [by eapply broke_one|done].
  - intros H2. destruct (valid_steps (SysSetFlags fd (Z.lor flags (O_NONBLOCK P))) eq_refl _ _ _ H2) as [Hd Ho2].
    pose proof (did_one _ _ _ _ H1 Hf) as Hd1. split; [|congruence]. destruct b; [|by eapply did_broke].
    exists flags. split; [exact (did_app _ _ _ _ _ Hd1 Hd)|]. eapply did_history; [exact Hd|].
    rewrite (sys_recorded _ _ _ _ H1). apply elem_of_app. right. by constructor.
Qed.

(** A join fails at the address or in the kernel. *)
Definition join_calls fd group : list syscall :=
  [SysSetOption fd (IP_ADD_MEMBERSHIP (inet_pton P group).2 INADDR_ANY)].
Lemma join_steps fd group w status w' : network.join_multicast_group P fd group w = (status, w') →
  match status with
  | network.JoinSuccess => did w w' (join_calls fd group)
  | network.InvalidIPAddress => (inet_pton P group).1 = 0
  | network.ProcedureError => (inet_pton P group).1 = INVALID ∨ broke w w'
  end ∧ open_fds w' = open_fds w.
Proof.
  unfold network.join_multicast_group, join_calls. destruct (inet_pton P group) as [st a]; simpl.
  destruct (Z.eqb_spec st 0) as [->|]; [by intros [= <- <-]|].
  destruct (Z.eqb_spec st (-1)) as [->|]; [intros [= <- <-]; by split; [left|]|].
  destruct (sys _ w) as [r w1] eqn:H. intros [= <- <-]. split; [|by eapply open_fds_neutral].
  destruct (Z.eqb_spec r INVALID) as [->|Hr]; [right; by eapply broke_one|by eapply did_one].
Qed.
End Runs.

(** ** A kernel that runs

    Calls fail as a script says (a missing entry: success); a new descriptor is
    above all that are open. *)
Module Scripted_kernel.
Record t : Type := { log : list record; failing : list bool }.

Definition fresh_fd (fds : gset Z) : Z := 1 + foldr Z.max 2 (elements fds).

Definition call (c : syscall) (w : t) : Z * t :=
  let r := if default false (head (failing w)) then INVALID
           else if opens c then fresh_fd (descriptors (log w)) else 0 in
  (r, {| log := log w ++ [(c, r)]; failing := tail (failing w) |}).

#[global] Instance kernel : Kernel t := { sys := call; history := log }.

Lemma max_elements (l : list Z) x : x ∈ l → x ≤ foldr Z.max 2 l.
Proof. induction 1; simpl; lia. Qed.
Lemma max_positive (l : list Z) : 2 ≤ foldr Z.max 2 l.
Proof. induction l; simpl; lia. Qed.

#[global] Instance kernel_laws : KernelLaws t.
Proof.
  split.
  - by intros c w r w' [= <- <-].
  - intros c w r w' [= <- <-] Ho Hr. rewrite Ho in *. destruct (default false _); [done|].
    unfold fresh_fd. split; [pose proof (max_positive (elements (descriptors (log w)))); lia|].
    intros Hin. apply elem_of_elements, max_elements in Hin. change (open_fds w) with (descriptors (log w)) in Hin. lia.
Qed.
End Scripted_kernel.

(** ** What each component does *)

Section Components.
Context {W : Type} {K : Kernel W} {L : KernelLaws W} (P : platform).
Implicit Types (w : W) (fd : Z).

(** [inet_pton] returns 1, 0 for text that is no address, or -1. *)
Definition documented : Prop := ∀ text, let status := (inet_pton P text).1 in status = 1 ∨ status = 0 ∨ status = INVALID.

(** [fd] is what a component holds after its set-up: nothing, or a new descriptor. *)
Definition acquired fd w w' : Prop :=
  (fd = INVALID ∧ open_fds w' = open_fds w) ∨ (0 ≤ fd ∧ (fd ∉ open_fds w) ∧ open_fds w' = ({[fd]} ∪ open_fds w)).

Lemma acquired_same fd w w1 w2 : acquired fd w w1 → open_fds w2 = open_fds w1 → acquired fd w w2.
Proof. unfold acquired. by intros H ->. Qed.

Lemma acquired_closed fd w w' : 0 ≤ fd → acquired fd w w' → open_fds (sys (SysClose fd) w').2 = open_fds w.
Proof.
  intros Hfd [[-> _]|(_ & Hn & Ho)]; [done|]. rewrite open_fds_close, Ho. set_solver.
Qed.

Lemma acquired_nothing w w' : acquired INVALID w w' → open_fds w' = open_fds w.
Proof. by intros [[_ ?]|(? & _)]. Qed.

Lemma acquired_socket type w fd w' : sys (SysSocket type) w = (fd, w') → acquired fd w w'.
Proof.
  intros H. destruct (decide (fd = INVALID)) as [->|Hfd]; [left|right].
  - split; [done|]. by eapply open_fds_not_opened.
  - by eapply open_fds_opened.
Qed.

Definition broadcaster_calls fd flags : list syscall :=
  [SysSocket SOCK_DGRAM] ++ nonblocking_calls P fd flags ++
  (sigpipe_calls P fd ++ [SysSetOption fd (IP_MULTICAST_TTL 1)] ++ [SysSetOption fd (IP_MULTICAST_LOOP 1)]) ++
  [SysSetOption fd (IP_MULTICAST_IF (inet_pton P SocketConfig.MCAST_INTERFACE).2)].

Definition group_address : sockaddr_in :=
  {| sin_port := htons P SocketConfig.MCAST_PORT; s_addr := (inet_pton P SocketConfig.MCAST_GROUP).2 |}.

Definition broadcaster_started (s : BroadcasterSocket.t) w w' (result : expected unit ExchangeError.t) : Prop :=
  let fd := BroadcasterSocket.socket_fd_ s in
  match result with
  | Value _ => 0 ≤ fd ∧ BroadcasterSocket.destination_ s = group_address ∧
      ∃ flags, did w w' (broadcaster_calls fd flags) ∧ (SysGetFlags fd, flags) ∈ history w'
  | Unexpected e =>
      e = ExchangeError.InvalidBroadcastIP ∧ (inet_pton P SocketConfig.MCAST_GROUP).1 = 0 ∨
      e = ExchangeError.StartBroadcast ∧ (broke w w' ∨ (inet_pton P SocketConfig.MCAST_GROUP).1 = INVALID ∨
                                          (inet_pton P SocketConfig.MCAST_INTERFACE).1 ≠ 1)
  end.

Lemma broadcaster_start s w result s' w' : documented → BroadcasterSocket.start P s w = (result, s', w') →
  broadcaster_started s' w w' result ∧ acquired (BroadcasterSocket.socket_fd_ s') w w'.
Proof.
  intros HP. unfold BroadcasterSocket.start, broadcaster_started.
  destruct (sys (SysSocket SOCK_DGRAM) w) as [fd w1] eqn:H1. pose proof (acquired_socket _ _ _ _ H1) as Hacq.
  destruct (Z.eqb_spec fd INVALID) as [->|Hfd].
  { intros [= <- <- <-]. split; [|done]. right. split; [done|]. left. by eapply broke_one. }
  pose proof (did_one _ _ _ _ H1 Hfd) as Hd1.
  destruct (open_fds_opened _ _ _ _ H1 eq_refl Hfd) as [Hpos _].
  destruct (network.both _ _ w1) as [b w2] eqn:H2. unfold network.both at 1 in H2.
  destruct (network.set_socket_nonblocking P fd w1) as [nb w11] eqn:H11.
  destruct (set_socket_nonblocking_steps P _ _ _ _ H11) as [Hd11 Ho11].
  destruct nb; cycle 1; [injection H2 as <- <-; simpl; intros [= <- <- <-]|].
  { split; [|by eapply acquired_same]. right. split; [done|]. left. by eapply did_broke. }
  destruct Hd11 as (flags & Hd11 & Hin). apply steps in H2 as [Hd2 Ho2].
  destruct b; simpl; cycle 1; [intros [= <- <- <-]|].
  { split; [|eapply acquired_same; [done|]; simpl; congruence]. right. split; [done|]. left.
    do 2 (eapply did_broke; [done|]). done. }
  destruct (inet_pton P SocketConfig.MCAST_GROUP) as [st1 a1] eqn:E1.
  destruct (inet_pton P SocketConfig.MCAST_INTERFACE) as [st2 a2] eqn:E2. simpl.
  assert (acquired fd w w2) as Hacq2 by (eapply acquired_same; [done|congruence]).
  destruct (Z.eqb_spec st1 0) as [->|H01]; [intros [= <- <- <-]; split; [by left|done]|].
  destruct (Z.eqb_spec st1 INVALID) as [->|H11']; [intros [= <- <- <-]; split; [by right; auto|done]|].
  pose proof (HP SocketConfig.MCAST_GROUP) as HG. rewrite E1 in HG. simpl in HG.
  destruct HG as [->|[?|?]]; [|done..].
  destruct (Z.eqb_spec st2 1) as [->|Hst2]; simpl; [|intros [= <- <- <-]; split; [by right; auto|done]].
  destruct (network.set_multicast_interface fd a2 w2) as [b w3] eqn:H3. apply steps in H3 as [Hd3 Ho3].
  assert (acquired fd w w3) as Hacq3 by (eapply acquired_same; [done|congruence]).
  destruct b; simpl; intros [= <- <- <-]; (split; [|done]).
  - split_and!; [done|by unfold group_address; rewrite E1|]. exists flags. unfold broadcaster_calls. rewrite E2.
    split; [|do 2 (eapply did_history; [done|]); done]. do 3 (eapply did_app; [done|]). done.
  - right. split; [done|]. left. do 3 (eapply did_broke; [done|]). done.
Qed.

Definition listener_calls fd : list syscall :=
  [SysSocket SOCK_DGRAM] ++
  ([SysSetOption fd (SO_REUSEADDR 1)] ++ [SysSetOption fd (SO_RCVBUF SocketConfig.LISTENER_SOCKET_BUFFER_SIZE)]) ++
  [SysBind fd {| sin_port := htons P SocketConfig.MCAST_PORT; s_addr := INADDR_ANY |}] ++
  join_calls P fd SocketConfig.MCAST_GROUP.

Definition listener_initialized fd w w' (result : expected unit HandlerError.t) : Prop :=
  match result with
  | Value _ => 0 ≤ fd ∧ did w w' (listener_calls fd)
  | Unexpected e =>
      e = HandlerError.InvalidMulticastGroup ∧ (inet_pton P SocketConfig.MCAST_GROUP).1 = 0 ∨
      e = HandlerError.StartUDPListener ∧ (broke w w' ∨ (inet_pton P SocketConfig.MCAST_GROUP).1 = INVALID)
  end.

Lemma listener_initialize s w result s' w' : RealTimeListenerSocket.initialize P s w = (result, s', w') →
  listener_initialized (RealTimeListenerSocket.socket_fd_ s') w w' result ∧
  acquired (RealTimeListenerSocket.socket_fd_ s') w w'.
Proof.
  unfold RealTimeListenerSocket.initialize, listener_initialized.
  destruct (sys (SysSocket SOCK_DGRAM) w) as [fd w1] eqn:H1. pose proof (acquired_socket _ _ _ _ H1) as Hacq.
  destruct (Z.eqb_spec fd INVALID) as [->|Hfd].
  { intros [= <- <- <-]. split; [|done]. right. split; [done|]. left. by eapply broke_one. }
  pose proof (did_one _ _ _ _ H1 Hfd) as Hd1.
  destruct (open_fds_opened _ _ _ _ H1 eq_refl Hfd) as [Hpos _].
  destruct (network.both _ _ w1) as [b w2] eqn:H2. apply steps in H2 as [Hd2 Ho2].
  pose proof (acquired_same _ _ _ _ Hacq Ho2) as Hacq2.
  destruct b; simpl; cycle 1; [intros [= <- <- <-]|].
  { split; [|done]. right. split; [done|]. left. by eapply did_broke. }
  destruct (sys (SysBind _ _) w2) as [bound w3] eqn:H3.
  pose proof (acquired_same _ _ _ _ Hacq2 (open_fds_neutral _ _ _ _ H3 eq_refl)) as Hacq3.
  destruct (Z.eqb_spec bound (-1)) as [->|Hbound]; [intros [= <- <- <-]|].
  { split; [|done]. right. split; [done|]. left. do 2 (eapply did_broke; [done|]). by eapply broke_one. }
  destruct (network.join_multicast_group _ _ _ w3) as [status w4] eqn:H4. apply join_steps in H4 as [Hd4 Ho4].
  pose proof (acquired_same _ _ _ _ Hacq3 Ho4) as Hacq4. pose proof (did_one _ _ _ _ H3 Hbound) as Hd3.
  destruct status; intros [= <- <- <-]; (split; [|done]).
  - split; [done|]. do 3 (eapply did_app; [done|]). done.
  - by left.
  - right. split; [done|]. destruct Hd4; [by right|left]. do 3 (eapply did_broke; [done|]). done.
Qed.

Definition client_calls fd : list syscall :=
  [SysSocket SOCK_STREAM] ++
  [SysConnect fd {| sin_port := htons P SocketConfig.RETRANSMIT_PORT; s_addr := (inet_pton P SocketConfig.SERVER_IP).2 |}].

Definition client_connected fd w w' (result : expected unit HandlerError.t) : Prop :=
  match result with
  | Value _ => 0 ≤ fd ∧ did w w' (client_calls fd)
  | Unexpected e =>
      e = HandlerError.InvalidRetransmitServer ∧ (inet_pton P SocketConfig.SERVER_IP).1 = 0 ∨
      e = HandlerError.StartRetransmitClient ∧ (broke w w' ∨ (inet_pton P SocketConfig.SERVER_IP).1 = INVALID) ∨
      e = HandlerError.ConnectToRetransmitServer ∧ broke w w'
  end.

(** The assertion that the socket is valid never fails. *)
Lemma client_connect w : ∃ result fd w', RetransmitListenerSocket.initialize_and_connect P w = Ok (result, fd, w') ∧
  client_connected fd w w' result ∧ acquired fd w w'.
Proof.
  unfold RetransmitListenerSocket.initialize_and_connect, RetransmitListenerSocket.connect_to_server, client_connected.
  destruct (sys (SysSocket SOCK_STREAM) w) as [fd w1] eqn:H1. pose proof (acquired_socket _ _ _ _ H1) as Hacq.
  destruct (Z.eqb_spec fd (-1)) as [->|Hfd].
  { do 3 eexists. split; [done|]. split; [|done]. right. left. split; [done|]. left. by eapply broke_one. }
  pose proof (did_one _ _ _ _ H1 Hfd) as Hd1.
  destruct (open_fds_opened _ _ _ _ H1 eq_refl Hfd) as [Hpos _].
  rewrite (proj2 (Z.leb_le _ _) Hpos). cbn [mbind outcome_bind assert_]. unfold client_calls.
  destruct (inet_pton P SocketConfig.SERVER_IP) as [st a]; simpl.
  destruct (Z.eqb_spec st 0) as [->|]; [do 3 eexists; split; [done|]; split; [by left|done]|].
  destruct (Z.eqb_spec st INVALID) as [->|]; [do 3 eexists; split; [done|]; split; [by right; left; auto|done]|].
  destruct (sys (SysConnect _ _) w1) as [r w2] eqn:H2.
  pose proof (acquired_same _ _ _ _ Hacq (open_fds_neutral _ _ _ _ H2 eq_refl)) as Hacq2.
  destruct (Z.eqb_spec r INVALID) as [->|Hr]; (do 3 eexists; split; [done|]; split; [|done]).
  - right. right. split; [done|]. eapply did_broke; [done|]. by eapply broke_one.
  - split; [done|]. exact (did_app _ _ _ _ _ Hd1 (did_one _ _ _ _ H2 Hr)).
Qed.

Definition server_listener_calls fd flags : list syscall :=
  [SysSocket SOCK_STREAM] ++ nonblocking_calls P fd flags ++
  [SysBind fd {| sin_port := htons P SocketConfig.RETRANSMIT_PORT; s_addr := INADDR_ANY |}].

(** [get_listener] closes what it opened when it fails. *)
Lemma server_get_listener w result w' : RetransmitServerSocket.get_listener P w = (result, w') →
  match result with
  | Value fd => 0 ≤ fd ∧ acquired fd w w' ∧
      ∃ flags, did w w' (server_listener_calls fd flags) ∧ (SysGetFlags fd, flags) ∈ history w'
  | Unexpected e => broke w w' ∧ open_fds w' = open_fds w ∧
      (e = ExchangeError.StartRetransmitServer ∨ e = ExchangeError.SetSocketNonblocking)
  end.
Proof.
  unfold RetransmitServerSocket.get_listener, RetransmitServerSocket.close.
  destruct (sys (SysSocket SOCK_STREAM) w) as [fd w1] eqn:H1. pose proof (acquired_socket _ _ _ _ H1) as Hacq.
  destruct (Z.eqb_spec fd INVALID) as [->|Hfd].
  { intros [= <- <-]. split_and!; [by eapply broke_one|by apply acquired_nothing|by left]. }
  pose proof (did_one _ _ _ _ H1 Hfd) as Hd1.
  destruct (open_fds_opened _ _ _ _ H1 eq_refl Hfd) as [Hpos _].
  destruct (network.set_socket_nonblocking P fd w1) as [b w2] eqn:H2.
  destruct (set_socket_nonblocking_steps P _ _ _ _ H2) as [Hd2 Ho2].
  pose proof (acquired_same _ _ _ _ Hacq Ho2) as Hacq2. destruct b; simpl; cycle 1; [intros [= <- <-]|].
  { split_and!; [|by apply acquired_closed|by right]. apply broke_then. by eapply did_broke. }
  destruct Hd2 as (flags & Hd2 & Hin). destruct (sys (SysBind _ _) w2) as [bound w3] eqn:H3.
  pose proof (acquired_same _ _ _ _ Hacq2 (open_fds_neutral _ _ _ _ H3 eq_refl)) as Hacq3.
  destruct (Z.eqb_spec bound INVALID) as [->|Hbound]; intros [= <- <-].
  - split_and!; [|by apply acquired_closed|by left].
    apply broke_then. do 2 (eapply did_broke; [done|]). by eapply broke_one.
  - pose proof (did_one _ _ _ _ H3 Hbound) as Hd3. split_and!; [done..|]. exists flags.
    split; [|by eapply did_history]. do 2 (eapply did_app; [done|]). done.
Qed.

(** What the server holds: nothing else refers to these descriptors. *)
Definition server_fds (s : RetransmitServer.t) : gset Z :=
  filter (λ fd, fd ≠ INVALID) {[RetransmitServer.socket_fd_ s; RetransmitServer.event_queue_ s]}.

Definition holds (s : RetransmitServer.t) w w' : Prop :=
  open_fds w' = (server_fds s ∪ open_fds w) ∧ server_fds s ## open_fds w.

Lemma holds_same s w w1 w2 : holds s w w1 → open_fds w2 = open_fds w1 → holds s w w2.
Proof. unfold holds. by intros H ->. Qed.

Definition server_calls fd kq flags : list syscall :=
  server_listener_calls fd flags ++ [SysKqueue] ++ [SysKevent kq fd EVFILT_READ [EV_ADD; EV_ENABLE]] ++
  [SysListen fd SocketConfig.MAX_PENDING_CONNECTIONS].

Definition idle_server (s : RetransmitServer.t) : Prop :=
  RetransmitServer.socket_fd_ s = INVALID ∧ RetransmitServer.event_queue_ s = INVALID.

Lemma server_listener_held s w w' fd : idle_server s → 0 ≤ fd → acquired fd w w' →
  holds (RetransmitServerSocket.set_listener fd s) w w'.
Proof.
  intros [_ Hkq] Hfd [[-> _]|(_ & Hn & Ho)]; [done|]. unfold holds, server_fds. simpl. rewrite Hkq, Ho.
  assert (fd ≠ INVALID) by (unfold INVALID; lia). split; set_solver.
Qed.

Lemma server_queue_held s w1 w2 w3 kq : RetransmitServer.event_queue_ s = INVALID → holds s w1 w2 →
  sys SysKqueue w2 = (kq, w3) → holds (RetransmitServerSocket.set_event_queue kq s) w1 w3.
Proof.
  unfold holds, server_fds. intros Hkq [Ho Hdisj] H. rewrite Hkq in *. destruct (decide (kq = INVALID)) as [->|Hne].
  - rewrite (open_fds_not_opened _ _ _ H) by done. done.
  - destruct (open_fds_opened _ _ _ _ H eq_refl Hne) as (_ & Hn & ->). rewrite Ho in *. simpl. split; set_solver.
Qed.

Lemma server_initialize s w result s' w' : idle_server s → RetransmitServerSocket.initialize P s w = (result, s', w') →
  let fd := RetransmitServer.socket_fd_ s' in
  let kq := RetransmitServer.event_queue_ s' in
  holds s' w w' ∧
  match result with
  | Value _ => 0 ≤ fd ∧ 0 ≤ kq ∧ ∃ flags,
      did w w' (server_listener_calls fd flags ++ [SysKqueue] ++ [SysKevent kq fd EVFILT_READ [EV_ADD; EV_ENABLE]]) ∧
      (SysGetFlags fd, flags) ∈ history w'
  | Unexpected e => broke w w' ∧
      ((e = ExchangeError.StartRetransmitServer ∨ e = ExchangeError.SetSocketNonblocking) ∧ s' = s ∨
       (e = ExchangeError.EventQueue ∨ e = ExchangeError.RegisterEvent) ∧ 0 ≤ fd)
  end.
Proof.
  intros Hidle. unfold RetransmitServerSocket.initialize.
  destruct (RetransmitServerSocket.get_listener P w) as [[fd|e] w1] eqn:H1; apply server_get_listener in H1; cycle 1.
  { intros [= <- <- <-]. destruct H1 as (Hb & Ho & He). split; [|by auto]. destruct Hidle as [Hfd Hkq].
    unfold holds, server_fds. rewrite Hfd, Hkq. split; [rewrite Ho|]; set_solver. }
  destruct H1 as (Hfd & Hacq & flags & Hd1 & Hin).
  pose proof (server_listener_held s w w1 fd Hidle Hfd Hacq) as Hh1. destruct Hidle as [_ Hkq0].
  destruct (sys SysKqueue w1) as [kq w2] eqn:H2.
  pose proof (server_queue_held (RetransmitServerSocket.set_listener fd s) w w1 w2 kq Hkq0 Hh1 H2) as Hh2.
  destruct (Z.eqb_spec kq INVALID) as [->|Hkq].
  { intros [= <- <- <-]. split; [done|]. split; [|by auto]. eapply did_broke; [done|]. by eapply broke_one. }
  destruct (open_fds_opened _ _ _ _ H2 eq_refl Hkq) as [Hpos _]. pose proof (did_one _ _ _ _ H2 Hkq) as Hd2.
  destruct (network.register_read_event kq fd w2) as [b w3] eqn:H3. apply steps in H3 as [Hd3 Ho3].
  pose proof (holds_same _ _ _ _ Hh2 Ho3) as Hh3. destruct b; simpl; intros [= <- <- <-]; (split; [done|]).
  - split_and!; [done..|]. exists flags. split; [|do 2 (eapply did_history; [done|]); done].
    exact (did_app _ _ _ _ _ Hd1 (did_app _ _ _ _ _ Hd2 Hd3)).
  - split; [|by auto]. do 2 (eapply did_broke; [done|]). done.
Qed.

Definition server_listening (s : RetransmitServer.t) w w' (result : expected unit ExchangeError.t) : Prop :=
  let fd := RetransmitServer.socket_fd_ s in
  let kq := RetransmitServer.event_queue_ s in
  match result with
  | Value _ => 0 ≤ fd ∧ 0 ≤ kq ∧
      ∃ flags, did w w' (server_calls fd kq flags) ∧ (SysGetFlags fd, flags) ∈ history w'
  | Unexpected e => broke w w' ∧
      (e = ExchangeError.StartRetransmitServer ∨ e = ExchangeError.SetSocketNonblocking ∨
       e = ExchangeError.EventQueue ∨ e = ExchangeError.RegisterEvent)
  end.

Lemma server_start s w result s' w' : idle_server s →
  RetransmitServerSocket.ensure_listening P s w = (result, s', w') →
  server_listening s' w w' result ∧ holds s' w w'.
Proof.
  intros Hidle. unfold RetransmitServerSocket.ensure_listening, server_listening.
  rewrite (proj2 (Z.eqb_eq _ INVALID)) by apply Hidle.
  destruct (RetransmitServerSocket.initialize P s w) as [[r s1] w1] eqn:H1.
  apply server_initialize in H1 as [Hh Hr]; [|done]. destruct r as [[]|e]; cycle 1.
  { intros [= <- <- <-]. split; [|done]. split; [apply Hr|]. destruct Hr as [_ [[[] _]|[[] _]]]; auto. }
  destruct Hr as (Hfd & Hkq & flags & Hd1 & Hin). destruct (sys (SysListen _ _) w1) as [st w2] eqn:H2.
  pose proof (holds_same _ _ _ _ Hh (open_fds_neutral _ _ _ _ H2 eq_refl)) as Hh2.
  destruct (Z.eqb_spec st INVALID) as [->|Hst]; intros [= <- <- <-]; (split; [|done]).
  - split; [|by auto]. eapply did_broke; [done|]. by eapply broke_one.
  - pose proof (did_one _ _ _ _ H2 Hst) as Hd2. split_and!; [done..|]. exists flags. split; [|by eapply did_history].
    unfold server_calls. pose proof (did_app _ _ _ _ _ Hd1 Hd2) as Hd. by rewrite <- !app_assoc in Hd.
Qed.

(** Closing both members gives back all the server holds. *)
Lemma server_closed s w w' : holds s w w' →
  open_fds (RetransmitServerSocket.close (RetransmitServer.event_queue_ s)
             (RetransmitServerSocket.close (RetransmitServer.socket_fd_ s) w')) = open_fds w.
Proof.
  intros [Ho Hd]. unfold RetransmitServerSocket.close. rewrite !open_fds_close, Ho.
  pose proof (invalid_not_open w) as Hinv. unfold server_fds in *.
  apply set_eq. intros fd. destruct (decide (fd = INVALID)) as [->|]; set_solver.
Qed.

(** ** The properties *)

(** C29: a set-up that reports success has made exactly the calls it is for, in
    order and all accepted: the socket, the flags and options, the address, the
    multicast group or server, the event queue and the registration.  An error
    stands for a call that failed or for an address that is none.  The assertion
    of the retransmit client never fails. *)
Theorem sockets_are_configured : documented →
  (∀ s w result s' w', BroadcasterSocket.start P s w = (result, s', w') → broadcaster_started s' w w' result) ∧
  (∀ s w result s' w', RealTimeListenerSocket.initialize P s w = (result, s', w') →
     listener_initialized (RealTimeListenerSocket.socket_fd_ s') w w' result) ∧
  (∀ w, ∃ result fd w', RetransmitListenerSocket.initialize_and_connect P w = Ok (result, fd, w') ∧
     client_connected fd w w' result) ∧
  (∀ s w result s' w', idle_server s → RetransmitServerSocket.ensure_listening P s w = (result, s', w') →
     server_listening s' w w' result).
Proof.
  intros HP. split_and!.
  - intros. by eapply broadcaster_start.
  - intros. by eapply listener_initialize.
  - intros w. destruct (client_connect w) as (r & fd & w' & H & Hc & _). by exists r, fd, w'.
  - intros. by eapply server_start.
Qed.

(** C17: no descriptor is lost: whatever fails, a set-up followed by the
    destructor leaves exactly the descriptors that were open before.  The
    retransmit server's own helper closes its socket when it fails; all else the
    server opened is in its two members, and closing them gives it back. *)
Theorem sockets_are_released : documented →
  (∀ w result s w', BroadcasterSocket.start P BroadcasterSocket.init w = (result, s, w') →
     open_fds (BroadcasterSocket.destroy s w').2 = open_fds w) ∧
  (∀ w result s w', RealTimeListenerSocket.ensure_initialized P RealTimeListenerSocket.init w = (result, s, w') →
     open_fds (RealTimeListenerSocket.destroy s w') = open_fds w) ∧
  (∀ w result fd w', RetransmitListenerSocket.ensure_connected P RetransmitListenerSocket.init w = Ok (result, fd, w') →
     open_fds (RetransmitListenerSocket.destroy fd w') = open_fds w) ∧
  (∀ w e w', RetransmitServerSocket.get_listener P w = (Unexpected e, w') → open_fds w' = open_fds w) ∧
  (∀ s w result s' w', idle_server s → RetransmitServerSocket.ensure_listening P s w = (result, s', w') →
     open_fds w' = (server_fds s' ∪ open_fds w) ∧
     open_fds (RetransmitServerSocket.close (RetransmitServer.event_queue_ s')
                (RetransmitServerSocket.close (RetransmitServer.socket_fd_ s') w')) = open_fds w).
Proof.
  intros HP. split_and!.
  - intros w result s w' [_ Hacq]%broadcaster_start; [|done]. unfold BroadcasterSocket.destroy.
    destruct (Z.leb_spec 0 (BroadcasterSocket.socket_fd_ s)); [by apply acquired_closed|].
    destruct Hacq as [[_ ?]|(? & _)]; [done|lia].
  - intros w result s w' [_ Hacq]%listener_initialize. unfold RealTimeListenerSocket.destroy.
    destruct (Z.eqb_spec (RealTimeListenerSocket.socket_fd_ s) INVALID) as [Heq|Hne]; simpl.
    + rewrite Heq in Hacq. by apply acquired_nothing.
    + apply acquired_closed; [|done]. by destruct Hacq as [[? _]|(? & _)].
  - intros w result fd w' Hc. destruct (client_connect w) as (r & fd' & w1 & H & _ & Hacq).
    unfold RetransmitListenerSocket.ensure_connected in Hc. simpl in Hc. rewrite H in Hc. injection Hc as -> -> ->.
    unfold RetransmitListenerSocket.destroy. destruct (Z.leb_spec 0 fd); [by apply acquired_closed|].
    destruct Hacq as [[_ ?]|(? & _)]; [done|lia].
  - intros w e w' H%server_get_listener. apply H.
  - intros s w result s' w' Hs H%server_start; [|done]. destruct H as [_ Hh]. split; [apply Hh|by apply server_closed].
Qed.

(** C39: a set-up that failed after its socket existed is not repeated: [start]
    finds a socket and goes on with it, unbound, unconnected or unregistered,
    without a call; the retransmit server, which has no destructor, keeps its
    listening socket open.  The broadcaster does start again, and loses the
    socket it had. *)
Theorem failed_setup_is_skipped :
  (∀ s w e s' w', RealTimeListenerSocket.initialize P s w = (Unexpected e, s', w') →
     RealTimeListenerSocket.socket_fd_ s' ≠ INVALID →
     RealTimeListenerSocket.ensure_initialized P s' w' = (Value tt, s', w')) ∧
  (∀ w e fd w', RetransmitListenerSocket.initialize_and_connect P w = Ok (Unexpected e, fd, w') → fd ≠ INVALID →
     RetransmitListenerSocket.ensure_connected P fd w' = Ok (Value tt, fd, w')) ∧
  (∀ s w e s' w', idle_server s → RetransmitServerSocket.initialize P s w = (Unexpected e, s', w') →
     e = ExchangeError.EventQueue ∨ e = ExchangeError.RegisterEvent →
     RetransmitServer.socket_fd_ s' ∈ open_fds w' ∧
     ∀ result s'' w'', RetransmitServerSocket.ensure_listening P s' w' = (result, s'', w'') →
       s'' = s' ∧ ∃ status, history w'' = history w' ++
         [(SysListen (RetransmitServer.socket_fd_ s') SocketConfig.MAX_PENDING_CONNECTIONS, status)]) ∧
  (documented → ∀ s w result s' w', BroadcasterSocket.socket_fd_ s ∈ open_fds w →
     BroadcasterSocket.start P s w = (result, s', w') →
     BroadcasterSocket.socket_fd_ s ∈ open_fds w' ∧ BroadcasterSocket.socket_fd_ s' ≠ BroadcasterSocket.socket_fd_ s).
Proof.
  split_and!.
  - intros s w e s' w' _ Hne. unfold RealTimeListenerSocket.ensure_initialized. by rewrite (proj2 (Z.eqb_neq _ _)).
  - intros w e fd w' _ Hne. unfold RetransmitListenerSocket.ensure_connected. by rewrite (proj2 (Z.eqb_neq _ _)).
  - intros s w e s' w' Hs H He. apply server_initialize in H as [[Ho _] [_ Hr]]; [|done].
    destruct Hr as [[[-> | ->] _]|[_ Hfd]]; [by destruct He..|].
    assert (RetransmitServer.socket_fd_ s' ≠ INVALID) as Hne by (unfold INVALID; lia).
    split; [rewrite Ho; unfold server_fds; set_solver|]. intros result s'' w''.
    unfold RetransmitServerSocket.ensure_listening. rewrite (proj2 (Z.eqb_neq _ _)) by done.
    destruct (sys _ w') as [st w1] eqn:H1. apply sys_recorded in H1.
    destruct (st =? INVALID); intros [= <- <- <-]; (split; [done|by exists st]).
  - intros HP s w result s' w' Hin [_ Hacq]%broadcaster_start; [|done].
    destruct Hacq as [[Hfd Ho]|(_ & Hn & Ho)]; rewrite Ho.
    + split; [done|]. rewrite Hfd. intros Heq. rewrite <- Heq in Hin. by apply (invalid_not_open w).
    + split; [set_solver|]. by intros Heq; rewrite Heq in Hn.
Qed.
End Components.

Definition sample_platform : platform := {|
  inet_pton text := if decide (text = SocketConfig.MCAST_GROUP) then (1, 4009689089)
                    else if decide (text = SocketConfig.SERVER_IP) then (1, 2130706433)
                    else if decide (text = SocketConfig.MCAST_INTERFACE) then (1, 0) else (0, 0);
  O_NONBLOCK := 4;
  has_SO_NOSIGPIPE := true;
  byte_order := LittleEndian;
|}.

Lemma sample_documented : documented sample_platform.
Proof. intros text. simpl. repeat case_decide; auto. Qed.

Definition sample_server : RetransmitServer.t := RetransmitServer.init (replicate 42 0).

Definition kernel_failing (failing : list bool) : Scripted_kernel.t :=
  {| Scripted_kernel.log := []; Scripted_kernel.failing := failing |}.

(** All calls succeed: the broadcaster's seven. *)
Lemma sockets_are_configured_witness :
  documented sample_platform ∧
  ∃ s' w', BroadcasterSocket.start sample_platform BroadcasterSocket.init (kernel_failing []) = (Value tt, s', w') ∧
    broadcaster_started sample_platform s' (kernel_failing []) w' (Value tt) ∧ length (history w') = 7%nat.
Proof.
  split; [exact sample_documented|]. do 2 eexists. split; [vm_compute; reflexivity|].
  split; [|vm_compute; reflexivity].
  apply (proj1 (sockets_are_configured sample_platform sample_documented) BroadcasterSocket.init
           (kernel_failing []) (Value tt)). vm_compute. reflexivity.
Defined.

(** [bind] fails: the listening socket is closed. *)
Lemma sockets_are_released_witness :
  documented sample_platform ∧
  ∃ w', RetransmitServerSocket.get_listener sample_platform (kernel_failing [false; false; false; true]) =
      (Unexpected ExchangeError.StartRetransmitServer, w') ∧
    open_fds w' = open_fds (kernel_failing [false; false; false; true]).
Proof.
  split; [exact sample_documented|]. eexists. split; [vm_compute; reflexivity|].
  apply (proj1 (proj2 (proj2 (proj2 (sockets_are_released sample_platform sample_documented))))
           (kernel_failing [false; false; false; true]) ExchangeError.StartRetransmitServer).
  vm_compute. reflexivity.
Defined.

(** Joining the multicast group fails; the second start runs all the same. *)
Lemma failed_setup_is_skipped_witness :
  ∃ s' w', RealTimeListenerSocket.initialize sample_platform RealTimeListenerSocket.init
      (kernel_failing [false; false; false; false; true]) = (Unexpected HandlerError.StartUDPListener, s', w') ∧
    RealTimeListenerSocket.ensure_initialized sample_platform s' w' = (Value tt, s', w').
Proof.
  do 2 eexists. split; [vm_compute; reflexivity|].
  apply (proj1 (failed_setup_is_skipped sample_platform) RealTimeListenerSocket.init
           (kernel_failing [false; false; false; false; true]) HandlerError.StartUDPListener);
    [vm_compute; reflexivity|done].
Defined.
