(* ===== verification/Threads.v ===== *)
(** * Starting, stopping and joining the threads

    [ExchangeSimulator::start] ([exchange-simulator.cpp]),
    [MarketDataHandler::start] ([market-data-handler.cpp]) and
    [StrategyRunner::start] ([strategy-runner.cpp]): a group of threads that
    share a stop source, each wrapped in a [launch_*] function that may request
    the stop of all when its part returns.  A turn is one step of one thread;
    [start] has returned when no thread runs any more (the [std::jthread]s are
    joined by their destructors).  What a thread's part does is a parameter,
    with an interface that says what the group relies on; the handler's four
    parts are instances. *)

From S2P Require Import Prelude Types Bytes Codec Ring RingBuffers ReorderBuffer Network Handler.

(** ** A group of threads *)

Record group (S : Type) : Type := { shared : S; stop : bool; running : list bool }.
Arguments shared {S} _.
Arguments stop {S} _.
Arguments running {S} _.

(** [Turn i e]: a step of thread [i] that finds [e] outside; [RequestStop]: the
    external token's callback. *)
Inductive event (E : Type) : Type := Turn (i : nat) (e : E) | RequestStop.
Arguments Turn {E} i e.
Arguments RequestStop {E}.

(** [Some r]: the part returns [r]. *)
Class Parts (S E Err : Type) : Type := {
  body : nat → E → bool → S → outcome (option (expected unit Err) * S);
  launch : nat → expected unit Err → bool;
}.

Section Group.
Context {S E Err : Type} {P : Parts S E Err}.
Implicit Types (g : group S) (i : nat) (e : E).

Definition start (threads : nat) (s : S) (stop_requested : bool) : group S :=
  {| shared := s; stop := stop_requested; running := replicate threads true |}.

Definition thread_turn i e g : outcome (group S) :=
  if decide (running g !! i = Some true) then
    '(result, s) ← body i e (stop g) (shared g);
    Ok match result with
       | None => {| shared := s; stop := stop g; running := running g |}
       | Some r => {| shared := s; stop := stop g || launch i r; running := <[i := false]> (running g) |}
       end
  else Ok g.

Definition step (ev : event E) g : outcome (group S) :=
  match ev with
  | Turn i e => thread_turn i e g
  | RequestStop => Ok {| shared := shared g; stop := true; running := running g |}
  end.

Fixpoint run (events : list (event E)) g : outcome (group S) :=
  match events with
  | [] => Ok g
  | ev :: events => g ← step ev g; run events g
  end.

Lemma threads_run_app events1 events2 g : run (events1 ++ events2) g = g ← run events1 g; run events2 g.
Proof using Type.
  revert g. induction events1 as [|ev events1 IH]; intros g; simpl; [done|]. destruct (step ev g); simpl; [apply IH|done..].
Qed.

(** [start] returns. *)
Definition joined g : Prop := Forall (λ b, b = false) (running g).
End Group.

(** What the group relies on.  [legal] is an invariant of the shared state; with
    the stop requested, thread [i] returns within [patience i] further turns that
    find what it may be blocked on ([wakes i e]); and a part whose launcher does
    not request the stop returns only when the stop is requested. *)
Class PartsLaws (S E Err : Type) {P : Parts S E Err} (legal : S → Prop) (wakes : nat → E → bool)
    (patience : nat → S → nat) : Prop := {
  body_legal i e b s r s' : legal s → body i e b s = Ok (r, s') → legal s';
  body_total i e s : legal s → ∃ r s', body i e true s = Ok (r, s');
  body_patience i e s s' : legal s → body i e true s = Ok (None, s') →
    (patience i s' ≤ patience i s)%nat ∧ (wakes i e = true → (patience i s' < patience i s)%nat);
  body_others i j e s r s' : legal s → j ≠ i → body i e true s = Ok (r, s') → (patience j s' ≤ patience j s)%nat;
  body_ends i e s r s' : legal s → body i e false s = Ok (Some r, s') → launch i r = true;
}.

Section GroupProofs.
Context {S E Err : Type} {P : Parts S E Err} {legal : S → Prop} {wakes : nat → E → bool} {patience : nat → S → nat}.
Context {L : PartsLaws S E Err legal wakes patience}.
Implicit Types (g : group S) (i : nat) (e : E) (events : list (event E)).

(** How many turns wake thread [i]. *)
Fixpoint wakeups i events : nat :=
  match events with
  | [] => 0
  | Turn j e :: events => (if decide (j = i) then Nat.b2n (wakes i e) else 0) + wakeups i events
  | RequestStop :: events => wakeups i events
  end%nat.

(** As soon as a thread has returned the stop is requested. *)
Definition told g : Prop := legal (shared g) ∧ (∀ i, running g !! i = Some false → stop g = true).

Lemma start_told threads s b : legal s → told (start threads s b).
Proof using Type.
  intros Hs. split; [done|]. simpl. intros i Hi. by apply lookup_replicate in Hi as [? _].
Qed.

Lemma turn_told i e g g' : told g → thread_turn i e g = Ok g' → told g'.
Proof using L.
  unfold thread_turn. intros [Hl Ht]. destruct (decide (running g !! i = Some true)) as [Hi|]; [|by intros [= <-]].
  destruct (body i e (stop g) (shared g)) as [[[r|] s]| |] eqn:Hb; [| |done..]; intros [= <-];
    (split; [simpl; by eapply body_legal|]); simpl; [|done].
  intros j Hj. destruct (stop g) eqn:Hstop; [done|simpl]. destruct (decide (i = j)) as [->|Hne].
  - by eapply body_ends.
  - rewrite list_lookup_insert_ne in Hj by done. by apply Ht in Hj.
Qed.

Lemma step_told ev g g' : told g → step ev g = Ok g' → told g'.
Proof using L. destruct ev; [apply turn_told|]. intros [Hl _] [= <-]. by split. Qed.

Lemma run_told events g g' : told g → run events g = Ok g' → told g'.
Proof using L.
  revert g. induction events as [|ev events IH]; intros g Hg; [by intros [= <-]|]. simpl.
  destruct (step ev g) as [g1| |] eqn:Hs; [|done..]. apply IH. by eapply step_told.
Qed.

(** Once the stop is requested nothing is undefined, the stop stays requested,
    and a thread that has returned stays so. *)
Lemma step_stopped ev g : legal (shared g) → stop g = true →
  ∃ g', step ev g = Ok g' ∧ legal (shared g') ∧ stop g' = true ∧ length (running g') = length (running g) ∧
    ∀ i, running g !! i = Some false → running g' !! i = Some false.
Proof using L.
  intros Hl Hstop. destruct ev as [i e|]; simpl; [|by eexists].
  unfold thread_turn. rewrite Hstop. destruct (decide (running g !! i = Some true)) as [Hi|]; [|by exists g].
  destruct (body_total i e (shared g) Hl) as (r & s & Hb). pose proof (body_legal _ _ _ _ _ _ Hl Hb).
  rewrite Hb. cbn [mbind outcome_bind].
  destruct r as [r|]; (eexists; split; [done|]); split_and!; simpl; try done.
  - by rewrite length_insert.
  - intros j Hj. destruct (decide (i = j)) as [->|]; [by rewrite Hj in Hi|by rewrite list_lookup_insert_ne].
Qed.

Lemma step_patience i ev g g' : legal (shared g) → stop g = true → step ev g = Ok g' →
  running g' !! i = Some true → (patience i (shared g') + wakeups i [ev] ≤ patience i (shared g))%nat.
Proof using L.
  intros Hl Hstop. destruct ev as [j e|]; simpl; [|by intros [= <-] _; simpl; lia].
  unfold thread_turn. rewrite Hstop. destruct (decide (running g !! j = Some true)) as [Hj|Hj].
  2: { intros [= <-] Hi. rewrite decide_False by congruence. lia. }
  destruct (body j e true (shared g)) as [[r s]| |] eqn:Hb; [|done..]. cbn [mbind outcome_bind].
  destruct (decide (j = i)) as [->|Hne].
  - destruct r as [r|]; intros [= <-]; simpl.
    + rewrite list_lookup_insert_eq by (by apply lookup_lt_is_Some_1). done.
    + intros _. destruct (body_patience _ _ _ _ Hl Hb) as [Hle Hlt]. destruct (wakes i e); simpl; [specialize (Hlt eq_refl)|]; lia.
  - pose proof (body_others _ _ _ _ _ _ Hl (not_eq_sym Hne) Hb).
    destruct r as [r|]; intros [= <-]; simpl; intros _; lia.
Qed.

Lemma wakeups_cons i ev events : wakeups i (ev :: events) = (wakeups i [ev] + wakeups i events)%nat.
Proof using Type. destruct ev; simpl; lia. Qed.

Lemma run_stopped events g : legal (shared g) → stop g = true →
  (∀ i, running g !! i = Some true → (patience i (shared g) < wakeups i events)%nat) →
  ∃ g', run events g = Ok g' ∧ stop g' = true ∧ joined g'.
Proof using L.
  revert g. induction events as [|ev events IH]; intros g Hl Hstop Hw.
  - exists g. split_and!; [done..|]. apply Forall_lookup. intros i [|] Hi; [|done]. apply Hw in Hi. simpl in Hi. lia.
  - destruct (step_stopped ev g Hl Hstop) as (g1 & Hs & Hl1 & Hstop1 & Hlen & Hdead). simpl. rewrite Hs. apply IH; [done..|].
    intros i Hi. pose proof (step_patience i ev g g1 Hl Hstop Hs Hi) as Hp.
    assert (running g !! i = Some true) as Hi0.
    { destruct (running g !! i) as [[|]|] eqn:Hg; [done|by rewrite (Hdead i Hg) in Hi|].
      apply lookup_ge_None in Hg. apply lookup_lt_Some in Hi. lia. }
    specialize (Hw i Hi0). rewrite wakeups_cons in Hw. lia.
Qed.
End GroupProofs.

(** ** ExchangeSimulator and StrategyRunner

    Thread 0 is the caller of [start]: it runs [run] or [Trader::start] and then
    requests the stop; both [launch_*] functions request it too, whatever their
    part returned.  The parts are parameters here; ExchangeThreads and Runner
    give them for the two processes ([OrderManagementSystem::start] has no code).  Each [start] has a stop source of
    its own, so only the external token counts. *)
Section Launchers.
Context {S E Err : Type}.
Abbreviation part := (E → bool → S → outcome (option (expected unit Err) * S)).

Definition three_parts (caller first second : part) (i : nat) : part :=
  match i with O => caller | 1%nat => first | _ => second end.

(** [ExchangeSimulator]: the main loop, [launch_retransmit_server], [launch_order_generator]. *)
Definition exchange_parts (run_part server generator : part) : Parts S E Err := {|
  body := three_parts run_part server generator;
  launch _ _ := true;
|}.
Definition exchange_start (s : S) (external_stop : bool) : group S := start 3 s external_stop.

(** [StrategyRunner]: the trader, [launch_order_book_engine], [launch_oms]. *)
Definition runner_parts (trader engine oms : part) : Parts S E Err := {|
  body := three_parts trader engine oms;
  launch _ _ := true;
|}.
Definition runner_start (s : S) (external_stop : bool) : group S := start 3 s external_stop.
End Launchers.

(** ** MarketDataHandler *)
Module HandlerThreads.

(** The members that the four threads share.  [client_ready], [listener_ready]: the
    set-up of the socket is done; [receiving]: the listener is inside [recv]. *)
Record t : Type := {
  handler : MarketDataHandler.t;
  in_hand : option (list Z);
  market_event_buffer : LazyRingBuffer.t RawEvent.t;
  client_ready : bool;
  listener_ready : bool;
  receiving : bool;
}.

(** What a turn finds outside: the result of a set-up, what [recv] returns
    ([None]: nothing yet), the connection that answers a request and what the
    stop token answers meanwhile. *)
Record outside (W : Type) : Type := {
  opened : expected unit HandlerError.t;
  datagram : option (option (list Z));
  answer : RetransmitRequest.t → W;
  stops : list bool;
}.
Arguments opened {W} _.
Arguments datagram {W} _.
Arguments answer {W} _.
Arguments stops {W} _.

Section Threads.
Context {W : Type} {SK : Socket W} (h : endian) (fresh : EncodedMessage.t) (fd : Z).
Context (UDP RETRANSMIT REORDER MARKET : Z).
Implicit Types (e : outside W) (stop : bool) (s : t).

Definition set_handler hd s : t :=
  {| handler := hd; in_hand := in_hand s; market_event_buffer := market_event_buffer s;
     client_ready := client_ready s; listener_ready := listener_ready s; receiving := receiving s |}.
Definition set_buffers udp requests reorder s : t :=
  set_handler {| MarketDataHandler.udp_packet_buffer_ := udp;
    MarketDataHandler.gap_detector_ := MarketDataHandler.gap_detector_ (handler s);
    MarketDataHandler.retransmit_request_buffer_ := requests; MarketDataHandler.reorder_buffer_ := reorder |} s.
Definition set_ready client listener receiving s : t :=
  {| handler := handler s; in_hand := in_hand s; market_event_buffer := market_event_buffer s;
     client_ready := client; listener_ready := listener; receiving := receiving |}.

(** An error ends the part, anything else is another round of its loop. *)
Definition ends (result : expected unit HandlerError.t) : option (expected unit HandlerError.t) :=
  match result with Value _ => None | Unexpected err => Some (Unexpected err) end.

(** [MarketDataHandler::run], in the thread that called [start]. *)
Definition main_part stop s : outcome (option (expected unit HandlerError.t) * t) :=
  if stop then Ok (Some (Value tt), s) else
  '(result, hd) ← MarketDataHandler.run_step h UDP RETRANSMIT REORDER (handler s);
  Ok (ends (default (Value tt) result), set_handler hd s).

(** [RetransmitListener::start] and [run]. *)
Definition client_part e stop s : outcome (option (expected unit HandlerError.t) * t) :=
  if negb (client_ready s) then Ok (ends (opened e), set_ready true (listener_ready s) (receiving s) s) else
  if stop then Ok (Some (Value tt), s) else
  '(request, requests) ← SharedRingBuffer.try_pop RETRANSMIT (MarketDataHandler.retransmit_request_buffer_ (handler s));
  match request with
  | None => Ok (None, s)
  | Some request =>
      '(result, _, reorder, _) ← RetransmitListener.handle_request h fresh REORDER fd request (stops e)
        (MarketDataHandler.reorder_buffer_ (handler s)) (answer e request);
      Ok (ends result, set_buffers (MarketDataHandler.udp_packet_buffer_ (handler s)) requests reorder s)
  end.

(** [MarketEventPublisher::run] *)
Definition publisher_part stop s : outcome (option (expected unit HandlerError.t) * t) :=
  if stop then Ok (Some (Value tt), s) else
  '(in_hand', reorder, buffer) ← MarketEventPublisher.run_step h MARKET REORDER (in_hand s)
    (MarketDataHandler.reorder_buffer_ (handler s)) (market_event_buffer s);
  let s := set_buffers (MarketDataHandler.udp_packet_buffer_ (handler s))
             (MarketDataHandler.retransmit_request_buffer_ (handler s)) reorder s in
  Ok (None, {| handler := handler s; in_hand := in_hand'; market_event_buffer := buffer;
               client_ready := client_ready s; listener_ready := listener_ready s; receiving := receiving s |}).

(** [RealTimeListener::start] and [run]: the token is asked at the head of the
    loop and after [recv], which blocks. *)
Definition listener_part e stop s : outcome (option (expected unit HandlerError.t) * t) :=
  if negb (listener_ready s) then Ok (ends (opened e), set_ready (client_ready s) true (receiving s) s) else
  if negb (receiving s) then
    if stop then Ok (Some (Value tt), s) else
    match LazyRingBuffer.try_get_head_ref UDP (MarketDataHandler.udp_packet_buffer_ (handler s)) with
    | None => Ok (Some (Unexpected HandlerError.HandlerTooSlow), s)
    | Some _ => Ok (None, set_ready (client_ready s) (listener_ready s) true s)
    end
  else
    match datagram e with
    | None => Ok (None, s)
    | Some received =>
        '(result, udp) ← MarketDataHandler.listen_step UDP received stop (MarketDataHandler.udp_packet_buffer_ (handler s));
        let s := set_buffers udp (MarketDataHandler.retransmit_request_buffer_ (handler s))
                   (MarketDataHandler.reorder_buffer_ (handler s)) s in
        Ok (match result with
            | Unexpected err => Some (Unexpected err)
            | Value _ => if stop then Some (Value tt) else None
            end, set_ready (client_ready s) (listener_ready s) false s)
    end.

(** [launch_retransmit_client] and [launch_real_time_listener] request the stop
    after an error only, [launch_market_publisher] and [start] always. *)
#[global] Instance parts : Parts t (outside W) HandlerError.t := {|
  body i e stop s := match i with
    | O => main_part stop s
    | 1%nat => client_part e stop s
    | 2%nat => publisher_part stop s
    | _ => listener_part e stop s
    end;
  launch i result := match i, result with
    | (O | 2%nat), _ => true
    | _, Unexpected _ => true
    | _, Value _ => false
    end;
|}.

(** [start]: the stop source is a member and is not renewed. *)
Definition start (s : t) (stop_source_ external_stop : bool) : group t :=
  Threads.start 4 s (stop_source_ || external_stop).

Definition legal s : Prop :=
  Z.of_nat (length (LazyRingBuffer.buffer_ (MarketDataHandler.udp_packet_buffer_ (handler s)))) = UDP.
(** The listener needs a datagram (or an error) to leave [recv]. *)
Definition wakes (i : nat) e : bool := match i with 0%nat | 1%nat | 2%nat => true | _ => bool_decide (is_Some (datagram e)) end.
Definition patience (i : nat) s : nat :=
  match i with
  | 0%nat | 2%nat => 0
  | 1%nat => if client_ready s then 0 else 1
  | _ => if listener_ready s then 0 else 1
  end.

(** ** The handler's parts keep their promises *)

Context {HU : PowerOfTwo UDP}.

Abbreviation udp_buffer s := (LazyRingBuffer.buffer_ (MarketDataHandler.udp_packet_buffer_ (handler s))).

Lemma handle_packet_buffer packet hd result hd' :
  MarketDataHandler.handle_packet h RETRANSMIT REORDER packet hd = Ok (result, hd') →
  LazyRingBuffer.buffer_ (MarketDataHandler.udp_packet_buffer_ hd') =
  LazyRingBuffer.buffer_ (MarketDataHandler.udp_packet_buffer_ hd).
Proof using Type.
  unfold MarketDataHandler.handle_packet. destruct (GapDetector.has_gap _ _) as [request detector].
  destruct (match request with None => _ | Some r => _ end) as [[queued requests]| |]; [|done..]. cbn [mbind outcome_bind].
  destruct queued; simpl; [|by intros [= <- <-]].
  destruct (EncodedMessage.get_payload_ref _) as [payload| |]; [|done..]. cbn [mbind outcome_bind].
  destruct (write_market_data_to_reorder_buffer _ _ _ _) as [[r reorder]| |]; [|done..].
  by intros [= <- <-].
Qed.

Lemma main_buffer stop s r s' : main_part stop s = Ok (r, s') → udp_buffer s' = udp_buffer s.
Proof using Type.
  unfold main_part, MarketDataHandler.run_step. destruct stop; [by intros [= <- <-]|].
  destruct (LazyRingBuffer.try_get_tail_ref _ _) as [slot|]; [|by intros [= <- <-]].
  destruct (LazyRingBuffer.read _ _) as [packet| |]; [|done..]. cbn [mbind outcome_bind].
  destruct (MarketDataHandler.handle_packet _ _ _ _ _) as [[result hd]| |] eqn:Hh; [|done..].
  intros [= <- <-]. by apply handle_packet_buffer in Hh.
Qed.

Lemma client_buffer e stop s r s' : client_part e stop s = Ok (r, s') → udp_buffer s' = udp_buffer s.
Proof using Type.
  unfold client_part. destruct (negb _); [by intros [= <- <-]|]. destruct stop; [by intros [= <- <-]|].
  destruct (SharedRingBuffer.try_pop _ _) as [[[request|] requests]| |]; [| |done..]; cbn [mbind outcome_bind];
    [|by intros [= <- <-]].
  destruct (RetransmitListener.handle_request _ _ _ _ _ _ _ _) as [[[[result rq] reorder] w]| |]; [|done..].
  by intros [= <- <-].
Qed.

Lemma publisher_buffer stop s r s' : publisher_part stop s = Ok (r, s') → udp_buffer s' = udp_buffer s.
Proof using Type.
  unfold publisher_part. destruct stop; [by intros [= <- <-]|].
  destruct (MarketEventPublisher.run_step _ _ _ _ _ _) as [[[ih reorder] buffer]| |]; [|done..]. by intros [= <- <-].
Qed.

Lemma listen_step_total received stop buffer : Z.of_nat (length (LazyRingBuffer.buffer_ buffer)) = UDP →
  ∃ result buffer', MarketDataHandler.listen_step UDP received stop buffer = Ok (result, buffer') ∧
    length (LazyRingBuffer.buffer_ buffer') = length (LazyRingBuffer.buffer_ buffer).
Proof using HU.
  intros Hlen. unfold MarketDataHandler.listen_step, LazyRingBuffer.try_get_head_ref.
  destruct (LazyRingBuffer.is_full _ _ _); [by eauto|]. destruct received as [bytes|]; [|by eauto].
  pose proof (mask_range UDP (LazyRingBuffer.head_ buffer)) as Hm. unfold LazyRingBuffer.read, LazyRingBuffer.write.
  destruct (lookup_lt_is_Some_2 (LazyRingBuffer.buffer_ buffer) (Z.to_nat (mask UDP (LazyRingBuffer.head_ buffer)))) as [m Hm'];
    [lia|].
  rewrite (proj2 (array_get_Ok _ _ m)) by (split; [lia|done]). cbn [mbind outcome_bind].
  rewrite array_set_Ok by lia. cbn [mbind outcome_bind]. do 2 eexists. split; [done|].
  destruct stop; simpl; by rewrite length_insert.
Qed.

Lemma listener_total e stop s : legal s → ∃ r s', listener_part e stop s = Ok (r, s').
Proof using HU.
  intros Hs. unfold listener_part. destruct (negb (listener_ready s)); [by eauto|].
  destruct (negb (receiving s)); [destruct stop; [by eauto|]; destruct (LazyRingBuffer.try_get_head_ref _ _); by eauto|].
  destruct (datagram e) as [received|]; [|by eauto].
  destruct (listen_step_total received stop _ Hs) as (result & udp & -> & _). by do 2 eexists.
Qed.

Lemma listener_legal e stop s r s' : legal s → listener_part e stop s = Ok (r, s') → legal s'.
Proof using HU.
  intros Hs. unfold listener_part. destruct (negb (listener_ready s)); [by intros [= <- <-]|].
  destruct (negb (receiving s)).
  { destruct stop; [by intros [= <- <-]|]. destruct (LazyRingBuffer.try_get_head_ref _ _); by intros [= <- <-]. }
  destruct (datagram e) as [received|]; [|by intros [= <- <-]].
  destruct (listen_step_total received stop _ Hs) as (result & udp & -> & Hlen).
  cbn [mbind outcome_bind]. intros [= <- <-]. unfold legal in *. simpl. by rewrite Hlen.
Qed.

(** A set-up is never undone. *)
Definition more_ready s s' : Prop :=
  (client_ready s = true → client_ready s' = true) ∧ (listener_ready s = true → listener_ready s' = true).

Lemma patience_mono i s s' : more_ready s s' → (patience i s' ≤ patience i s)%nat.
Proof using Type.
  intros [Hc Hl]. destruct i as [|[|[|i]]]; simpl; try lia.
  - destruct (client_ready s); [by rewrite Hc|]. destruct (client_ready s'); lia.
  - destruct (listener_ready s); [by rewrite Hl|]. destruct (listener_ready s'); lia.
Qed.

Lemma listener_mono e stop s r s' : listener_part e stop s = Ok (r, s') → more_ready s s'.
Proof using Type.
  unfold listener_part, more_ready. destruct (negb (listener_ready s)) eqn:Hr.
  { intros [= _ <-]. simpl. by split. }
  destruct (negb (receiving s)).
  { destruct stop; [by intros [= _ <-]|]. destruct (LazyRingBuffer.try_get_head_ref _ _); by intros [= _ <-]. }
  destruct (datagram e); [|by intros [= _ <-]].
  destruct (MarketDataHandler.listen_step _ _ _ _) as [[result udp]| |]; [|done..]. by intros [= _ <-].
Qed.

Lemma ends_Some result r : ends result = Some r → ∃ err, r = Unexpected err.
Proof using Type. destruct result; [done|]. intros [= <-]. by eexists. Qed.

#[global] Instance parts_laws : PartsLaws t (outside W) HandlerError.t legal wakes patience.
Proof using HU.
  split.
  - intros i e b s r s' Hs Hb. destruct i as [|[|[|i]]]; simpl in Hb; unfold legal in *.
    + by rewrite (main_buffer _ _ _ _ Hb).
    + by rewrite (client_buffer _ _ _ _ _ Hb).
    + by rewrite (publisher_buffer _ _ _ _ Hb).
    + by eapply listener_legal.
  - intros i e s Hs. destruct i as [|[|[|i]]]; simpl; [by do 2 eexists| |by do 2 eexists|by apply listener_total].
    unfold client_part. destruct (negb (client_ready s)); by do 2 eexists.
  - intros i e s s' Hs. destruct i as [|[|[|i]]]; simpl; [done| |done|].
    + unfold client_part. destruct (client_ready s); simpl; [done|]. intros [= _ <-]. simpl. split; [|intros _]; lia.
    + unfold listener_part. destruct (listener_ready s) eqn:Hready; simpl.
      2: { intros [= _ <-]. simpl. split; [|intros _]; lia. }
      destruct (receiving s); simpl; [|done]. destruct (datagram e) as [received|]; simpl.
      2: { intros [= <-]. rewrite Hready. split; [lia|done]. }
      destruct (listen_step_total received true _ Hs) as ([] & udp & -> & _); done.
  - intros i j e s r s' Hs Hne. destruct i as [|[|[|i]]]; simpl.
    + intros [= _ <-]. done.
    + intros Hb. apply patience_mono. unfold client_part in Hb.
      destruct (negb (client_ready s)); by injection Hb as _ <-.
    + intros [= _ <-]. done.
    + intros Hb. by apply patience_mono, (listener_mono _ _ _ _ _ Hb).
  - intros i e s r s' Hs. destruct i as [|[|[|i]]]; simpl; try done.
    + unfold client_part. destruct (negb (client_ready s)); [by intros [= [? ->]%ends_Some _]|].
      destruct (SharedRingBuffer.try_pop _ _) as [[[request|] requests]| |]; [|done..]. cbn [mbind outcome_bind].
      destruct (RetransmitListener.handle_request _ _ _ _ _ _ _ _) as [[[[result rq] reorder] w]| |]; [|done..].
      by intros [= [? ->]%ends_Some _].
    + unfold listener_part. destruct (negb (listener_ready s)); [by intros [= [? ->]%ends_Some _]|].
      destruct (negb (receiving s)).
      { destruct (LazyRingBuffer.try_get_head_ref _ _); [done|by intros [= <- _]]. }
      destruct (datagram e) as [received|]; [|done].
      destruct (listen_step_total received false _ Hs) as ([] & udp & -> & _); [done|]. by intros [= <- _].
Qed.

(** ** Inside [recv] *)
Definition in_recv s : Prop := listener_ready s = true ∧ receiving s = true.

Lemma others_in_recv i e stop s r s' : i ≠ 3%nat → (i < 4)%nat → in_recv s → body i e stop s = Ok (r, s') → in_recv s'.
Proof using Type.
  intros Hi Hlt Hin. destruct i as [|[|[|[|i]]]]; [..|done|lia]; simpl; unfold in_recv in *.
  - unfold main_part. destruct stop; [by intros [= _ <-]|].
    destruct (MarketDataHandler.run_step _ _ _ _ _) as [[result hd]| |]; [|done..]. by intros [= _ <-].
  - unfold client_part. destruct (negb _); [by intros [= _ <-]|]. destruct stop; [by intros [= _ <-]|].
    destruct (SharedRingBuffer.try_pop _ _) as [[[request|] requests]| |]; [| |done..]; cbn [mbind outcome_bind];
      [|by intros [= _ <-]].
    destruct (RetransmitListener.handle_request _ _ _ _ _ _ _ _) as [[[[result rq] reorder] w]| |]; [|done..].
    by intros [= _ <-].
  - unfold publisher_part. destruct stop; [by intros [= _ <-]|].
    destruct (MarketEventPublisher.run_step _ _ _ _ _ _) as [[[ih reorder] buffer]| |]; [|done..]. by intros [= _ <-].
Qed.

Lemma listener_in_recv e stop s : in_recv s → datagram e = None → listener_part e stop s = Ok (None, s).
Proof using Type. intros [Hl Hr] Hd. unfold listener_part. by rewrite Hl, Hr, Hd. Qed.

(** The listener's thread runs and is inside [recv]. *)
Definition blocked (g : group t) : Prop :=
  length (running g) = 4%nat ∧ running g !! 3%nat = Some true ∧ in_recv (shared g).

Lemma step_blocked ev g g' : (∀ e, ev = Turn 3 e → datagram e = None) → blocked g → step ev g = Ok g' → blocked g'.
Proof using Type.
  intros Hev (Hlen & Hrun & Hin). destruct ev as [i e|]; simpl; [|by intros [= <-]].
  unfold thread_turn. destruct (decide (running g !! i = Some true)) as [Hi|]; [|by intros [= <-]].
  assert (i < 4)%nat as Hlt by (rewrite <- Hlen; by eapply lookup_lt_Some).
  destruct (body i e (stop g) (shared g)) as [[r s]| |] eqn:Hb; [|done..]. cbn [mbind outcome_bind].
  destruct (decide (i = 3%nat)) as [->|Hne].
  - simpl in Hb. rewrite (listener_in_recv _ _ _ Hin (Hev e eq_refl)) in Hb. injection Hb as <- <-. by intros [= <-].
  - pose proof (others_in_recv _ _ _ _ _ _ Hne Hlt Hin Hb) as Hin'.
    destruct r as [r|]; intros [= <-]; split_and!; try done; simpl; [by rewrite length_insert|by rewrite list_lookup_insert_ne].
Qed.
End Threads.
End HandlerThreads.

(** ** The properties *)

(** C16: the four threads of [MarketDataHandler::start] stop together, whatever launched them with
    the packet buffer's UDP slots allocated.  In every run of their turns that no undefined operation has cut short before the stop, with set-ups
    that fail, datagrams and answers that come or do not, stops from outside or a stop source that is
    already stopped: as soon as one of them has returned the stop is requested; and once the stop
    is requested, by a thread or from outside, nothing is undefined any more and [start]
    returns as soon as each thread that still runs has had two more turns - for the listener, which
    [recv] blocks, two turns that find a datagram or a failed [recv] (without one it may never return,
    [shutdown_waits_for_datagram]).  The groups of the two other processes are in ExchangeThreads and Runner. *)
Theorem threads_stop_together {W : Type} {SK : Socket W} (h : endian) (fresh : EncodedMessage.t) (fd : Z)
    (UDP RETRANSMIT REORDER MARKET : Z) `{PowerOfTwo UDP} (s : HandlerThreads.t) (stop_source_ external_stop : bool)
    (events : list (event (HandlerThreads.outside W))) (g : group HandlerThreads.t) :
  let run := run (P := HandlerThreads.parts h fresh fd UDP RETRANSMIT REORDER MARKET) in
  HandlerThreads.legal UDP s → run events (HandlerThreads.start s stop_source_ external_stop) = Ok g →
  (∀ i, running g !! i = Some false → stop g = true) ∧
  (stop g = true → ∀ more, (∀ i, running g !! i = Some true → (2 ≤ wakeups (wakes := HandlerThreads.wakes) i more)%nat) →
    ∃ g', run more g = Ok g' ∧ joined g').
Proof.
  intros run' Hs Hrun. unfold run' in *. pose proof (HandlerThreads.parts_laws h fresh fd UDP RETRANSMIT REORDER MARKET) as L.
  destruct (run_told (L := L) events _ g (start_told 4 s (stop_source_ || external_stop) Hs) Hrun) as [Hl Ht].
  split; [exact Ht|]. intros Hstop more Hmore. destruct (run_stopped (L := L) more g Hl Hstop) as (g' & Hr & _ & Hj); [|by exists g'].
  intros i Hi. specialize (Hmore i Hi).
  assert (HandlerThreads.patience i (shared g) ≤ 1)%nat by (destruct i as [|[|[|i]]]; simpl; try case_match; lia). lia.
Qed.

(** C40: the market data handler stops only when another datagram arrives: while
    the listener is inside [recv], no sequence of turns and stop requests in
    which the socket stays silent lets [start] return. *)
Theorem shutdown_waits_for_datagram {W : Type} {SK : Socket W} (h : endian) (fresh : EncodedMessage.t) (fd : Z)
    (UDP RETRANSMIT REORDER MARKET : Z) (events : list (event (HandlerThreads.outside W)))
    (g g' : group HandlerThreads.t) :
  HandlerThreads.blocked g → (∀ e, Turn 3 e ∈ events → HandlerThreads.datagram e = None) →
  run (P := HandlerThreads.parts h fresh fd UDP RETRANSMIT REORDER MARKET) events g = Ok g' →
  ¬ joined g'.
Proof.
  revert g. induction events as [|ev events IH]; intros g Hg Hsilent; simpl.
  - intros [= <-] Hj. destruct Hg as (_ & Hi & _). apply (Forall_lookup_1 _ _ _ _ Hj) in Hi. done.
  - destruct (step ev g) as [g1| |] eqn:Hs; [|done..]. cbn [mbind outcome_bind]. intros Hr.
    apply (IH g1); [|by intros e He; apply Hsilent; right|done].
    eapply HandlerThreads.step_blocked; [|exact Hg|exact Hs]. intros e ->. apply Hsilent. by left.
Qed.

Definition some_message : EncodedMessage.t :=
  {| EncodedMessage.header := {| MessageHeader.sequence_number := 0; MessageHeader.payload_length := 0 |};
     EncodedMessage.buffer := replicate 42 0 |}.

Definition idle_handler (receiving : bool) : HandlerThreads.t := {|
  HandlerThreads.handler := MarketDataHandler.init 2 2 2 some_message;
  HandlerThreads.in_hand := None;
  HandlerThreads.market_event_buffer := LazyRingBuffer.init 2
    {| RawEvent.type := 0; RawEvent.order_id := 0; RawEvent.price := 0; RawEvent.quantity := 0; RawEvent.side := 0 |};
  HandlerThreads.client_ready := receiving;
  HandlerThreads.listener_ready := receiving;
  HandlerThreads.receiving := receiving;
|}.

(** A turn's outside: no connection is ever used here. *)
Definition outside_with (opened : expected unit HandlerError.t) (datagram : option (option (list Z))) :
    HandlerThreads.outside Scripted.t := {|
  HandlerThreads.opened := opened;
  HandlerThreads.datagram := datagram;
  HandlerThreads.answer _ := {| Scripted.input := ∅; Scripted.output := ∅; Scripted.limits := [] |};
  HandlerThreads.stops := [];
|}.
Definition fine : HandlerThreads.outside Scripted.t := outside_with (Value tt) (Some (Some [])).
Definition refused : HandlerThreads.outside Scripted.t :=
  outside_with (Unexpected HandlerError.ConnectToRetransmitServer) None.

Abbreviation sample_parts := (HandlerThreads.parts LittleEndian some_message 5 2 2 2 2).

(** The client cannot connect; two more turns of each thread end the handler. *)
Lemma threads_stop_together_witness :
  ∃ g, run (P := sample_parts) [Turn 0 fine; Turn 3 fine; Turn 1 refused] (HandlerThreads.start (idle_handler false) false false) = Ok g ∧
    stop g = true ∧
    ∃ g', run (P := sample_parts) [Turn 0 fine; Turn 2 fine; Turn 3 fine; Turn 0 fine; Turn 2 fine; Turn 3 fine] g = Ok g' ∧ joined g'.
Proof.
  assert (PowerOfTwo 2) as H2 by (split; reflexivity).
  assert (∃ g, run (P := sample_parts) [Turn 0 fine; Turn 3 fine; Turn 1 refused] (HandlerThreads.start (idle_handler false) false false) = Ok g)
    as [g Hg] by (eexists; vm_compute; reflexivity).
  exists g. split; [exact Hg|].
  destruct (threads_stop_together LittleEndian some_message 5 2 2 2 2 (idle_handler false) false false _ g eq_refl Hg) as [Htold Hends].
  vm_compute in Hg. injection Hg as <-.
  split; [apply (Htold 1%nat); reflexivity|]. apply Hends; [reflexivity|].
  intros i Hi. destruct i as [|[|[|[|i]]]]; vm_compute in Hi; try discriminate Hi; vm_compute; lia.
Defined.

Definition blocked_group : group HandlerThreads.t :=
  {| shared := idle_handler true; stop := false; running := replicate 4 true |}.

(** A stop request, and every other thread returns; the listener does not. *)
Lemma shutdown_waits_for_datagram_witness :
  HandlerThreads.blocked blocked_group ∧
  ∃ g', run (P := sample_parts) [RequestStop; Turn 0 fine; Turn 1 fine; Turn 2 fine; Turn 3 refused] blocked_group = Ok g' ∧
    running g' = [false; false; false; true] ∧ ¬ joined g'.
Proof.
  assert (HandlerThreads.blocked blocked_group) as Hb by done. split; [exact Hb|].
  eexists. split; [vm_compute; reflexivity|]. split; [reflexivity|].
  apply (shutdown_waits_for_datagram LittleEndian some_message 5 2 2 2 2
    [RequestStop; Turn 0 fine; Turn 1 fine; Turn 2 fine; Turn 3 refused] blocked_group _ Hb).
  - intros e He. repeat (apply elem_of_cons in He as [He|He]; [by try (injection He as ->)|]). by apply elem_of_nil in He.
  - vm_compute. reflexivity.
Defined.
