(* ===== verification/HandlerProof.v ===== *)
(** * Gap detection and the reorder window

    What [GapDetector] requests, and how the writers of the reorder buffer and
    the retransmitted packets close the gaps. *)

From Stdlib Require Import Sorting.Sorted.
From S2P Require Import Prelude Types Bytes Codec CodecProof Ring RingBuffers ReorderBuffer Network Handler.

(** ** The requests of a sequence of arrivals *)

Fixpoint detect (arrivals : list Z) (most_recent : Z) : list RetransmitRequest.t * Z :=
  match arrivals with
  | [] => ([], most_recent)
  | id :: arrivals =>
      let '(request, most_recent) := GapDetector.has_gap
        {| MessageHeader.sequence_number := id; MessageHeader.payload_length := 0 |} most_recent in
      let '(requests, most_recent) := detect arrivals most_recent in
      (option_list request ++ requests, most_recent)
  end.

Definition asks (r : RetransmitRequest.t) (id : Z) : Prop :=
  RetransmitRequest.first_packet r ≤ id < RetransmitRequest.last_packet r.

(** [id] arrived, and before every id greater than it. *)
Definition arrived_in_order (arrivals : list Z) (id : Z) : Prop :=
  ∃ before after, arrivals = before ++ id :: after ∧ Forall (λ j, j < id) before.

Lemma has_gap_spec hd m : in_u 64 (m + 1) → in_u 64 (MessageHeader.sequence_number hd) →
  let k := MessageHeader.sequence_number hd in
  GapDetector.has_gap hd m =
    (if m + 1 <? k then Some {| RetransmitRequest.first_packet := m + 1; RetransmitRequest.last_packet := k |} else None,
     Z.max m k).
Proof.
  intros Hm Hk k. unfold GapDetector.has_gap. fold k. rewrite !(uwrap_small 64 (m + 1)) by done.
  destruct (Z.ltb_spec (m + 1) k); [f_equal; lia|].
  destruct (Z.eqb_spec k (m + 1)); f_equal; lia.
Qed.

Lemma arrived_in_order_cons k ids id : arrived_in_order (k :: ids) id ↔ id = k ∨ (k < id ∧ arrived_in_order ids id).
Proof.
  split.
  - intros (before & after & He & Hb). destruct before as [|j before]; simplify_eq/=; [by left|right].
    inversion Hb; subst. split; [done|]. by exists before, after.
  - intros [->|(Hlt & before & after & -> & Hb)]; [by exists [], ids|].
    exists (k :: before), after. split; [done|]. by constructor.
Qed.

Lemma arrived_in_order_elem ids id : arrived_in_order ids id → id ∈ ids.
Proof. intros (before & after & -> & _). set_solver. Qed.

Lemma sorted_lookup {A} (R : A → A → Prop) (l : list A) i j a b : StronglySorted R l →
  l !! i = Some a → l !! j = Some b → (i < j)%nat → R a b.
Proof.
  intros Hs. revert i j. induction Hs as [|c l Hs IH Hc]; intros [|i] [|j] Hi Hj Hij; simplify_eq/=; try lia.
  - by eapply Forall_lookup_1 in Hc.
  - apply (IH i j Hi Hj). lia.
Qed.

Lemma detect_spec ids m : in_u 64 (m + 1) → Forall (λ k, 0 ≤ k < 2 ^ 64 - 1) ids →
  let '(requests, m') := detect ids m in
  m' = foldr Z.max m ids ∧
  StronglySorted (λ r r', RetransmitRequest.last_packet r < RetransmitRequest.first_packet r') requests ∧
  Forall (λ r, m < RetransmitRequest.first_packet r < RetransmitRequest.last_packet r) requests ∧
  ∀ id, (∃ r, r ∈ requests ∧ asks r id) ↔ m < id ≤ m' ∧ ¬ arrived_in_order ids id.
Proof.
  revert m. induction ids as [|k ids IH]; intros m Hm Hids; cbn [detect].
  { split_and!; try constructor; [set_solver|lia]. }
  apply Forall_cons in Hids as [Hk Hids]. rewrite has_gap_spec by (simpl; unfold in_u in *; lia). simpl.
  specialize (IH (Z.max m k) ltac:(unfold in_u in *; lia) Hids).
  destruct (detect ids (Z.max m k)) as [requests m'] eqn:Hd. destruct IH as (Hm' & Hs & Hf & Hiff).
  assert (m' = Z.max k (foldr Z.max m ids)) as Hmax.
  { rewrite Hm'. clear. induction ids; simpl; lia. }
  assert (∀ id, m < id ≤ m' ∧ ¬ arrived_in_order (k :: ids) id ↔
    (m < id < k) ∨ (Z.max m k < id ≤ m' ∧ ¬ arrived_in_order ids id)) as Hsplit.
  { intros id. rewrite arrived_in_order_cons. split.
    - intros [Hid Hn]. destruct (Z.lt_trichotomy id k) as [Hlt|[->|Hgt]]; [left; lia|by destruct Hn; left|right].
      split; [lia|]. intros Ha. apply Hn. right. by split; [lia|].
    - intros [Hid|[Hid Hn]]; (split; [lia|]); intros [|[? ?]]; lia || done. }
  split_and!; [done| | |].
  - destruct (m + 1 <? k) eqn:E; simpl; [|done]. constructor; [done|].
    eapply Forall_impl; [exact Hf|]. intros r' [Hr' _]. simpl. lia.
  - assert (Forall (λ r, m < RetransmitRequest.first_packet r < RetransmitRequest.last_packet r) requests)
      by (eapply Forall_impl; [exact Hf|]; simpl; lia).
    destruct (Z.ltb_spec (m + 1) k); simpl; [|done]. constructor; [simpl; lia|done].
  - intros id. rewrite Hsplit, <- Hiff. destruct (Z.ltb_spec (m + 1) k) as [Hgap|Hgap]; simpl.
    + setoid_rewrite elem_of_cons. split.
      * intros (r & [->|Hr] & Ha); [left; unfold asks in Ha; simpl in Ha; lia|right; by exists r].
      * intros [Ha|(r & Hr & Ha)]; [|exists r; by split; [right|]]. eexists. split; [by left|]. unfold asks. simpl. lia.
    + split; [by right|]. intros [Ha|Ha]; [lia|done].
Qed.

(** C25: Whatever the order in which packets arrive, the handler asks for each
    missing packet exactly once and for nothing else: with [m] the last id seen
    and [m'] the greatest one now, a packet is in a requested range if and only
    if it lies in (m, m'] and did not arrive ahead of every greater id; the ranges are
    non-empty, increasing and disjoint. *)
Theorem gap_detector_asks_once (arrivals : list Z) (m : Z) :
  in_u 64 (m + 1) → Forall (λ k, 0 ≤ k < 2 ^ 64 - 1) arrivals →
  let '(requests, m') := detect arrivals m in
  m' = foldr Z.max m arrivals ∧
  (∀ id, (∃ r, r ∈ requests ∧ asks r id) ↔ m < id ≤ m' ∧ ¬ arrived_in_order arrivals id) ∧
  (∀ i j r r' id, requests !! i = Some r → requests !! j = Some r' → asks r id → asks r' id → i = j) ∧
  (∀ i j r r', requests !! i = Some r → requests !! j = Some r' → (i < j)%nat →
     RetransmitRequest.last_packet r < RetransmitRequest.first_packet r').
Proof.
  intros Hm Hids. pose proof (detect_spec arrivals m Hm Hids) as Hspec.
  destruct (detect arrivals m) as [requests m']. destruct Hspec as (Hmax & Hs & _ & Hiff).
  assert (∀ i j r r', requests !! i = Some r → requests !! j = Some r' → (i < j)%nat →
    RetransmitRequest.last_packet r < RetransmitRequest.first_packet r') as Hlt
    by (intros i j r r' Hi Hj Hij; exact (sorted_lookup _ _ _ _ _ _ Hs Hi Hj Hij)).
  split_and!; [done|done| |done]. intros i j r r' id Hi Hj Hr Hr'.
  destruct (Nat.lt_trichotomy i j) as [Hij|[|Hij]]; [|done|].
  - specialize (Hlt _ _ _ _ Hi Hj Hij). unfold asks in *. lia.
  - specialize (Hlt _ _ _ _ Hj Hi Hij). unfold asks in *. lia.
Qed.

Lemma gap_detector_asks_once_witness :
  detect [1; 4; 3; 9; 4; 7] 0 =
    ([{| RetransmitRequest.first_packet := 2; RetransmitRequest.last_packet := 4 |};
      {| RetransmitRequest.first_packet := 5; RetransmitRequest.last_packet := 9 |}], 9) ∧
  ∀ id, (∃ r, r ∈ (detect [1; 4; 3; 9; 4; 7] 0).1 ∧ asks r id) ↔ 0 < id ≤ 9 ∧ ¬ arrived_in_order [1; 4; 3; 9; 4; 7] id.
Proof.
  split; [reflexivity|].
  refine (proj1 (proj2 (gap_detector_asks_once [1; 4; 3; 9; 4; 7] 0 _ _))).
  - by vm_compute.
  - repeat constructor; by vm_compute.
Defined.

(** ** Closing the gaps *)

Section Cover.
Context {A : Type} (content : Z → A) (CAPACITY : Z).
Implicit Types (w : ReorderBuffer.window A) (wanted : Z → Prop).

(** Every packet up to [latest] was consumed, is in the window or is still
    wanted from the server. *)
Record covers (latest : Z) wanted w : Prop := {
  cov_next : ReorderBuffer.next w ≤ latest + 1;
  cov_pending i x : ReorderBuffer.pending w !! i = Some x → x = content i ∧ i ≤ latest;
  cov_all i : ReorderBuffer.next w ≤ i ≤ latest → is_Some (ReorderBuffer.pending w !! i) ∨ wanted i;
}.

Definition refused (st : ReorderBuffer.WriteStatus) : bool :=
  match st with ReorderBuffer.LikelySlowReader | ReorderBuffer.LikelySlowWriter => true | _ => false end.

Lemma covers_mono latest wanted wanted' w : (∀ i, wanted i → wanted' i) →
  covers latest wanted w → covers latest wanted' w.
Proof. intros Hw [Hn Hp Ha]. split; [done..|]. intros i Hi. destruct (Ha i Hi); auto. Qed.

Lemma covers_gap latest wanted w k : latest ≤ k → covers latest wanted w →
  covers k (λ i, latest < i ≤ k ∨ wanted i) w.
Proof.
  intros Hk [Hn Hp Ha]. split; [lia| |].
  - intros i x Hi. destruct (Hp i x Hi). split; [done|lia].
  - intros i Hi. destruct (Z.le_gt_cases i latest); [destruct (Ha i); [lia|by left|by right; right]|right; left; lia].
Qed.

Lemma covers_write latest wanted w k : k ≤ latest → covers latest (λ i, i = k ∨ wanted i) w →
  ReorderBuffer.next (ReorderBuffer.window_write CAPACITY (content k) k w).2 = ReorderBuffer.next w ∧
  (refused (ReorderBuffer.window_write CAPACITY (content k) k w).1 = false →
   covers latest wanted (ReorderBuffer.window_write CAPACITY (content k) k w).2).
Proof.
  intros Hk [Hn Hp Ha]. unfold ReorderBuffer.window_write.
  assert (is_Some (ReorderBuffer.pending w !! k) ∨ k < ReorderBuffer.next w → covers latest wanted w) as Hdone.
  { intros Hh. split; [done..|]. intros i Hi. destruct (Ha i Hi) as [|[->|]]; [by left| |by right].
    destruct Hh; [by left|lia]. }
  destruct (_ >=? _); [destruct (decide _); by split|].
  destruct (Z.ltb_spec k (ReorderBuffer.next w)); [split; auto|].
  destruct (decide _) as [Hs|Hns]; [split; auto|]. split; [done|intros _]. split; simpl; [done| |].
  - intros i x. rewrite lookup_insert_Some. intros [[<- <-]|[_ Hi]]; [done|by apply Hp].
  - intros i Hi. destruct (decide (i = k)) as [->|Hne]; [left; by rewrite lookup_insert_eq|].
    rewrite lookup_insert_ne by done. destruct (Ha i Hi) as [|[|]]; [by left|done|by right].
Qed.

Lemma covers_consume latest wanted w : covers latest wanted w →
  covers latest wanted (ReorderBuffer.window_consume w).2 ∧
  match (ReorderBuffer.window_consume w).1 with
  | Some x => x = content (ReorderBuffer.next w) ∧
      ReorderBuffer.next (ReorderBuffer.window_consume w).2 = ReorderBuffer.next w + 1
  | None => (ReorderBuffer.window_consume w).2 = w ∧ (ReorderBuffer.next w ≤ latest → wanted (ReorderBuffer.next w))
  end.
Proof.
  intros Hc. pose proof Hc as [Hn Hp Ha]. unfold ReorderBuffer.window_consume.
  destruct (ReorderBuffer.pending w !! ReorderBuffer.next w) as [x|] eqn:Hx; simpl.
  - destruct (Hp _ _ Hx) as [-> Hle]. split; [|done]. split; simpl; [lia| |].
    + intros i y. rewrite lookup_delete_Some. intros [_ Hi]. by apply Hp.
    + intros i Hi. rewrite lookup_delete_ne by lia. apply Ha. lia.
  - split; [done|]. split; [done|]. intros Hle. destruct (Ha (ReorderBuffer.next w)) as [[? He]|]; [lia|congruence|done].
Qed.
End Cover.

(** ** Packets *)

(** One of two byte sequences goes on where the other stops. *)
Definition agrees {A} (l k : list A) : Prop := l `prefix_of` k ∨ k `prefix_of` l.

Lemma agrees_split {A} (got rest bytes more : list A) : length got = length bytes →
  agrees (got ++ rest) (bytes ++ more) → got = bytes ∧ agrees rest more.
Proof.
  intros Hlen [[z Hz]|[z Hz]]; rewrite <- (assoc_L (++)) in Hz; apply app_inj_1 in Hz as [-> Hz]; try done;
    (split; [done|]); [left|right]; by exists z.
Qed.

Lemma agrees_app {A} (l k more : list A) : agrees l (k ++ more) → agrees l k.
Proof.
  intros [Hl|Hl]; [|right; etransitivity; [|exact Hl]; by apply prefix_app_r].
  by eapply prefix_weak_total; [exact Hl|apply prefix_app_r].
Qed.

Section Packets.
Context (events : Z → MarketEvent.t).

Definition packet_header (k : Z) : MessageHeader.t :=
  {| MessageHeader.sequence_number := k; MessageHeader.payload_length := 18 |}.
Definition packet_data (k : Z) : list Z := event_wire (events k).
(** What the exchange puts on the wire for packet [k]. *)
Definition packet (k : Z) : list Z := header_wire (packet_header k) ++ packet_data k.

(** The sequencer's message for the [k]-th event is packet [k]. *)
Lemma generated_packet h (fresh : list Z) k : is_buffer fresh → 0 < k → k < 2 ^ 64 →
  ∃ m, Sequencer.generate_message h fresh k (events k) = Ok (m, u64 (k + 1)) ∧ EncodedMessage.message m = Ok (packet k).
Proof.
  intros Hfresh H0 Hk. unfold Sequencer.generate_message. cbv zeta. rewrite encode_wire.
  assert (length (event_wire (events k)) = 18%nat) as Hl by apply event_wire_length. rewrite Hl.
  change (u16 (Z.of_nat 18)) with 18. fold (packet_header k).
  destruct (make_serialize h _ (packet_header k) (event_wire (events k)) Hfresh ltac:(lia)) as (m & Hm & Hh & Hb).
  exists m. destruct (EncodedMessage.make _ _ _) as [m0| |]; [|done..]. cbn [mbind outcome_bind] in *. rewrite Hm.
  split; [done|]. unfold EncodedMessage.message. rewrite Hh, Hb. unfold packet, packet_data.
  rewrite app_assoc. apply subspan_prefix. rewrite length_app, header_wire_length, Hl.
  unfold MessageHeader.wire_size. cbn. by rewrite (proj2 (Z.eqb_neq k 0)) by lia.
Qed.

(** Packets [a], ..., [b - 1] one after the other. *)
Definition packet_stream (a b : Z) : list Z := concat (packet <$> seqZ a (b - a)).

(** What a server has sent of an answer, cut anywhere: of the packets asked for, or of those
    before some packet and then of a header that announces an error. *)
Definition answering (a b : Z) (bytes : list Z) : Prop :=
  agrees bytes (packet_stream a b) ∨
  ∃ k hd, a ≤ k < b ∧ MessageHeader.wf hd ∧ MessageHeader.sequence_number hd = 0 ∧ agrees bytes (packet_stream a k ++ header_wire hd).

(** A message buffer that starts with packet [k]. *)
Definition holds_packet (m : EncodedMessage.t) (k : Z) : Prop :=
  is_buffer (EncodedMessage.buffer m) ∧ ∃ rest, EncodedMessage.buffer m = packet k ++ rest.

Lemma packet_length k : length (packet k) = 28%nat.
Proof. unfold packet, packet_data. by rewrite length_app, header_wire_length, event_wire_length. Qed.

Lemma packet_stream_cons a b : a < b → packet_stream a b = packet a ++ packet_stream (a + 1) b.
Proof.
  intros Hab. unfold packet_stream. rewrite (seqZ_cons a) by lia. simpl.
  by replace (b - (a + 1)) with (Z.pred (b - a)) by lia.
Qed.

Lemma packet_header_wf k : in_u 64 k → MessageHeader.wf (packet_header k).
Proof. intros. split; [done|]. by split. Qed.

Lemma decode_packet h m k : in_u 64 k → holds_packet m k →
  let m' := EncodedMessage.decode_header_from_buffer h m in
  EncodedMessage.header m' = packet_header k ∧ EncodedMessage.get_payload_ref m' = Ok (packet_data k).
Proof.
  intros Hk (_ & rest & Hr). destruct m as [hd buffer]. cbn [EncodedMessage.buffer] in Hr. subst buffer.
  unfold packet. rewrite <- app_assoc, decode_header by (by apply packet_header_wf).
  split; [done|]. unfold EncodedMessage.get_payload_ref.
  cbn [EncodedMessage.header EncodedMessage.buffer packet_header MessageHeader.payload_length].
  change (assert_ _) with (Ok tt). cbn [mbind outcome_bind].
  apply subspan_middle; [by rewrite header_wire_length|]. unfold packet_data. by rewrite event_wire_length.
Qed.

(** ** Writing a packet to the reorder buffer *)

Context (REORDER_BUFFER_SIZE : Z) {HR : PowerOfTwo REORDER_BUFFER_SIZE}.

Lemma write_packet reorder w k latest wanted : k ≤ latest →
  ReorderBuffer.rep REORDER_BUFFER_SIZE reorder w →
  covers packet_data latest (λ i, i = k ∨ wanted i) w →
  ∃ result reorder' w', write_market_data_to_reorder_buffer REORDER_BUFFER_SIZE reorder (packet_data k) k =
      Ok (result, reorder') ∧
    ReorderBuffer.rep REORDER_BUFFER_SIZE reorder' w' ∧ ReorderBuffer.next w' = ReorderBuffer.next w ∧
    (result = Value tt → covers packet_data latest wanted w').
Proof.
  intros Hk Hrep Hc. unfold write_market_data_to_reorder_buffer.
  assert (EncodedMessage.subspan 0 BinaryProtocol.BUFFER_SIZE (packet_data k) = Ok (packet_data k)) as ->.
  { pose proof (subspan_prefix (packet_data k) [] BinaryProtocol.BUFFER_SIZE) as Hs. rewrite app_nil_r in Hs.
    apply Hs. unfold packet_data. by rewrite event_wire_length. }
  cbn [mbind outcome_bind]. unfold ReorderBuffer.try_write_span.
  assert (Z.of_nat (length (packet_data k)) = BinaryProtocol.BUFFER_SIZE) as -> by (unfold packet_data; by rewrite event_wire_length). rewrite Z.eqb_refl.
  cbn [assert_ mbind outcome_bind]. destruct (ReorderBuffer.try_write_to_spec _ _ _ (packet_data k) k Hrep) as (reorder' & -> & Hrep').
  destruct (covers_write packet_data REORDER_BUFFER_SIZE latest wanted w k Hk Hc) as [Hnext Hcov].
  cbn [mbind outcome_bind]. eexists _, reorder', _. split_and!; [done|exact Hrep'|done|].
  destruct (ReorderBuffer.window_write _ _ _ _) as [[] w'] eqn:E; simpl in *; try done; intros _; by apply Hcov.
Qed.

(** ** Retransmitted packets *)

Context {W : Type} {SK : Socket W} {L : SocketLaws W} (h : endian) (fresh : EncodedMessage.t) (fd : Z)
  (Hfresh : is_buffer (EncodedMessage.buffer fresh)).

Lemma recv_range_all buffer start stop w bytes rest :
  0 ≤ start ≤ stop → stop ≤ Z.of_nat (length buffer) →
  agrees (incoming w fd) (bytes ++ rest) → start + Z.of_nat (length bytes) = stop →
  ∃ st got w', recv_range fd buffer start stop w =
      Ok (st, EncodedMessage.overwrite (Z.to_nat start) got buffer, start + Z.of_nat (length got), w') ∧
    (length got ≤ length bytes)%nat ∧ (st = Network.Success → got = bytes ∧ agrees (incoming w' fd) rest).
Proof.
  intros Hs He Hin Hlen. destruct (recv_range_spec fd buffer start stop w Hs He)
    as (st & got & w' & Hrun & (_ & Hin' & _) & Hle & Hst).
  exists st, got, w'. split; [done|]. split; [lia|]. intros Hsucc. rewrite Hin' in Hin.
  apply agrees_split; [|done]. apply Hst in Hsucc. lia.
Qed.

(** A whole header, whatever it announces. *)
Lemma receive_any_header w hd rest : MessageHeader.wf hd → agrees (incoming w fd) (header_wire hd ++ rest) →
  ∃ st m w', RetransmitListener.receive_and_decode_header h fd fresh w = Ok (match st with
      | ReceiveError _ => Unexpected HandlerError.RetransmitClientReceive
      | ConnectionClosed => Unexpected HandlerError.RetransmitServer
      | Success => if MessageHeader.sequence_number hd =? 0 then Unexpected HandlerError.RetransmitServer else Value tt
      end, m, w') ∧
    (st = Network.Success → EncodedMessage.header m = hd ∧ is_buffer (EncodedMessage.buffer m) ∧
       take 10 (EncodedMessage.buffer m) = header_wire hd ∧ agrees (incoming w' fd) rest).
Proof.
  intros Hhd Hin. pose proof (buffer_length _ Hfresh) as Hbl. unfold RetransmitListener.receive_and_decode_header.
  destruct (recv_range_all (EncodedMessage.buffer fresh) 0 MessageHeader.PACKED_WIRE_SIZE w _ _
    ltac:(done) ltac:(rewrite Hbl; done) Hin) as (st & got & w1 & -> & _ & Hst); [by rewrite header_wire_length|].
  cbn [mbind outcome_bind]. exists st. destruct st as [| |e]; [|by eexists _, w1..].
  destruct (Hst eq_refl) as [-> Hin1]. unfold EncodedMessage.overwrite.
  rewrite take_0, app_nil_l, header_wire_length, decode_header by done. cbn [EncodedMessage.header].
  eexists _, w1. split; [by destruct (_ =? 0)|intros _].
  cbn [EncodedMessage.buffer]. split_and!; [done| |by apply take_app_length'; rewrite header_wire_length|done].
  unfold is_buffer. rewrite length_app, header_wire_length, length_drop, Hbl. done.
Qed.

Lemma receive_header_spec w k rest : in_u 64 k → 0 < k → agrees (incoming w fd) (packet k ++ rest) →
  ∃ result m w', RetransmitListener.receive_and_decode_header h fd fresh w = Ok (result, m, w') ∧
    (result = Value tt → EncodedMessage.header m = packet_header k ∧ is_buffer (EncodedMessage.buffer m) ∧
       take 10 (EncodedMessage.buffer m) = header_wire (packet_header k) ∧ agrees (incoming w' fd) (packet_data k ++ rest)).
Proof.
  intros Hk Hk0 Hin. unfold packet in Hin. rewrite <- app_assoc in Hin.
  destruct (receive_any_header w (packet_header k) _ (packet_header_wf k Hk) Hin) as (st & m & w' & -> & Hst).
  eexists _, m, w'. split; [done|]. destruct st as [| |e]; [|done..]. intros _. by apply Hst.
Qed.

Lemma receive_refusal_spec reorder w k hd : MessageHeader.wf hd → MessageHeader.sequence_number hd = 0 →
  agrees (incoming w fd) (header_wire hd) →
  ∃ e w', RetransmitListener.receive_packet h fresh REORDER_BUFFER_SIZE fd k reorder w = Ok (Unexpected e, reorder, w').
Proof.
  intros Hhd H0 Hin. rewrite <- (app_nil_r (header_wire hd)) in Hin.
  destruct (receive_any_header w hd [] Hhd Hin) as (st & m & w' & Hrun & _). unfold RetransmitListener.receive_packet. rewrite Hrun, H0.
  cbn [mbind outcome_bind]. destruct st as [| |e]; by eexists _, w'.
Qed.

Lemma receive_payload_spec m w k rest : EncodedMessage.header m = packet_header k →
  is_buffer (EncodedMessage.buffer m) → take 10 (EncodedMessage.buffer m) = header_wire (packet_header k) →
  agrees (incoming w fd) (packet_data k ++ rest) →
  ∃ result m' w', RetransmitListener.receive_payload fd m w = Ok (result, m', w') ∧
    (result = Value tt → EncodedMessage.header m' = packet_header k ∧
       EncodedMessage.get_payload_ref m' = Ok (packet_data k) ∧ agrees (incoming w' fd) rest).
Proof.
  intros Hh Hb%buffer_length Ht Hin. assert (length (packet_data k) = 18%nat) as Hl by apply event_wire_length.
  unfold RetransmitListener.receive_payload, EncodedMessage.get_payload_ref. rewrite Hh.
  cbv zeta. cbn [packet_header MessageHeader.payload_length].
  change (assert_ (0 <? 18)) with (Ok tt). change (assert_ (18 <=? Config.MAX_MESSAGE_BYTES)) with (Ok tt).
  cbn [mbind outcome_bind].
  rewrite (subspan_ok MessageHeader.PACKED_WIRE_SIZE 18) by (done || rewrite Hb; done). cbn [mbind outcome_bind].
  set (span := take _ _). assert (length span = 18%nat) as Hspan by (unfold span; rewrite length_take, length_drop, Hb; done).
  destruct (recv_range_all span 0 18 w _ _ ltac:(done) ltac:(rewrite Hspan; done) Hin)
    as (st & got & w1 & -> & Hgot & Hst); [by rewrite Hl|].
  cbn [mbind outcome_bind]. eexists _, _, w1. split; [done|].
  destruct st as [| |e]; [|done..]. intros _. destruct (Hst eq_refl) as [-> Hin1]. simpl.
  split; [done|]. split; [|done]. unfold EncodedMessage.overwrite.
  rewrite take_0, app_nil_l, drop_ge, app_nil_r, Hl by (rewrite Hl, Hspan; done).
  change (Z.to_nat MessageHeader.PACKED_WIRE_SIZE) with 10%nat. rewrite Ht.
  apply subspan_middle; [by rewrite header_wire_length|by rewrite Hl].
Qed.

Lemma receive_packet_spec reorder win w k latest wanted rest : in_u 64 k → 0 < k ≤ latest →
  ReorderBuffer.rep REORDER_BUFFER_SIZE reorder win →
  covers packet_data latest (λ i, i = k ∨ wanted i) win →
  agrees (incoming w fd) (packet k ++ rest) →
  ∃ result reorder' win' w', RetransmitListener.receive_packet h fresh REORDER_BUFFER_SIZE fd k reorder w =
      Ok (result, reorder', w') ∧
    ReorderBuffer.rep REORDER_BUFFER_SIZE reorder' win' ∧ ReorderBuffer.next win' = ReorderBuffer.next win ∧
    (result = Value tt → covers packet_data latest wanted win' ∧ agrees (incoming w' fd) rest).
Proof.
  intros Hk Hkl Hrep Hc Hin. unfold RetransmitListener.receive_packet.
  destruct (receive_header_spec w k rest Hk (proj1 Hkl) Hin) as (r1 & m1 & w1 & -> & H1). cbn [mbind outcome_bind].
  destruct r1 as [[]|e]; [|by eexists _, reorder, win, w1].
  destruct (H1 eq_refl) as (Hh1 & Hb1 & Ht1 & Hin1).
  destruct (receive_payload_spec m1 w1 k rest Hh1 Hb1 Ht1 Hin1) as (r2 & m2 & w2 & -> & H2). cbn [mbind outcome_bind].
  destruct r2 as [[]|e]; [|by eexists _, reorder, win, w2].
  destruct (H2 eq_refl) as (Hh2 & -> & Hin2). cbn [mbind outcome_bind]. rewrite Hh2.
  assert (length (packet_data k) = 18%nat) as -> by apply event_wire_length. change (assert_ (Z.of_nat 18 =? _)) with (Ok tt).
  cbn [mbind outcome_bind packet_header MessageHeader.sequence_number]. rewrite Z.eqb_refl. cbn [assert_].
  destruct (write_packet reorder win k latest wanted) as (r3 & reorder' & win' & -> & Hrep' & Hn & Hc'); [lia|done..|].
  cbn [mbind outcome_bind]. exists r3, reorder', win', w2. split_and!; [done..|]. intros Hr. by split; [apply Hc'|].
Qed.

(** Nothing else is read for a packet that is not refused. *)
Lemma answering_next a b bytes : a < b → answering a b bytes →
  (∃ hd, MessageHeader.wf hd ∧ MessageHeader.sequence_number hd = 0 ∧ agrees bytes (header_wire hd)) ∨
  ∃ rest, agrees bytes (packet a ++ rest) ∧ ∀ bytes', agrees bytes' rest → answering (a + 1) b bytes'.
Proof using.
  intros Hab [Hin|(k & hd & Hk & Hhd & H0 & Hin)].
  - rewrite packet_stream_cons in Hin by done. right. eexists. split; [exact Hin|]. intros. by left.
  - destruct (decide (a = k)) as [->|Hne]; [left; exists hd|right].
    + unfold packet_stream in Hin. rewrite seqZ_nil in Hin by lia. done.
    + rewrite packet_stream_cons, <- app_assoc in Hin by lia. eexists. split; [exact Hin|].
      intros. right. exists k, hd. split; [lia|done].
Qed.

(** A server that answers a request with its packets, as far as it gets: unless it breaks off, the transport
    fails or the window is overrun, every packet asked for gets into the window. *)
Lemma receive_packets_spec fuel reorder win w a b latest wanted :
  0 < a → b ≤ latest → latest < 2 ^ 64 → b - a ≤ Z.of_nat fuel →
  ReorderBuffer.rep REORDER_BUFFER_SIZE reorder win →
  covers packet_data latest (λ i, a ≤ i < b ∨ wanted i) win →
  (a < b → answering a b (incoming w fd)) →
  ∃ result request' reorder' win' w',
    RetransmitListener.receive_packets h fresh REORDER_BUFFER_SIZE fd fuel
      {| RetransmitRequest.first_packet := a; RetransmitRequest.last_packet := b |} [] reorder w =
      Ok (result, request', reorder', w') ∧
    ReorderBuffer.rep REORDER_BUFFER_SIZE reorder' win' ∧ ReorderBuffer.next win' = ReorderBuffer.next win ∧
    (result = Value tt → covers packet_data latest wanted win').
Proof.
  assert (∀ (reorder : ReorderBuffer.t (list Z)) win (w : W) a, b ≤ a → ReorderBuffer.rep REORDER_BUFFER_SIZE reorder win → covers packet_data latest (λ i, a ≤ i < b ∨ wanted i) win →
    ∃ result request' reorder' win' w', Ok (Value (A := unit) (E := HandlerError.t) tt,
      {| RetransmitRequest.first_packet := a; RetransmitRequest.last_packet := b |}, reorder, w) = Ok (result, request', reorder', w') ∧
    ReorderBuffer.rep REORDER_BUFFER_SIZE reorder' win' ∧ ReorderBuffer.next win' = ReorderBuffer.next win ∧
    (result = Value tt → covers packet_data latest wanted win')) as Hend.
  { intros reorder0 win0 w0 a0 Hba Hrep Hc. eexists _, _, reorder0, win0, w0. split_and!; [done..|].
    intros _. eapply covers_mono; [|done]. simpl. intros i [|]; (lia || done). }
  revert reorder win w a. induction fuel as [|fuel IH]; intros reorder win w a Ha Hb Hlast Hf Hrep Hc Hin; simpl.
  - rewrite (proj2 (Z.ltb_ge a b)) by lia. apply Hend; (lia || done).
  - destruct (Z.ltb_spec a b) as [Hab|Hab]; [|by apply Hend]. simpl. specialize (Hin Hab).
    destruct (answering_next a b _ Hab Hin) as [(hd & Hhd & H0 & Hin1)|(rest & Hin1 & Hnext)].
    { destruct (receive_refusal_spec reorder w a hd Hhd H0 Hin1) as (e & w1 & ->). cbn [mbind outcome_bind].
      by eexists _, _, reorder, win, w1. }
    destruct (receive_packet_spec reorder win w a latest (λ i, a + 1 ≤ i < b ∨ wanted i) rest) as (r & reorder1 & win1 & w1 & -> & Hrep1 & Hn1 & H1);
      [unfold in_u; lia|lia|done| |done|].
    { eapply covers_mono; [|done]. simpl. intros i [|]; [|by right; right]. destruct (decide (i = a)); [by left|right; left; lia]. }
    cbn [mbind outcome_bind]. destruct r as [[]|e]; [|by eexists _, _, reorder1, win1, w1].
    destruct (H1 eq_refl) as [Hc1 Hin2]. rewrite uwrap_small by (unfold in_u; lia).
    destruct (IH reorder1 win1 w1 (a + 1) ltac:(lia) Hb Hlast ltac:(lia) Hrep1 Hc1 (λ _, Hnext _ Hin2))
      as (result & req & reorder' & win' & w' & -> & Hrep' & Hn' & H').
    eexists _, _, reorder', win', w'. split_and!; [done..|congruence|done].
Qed.
End Packets.

(** The handler trusts the length field of a datagram.  On the next packet in
    sequence, whatever the state, a header that announces fewer payload bytes
    than an encoded event has, or more than a message can hold, is undefined
    behaviour: [subspan] of a shorter span, or a failed assertion. *)
Theorem handler_length_undefined (h : endian) (RETRANSMIT REORDER : Z) (m : EncodedMessage.t) (s : MarketDataHandler.t) :
  let hd := EncodedMessage.header (EncodedMessage.decode_header_from_buffer h m) in
  MessageHeader.sequence_number hd = u64 (MarketDataHandler.gap_detector_ s + 1) →
  MessageHeader.payload_length hd < BinaryProtocol.BUFFER_SIZE ∨ Config.MAX_MESSAGE_BYTES < MessageHeader.payload_length hd →
  MarketDataHandler.handle_packet h RETRANSMIT REORDER m s = Undefined.
Proof.
  cbv zeta. set (m' := EncodedMessage.decode_header_from_buffer h m). intros Hseq Hlen.
  unfold MarketDataHandler.handle_packet, GapDetector.has_gap. cbv zeta. fold m'. rewrite Hseq.
  rewrite Z.ltb_irrefl, Z.eqb_refl. cbn [mbind outcome_bind negb].
  unfold EncodedMessage.get_payload_ref. set (n := MessageHeader.payload_length _) in *.
  destruct (Z.leb_spec n Config.MAX_MESSAGE_BYTES) as [Hle|]; [|done]. cbn [assert_ mbind outcome_bind].
  unfold EncodedMessage.subspan at 1. destruct (_ <=? _); [|done]. cbn [mbind outcome_bind].
  unfold write_market_data_to_reorder_buffer, EncodedMessage.subspan.
  rewrite (proj2 (Z.leb_gt (0 + BinaryProtocol.BUFFER_SIZE) _)); [done|].
  change BinaryProtocol.BUFFER_SIZE with 18 in *. destruct Hlen; [|lia]. rewrite length_take. lia.
Qed.

Definition fresh_handler : MarketDataHandler.t :=
  MarketDataHandler.init 4 4 8 {| EncodedMessage.header := packet_header 0; EncodedMessage.buffer := [] |}.

(** Packet 1 with a payload of 17 bytes. *)
Definition short_packet : EncodedMessage.t :=
  {| EncodedMessage.header := packet_header 0;
     EncodedMessage.buffer := [0; 0; 0; 0; 0; 0; 0; 1; 0; 17] ++ replicate 32 0 |}.

Lemma handler_length_undefined_witness :
  MarketDataHandler.handle_packet LittleEndian 4 8 short_packet fresh_handler = Undefined.
Proof.
  apply (handler_length_undefined LittleEndian 4 8 short_packet fresh_handler).
  - reflexivity.
  - left. reflexivity.
Defined.
