(* ===== verification/Feed.v ===== *)
(** * The market data handler as a whole

    The threads of [MarketDataHandler] composed at the granularity of their
    rounds: the exchange's datagrams arrive in any order, any number of times
    or never; the listener, the handler, the retransmit client, the publisher
    and the strategy's side take their rounds in any order. *)

From S2P Require Import Prelude Interfaces Types Bytes Codec CodecProof Ring RingBuffers ReorderBuffer Network Handler HandlerProof.

Module Feed.

Record t : Type := {
  handler : MarketDataHandler.t;
  in_hand : option (list Z);
  market_event_buffer : LazyRingBuffer.t RawEvent.t;
  delivered : list RawEvent.t;
  stopped : option HandlerError.t;
}.

(** [Serve answer]: a round of the retransmit client, with the connection it
    finds when it has the request. *)
Inductive op (W : Type) : Type :=
  | Datagram (id : Z)
  | Handle
  | Serve (answer : RetransmitRequest.t → W)
  | Publish
  | Deliver.
Arguments Datagram {W} id.
Arguments Handle {W}.
Arguments Serve {W} answer.
Arguments Publish {W}.
Arguments Deliver {W}.

Section Rounds.
Context {W : Type} {SK : Socket W} (h h' : endian) (events : Z → MarketEvent.t) (fresh : EncodedMessage.t) (fd : Z).
Context (UDP RETRANSMIT REORDER MARKET : Z).

Definition init (m : EncodedMessage.t) (e : RawEvent.t) : t := {|
  handler := MarketDataHandler.init UDP RETRANSMIT REORDER m;
  in_hand := None;
  market_event_buffer := LazyRingBuffer.init MARKET e;
  delivered := [];
  stopped := None;
|}.

(** What the exchange (a host of byte order [h']) broadcasts for its [id]-th event. *)
Definition datagram (id : Z) : outcome (list Z) :=
  '(message, _) ← Sequencer.generate_message h' (EncodedMessage.buffer fresh) id (events id);
  EncodedMessage.message message.

Definition set_handler (hd : MarketDataHandler.t) (s : t) : t :=
  {| handler := hd; in_hand := in_hand s; market_event_buffer := market_event_buffer s;
     delivered := delivered s; stopped := stopped s |}.
(** An error makes its thread request the stop of all. *)
Definition check (result : expected unit HandlerError.t) (s : t) : t :=
  match result with
  | Value _ => s
  | Unexpected e => {| handler := handler s; in_hand := in_hand s; market_event_buffer := market_event_buffer s;
                       delivered := delivered s; stopped := Some e |}
  end.

Definition listen (id : Z) (s : t) : outcome t :=
  bytes ← datagram id;
  let hd := handler s in
  '(result, udp) ← MarketDataHandler.listen_step UDP (Some bytes) false (MarketDataHandler.udp_packet_buffer_ hd);
  Ok (check result (set_handler
    {| MarketDataHandler.udp_packet_buffer_ := udp; MarketDataHandler.gap_detector_ := MarketDataHandler.gap_detector_ hd;
       MarketDataHandler.retransmit_request_buffer_ := MarketDataHandler.retransmit_request_buffer_ hd;
       MarketDataHandler.reorder_buffer_ := MarketDataHandler.reorder_buffer_ hd |} s)).

Definition handle (s : t) : outcome t :=
  '(result, hd) ← MarketDataHandler.run_step h UDP RETRANSMIT REORDER (handler s);
  Ok (check (default (Value tt) result) (set_handler hd s)).

Definition serve (answer : RetransmitRequest.t → W) (s : t) : outcome t :=
  let hd := handler s in
  '(request, requests) ← SharedRingBuffer.try_pop RETRANSMIT (MarketDataHandler.retransmit_request_buffer_ hd);
  match request with
  | None => Ok s
  | Some request =>
      '(result, _, reorder, _) ← RetransmitListener.handle_request h fresh REORDER fd request []
        (MarketDataHandler.reorder_buffer_ hd) (answer request);
      Ok (check result (set_handler
        {| MarketDataHandler.udp_packet_buffer_ := MarketDataHandler.udp_packet_buffer_ hd;
           MarketDataHandler.gap_detector_ := MarketDataHandler.gap_detector_ hd;
           MarketDataHandler.retransmit_request_buffer_ := requests;
           MarketDataHandler.reorder_buffer_ := reorder |} s))
  end.

Definition publish (s : t) : outcome t :=
  let hd := handler s in
  '(in_hand', reorder, buffer) ← MarketEventPublisher.run_step h MARKET REORDER (in_hand s)
    (MarketDataHandler.reorder_buffer_ hd) (market_event_buffer s);
  Ok {| handler := {| MarketDataHandler.udp_packet_buffer_ := MarketDataHandler.udp_packet_buffer_ hd;
                      MarketDataHandler.gap_detector_ := MarketDataHandler.gap_detector_ hd;
                      MarketDataHandler.retransmit_request_buffer_ := MarketDataHandler.retransmit_request_buffer_ hd;
                      MarketDataHandler.reorder_buffer_ := reorder |};
        in_hand := in_hand'; market_event_buffer := buffer; delivered := delivered s; stopped := stopped s |}.

Definition deliver (s : t) : outcome t :=
  popped ← LazyRingBuffer.pop MARKET (market_event_buffer s);
  Ok match popped with
     | None => s
     | Some (e, buffer) => {| handler := handler s; in_hand := in_hand s; market_event_buffer := buffer;
                              delivered := delivered s ++ [e]; stopped := stopped s |}
     end.

Definition step (o : op W) (s : t) : outcome t :=
  match stopped s with
  | Some _ => Ok s
  | None =>
      match o with
      | Datagram id => listen id s
      | Handle => handle s
      | Serve answer => serve answer s
      | Publish => publish s
      | Deliver => deliver s
      end
  end.

Fixpoint run (ops : list (op W)) (s : t) : outcome t :=
  match ops with
  | [] => Ok s
  | o :: ops => s ← step o s; run ops s
  end.

(** No thread has anything left to do. *)
Definition quiet (s : t) : Prop :=
  LazyRingBuffer.empty (MarketDataHandler.udp_packet_buffer_ (handler s)) = true ∧
  SharedRingBuffer.empty (MarketDataHandler.retransmit_request_buffer_ (handler s)) = true ∧
  in_hand s = None ∧
  ReorderBuffer.try_consume_next REORDER (MarketDataHandler.reorder_buffer_ (handler s)) =
    Ok (None, MarketDataHandler.reorder_buffer_ (handler s)) ∧
  LazyRingBuffer.empty (market_event_buffer s) = true.

(** The ids of the datagrams that arrived. *)
Definition arrived (ops : list (op W)) : list Z :=
  omap (λ o, match o with Datagram id => Some id | _ => None end) ops.

(** What the connection carries, cut anywhere, is an answer of the server: the packets
    asked for, or some of them and then an error; for requests about the first [LAST] events. *)
Definition answers (LAST : Z) (o : op W) : Prop :=
  match o with
  | Serve answer => ∀ request, Config.FIRST_SEQUENCE_ID ≤ RetransmitRequest.first_packet request →
      RetransmitRequest.first_packet request < RetransmitRequest.last_packet request →
      RetransmitRequest.last_packet request ≤ LAST →
      answering events (RetransmitRequest.first_packet request) (RetransmitRequest.last_packet request) (incoming (answer request) fd)
  | _ => True
  end.
End Rounds.
End Feed.
