(* ===== verification/FeedProof.v ===== *)
(** * The strategy receives the exchange's events

    The invariant of [Feed] and the recovery theorem: whatever the network does
    to the datagrams, the events come out in sequence and without loss. *)

From S2P Require Import Prelude Interfaces Types Bytes Codec CodecProof Ring RingBuffers RingUse ReorderBuffer Network Handler HandlerProof Feed.

(** ** The invariant *)

Section Invariant.
Context {W : Type} {SK : Socket W} {L : SocketLaws W} (h h' : endian) (events : Z → MarketEvent.t)
  (fresh : EncodedMessage.t) (fd : Z) (UDP RETRANSMIT REORDER MARKET : Z)
  {HU : PowerOfTwo UDP} {HT : PowerOfTwo RETRANSMIT} {HR : PowerOfTwo REORDER} {HM : PowerOfTwo MARKET}.
Context (Hsizes : UDP < 2 ^ 64 ∧ RETRANSMIT < 2 ^ 64 ∧ REORDER ≤ 2 ^ 63 ∧ MARKET < 2 ^ 64)
  (LAST : Z) (Hlast : 0 ≤ LAST ∧ LAST + REORDER + 2 ≤ 2 ^ 64)
  (Hevents : ∀ k, MarketEvent.wf (events k)) (Hfresh : is_buffer (EncodedMessage.buffer fresh)).
#[local] Abbreviation FIRST := Config.FIRST_SEQUENCE_ID.

(** The exchange has broadcast packets up to [LAST]. *)
Definition id_ok (k : Z) : Prop := FIRST ≤ k ≤ LAST.
Definition raw (k : Z) : RawEvent.t := RawEvent.of_event (events k).
(** The exchange's events from the first up to number [k - 1]. *)
Definition events_below (k : Z) : list RawEvent.t := raw <$> seqZ FIRST (k - FIRST).

(** The packet in the publisher's hands is the last one it consumed. *)
Definition unpublished (hand : option (list Z)) (next : Z) : Z :=
  match hand with None => next | Some _ => next - 1 end.

Record inv (seen : list Z) (s : Feed.t) (U : list EncodedMessage.t) (R : list RetransmitRequest.t)
    (w : ReorderBuffer.window (list Z)) (O : list RawEvent.t) : Prop := {
  i_udp : lazy_repr UDP (MarketDataHandler.udp_packet_buffer_ (Feed.handler s)) U;
  i_slots : Forall (λ m, is_buffer (EncodedMessage.buffer m))
    (LazyRingBuffer.buffer_ (MarketDataHandler.udp_packet_buffer_ (Feed.handler s)));
  i_packets : Forall (λ m, ∃ k, id_ok k ∧ holds_packet events m k) U;
  i_requests : shared_repr RETRANSMIT (MarketDataHandler.retransmit_request_buffer_ (Feed.handler s)) R;
  i_ranges : Forall (λ r, (0 < RetransmitRequest.first_packet r ∧
      RetransmitRequest.first_packet r < RetransmitRequest.last_packet r) ∧
    RetransmitRequest.last_packet r ≤ MarketDataHandler.gap_detector_ (Feed.handler s)) R;
  i_latest : 0 ≤ MarketDataHandler.gap_detector_ (Feed.handler s) ≤ LAST;
  i_reorder : ReorderBuffer.rep REORDER (MarketDataHandler.reorder_buffer_ (Feed.handler s)) w;
  i_covers : covers (packet_data events) (MarketDataHandler.gap_detector_ (Feed.handler s))
    (λ i, ∃ r, r ∈ R ∧ asks r i) w;
  i_market : lazy_repr MARKET (Feed.market_event_buffer s) O;
  i_first : FIRST ≤ unpublished (Feed.in_hand s) (ReorderBuffer.next w);
  i_hand d : Feed.in_hand s = Some d → d = packet_data events (ReorderBuffer.next w - 1);
  i_out : Feed.delivered s ++ O = events_below (unpublished (Feed.in_hand s) (ReorderBuffer.next w));
  i_seen : Forall (λ k, k ≤ MarketDataHandler.gap_detector_ (Feed.handler s) ∨
    ∃ m, m ∈ U ∧ id_ok k ∧ holds_packet events m k) seen;
}.

(** In sequence, without loss or repetition, at all times. *)
Definition in_sequence (s : Feed.t) : Prop := ∃ n, 0 ≤ n ≤ LAST ∧ Feed.delivered s = raw <$> seqZ FIRST n.

Definition good (seen : list Z) (s : Feed.t) : Prop :=
  in_sequence s ∧ (Feed.stopped s = None → ∃ U R w O, inv seen s U R w O).

Lemma inv_in_sequence seen s U R w O : inv seen s U R w O → in_sequence s.
Proof.
  intros Hi. pose proof (i_out _ _ _ _ _ _ Hi) as Ho. pose proof (i_first _ _ _ _ _ _ Hi) as Hf.
  set (n := unpublished _ _) in *. exists (Z.of_nat (length (Feed.delivered s))).
  pose proof (cov_next _ _ _ _ (i_covers _ _ _ _ _ _ Hi)) as Hnext. pose proof (i_latest _ _ _ _ _ _ Hi) as Hlatest.
  assert (n ≤ ReorderBuffer.next w) as Hn by (unfold n, unpublished; destruct (Feed.in_hand s); lia).
  assert (length (Feed.delivered s) ≤ length (events_below n))%nat as Hl by (rewrite <- Ho, length_app; lia).
  unfold events_below in *. rewrite length_fmap, length_seqZ in Hl. change FIRST with 1 in *. split; [lia|].
  assert (n - 1 = Z.of_nat (length (Feed.delivered s)) + (n - 1 - Z.of_nat (length (Feed.delivered s)))) as He by lia.
  rewrite He, seqZ_app, fmap_app in Ho by lia. apply app_inj_1 in Ho as [Ho _]; [done|].
  rewrite length_fmap, length_seqZ. lia.
Qed.

Lemma check_good seen result s : in_sequence s → Feed.stopped s = None →
  (result = Value tt → ∃ U R w O, inv seen s U R w O) → good seen (Feed.check result s).
Proof. intros Hs Hn Hr. destruct result as [[]|e]; simpl; [split; [done|]; intros _; by apply Hr|by split]. Qed.

Lemma events_below_next k : FIRST ≤ k → events_below (k + 1) = events_below k ++ [raw k].
Proof.
  intros Hk. unfold events_below. replace (k + 1 - FIRST) with (k - FIRST + 1) by lia.
  rewrite seqZ_app, fmap_app by lia. f_equal. rewrite seqZ_cons by done. simpl. do 2 f_equal. lia.
Qed.

Lemma id_ok_u64 k : id_ok k → in_u 64 k ∧ 0 < k.
Proof. unfold id_ok, in_u. change FIRST with 1. pose proof (pot_pos (c := REORDER)). lia. Qed.

Lemma datagram_packet k : id_ok k → Feed.datagram h' events fresh k = Ok (packet events k).
Proof.
  intros [[? ?] ?]%id_ok_u64. unfold Feed.datagram.
  destruct (generated_packet events h' (EncodedMessage.buffer fresh) k Hfresh) as (m & -> & Hm); [lia..|done].
Qed.

Lemma listen_good id seen s U R w O : id_ok id → inv seen s U R w O → Feed.stopped s = None →
  ∃ s', Feed.listen h' events fresh UDP id s = Ok s' ∧ good (seen ++ [id]) s'.
Proof.
  intros Hid Hi Hrun. unfold Feed.listen, MarketDataHandler.listen_step. rewrite datagram_packet by done.
  cbn [mbind outcome_bind]. cbv zeta. pose proof (inv_in_sequence _ _ _ _ _ _ Hi) as Hseq. destruct Hi.
  pose proof (lazy_claim UDP ltac:(lia) _ _ i_udp0) as Hclaim.
  destruct (LazyRingBuffer.try_get_head_ref UDP _) as [slot|].
  2: { cbn [mbind outcome_bind]. eexists. split; [done|]. by apply check_good. }
  destruct Hclaim as [(old & Hread & Hold) Hwrite]. rewrite Hread. cbn [mbind outcome_bind].
  rewrite Forall_forall in i_slots0. pose proof (i_slots0 _ Hold) as Hbuf. rewrite <- Forall_forall in i_slots0.
  set (m := {| EncodedMessage.header := _; EncodedMessage.buffer := _ |}).
  assert (holds_packet events m id) as Hm.
  { pose proof (buffer_length _ Hbuf) as Hbl. unfold m, holds_packet. cbn [EncodedMessage.buffer].
    rewrite take_ge by (by rewrite packet_length; vm_compute; lia). split.
    - unfold is_buffer. by rewrite overwrite_length by (rewrite packet_length, Hbl; lia).
    - eexists. unfold EncodedMessage.overwrite. by rewrite take_0, app_nil_l. }
  destruct (Hwrite m) as (udp & Hw & Hrepr & Hkeep). rewrite Hw. cbn [mbind outcome_bind].
  eexists. split; [done|]. apply check_good; [done..|]. intros _. exists (U ++ [m]), R, w, O.
  split; simpl; try done.
  - apply Hkeep; [done|]. apply Hm.
  - apply Forall_app. split; [done|]. constructor; [by exists id|done].
  - apply Forall_app. split.
    + eapply Forall_impl; [exact i_seen0|]. intros k [|(m' & Hin & Hok & Hp)]; [by left|right].
      exists m'. split; [set_solver|done].
    + constructor; [|done]. right. exists m. split; [set_solver|done].
Qed.
(** What is still missing after packet [k] is [k] itself or in a queued request. *)
Lemma covers_arrival (latest : Z) (R : list RetransmitRequest.t) w (k : Z) : covers (packet_data events) latest (λ i, ∃ r, r ∈ R ∧ asks r i) w →
  covers (packet_data events) (Z.max latest k) (λ i, i = k ∨ ∃ r : RetransmitRequest.t, r ∈ R ++
    option_list (if latest + 1 <? k
      then Some {| RetransmitRequest.first_packet := latest + 1; RetransmitRequest.last_packet := k |} else None) ∧ asks r i) w.
Proof.
  intros Hc. destruct (Z.le_gt_cases k latest) as [Hle|Hgt].
  - rewrite Z.max_l by done. eapply covers_mono; [|exact Hc]. intros i (r & Hr & Ha). right. exists r. split; [set_solver|done].
  - rewrite Z.max_r by lia. eapply covers_mono; [|apply covers_gap; [|exact Hc]; lia]. simpl.
    intros i [Hi|(r & Hr & Ha)]; [|right; exists r; split; [set_solver|done]].
    destruct (decide (i = k)) as [|Hne]; [by left|right]. rewrite (proj2 (Z.ltb_lt _ _)) by lia.
    eexists. split; [apply elem_of_app; right; apply list_elem_of_singleton; reflexivity|]. unfold asks. simpl. lia.
Qed.

(** The push of the detector's request, if it made one. *)
Lemma push_request (request : option RetransmitRequest.t) requests (R : list RetransmitRequest.t) : shared_repr RETRANSMIT requests R →
  ∃ queued requests', match request with
    | None => Ok (true, requests)
    | Some r => SharedRingBuffer.try_push_internal RETRANSMIT r requests
    end = Ok (queued, requests') ∧
    (queued = true → shared_repr RETRANSMIT requests' (R ++ option_list request)).
Proof.
  intros Hr. destruct request as [r|]; simpl; [|rewrite app_nil_r; by eexists _, _].
  destruct (shared_push RETRANSMIT ltac:(lia) r _ _ Hr) as [[-> _]|(requests' & -> & Hr')]; by eexists _, _.
Qed.

Lemma handle_good seen s U R w O : inv seen s U R w O → Feed.stopped s = None →
  ∃ s', Feed.handle h UDP RETRANSMIT REORDER s = Ok s' ∧ good seen s'.
Proof.
  intros Hi Hrun. unfold Feed.handle, MarketDataHandler.run_step.
  pose proof (inv_in_sequence _ _ _ _ _ _ Hi) as Hseq. pose proof Hi as Hinv. destruct Hi.
  pose proof (lazy_front UDP _ _ i_udp0) as Hfront.
  destruct (LazyRingBuffer.try_get_tail_ref UDP _) as [slot|].
  2: { cbn [mbind outcome_bind]. eexists. split; [done|]. split; [done|]. intros _. by exists U, R, w, O. }
  destruct Hfront as (m & U' & -> & Hread & Hrepr). rewrite Hread. cbn [mbind outcome_bind].
  apply Forall_cons in i_packets0 as [(k & Hid & Hm) HU']. pose proof (id_ok_u64 k Hid) as [Hk Hk0].
  unfold MarketDataHandler.handle_packet. destruct (decode_packet events h m k Hk Hm) as [Hh Hp].
  set (latest := MarketDataHandler.gap_detector_ _) in *.
  rewrite Hh. rewrite has_gap_spec by (simpl; unfold in_u in *; pose proof (pot_pos (c := REORDER)); lia).
  cbn [packet_header MessageHeader.sequence_number].
  destruct (push_request (if latest + 1 <? k
      then Some {| RetransmitRequest.first_packet := latest + 1; RetransmitRequest.last_packet := k |} else None)
    _ _ i_requests0) as (queued & requests' & -> & Hq). cbn [mbind outcome_bind].
  destruct queued; cbn [negb].
  2: { cbn [mbind outcome_bind]. eexists. split; [done|]. by apply check_good. }
  rewrite Hp. cbn [mbind outcome_bind].
  destruct (write_packet events REORDER _ w k (Z.max latest k) _ ltac:(lia) i_reorder0 (covers_arrival _ _ _ k i_covers0))
    as (result & reorder' & w' & -> & Hrep' & Hn & Hc'). cbn [mbind outcome_bind].
  eexists. split; [done|]. apply check_good; [done..|]. simpl. intros Hres. eexists U', _, w', O.
  specialize (Hq eq_refl). specialize (Hc' Hres). split; simpl; try rewrite Hn; try done.
  - apply Forall_app. split.
    + eapply Forall_impl; [exact i_ranges0|]. simpl. lia.
    + destruct (Z.ltb_spec (latest + 1) k); simpl; constructor; simpl; [lia|done].
  - unfold id_ok in Hid. lia.
  - eapply Forall_impl; [exact i_seen0|]. intros j [Hj|(m' & Hin & Hj & Hm')]; [left; lia|].
    apply elem_of_cons in Hin as [->|Hin]; [left|right; by exists m'].
    destruct (decode_packet events h m j (proj1 (id_ok_u64 j Hj)) Hm') as [Hh' _].
    rewrite Hh in Hh'. injection Hh' as ->. lia.
Qed.
(** The retransmit client on a request that the server answers, as far as it gets. *)
Lemma retransmit_request_spec request reorder win w latest wanted :
  0 < RetransmitRequest.first_packet request → RetransmitRequest.last_packet request ≤ latest → latest < 2 ^ 64 →
  ReorderBuffer.rep REORDER reorder win →
  covers (packet_data events) latest (λ i, asks request i ∨ wanted i) win →
  answering events (RetransmitRequest.first_packet request) (RetransmitRequest.last_packet request) (incoming w fd) →
  ∃ result request' reorder' win' w', RetransmitListener.handle_request h fresh REORDER fd request [] reorder w =
      Ok (result, request', reorder', w') ∧
    ReorderBuffer.rep REORDER reorder' win' ∧ ReorderBuffer.next win' = ReorderBuffer.next win ∧
    (result = Value tt → covers (packet_data events) latest wanted win').
Proof.
  intros Hf Hl Hl64 Hrep Hc Hin. unfold RetransmitListener.handle_request, RetransmitListener.send_request_to_server.
  cbv zeta. set (bytes := RetransmitRequest.serialize h request).
  destruct (send_range_spec fd bytes 0 (Z.of_nat (length bytes)) w ltac:(lia) ltac:(lia))
    as (sent & n & w1 & -> & (_ & Hin1 & _) & _). simpl in Hin1. cbn [mbind outcome_bind].
  destruct sent as [[]|e]; [|by eexists _, _, reorder, win, w1].
  rewrite Hin1 in Hin. destruct request as [a b]. simpl in *.
  destruct (receive_packets_spec events REORDER h fresh fd Hfresh (Z.to_nat (b - a)) reorder win w1 a b latest wanted)
    as (result & request' & reorder' & win' & w' & -> & Hrep' & Hn & Hc'); [lia..|done|done|done|].
  eexists _, _, reorder', win', w'. split_and!; [done..|]. intros Hr. by apply Hc'.
Qed.

Lemma serve_good answer seen s U R w O : Feed.answers events fd LAST (Feed.Serve answer) → inv seen s U R w O →
  Feed.stopped s = None → ∃ s', Feed.serve h fresh fd RETRANSMIT REORDER answer s = Ok s' ∧ good seen s'.
Proof.
  intros Hans Hi Hrun. unfold Feed.serve. cbv zeta.
  pose proof (inv_in_sequence _ _ _ _ _ _ Hi) as Hseq. pose proof Hi as Hinv. destruct Hi.
  pose proof (shared_pop RETRANSMIT _ _ i_requests0) as Hpop. destruct R as [|r R].
  { rewrite Hpop. cbn [mbind outcome_bind]. exists s. split; [done|]. split; [done|]. intros _. by exists U, [], w, O. }
  destruct Hpop as (requests & -> & Hreq). cbn [mbind outcome_bind].
  apply Forall_cons in i_ranges0 as [[[Hf Hfl] Hl] Hranges].
  specialize (Hans r ltac:(change FIRST with 1; lia) Hfl ltac:(lia)).
  destruct (retransmit_request_spec r (MarketDataHandler.reorder_buffer_ (Feed.handler s)) w (answer r) (MarketDataHandler.gap_detector_ (Feed.handler s))
    (λ i, ∃ r0 : RetransmitRequest.t, r0 ∈ R ∧ asks r0 i) Hf Hl) as (result & r' & reorder' & win' & w' & -> & Hrep' & Hn & Hc');
    [pose proof (pot_pos (c := REORDER)); lia|done| |done|].
  { eapply covers_mono; [|exact i_covers0]. simpl. intros i (r' & [->|Hr']%elem_of_cons & Ha); [by left|right; by exists r']. }
  cbn [mbind outcome_bind]. eexists. split; [done|]. apply check_good; [done..|]. intros Hres.
  specialize (Hc' Hres). exists U, R, win', O. split; simpl; try rewrite Hn; done.
Qed.

Lemma publish_good seen s U R w O : inv seen s U R w O → Feed.stopped s = None →
  ∃ s', Feed.publish h REORDER MARKET s = Ok s' ∧ good seen s'.
Proof.
  intros Hi Hrun. unfold Feed.publish, MarketEventPublisher.run_step. cbv zeta.
  pose proof (inv_in_sequence _ _ _ _ _ _ Hi) as Hseq. pose proof Hi as Hinv. destruct Hi.
  destruct (Feed.in_hand s) as [d|] eqn:Hhand; simpl in *.
  - rewrite (i_hand0 d eq_refl) in *. pose proof (lazy_claim MARKET ltac:(lia) _ _ i_market0) as Hclaim.
    destruct (LazyRingBuffer.try_get_head_ref MARKET _) as [slot|].
    + destruct Hclaim as [_ Hwrite]. unfold packet_data. rewrite decode_wire by apply Hevents. cbn [mbind outcome_bind].
      destruct (Hwrite (raw (ReorderBuffer.next w - 1))) as (b & Hw & Hrepr & _). unfold raw in Hw. rewrite Hw.
      cbn [mbind outcome_bind]. eexists. split; [done|]. split; [done|]. intros _.
      exists U, R, w, (O ++ [raw (ReorderBuffer.next w - 1)]). split; simpl; try done; [lia|].
      rewrite app_assoc, i_out0, <- events_below_next by done. f_equal. lia.
    + cbn [mbind outcome_bind]. eexists. split; [done|]. split; [done|]. intros _. exists U, R, w, O.
      split; simpl; try done. by intros d' [= <-].
  - destruct (ReorderBuffer.try_consume_next_spec REORDER _ w i_reorder0) as (reorder' & -> & Hrep').
    { pose proof (cov_next _ _ _ _ i_covers0). lia. }
    cbn [mbind outcome_bind]. destruct (covers_consume _ _ _ _ i_covers0) as [Hc' Hres].
    destruct (ReorderBuffer.window_consume w) as [item w'] eqn:Hw. simpl in *.
    eexists. split; [done|]. split; [done|]. intros _. exists U, R, w', O. destruct item as [x|].
    + destruct Hres as [-> Hn]. split; simpl; try rewrite Hn; try done; rewrite ?Z.add_simpl_r; try done.
      intros d' [= <-]. by f_equal.
    + destruct Hres as [-> _]. by split.
Qed.

Lemma deliver_good seen s U R w O : inv seen s U R w O → Feed.stopped s = None →
  ∃ s', Feed.deliver MARKET s = Ok s' ∧ good seen s'.
Proof.
  intros Hi Hrun. unfold Feed.deliver, LazyRingBuffer.pop. pose proof Hi as Hinv. destruct Hi.
  pose proof (lazy_front MARKET _ _ i_market0) as Hfront.
  destruct (LazyRingBuffer.try_get_tail_ref MARKET _) as [slot|].
  2: { cbn [mbind outcome_bind]. eexists. split; [done|]. split; [by eapply inv_in_sequence|]. intros _. by exists U, R, w, O. }
  destruct Hfront as (e & O' & -> & -> & Hrepr). cbn [mbind outcome_bind]. eexists. split; [done|].
  set (s' := {| Feed.handler := _ |}).
  assert (inv seen s' U R w O') as Hi' by (split; simpl; try done; by rewrite <- app_assoc).
  split; [by eapply inv_in_sequence|]. intros _. by exists U, R, w, O'.
Qed.
Lemma init_good m e : is_buffer (EncodedMessage.buffer m) → good [] (Feed.init UDP RETRANSMIT REORDER MARKET m e).
Proof.
  intros Hm. pose proof (pot_pos (c := REORDER)). split; [exists 0; split; [lia|done]|]. intros _.
  exists [], [], {| ReorderBuffer.next := FIRST; ReorderBuffer.pending := ∅ |}, [].
  split; simpl; try done.
  - by apply ring_repr_init.
  - by apply Forall_replicate.
  - by apply (ring_repr_init RETRANSMIT).
  - change GapDetector.init with 0. lia.
  - apply (ReorderBuffer.init_rep REORDER); [done|]. change FIRST with 1. lia.
  - change GapDetector.init with 0. change FIRST with 1. split; simpl; first [done | lia | intros i x; by rewrite lookup_empty].
  - by apply ring_repr_init.
Qed.

(** The datagrams carry ids the cursors have room for; the server has the packets. *)
Definition op_ok (o : Feed.op W) : Prop :=
  Feed.answers events fd LAST o ∧ match o with Feed.Datagram id => id_ok id | _ => True end.

Lemma step_good o seen s : op_ok o → good seen s →
  ∃ s', Feed.step h h' events fresh fd UDP RETRANSMIT REORDER MARKET o s = Ok s' ∧ good (seen ++ Feed.arrived [o]) s'.
Proof.
  intros [Ha Hid] [Hseq Hinv]. unfold Feed.step. destruct (Feed.stopped s) eqn:Hs.
  { exists s. split; [done|]. split; [done|]. by rewrite Hs. }
  destruct (Hinv eq_refl) as (U & R & w & O & Hi).
  destruct o as [id| |answer| |]; simpl; rewrite ?app_nil_r.
  - by eapply listen_good.
  - by eapply handle_good.
  - by eapply serve_good.
  - by eapply publish_good.
  - by eapply deliver_good.
Qed.

Lemma run_good ops seen s : Forall op_ok ops → good seen s →
  ∃ s', Feed.run h h' events fresh fd UDP RETRANSMIT REORDER MARKET ops s = Ok s' ∧ good (seen ++ Feed.arrived ops) s'.
Proof.
  intros Hops. revert seen s. induction Hops as [|o ops Ho Hops IH]; intros seen s Hs; cbn [Feed.run].
  { exists s. unfold Feed.arrived. simpl. by rewrite app_nil_r. }
  destruct (step_good o seen s Ho Hs) as (s1 & -> & Hs1). cbn [mbind outcome_bind].
  destruct (IH _ _ Hs1) as (s' & -> & Hs'). exists s'. split; [done|].
  replace (Feed.arrived (o :: ops)) with (Feed.arrived [o] ++ Feed.arrived ops) by (by destruct o).
  rewrite app_assoc. exact Hs'.
Qed.

(** Once nothing is left to do, everything that arrived has been delivered. *)
Lemma quiet_complete seen s U R w O : inv seen s U R w O → Feed.quiet REORDER s →
  Feed.delivered s = events_below (ReorderBuffer.next w) ∧ Forall (λ k, k < ReorderBuffer.next w) seen.
Proof.
  intros Hi (HU0 & HR0 & Hh0 & Hw0 & HO0). destruct Hi.
  rewrite (lazy_empty UDP _ _ i_udp0) in HU0. apply bool_decide_eq_true in HU0 as ->.
  rewrite (shared_empty RETRANSMIT _ _ i_requests0) in HR0. apply bool_decide_eq_true in HR0 as ->.
  rewrite (lazy_empty MARKET _ _ i_market0) in HO0. apply bool_decide_eq_true in HO0 as ->.
  rewrite Hh0 in *. simpl in *. rewrite app_nil_r in i_out0. split; [done|].
  destruct (ReorderBuffer.try_consume_next_spec REORDER _ w i_reorder0) as (reorder' & Htry & _).
  { pose proof (cov_next _ _ _ _ i_covers0). lia. }
  rewrite Hw0 in Htry. injection Htry as Hnone _.
  destruct (covers_consume _ _ _ _ i_covers0) as [_ Hres]. rewrite <- Hnone in Hres. destruct Hres as [_ Hwant].
  assert (MarketDataHandler.gap_detector_ (Feed.handler s) < ReorderBuffer.next w) as Hlt.
  { apply Z.lt_nge. intros Hle. by destruct (Hwant Hle) as (r & Hr%elem_of_nil & _). }
  eapply Forall_impl; [exact i_seen0|]. intros k [Hk|(m & Hm%elem_of_nil & _)]; [lia|done].
Qed.
(** A run from the start. *)
Lemma feed_run m e ops : is_buffer (EncodedMessage.buffer m) → Forall (Feed.answers events fd LAST) ops → Forall id_ok (Feed.arrived ops) →
  ∃ s n, Feed.run h h' events fresh fd UDP RETRANSMIT REORDER MARKET ops (Feed.init UDP RETRANSMIT REORDER MARKET m e) = Ok s ∧
    0 ≤ n ≤ LAST ∧ Feed.delivered s = raw <$> seqZ FIRST n ∧
    (Feed.stopped s = None → Feed.quiet REORDER s → Forall (λ k, k < FIRST + n) (Feed.arrived ops)).
Proof.
  intros Hm Hans Harr. destruct (run_good ops [] (Feed.init UDP RETRANSMIT REORDER MARKET m e)) as (s & Hrun & [n Hn] & Hinv).
  - apply Forall_forall. intros o Ho. rewrite Forall_forall in Hans. rewrite Forall_forall in Harr. split; [by apply Hans|].
    destruct o as [id| | | |]; try done. apply Harr. unfold Feed.arrived. apply list_elem_of_omap.
    by exists (Feed.Datagram id).
  - by apply init_good.
  - destruct Hn as [Hn Hd]. exists s, n. split_and!; [done|lia|lia|done|]. intros Hstop Hquiet.
    destruct (Hinv Hstop) as (U & R & w & O & Hi). destruct (quiet_complete _ _ _ _ _ _ Hi Hquiet) as [Hall Hseen].
    eapply Forall_impl; [exact Hseen|]. intros k Hk. simpl in Hk. unfold events_below in Hall.
    assert (length (Feed.delivered s) = length (Feed.delivered s)) as Hl by done.
    rewrite Hd in Hl at 1. rewrite Hall, !length_fmap, !length_seqZ in Hl. lia.
Qed.
End Invariant.

(** The market data handler recovers the exchange's event stream.  Let the
    exchange broadcast its sequenced events up to number [LAST] over a network that loses,
    duplicates and reorders datagrams at will, let every request to the retransmit
    server be met by part of the packets asked for, or by some of them and an error, and let the listener, handler, retransmit
    client, publisher and strategy take their rounds in any order.  Then no
    round is undefined; what the strategy has received at any time is the exchange's
    events from the first on, in sequence, without loss or duplicate, and none that was not broadcast; and
    when no thread has stopped with an error and none has anything left to do, every
    event up to the greatest id that arrived has been received. *)
Theorem market_data_recovers {W} `{SocketLaws W} (h h' : endian) (events : Z → MarketEvent.t) (fresh : EncodedMessage.t)
    (fd UDP RETRANSMIT REORDER MARKET LAST : Z) `{PowerOfTwo UDP, PowerOfTwo RETRANSMIT, PowerOfTwo REORDER, PowerOfTwo MARKET}
    (m : EncodedMessage.t) (e : RawEvent.t) (ops : list (Feed.op W)) :
  UDP < 2 ^ 64 ∧ RETRANSMIT < 2 ^ 64 ∧ REORDER ≤ 2 ^ 63 ∧ MARKET < 2 ^ 64 → 0 ≤ LAST ∧ LAST + REORDER + 2 ≤ 2 ^ 64 →
  (∀ k, MarketEvent.wf (events k)) → is_buffer (EncodedMessage.buffer fresh) → is_buffer (EncodedMessage.buffer m) →
  Forall (Feed.answers events fd LAST) ops → Forall (λ k, Config.FIRST_SEQUENCE_ID ≤ k ≤ LAST) (Feed.arrived ops) →
  ∃ s n, Feed.run h h' events fresh fd UDP RETRANSMIT REORDER MARKET ops
      (Feed.init UDP RETRANSMIT REORDER MARKET m e) = Ok s ∧
    0 ≤ n ≤ LAST ∧ Feed.delivered s = (λ k, RawEvent.of_event (events k)) <$> seqZ Config.FIRST_SEQUENCE_ID n ∧
    (Feed.stopped s = None → Feed.quiet REORDER s →
     Forall (λ k, k < Config.FIRST_SEQUENCE_ID + n) (Feed.arrived ops)).
Proof.
  intros Hsizes Hlast Hev Hfresh Hm Hans Harr.
  by apply (feed_run h h' events fresh fd UDP RETRANSMIT REORDER MARKET Hsizes LAST Hlast Hev Hfresh m e ops).
Qed.

(** A run over small buffers: packets 2 and 3 are overtaken by 4, 3 arrives late,
    2 only from the server; then everything is published and delivered. *)
Definition test_event (k : Z) : MarketEvent.t :=
  {| MarketEvent.order := {| Order.order_id := k; Order.price := -7; Order.quantity := 10; Order.side := Side.Sell |};
     MarketEvent.type := MarketEvent.Add |}.
Definition test_message : EncodedMessage.t :=
  {| EncodedMessage.header := packet_header 0; EncodedMessage.buffer := replicate 42 170 |}.
Definition test_server (request : RetransmitRequest.t) : Scripted.t :=
  {| Scripted.input := {[ 5 := packet_stream (λ k, test_event (k mod 1000)) (RetransmitRequest.first_packet request)
                                (RetransmitRequest.last_packet request) ]};
     Scripted.output := ∅; Scripted.limits := [16; 3; 7]%nat |}.
Definition test_ops : list (Feed.op Scripted.t) :=
  [Feed.Datagram 1; Feed.Handle; Feed.Publish; Feed.Datagram 4; Feed.Datagram 4; Feed.Handle; Feed.Publish;
   Feed.Publish; Feed.Datagram 3; Feed.Handle; Feed.Handle; Feed.Serve test_server]
  ++ concat (replicate 4 [Feed.Publish; Feed.Publish; Feed.Deliver]).
Definition test_start : Feed.t := Feed.init 4 4 8 4 test_message (RawEvent.of_event (test_event 0)).
Definition test_run : outcome Feed.t :=
  Feed.run LittleEndian BigEndian (λ k, test_event (k mod 1000)) test_message 5 4 4 8 4 test_ops test_start.

Example test_run_result : (λ s, (RawEvent.order_id <$> Feed.delivered s, Feed.stopped s)) <$> test_run = Ok ([1; 2; 3; 4], None).
Proof. vm_compute. reflexivity. Qed.

Lemma market_data_recovers_witness :
  ∃ s n, test_run = Ok s ∧ 0 ≤ n ≤ 4 ∧
    Feed.delivered s = (λ k, RawEvent.of_event (test_event (k mod 1000))) <$> seqZ Config.FIRST_SEQUENCE_ID n ∧
    (Feed.stopped s = None → Feed.quiet 8 s → Forall (λ k, k < Config.FIRST_SEQUENCE_ID + n) [1; 4; 4; 3]).
Proof.
  assert (PowerOfTwo 4) as H4 by (by apply pot_check). assert (PowerOfTwo 8) as H8 by (by apply pot_check).
  apply (market_data_recovers LittleEndian BigEndian (λ k, test_event (k mod 1000)) test_message 5 4 4 8 4 4
    test_message (RawEvent.of_event (test_event 0)) test_ops).
  - split_and!; reflexivity || discriminate.
  - split; discriminate.
  - intros k. pose proof (Z.mod_pos_bound k 1000 eq_refl). unfold MarketEvent.wf, Order.wf. simpl.
    unfold in_u, in_s. simpl. lia.
  - reflexivity.
  - reflexivity.
  - repeat (apply Forall_cons_2; [try exact I|]); [|apply Forall_nil_2]. intros request _ _ _. left. left. reflexivity.
  - repeat constructor; discriminate.
Defined.
