(* ===== verification/Exchange.v ===== *)
(** * Broadcaster ([exchange/broadcaster]) and ExchangeSimulator ([exchange/exchange-simulator])

    The exchange's main loop: an event of the matching engine becomes a numbered
    message, goes into the retransmission cache and out as a multicast datagram.
    The datagram socket is a parameter. *)

From S2P Require Import Prelude Types Bytes Codec RingBuffers CircularCache Network.

(** [::sendto] on the multicast socket; [datagrams] is what has left it.  A
    datagram leaves whole or not at all. *)
Class Multicast (W : Type) : Type := {
  sendto : Z → list Z → W → send_result * W;
  datagrams : W → list (list Z);
}.

Class MulticastLaws (W : Type) {M : Multicast W} : Prop := {
  sendto_sent fd bytes w n w' : sendto fd bytes w = (Sent n, w') →
    n = length bytes ∧ datagrams w' = datagrams w ++ [bytes];
  sendto_failed fd bytes w e w' : sendto fd bytes w = (SendFailed e, w') → datagrams w' = datagrams w;
}.

Module Broadcaster.
Section Broadcaster.
Context {W : Type} {M : Multicast W}.

Definition send (socket_fd_ : Z) (message : list Z) (w : W) : outcome (expected unit ExchangeError.t * W) :=
  _ ← assert_ (Z.of_nat (length message) <=? EncodedMessage.MAX_WIRE_SIZE);
  match sendto socket_fd_ message w with
  | (SendFailed (EAGAIN | EWOULDBLOCK), w) => Ok (Unexpected ExchangeError.WouldBlock, w)
  | (SendFailed _, w) => Ok (Unexpected ExchangeError.Send, w)
  | (Sent n, w) =>
      Ok (if Z.of_nat n =? Z.of_nat (length message) then Value tt else Unexpected ExchangeError.Send, w)
  end.
End Broadcaster.
End Broadcaster.

Module ExchangeSimulator.
Section Simulator.
Context {W : Type} {M : Multicast W} (h : endian) (BUFFER CACHE socket_fd_ : Z).

(** The members of the main loop; the matching engine, the generator and the
    retransmit server run in threads of their own. *)
Record t : Type := {
  market_event_buffer_ : LazyRingBuffer.t MarketEvent.t;
  sequencer_ : Z;
  retransmit_cache_ : CircularCache.t EncodedMessage.t;
}.

Definition init (e : MarketEvent.t) (m : EncodedMessage.t) : t := {|
  market_event_buffer_ := LazyRingBuffer.init BUFFER e;
  sequencer_ := Sequencer.init;
  retransmit_cache_ := CircularCache.init CACHE m;
|}.

(** One round of [run]; [fresh] is what the new message's array holds before.
    [None]: the wait goes on, or was stopped. *)
Definition run_step (fresh : list Z) (s : t) (w : W) : outcome (option (expected unit ExchangeError.t) * t * W) :=
  match LazyRingBuffer.try_get_tail_ref BUFFER (market_event_buffer_ s) with
  | None => Ok (None, s, w)
  | Some new_market_event =>
      event ← LazyRingBuffer.read new_market_event (market_event_buffer_ s);
      '(new_message, sequencer) ← Sequencer.generate_message h fresh (sequencer_ s) event;
      let buffer := LazyRingBuffer.consume (market_event_buffer_ s) in
      cache ← CircularCache.put_item CACHE new_message (retransmit_cache_ s);
      bytes ← EncodedMessage.message new_message;
      '(result, w) ← Broadcaster.send socket_fd_ bytes w;
      Ok (Some result, {| market_event_buffer_ := buffer; sequencer_ := sequencer; retransmit_cache_ := cache |}, w)
  end.

(** What happens to the loop: the matching engine, in its own thread, tries to
    put the next of its events into the buffer (it waits for a slot, see
    [Clob.publish]), or a round is run. *)
Inductive op : Type := Publish | Round (fresh : list Z).

(** The events the engine has still to publish, and the state afterwards. *)
Definition publish (events : list MarketEvent.t) (s : t) : outcome (list MarketEvent.t * t) :=
  match events with
  | [] => Ok ([], s)
  | e :: rest =>
      pushed ← LazyRingBuffer.push BUFFER e (market_event_buffer_ s);
      Ok match pushed with
         | None => (events, s)
         | Some buffer =>
             (rest, {| market_event_buffer_ := buffer; sequencer_ := sequencer_ s; retransmit_cache_ := retransmit_cache_ s |})
         end
  end.

(** The results of the rounds, what the engine has still to publish, the state and
    the network afterwards. *)
Fixpoint run (ops : list op) (events : list MarketEvent.t) (s : t) (w : W) :
    outcome (list (option (expected unit ExchangeError.t)) * list MarketEvent.t * t * W) :=
  match ops with
  | [] => Ok ([], events, s, w)
  | Publish :: ops => '(events, s) ← publish events s; run ops events s w
  | Round fresh :: ops =>
      '(result, s, w) ← run_step fresh s w;
      '(results, events, s, w) ← run ops events s w; Ok (result :: results, events, s, w)
  end.

(** What a retransmit worker reads while no write is under way. *)
Definition cached (s : t) (index : Z) : outcome (expected EncodedMessage.t CircularCache.Error) :=
  CircularCache.try_get_item CACHE index (retransmit_cache_ s) (retransmit_cache_ s) (retransmit_cache_ s).
End Simulator.
End ExchangeSimulator.
