(* ===== verification/ExchangeProof.v ===== *)
(** * The exchange caches what it broadcasts

    The main loop of the simulator against the numbered packets of
    [HandlerProof]: it discharges what the retransmit server's theorems ask of
    the cache and what the feed's theorem asks of the datagrams. *)

From S2P Require Import Prelude Interfaces Types Bytes Codec CodecProof Ring RingBuffers RingUse CircularCache Network Connection RetransmitServer Handler HandlerProof Exchange.
Import ExchangeSimulator.

(** The [k]-th event of a list, counted from [FIRST_SEQUENCE_ID]. *)
Definition event_at (e0 : MarketEvent.t) (es : list MarketEvent.t) (k : Z) : MarketEvent.t :=
  default e0 (es !! Z.to_nat (k - Config.FIRST_SEQUENCE_ID)).

Definition sent (results : list (option (expected unit ExchangeError.t))) : list (option (expected unit ExchangeError.t)) :=
  filter (λ r, r = Some (Value tt)) results.
Definition op_ok (o : op) : Prop := match o with Publish => True | Round fresh => is_buffer fresh end.

Section Simulator.
Context {W : Type} {M : Multicast W} {ML : MulticastLaws W} (h : endian) (BUFFER CACHE fd : Z).
Context {HB : PowerOfTwo BUFFER} {HC : PowerOfTwo CACHE} (Hbuffer : BUFFER < 2 ^ 64) (Hcache : CACHE < 2 ^ 32).
Context (e0 : MarketEvent.t).
Abbreviation packet_of es := (packet (event_at e0 es)).

(** [es] were published, the first [n] of them are numbered, cached and,
    those with a number in [ks], sent. *)
Record sim_ok (before : list (list Z)) (es : list MarketEvent.t) (n : nat) (ks : list Z) (s : t) (w : W) : Prop := {
  sim_count : (n ≤ length es)%nat;
  sim_buffer : lazy_repr BUFFER (market_event_buffer_ s) (drop n es);
  sim_sequencer : sequencer_ s = Config.FIRST_SEQUENCE_ID + Z.of_nat n;
  sim_cache : CircularCache.inv CACHE (retransmit_cache_ s);
  sim_idle : CircularCache.phase (retransmit_cache_ s) = CircularCache.Idle;
  sim_log : length (CircularCache.log (retransmit_cache_ s)) = n;
  sim_messages i m : CircularCache.log (retransmit_cache_ s) !! i = Some m →
    EncodedMessage.message m = Ok (packet_of es (Config.FIRST_SEQUENCE_ID + Z.of_nat i));
  sim_datagrams : datagrams w = before ++ (packet_of es <$> ks);
  sim_sent : ks `sublist_of` seqZ Config.FIRST_SEQUENCE_ID (Z.of_nat n);
}.

Lemma event_at_app es es' k : k - Config.FIRST_SEQUENCE_ID < Z.of_nat (length es) →
  0 ≤ k - Config.FIRST_SEQUENCE_ID → event_at e0 (es ++ es') k = event_at e0 es k.
Proof using. intros Hk H0. unfold event_at. rewrite lookup_app_l by lia. done. Qed.

Lemma packet_at_app es es' k : k - Config.FIRST_SEQUENCE_ID < Z.of_nat (length es) →
  0 ≤ k - Config.FIRST_SEQUENCE_ID → packet_of (es ++ es') k = packet_of es k.
Proof using. intros Hk H0. unfold packet, packet_data. by rewrite event_at_app. Qed.

Lemma publish_ok before es n ks events s w : sim_ok before es n ks s w →
  ∃ rest s' es', publish BUFFER events s = Ok (rest, s') ∧ events = es' ++ rest ∧ sim_ok before (es ++ es') n ks s' w.
Proof using HB Hbuffer.
  intros Hs. unfold publish. destruct events as [|e rest].
  { exists [], s, []. rewrite (app_nil_r es). split; [done|]. split; [done|]. exact Hs. }
  unfold LazyRingBuffer.push. pose proof (lazy_claim BUFFER Hbuffer _ _ (sim_buffer _ _ _ _ _ _ Hs)) as Hclaim.
  destruct (LazyRingBuffer.try_get_head_ref BUFFER (market_event_buffer_ s)) as [slot|].
  - destruct Hclaim as [_ Hwrite]. destruct (Hwrite e) as (b & -> & Hb & _). cbn [mbind outcome_bind].
    eexists rest, _, [e]. split; [done|]. split; [done|]. destruct Hs as [Hn _ Hseq Hinv Hidle Hlog Hmsg Hdata Hks].
    split; try done; simpl.
    + rewrite length_app. lia.
    + by rewrite drop_app_le by lia.
    + intros i m Him. rewrite packet_at_app; [by apply Hmsg|apply lookup_lt_Some in Him; lia|lia].
    + rewrite Hdata. f_equal. apply list_fmap_ext. intros i k Hk. symmetry.
      assert (k ∈ seqZ Config.FIRST_SEQUENCE_ID (Z.of_nat n)) as Hin by (eapply elem_of_sublist; [by eapply list_elem_of_lookup_2|done]).
      apply elem_of_seqZ in Hin. apply packet_at_app; lia.
  - cbn [mbind outcome_bind]. exists (e :: rest), s, []. rewrite (app_nil_r es). split; [done|]. split; [done|]. exact Hs.
Qed.

(** The result of a send says whether the datagram left. *)
Lemma send_ok bytes w : Z.of_nat (length bytes) ≤ EncodedMessage.MAX_WIRE_SIZE →
  ∃ result w', Broadcaster.send fd bytes w = Ok (result, w') ∧
    datagrams w' = datagrams w ++ (if decide (result = Value tt) then [bytes] else []).
Proof using ML.
  intros Hl. unfold Broadcaster.send. rewrite (proj2 (Z.leb_le _ _) Hl). cbn [assert_ mbind outcome_bind].
  destruct (sendto fd bytes w) as [[n|e] w'] eqn:Hsend.
  - destruct (sendto_sent _ _ _ _ _ Hsend) as [-> Hd]. rewrite Z.eqb_refl. eexists _, w'. split; [done|]. by rewrite decide_True.
  - pose proof (sendto_failed _ _ _ _ _ Hsend) as Hd.
    destruct e; (eexists _, w'; split; [done|]; rewrite decide_False by done; by rewrite app_nil_r).
Qed.

Lemma run_step_ok before es n ks fresh s w : sim_ok before es n ks s w → is_buffer fresh → Z.of_nat n < 2 ^ 32 - 1 →
  ∃ result s' w' n' ks', run_step h BUFFER CACHE fd fresh s w = Ok (result, s', w') ∧ sim_ok before es n' (ks ++ ks') s' w' ∧
    (n' ≤ S n)%nat ∧ length ks' = length (sent [result]).
Proof using HB HC Hbuffer Hcache ML.
  intros Hs Hfresh Hbound. unfold run_step. pose proof (lazy_front BUFFER _ _ (sim_buffer _ _ _ _ _ _ Hs)) as Hfront.
  destruct (LazyRingBuffer.try_get_tail_ref BUFFER (market_event_buffer_ s)) as [slot|].
  2:{ exists None, s, w, n, []. rewrite app_nil_r. split_and!; try done. lia. }
  destruct Hfront as (e & rest & Hdrop & Hread & Hconsume). rewrite Hread. cbn [mbind outcome_bind].
  pose proof Hs as [Hn Hbuf Hseq Hinv Hidle Hlog Hmsg Hdata Hks]. set (k := Config.FIRST_SEQUENCE_ID + Z.of_nat n) in *.
  assert (k = 1 + Z.of_nat n) as Hk by done.
  assert (event_at e0 es k = e) as He.
  { unfold event_at, k. replace (Config.FIRST_SEQUENCE_ID + Z.of_nat n - Config.FIRST_SEQUENCE_ID) with (Z.of_nat n) by lia.
    rewrite Nat2Z.id. assert (drop n es !! 0%nat = Some e) as He by (by rewrite Hdrop). rewrite lookup_drop, Nat.add_0_r in He. by rewrite He. }
  destruct (generated_packet (event_at e0 es) h fresh k Hfresh) as (m & Hm & Hbytes); [lia..|].
  rewrite Hseq. rewrite He in Hm. rewrite Hm. cbn [mbind outcome_bind].
  assert (CircularCache.completed (retransmit_cache_ s) = Z.of_nat n) as Hcompleted.
  { unfold CircularCache.completed. rewrite decide_False by (rewrite Hidle; done). lia. }
  destruct (CircularCache.put_item_inv CACHE Hcache m _ Hinv ltac:(unfold CircularCache.bounded; lia) Hidle) as (cache & -> & Hinv' & Hidle' & Hlog').
  cbn [mbind outcome_bind]. rewrite Hbytes. cbn [mbind outcome_bind].
  destruct (send_ok (packet_of es k) w) as (result & w' & -> & Hd); [rewrite packet_length; done|]. cbn [mbind outcome_bind].
  assert (n < length es)%nat as Hlt.
  { assert (length (drop n es) = S (length rest)) as Hl by (by rewrite Hdrop). rewrite length_drop in Hl. lia. }
  eexists _, _, w', (S n), (if decide (result = Value tt) then [k] else []). split; [done|]. split; [split; simpl|split; [done|]].
  - lia.
  - replace (drop (S n) es) with rest; [done|]. rewrite <- Nat.add_1_r, <- drop_drop, Hdrop. done.
  - rewrite (uwrap_small 64) by (unfold in_u; lia). unfold k. lia.
  - done.
  - done.
  - rewrite Hlog', length_app. simpl. lia.
  - intros i m' Hi. rewrite Hlog' in Hi. apply lookup_app_Some in Hi as [Hi|[Hle Hi]]; [by apply Hmsg|].
    apply list_lookup_singleton_Some in Hi as [Hi <-]. rewrite Hbytes. do 2 f_equal. unfold k. lia.
  - rewrite Hd, Hdata, <- (assoc_L (++)), fmap_app. do 2 f_equal. by case_decide.
  - rewrite seqZ_S. apply sublist_app; [done|]. case_decide; [done|apply sublist_nil_l].
  - unfold sent. rewrite filter_cons. case_decide as Hr; case_decide as Hr'; try done; simplify_eq; done.
Qed.

Lemma run_ok ops : Forall op_ok ops → ∀ before es n ks events s w, sim_ok before es n ks s w →
  Z.of_nat n + Z.of_nat (length ops) < 2 ^ 32 →
  ∃ results rest s' w' es' n' ks', run h BUFFER CACHE fd ops events s w = Ok (results, rest, s', w') ∧ events = es' ++ rest ∧
    sim_ok before (es ++ es') n' (ks ++ ks') s' w' ∧ (n' ≤ n + length ops)%nat ∧ length ks' = length (sent results).
Proof using HB HC Hbuffer Hcache ML.
  induction 1 as [|o ops Ho Hops IH]; intros before es n ks events s w Hs Hlen; cbn [run length] in *.
  { exists [], events, s, w, [], n, []. rewrite !app_nil_r. split_and!; try done. lia. }
  destruct o as [|fresh].
  - destruct (publish_ok before es n ks events s w Hs) as (rest1 & s1 & es1 & -> & -> & Hs1). cbn [mbind outcome_bind].
    destruct (IH before (es ++ es1) n ks rest1 s1 w Hs1) as (results & rest & s' & w' & es' & n' & ks' & Hrun & -> & Hs' & Hn' & Hks'); [lia|].
    exists results, rest, s', w', (es1 ++ es'), n', ks'. rewrite !(assoc_L (++)). split_and!; try done. lia.
  - destruct (run_step_ok before es n ks fresh s w Hs Ho) as (result & s1 & w1 & n1 & ks1 & -> & Hs1 & Hn1 & Hk1); [lia|]. cbn [mbind outcome_bind].
    destruct (IH before es n1 (ks ++ ks1) events s1 w1 Hs1) as (results & rest & s' & w' & es' & n' & ks' & Hrun & Hes & Hs' & Hn' & Hks'); [lia|].
    rewrite Hrun. cbn [mbind outcome_bind]. rewrite <- (assoc_L (++)) in Hs'.
    exists (result :: results), rest, s', w', es', n', (ks1 ++ ks'). split_and!; try done; [lia|].
    rewrite length_app, Hk1, Hks'. unfold sent. rewrite <- length_app, <- filter_app. done.
Qed.

(** What the cache answers once there is something in it. *)
Lemma cached_ok before es n ks s w index : sim_ok before es n ks s w → Z.of_nat n < 2 ^ 32 - 1 → (0 < n)%nat → 0 ≤ index →
  ∃ r, cached CACHE s index = Ok r ∧
    (∀ m, r = Value m → index < Z.of_nat n ∧ EncodedMessage.message m = Ok (packet_of es (Config.FIRST_SEQUENCE_ID + index))) ∧
    (index < Z.of_nat n → Z.of_nat n < index + CACHE → ∃ m, r = Value m).
Proof using HC Hcache.
  intros [_ _ _ Hinv Hidle Hlog Hmsg _ _] Hn H0 Hindex. unfold cached.
  assert (CircularCache.completed (retransmit_cache_ s) = Z.of_nat n) as Hc.
  { unfold CircularCache.completed. rewrite decide_False by (rewrite Hidle; done). lia. }
  destruct (CircularCache.quiet_read CACHE Hcache _ index Hinv ltac:(unfold CircularCache.bounded; lia) Hidle Hindex) as (r & -> & Hr & Hlive); [right; lia|].
  exists r. split; [done|]. rewrite Hc in Hlive. split; [|exact Hlive]. intros m ->.
  split; [apply lookup_lt_Some in Hr; lia|]. rewrite (Hmsg _ _ Hr). do 2 f_equal. lia.
Qed.

Lemma simulator_init_ok w m : is_buffer (EncodedMessage.buffer m) → sim_ok (datagrams w) [] 0 [] (ExchangeSimulator.init BUFFER CACHE e0 m) w.
Proof using HB HC.
  intros Hm. split; simpl; try done.
  - by apply ring_repr_init.
  - by apply CircularCache.cache_init_inv.
  - by rewrite app_nil_r.
Qed.
End Simulator.

(** The exchange caches what it broadcasts, and numbers both alike.  Let the
    matching engine publish events, waiting for room in the buffer, and the main loop take rounds in any order,
    with sends that fail at any time.  Then no round is undefined; the events
    are numbered in order from [FIRST_SEQUENCE_ID], none is lost or repeated: the
    numbered ones, those in the buffer and those still to be published are all of them; a
    datagram leaves in number order for exactly the rounds whose send
    succeeded, and is the packet the market data handler expects under that number; and the
    retransmission cache, once it holds an event, answers every request with
    the packet of the number asked for (up to the 32-bit width of its index)
    or an error, and still has every packet less than the cache's size behind the newest. *)
Theorem exchange_caches_what_it_sends {W} `{MulticastLaws W} (h : endian) (BUFFER CACHE fd : Z) `{PowerOfTwo BUFFER, PowerOfTwo CACHE}
    (e0 : MarketEvent.t) (m0 : EncodedMessage.t) (ops : list op) (events : list MarketEvent.t) (w : W) :
  BUFFER < 2 ^ 64 → CACHE < 2 ^ 32 → is_buffer (EncodedMessage.buffer m0) → Forall op_ok ops → Z.of_nat (length ops) < 2 ^ 32 - 1 →
  ∃ results rest s w' es n ks, run h BUFFER CACHE fd ops events (ExchangeSimulator.init BUFFER CACHE e0 m0) w = Ok (results, rest, s, w') ∧
    events = es ++ rest ∧ (n ≤ length es)%nat ∧ lazy_repr BUFFER (market_event_buffer_ s) (drop n es) ∧
    datagrams w' = datagrams w ++ (packet (event_at e0 es) <$> ks) ∧
    ks `sublist_of` seqZ Config.FIRST_SEQUENCE_ID (Z.of_nat n) ∧ length ks = length (sent results) ∧
    ((0 < n)%nat →
     RetransmitServer.serves (λ p, packet (event_at e0 es) (Config.FIRST_SEQUENCE_ID + u32 (p - Config.FIRST_SEQUENCE_ID))) (cached CACHE s) ∧
     ∀ k, Config.FIRST_SEQUENCE_ID ≤ k → k < Config.FIRST_SEQUENCE_ID + Z.of_nat n → Config.FIRST_SEQUENCE_ID + Z.of_nat n < k + CACHE →
       ∃ m, cached CACHE s (k - Config.FIRST_SEQUENCE_ID) = Ok (Value m) ∧ EncodedMessage.message m = Ok (packet (event_at e0 es) k)).
Proof.
  intros Hbuffer Hcache Hm Hops Hlen.
  destruct (run_ok h BUFFER CACHE fd Hbuffer Hcache e0 ops Hops (datagrams w) [] 0 [] events _ w (simulator_init_ok BUFFER CACHE e0 w m0 Hm))
    as (results & rest & s & w' & es & n & ks & Hrun & Hes & Hs & Hn & Hks); [lia|]. simpl in Hs.
  exists results, rest, s, w', es, n, ks. split_and!; try done; try apply Hs. intros Hpos. split.
  - intros p Hp. pose proof (uwrap_range 32 (p - Config.FIRST_SEQUENCE_ID) ltac:(lia)) as Hu.
    destruct (cached_ok BUFFER CACHE Hcache e0 (datagrams w) es n ks s w' (u32 (p - Config.FIRST_SEQUENCE_ID)) Hs) as (r & -> & Hr & _);
      [lia|done|unfold in_u in Hu; lia|]. destruct r as [m|]; [by apply (Hr m eq_refl)|done].
  - intros k Hk1 Hk2 Hk3.
    destruct (cached_ok BUFFER CACHE Hcache e0 (datagrams w) es n ks s w' (k - Config.FIRST_SEQUENCE_ID) Hs) as (r & -> & Hr & Hlive); [lia|done|lia|].
    destruct Hlive as [m ->]; [lia..|]. exists m. split; [done|]. rewrite (proj2 (Hr m eq_refl)). do 2 f_equal. lia.
Qed.

(** ** A run *)

(** A network that refuses every other datagram. *)
Definition flaky : Type := list (list Z) * nat.
#[export] Instance flaky_multicast : Multicast flaky := {|
  sendto fd bytes w := if Nat.even w.2 then (Sent (length bytes), (w.1 ++ [bytes], S w.2)) else (SendFailed EAGAIN, (w.1, S w.2));
  datagrams w := w.1;
|}.
#[export] Instance flaky_laws : MulticastLaws flaky.
Proof.
  split; intros fd bytes [ds k] n w'; simpl; destruct (Nat.even k); intros Heq; inversion Heq; subst; done.
Qed.

Definition sample_event (id : Z) : MarketEvent.t :=
  {| MarketEvent.order := {| Order.order_id := id; Order.price := 100 + id; Order.quantity := 5; Order.side := Side.Sell |};
     MarketEvent.type := MarketEvent.Add |}.
Definition sample_ops : list op :=
  [Publish; Publish; Round (replicate 42 7); Round (replicate 42 8); Publish; Round (replicate 42 9)].
Definition sample_events : list MarketEvent.t := sample_event <$> [1; 2; 3; 4].

Lemma exchange_caches_what_it_sends_witness :
  ∃ results rest s w' es n ks,
    run LittleEndian 4 2 0 sample_ops sample_events (ExchangeSimulator.init 4 2 (sample_event 0) {| EncodedMessage.header := {| MessageHeader.sequence_number := 0; MessageHeader.payload_length := 0 |}; EncodedMessage.buffer := replicate 42 0 |}) (([], O) : flaky) =
      Ok (results, rest, s, w') ∧ sample_events = es ++ rest ∧ datagrams w' = (packet (event_at (sample_event 0) es) <$> ks) ∧
    ks `sublist_of` seqZ 1 (Z.of_nat n).
Proof.
  assert (PowerOfTwo 4) as H4 by (split; reflexivity). assert (PowerOfTwo 2) as H2 by (split; reflexivity).
  destruct (exchange_caches_what_it_sends (W := flaky) LittleEndian 4 2 0 (sample_event 0)
    {| EncodedMessage.header := {| MessageHeader.sequence_number := 0; MessageHeader.payload_length := 0 |}; EncodedMessage.buffer := replicate 42 0 |}
    sample_ops sample_events ([], O)) as (results & rest & s & w' & es & n & ks & Hrun & Hes & _ & _ & Hd & Hks & _).
  - reflexivity.
  - reflexivity.
  - reflexivity.
  - repeat (apply Forall_cons; split); try exact I; try apply Forall_nil_2; reflexivity.
  - reflexivity.
  - exists results, rest, s, w', es, n, ks. split; [exact Hrun|]. split; [exact Hes|]. split; [exact Hd|exact Hks].
Defined.
