(* ===== verification/Retransmission.v ===== *)
(** * From the exchange's cache to the handler's window

    The retransmit server, reading the exchange's cache at any moments of the
    exchange's run after its first event, in place of the feed's assumption that requests are answered. *)

From S2P Require Import Prelude Interfaces Types Bytes Codec CodecProof Ring RingBuffers CircularCache Network Connection RetransmitServer ServerWorld ServerEvents ServerLoop Handler HandlerProof Feed FeedProof Exchange ExchangeProof.

(** ** One connection of the server *)

Lemma prefix_drop_app {A} (l k m : list A) : l `prefix_of` k ++ m → drop (length k) l `prefix_of` m.
Proof.
  intros [z Hz]. destruct (Nat.le_gt_cases (length k) (length l)) as [Hle|Hgt]; [|rewrite drop_ge by lia; apply prefix_nil].
  exists z. apply (f_equal (drop (length k))) in Hz. rewrite drop_app_length in Hz. rewrite Hz. by rewrite drop_app_le.
Qed.

Section Connections.
Context {S : Type} {SK : Socket S} {LI : Listener S} (h : endian) (msg : Z → list Z).

Lemma serialize_length h' request : Z.of_nat (length (RetransmitRequest.serialize h' request)) = RetransmitRequest.PACKED_SIZE.
Proof. unfold RetransmitRequest.serialize. by rewrite !network_memory, length_app, !be_bytes_length. Qed.

(** The server reads the requests as the client wrote them. *)
Lemma parsed_prefix h' bytes requests sent : ServerEvents.parsed h bytes requests → Forall RetransmitRequest.wf sent →
  bytes `prefix_of` concat (RetransmitRequest.serialize h' <$> sent) → requests `prefix_of` sent.
Proof.
  intros (chunks & -> & Hall). revert sent. induction Hall as [|chunk r chunks requests Hr Hall IH]; intros sent Hwf Hsent; [by apply prefix_nil|].
  assert (length chunk = Z.to_nat RetransmitRequest.PACKED_SIZE) as Hl.
  { unfold RetransmitRequest.parse in Hr. destruct (Z.eqb_spec (Z.of_nat (length chunk)) RetransmitRequest.PACKED_SIZE); simpl in *; [lia|done]. }
  destruct Hwf as [|r0 sent Hr0 Hwf]; simpl in Hsent.
  { apply prefix_nil_inv in Hsent. by destruct chunk. }
  destruct Hsent as [z Hz]. rewrite <- (assoc_L (++)) in Hz. pose proof (serialize_length h' r0).
  apply app_inj_1 in Hz as [<- Hz]; [|lia]. rewrite (retransmit_request_parsed h' h r0 Hr0) in Hr. injection Hr as <-.
  apply prefix_cons. apply IH; [done|]. by exists z.
Qed.

Lemma answers_app (l k : list RetransmitRequest.t) : ServerEvents.answers msg (l ++ k) = ServerEvents.answers msg l ++ ServerEvents.answers msg k.
Proof. unfold ServerEvents.answers. by rewrite fmap_app, concat_app. Qed.

Lemma packets_prefix a p b n : a ≤ p < b → RetransmitServer.packets msg a p n `prefix_of` RetransmitServer.packets msg a b 0.
Proof.
  intros Hp. unfold RetransmitServer.packets. rewrite take_0, app_nil_r.
  replace (b - a) with ((p - a) + (b - p)) by lia. rewrite seqZ_app, fmap_app, concat_app by lia. apply prefix_app.
  replace (a + (p - a)) with p by lia. rewrite (seqZ_cons p) by lia. simpl. apply prefix_app_r.
  exists (drop n (msg p)). by rewrite take_drop.
Qed.

(** A client whose requests are arriving has been sent, of their packets, as much as the server got to. *)
Lemma answered s ws fd client h' sent : ServerLoop.serving h msg s ws → Forall RetransmitRequest.wf sent → 0 ≤ fd →
  RetransmitServer.connection_buffers s !! Z.to_nat fd = Some client →
  Connection.socket_fd_ (RetransmitServer.connection client) = fd →
  arrived ws fd `prefix_of` concat (RetransmitRequest.serialize h' <$> sent) →
  outgoing ws fd `prefix_of` ServerEvents.answers msg sent.
Proof.
  intros Hs Hwf Hfd Hcl Hsock Harr. pose proof (ServerLoop.serving_slots _ _ _ _ Hs _ _ Hcl) as Hslot.
  destruct (ServerLoop.slot_open _ _ _ _ _ _ Hslot) as [Hok _]; [apply Z.leb_le; lia|]. rewrite Z2Nat.id in Hok by done.
  destruct Hok as (_ & _ & heard & said & [Ha Ho] & Hconv). rewrite Ho.
  assert (∀ l requests, l `prefix_of` heard → ServerEvents.parsed h l requests → ∃ more, sent = requests ++ more) as Hreqs.
  { intros l requests Hl Hp. apply (parsed_prefix h' l requests sent Hp Hwf). etransitivity; [exact Hl|].
    etransitivity; [|exact Harr]. rewrite Ha. by apply prefix_app_r. }
  destruct Hconv as [requests Hp -> _|requests complete got Hp -> -> _ _ _ _|requests r p n Hp -> [_ Hrp] _ Hprog].
  - destruct (Hreqs _ _ (reflexivity _) Hp) as [more ->]. rewrite answers_app. by apply prefix_app_r.
  - destruct (Hreqs _ _ (prefix_app_r _ _ _ (reflexivity _)) Hp) as [more ->]. rewrite answers_app. by apply prefix_app_r.
  - destruct (Hreqs _ _ (reflexivity _) Hp) as [more ->]. rewrite !answers_app, <- (assoc_L (++)). apply prefix_app.
    apply prefix_app_r. destruct Hprog as (_ & Hlt & _). unfold ServerEvents.answers. simpl. rewrite app_nil_r.
    by apply packets_prefix.
Qed.
End Connections.

(** ** The cache during the exchange's run *)

Section Exchange.
Context {V : Type} {M : Multicast V} {ML : MulticastLaws V} (h : endian) (BUFFER CACHE fd : Z).
Context {HB : PowerOfTwo BUFFER} {HC : PowerOfTwo CACHE} (Hbuffer : BUFFER < 2 ^ 64) (Hcache : CACHE < 2 ^ 32).
Context (e0 : MarketEvent.t).
Abbreviation sim_run := (ExchangeSimulator.run h BUFFER CACHE fd).
Abbreviation ok := (sim_ok BUFFER CACHE e0).

(** After [i] of the steps: what the server's threads would read, and whether
    the first event has been numbered. *)
Definition cache_after (ops : list ExchangeSimulator.op) (events : list MarketEvent.t) (s : ExchangeSimulator.t) (w : V) (i : nat) :
    Z → RetransmitServer.answer :=
  match sim_run (take i ops) events s w with
  | Ok (_, _, s, _) => ExchangeSimulator.cached CACHE s
  | _ => λ _, Undefined
  end.
Definition started_after (ops : list ExchangeSimulator.op) (events : list MarketEvent.t) (s : ExchangeSimulator.t) (w : V) (i : nat) : Prop :=
  match sim_run (take i ops) events s w with
  | Ok (_, _, s, _) => Config.FIRST_SEQUENCE_ID < ExchangeSimulator.sequencer_ s
  | _ => False
  end.

(** A run can be cut anywhere. *)
Lemma run_app ops1 ops2 events s w : sim_run (ops1 ++ ops2) events s w =
  ('(results, events, s, w) ← sim_run ops1 events s w;
   '(more, events, s, w) ← sim_run ops2 events s w; Ok (results ++ more, events, s, w)).
Proof using Type.
  revert events s w. induction ops1 as [|[|fresh] ops1 IH]; intros events s w; cbn [app ExchangeSimulator.run].
  - cbn [mbind outcome_bind app]. by destruct (sim_run ops2 events s w) as [[[[? ?] ?] ?]| |].
  - destruct (ExchangeSimulator.publish BUFFER events s) as [[? ?]| |]; cbn [mbind outcome_bind]; [apply IH|done..].
  - destruct (ExchangeSimulator.run_step h BUFFER CACHE fd fresh s w) as [[[? s1] w1]| |]; cbn [mbind outcome_bind]; [|done..].
    rewrite IH. destruct (sim_run ops1 events s1 w1) as [[[[? ?] ?] ?]| |]; cbn [mbind outcome_bind]; [|done..].
    by destruct (sim_run ops2 _ _ _) as [[[[? ?] ?] ?]| |].
Qed.

(** The server's packet [p] on the wire, given the cache's 32-bit index. *)
Definition wire_packet (es : list MarketEvent.t) (p : Z) : list Z :=
  packet (event_at e0 es) (Config.FIRST_SEQUENCE_ID + u32 (p - Config.FIRST_SEQUENCE_ID)).

Lemma cached_serves before es rest n ks s w : ok before es n ks s w → Z.of_nat n < 2 ^ 32 - 1 →
  Config.FIRST_SEQUENCE_ID < ExchangeSimulator.sequencer_ s →
  RetransmitServer.serves (wire_packet (es ++ rest)) (ExchangeSimulator.cached CACHE s).
Proof using HC Hcache.
  intros Hs Hn Hseq p Hp. rewrite (sim_sequencer _ _ _ _ _ _ _ _ _ Hs) in Hseq.
  pose proof (uwrap_range 32 (p - Config.FIRST_SEQUENCE_ID) ltac:(lia)) as Hu. unfold in_u in Hu.
  destruct (cached_ok BUFFER CACHE Hcache e0 before es n ks s w (u32 (p - Config.FIRST_SEQUENCE_ID)) Hs) as (r & Hr & Hm & _);
    [done|lia|lia|]. rewrite Hr. destruct r as [m|]; [|done]. destruct (Hm m eq_refl) as [Hlt ->]. unfold wire_packet.
  pose proof (sim_count _ _ _ _ _ _ _ _ _ Hs). set (index := u32 _) in *. rewrite packet_at_app; [done|lia..].
Qed.

Lemma exchange_run ops events m0 w : is_buffer (EncodedMessage.buffer m0) → Forall ExchangeProof.op_ok ops →
  Z.of_nat (length ops) < 2 ^ 32 - 1 →
  let s0 := ExchangeSimulator.init BUFFER CACHE e0 m0 in
  ∃ results rest s w' es n ks, sim_run ops events s0 w = Ok (results, rest, s, w') ∧ events = es ++ rest ∧
    ok (datagrams w) es n ks s w' ∧ (n ≤ length ops)%nat ∧
    ∀ i, started_after ops events s0 w i → RetransmitServer.serves (wire_packet es) (cache_after ops events s0 w i).
Proof using HB HC Hbuffer Hcache ML.
  intros Hm Hops Hlen s0.
  destruct (run_ok h BUFFER CACHE fd Hbuffer Hcache e0 ops Hops (datagrams w) [] 0 [] events s0 w (simulator_init_ok BUFFER CACHE e0 w m0 Hm)) as
    (results & rest & s & w' & es & n & ks & Hrun & Hes & Hs & Hn & _); [lia|].
  exists results, rest, s, w', es, n, ks. split_and!; [done|done|done|done|]. intros i. unfold started_after, cache_after.
  rewrite <- (take_drop i ops), run_app in Hrun.
  assert (Forall ExchangeProof.op_ok (take i ops) ∧ Forall ExchangeProof.op_ok (drop i ops)) as [Htake Hdrop]
    by (split; [by apply Forall_take|by apply Forall_drop]).
  assert (length (take i ops) + length (drop i ops) = length ops)%nat as Hsum by (rewrite length_take, length_drop; lia).
  destruct (run_ok h BUFFER CACHE fd Hbuffer Hcache e0 (take i ops) Htake (datagrams w) [] 0 [] events s0 w (simulator_init_ok BUFFER CACHE e0 w m0 Hm)) as
    (ri & resti & si & wi & esi & ni & ksi & Hruni & Hesi & Hsi & Hni & _); [lia|]. rewrite Hruni in *.
  destruct (run_ok h BUFFER CACHE fd Hbuffer Hcache e0 (drop i ops) Hdrop (datagrams w) ([] ++ esi) ni ([] ++ ksi) resti si wi Hsi) as
    (rj & restj & sj & wj & esj & nj & ksj & Hrunj & Hesj & _); [lia|].
  cbn [mbind outcome_bind] in Hrun. rewrite Hrunj in Hrun. cbn [mbind outcome_bind] in Hrun. injection Hrun as _ -> _ _.
  assert (es = esi ++ esj) as -> by (apply (app_inv_tail rest); rewrite <- Hes, Hesi, Hesj; by rewrite (assoc_L (++))).
  intros Hstart. by apply (cached_serves (datagrams w) esi esj ni ksi si wi Hsi); [lia|].
Qed.
End Exchange.

(** ** The server in the feed *)

Section Server.
Context {V : Type} {M : Multicast V} {ML : MulticastLaws V} {W : Type} {SK : Socket W}.
Context {S : Type} {SS : Socket S} {SL : SocketLaws S} {LI : Listener S} {LL : ListenerLaws S}.
Context (h : endian) (BUFFER CACHE fd : Z) (buffer : list Z).
Context {HB : PowerOfTwo BUFFER} {HC : PowerOfTwo CACHE} (Hbuffer : BUFFER < 2 ^ 64) (Hcache : CACHE < 2 ^ 32).
Context (e0 : MarketEvent.t) (ops : list ExchangeSimulator.op) (published : list MarketEvent.t) (m0 : EncodedMessage.t) (w0 : V).
Abbreviation cache_at := (cache_after h BUFFER CACHE fd ops published (ExchangeSimulator.init BUFFER CACHE e0 m0) w0).
Abbreviation started_at := (started_after h BUFFER CACHE fd ops published (ExchangeSimulator.init BUFFER CACHE e0 m0) w0).

(** A request about the first [LAST] events. *)
Definition within (LAST : Z) (request : RetransmitRequest.t) : Prop :=
  Config.FIRST_SEQUENCE_ID ≤ RetransmitRequest.first_packet request ∧
  RetransmitRequest.first_packet request < RetransmitRequest.last_packet request ∧
  RetransmitRequest.last_packet request ≤ LAST.

(** The bytes that answer some requests. *)
Definition answer_length (requests : list RetransmitRequest.t) : nat :=
  sum_list_with (λ r, Z.to_nat (RetransmitRequest.last_packet r - RetransmitRequest.first_packet r) *
    Z.to_nat (MessageHeader.PACKED_WIRE_SIZE + BinaryProtocol.BUFFER_SIZE))%nat requests.

(** Every read of the cache saw it as it was at some moment of the exchange's run after its first event, another
    moment for every read, or was caught between two puts. *)
Definition cached_while_running (cache : nat → Z → RetransmitServer.answer) : Prop :=
  ∀ i index, (∃ j, started_at j ∧ cache i index = cache_at j index) ∨ cache i index = Ok (Unexpected CircularCache.ConcurrentWrite).

(** [bytes] are, cut anywhere, what a run of the retransmit server has sent in answer to [request]: it was
    started, took turns with any events on any of its connections, and is running; on one of them a client has
    sent [earlier] requests and [request], of which some part has arrived; the connection is in any state. *)
Definition sent_by_server (h_client : endian) (LAST : Z) (request : RetransmitRequest.t) (bytes : list Z) : Prop :=
  ∃ (s s' : RetransmitServer.t) (ws ws' : S) caches F server_fd client earlier,
    ServerLoop.started s ws ∧ Forall cached_while_running caches ∧
    (∀ fuel, (F ≤ fuel)%nat → RetransmitServer.turns h buffer fuel caches s ws = Ok (None, s', ws')) ∧
    0 ≤ server_fd ∧ RetransmitServer.connection_buffers s' !! Z.to_nat server_fd = Some client ∧
    Connection.socket_fd_ (RetransmitServer.connection client) = server_fd ∧
    Forall (within LAST) earlier ∧
    arrived ws' server_fd `prefix_of` concat (RetransmitRequest.serialize h_client <$> earlier ++ [request]) ∧
    bytes `prefix_of` drop (answer_length earlier) (outgoing ws' server_fd).

(** What the client finds on its connection for a request about the first [LAST] events: what the server has
    sent, cut anywhere, or some of the packets and then the error of a server that refuses or stops. *)
Definition served (h_client : endian) (client_fd LAST : Z) (answer : RetransmitRequest.t → W) : Prop :=
  ∀ request, within LAST request →
    sent_by_server h_client LAST request (incoming (answer request) client_fd) ∨
    ∃ k hd, RetransmitRequest.first_packet request ≤ k < RetransmitRequest.last_packet request ∧
      MessageHeader.wf hd ∧ MessageHeader.sequence_number hd = 0 ∧
      incoming (answer request) client_fd `prefix_of`
        packet_stream (event_at e0 published) (RetransmitRequest.first_packet request) k ++ header_wire hd.

Lemma wire_packet_stream es a b : Config.FIRST_SEQUENCE_ID ≤ a → b ≤ 2 ^ 32 →
  RetransmitServer.packets (wire_packet e0 es) a b 0 = packet_stream (event_at e0 es) a b.
Proof using Type.
  intros Ha Hb. unfold RetransmitServer.packets, packet_stream. rewrite take_0, app_nil_r. f_equal.
  apply list_fmap_ext. intros i p Hp%list_elem_of_lookup_2%elem_of_seqZ. unfold wire_packet. f_equal.
  rewrite uwrap_small; [lia|]. unfold in_u, Config.FIRST_SEQUENCE_ID in *. lia.
Qed.

Lemma packet_stream_length events a b : length (packet_stream events a b) = (Z.to_nat (b - a) * 28)%nat.
Proof using Type.
  unfold packet_stream. rewrite <- (length_seqZ a (b - a)). induction (seqZ a (b - a)) as [|k l IH]; [done|].
  cbn [fmap list_fmap concat length]. rewrite length_app, IH, packet_length. lia.
Qed.

Lemma answers_stream es requests LAST : LAST < 2 ^ 32 → Forall (within LAST) requests →
  ServerEvents.answers (wire_packet e0 es) requests =
    concat ((λ r, packet_stream (event_at e0 es) (RetransmitRequest.first_packet r) (RetransmitRequest.last_packet r)) <$> requests) ∧
  length (ServerEvents.answers (wire_packet e0 es) requests) = answer_length requests.
Proof using Type.
  intros Hlast. unfold ServerEvents.answers. induction 1 as [|r requests (Hf & Hfl & Hl) _ [IH IHl]]; [done|].
  cbn [fmap list_fmap concat answer_length sum_list_with foldr]. rewrite length_app, IHl, IH, wire_packet_stream by lia.
  split; [done|]. by rewrite packet_stream_length.
Qed.

Lemma served_answers es rest LAST h_client client_fd answer : LAST < 2 ^ 32 → published = es ++ rest → LAST ≤ Z.of_nat (length es) →
  is_buffer buffer → ServerLoop.reports_once (W := S) →
  (∀ i, started_at i → RetransmitServer.serves (wire_packet e0 es) (cache_at i)) →
  served h_client client_fd LAST answer → Feed.answers (event_at e0 es) client_fd LAST (Feed.Serve answer).
Proof using SL LL.
  intros Hlast Hpub Hes Hbuf Honce Hserves Hserved request Hf Hfl Hl.
  assert (within LAST request) as Hw by done.
  destruct (Hserved request Hw) as [Hrun|(k & hd & Hk & Hhd & H0 & Hans)].
  2: { right. exists k, hd. split; [done|]. split; [done|]. split; [done|]. left. etransitivity; [exact Hans|].
    apply (reflexive_eq (R := prefix)). f_equal. unfold packet_stream. f_equal. apply list_fmap_ext.
    intros i p Hp%list_elem_of_lookup_2%elem_of_seqZ. rewrite Hpub. unfold packet, packet_data. by rewrite event_at_app by (unfold Config.FIRST_SEQUENCE_ID in *; lia). }
  left. left. destruct Hrun as (s & s' & ws & ws' & caches & F & server_fd & client & earlier & Hstarted & Hcaches & Hrun &
    Hfd & Hcl & Hsock & Hearlier & Harr & Hans).
  assert (∀ p, (length (wire_packet e0 es p) ≤ 42)%nat) as Hmsg by (intros p; unfold wire_packet; rewrite packet_length; lia).
  assert (Forall (ServerLoop.serves_all (wire_packet e0 es)) caches) as Hcaches'.
  { eapply Forall_impl; [exact Hcaches|]. intros cache Hcache' i p Hp.
    destruct (Hcache' i (u32 (p - Config.FIRST_SEQUENCE_ID))) as [(j & Hj & ->)| ->]; [by apply (Hserves j Hj)|done]. }
  destruct (ServerLoop.turns_spec h (wire_packet e0 es) buffer Hbuf Hmsg caches s ws Honce Hcaches'
    (ServerLoop.started_serving _ _ _ _ Hstarted)) as (G & [[result s2] ws2] & Hturned & Hrun2).
  pose proof (Hrun (max F G) ltac:(lia)) as H1. rewrite (Hrun2 (max F G) ltac:(lia)) in H1. injection H1 as -> -> ->.
  destruct Hturned as [Hserving _].
  assert (Forall (within LAST) (earlier ++ [request])) as Hall by (apply Forall_app; split; [done|by constructor]).
  assert (Forall RetransmitRequest.wf (earlier ++ [request])) as Hwf.
  { eapply Forall_impl; [exact Hall|]. intros r (? & ? & ?). unfold Config.FIRST_SEQUENCE_ID in *. split; unfold in_u; lia. }
  pose proof (answered h (wire_packet e0 es) s' ws' server_fd client h_client _ Hserving Hwf Hfd Hcl Hsock Harr) as Hsent.
  rewrite answers_app in Hsent. destruct (answers_stream es earlier LAST Hlast Hearlier) as [_ Hlen].
  destruct (answers_stream es [request] LAST Hlast ltac:(by constructor)) as [Hone _].
  simpl in Hone. rewrite app_nil_r in Hone. rewrite Hone in Hsent. etransitivity; [exact Hans|].
  rewrite <- Hlen. by apply prefix_drop_app.
Qed.
End Server.

(** The first [k] events by number. *)
Lemma events_at_take e0 (es : list MarketEvent.t) (k : nat) : (k ≤ length es)%nat →
  (λ j, RawEvent.of_event (event_at e0 es j)) <$> seqZ Config.FIRST_SEQUENCE_ID (Z.of_nat k) = RawEvent.of_event <$> take k es.
Proof.
  induction k as [|k IH]; intros Hk; [done|]. rewrite seqZ_S, fmap_app, IH by lia.
  destruct (lookup_lt_is_Some_2 es k) as [e He]; [lia|]. rewrite (take_S_r es k e He), fmap_app. simpl. do 2 f_equal.
  unfold event_at. replace (Z.to_nat _) with k by lia. by rewrite He.
Qed.

(** The exchange's run, and what any run of the feed makes of it. *)
Lemma exchange_feed {V W S} `{MulticastLaws V} `{SocketLaws W} `{SocketLaws S} {LI : Listener S} {LL : ListenerLaws S}
    (h h' : endian) (BUFFER CACHE fd : Z) (buffer : list Z) (client_fd UDP RETRANSMIT REORDER MARKET : Z)
    `{PowerOfTwo BUFFER, PowerOfTwo CACHE, PowerOfTwo UDP, PowerOfTwo RETRANSMIT, PowerOfTwo REORDER, PowerOfTwo MARKET}
    (e0 : MarketEvent.t) (ops : list ExchangeSimulator.op) (published : list MarketEvent.t) (m0 fresh m : EncodedMessage.t) (raw0 : RawEvent.t) (w0 : V) :
  BUFFER < 2 ^ 64 ∧ CACHE < 2 ^ 32 → UDP < 2 ^ 64 ∧ RETRANSMIT < 2 ^ 64 ∧ REORDER ≤ 2 ^ 63 ∧ MARKET < 2 ^ 64 →
  is_buffer (EncodedMessage.buffer m0) → is_buffer (EncodedMessage.buffer fresh) → is_buffer (EncodedMessage.buffer m) →
  is_buffer buffer → ServerLoop.reports_once (W := S) → Forall ExchangeProof.op_ok ops → Z.of_nat (length ops) < 2 ^ 32 - 1 →
  MarketEvent.wf e0 → Forall MarketEvent.wf published →
  ∃ results rest s w' es n ks,
    ExchangeSimulator.run h BUFFER CACHE fd ops published (ExchangeSimulator.init BUFFER CACHE e0 m0) w0 = Ok (results, rest, s, w') ∧
    published = es ++ rest ∧ (n ≤ length es)%nat ∧
    datagrams w' = datagrams w0 ++ (packet (event_at e0 es) <$> ks) ∧
    ks `sublist_of` seqZ Config.FIRST_SEQUENCE_ID (Z.of_nat n) ∧
    ∀ feed_ops : list (Feed.op W),
      Forall (λ k, k ∈ ks) (Feed.arrived feed_ops) →
      Forall (λ o, match o with Feed.Serve answer => served (S := S) h BUFFER CACHE fd buffer e0 ops published m0 w0 h' client_fd (Z.of_nat n) answer | _ => True end) feed_ops →
      ∃ f k, Feed.run h' h (event_at e0 es) fresh client_fd UDP RETRANSMIT REORDER MARKET feed_ops
          (Feed.init UDP RETRANSMIT REORDER MARKET m raw0) = Ok f ∧
        (k ≤ n)%nat ∧ Feed.delivered f = RawEvent.of_event <$> take k es ∧
        (Feed.stopped f = None → Feed.quiet REORDER f →
         Forall (λ id, id < Config.FIRST_SEQUENCE_ID + Z.of_nat k) (Feed.arrived feed_ops)).
Proof.
  intros [Hbuffer Hcache] Hsizes Hm0 Hfresh Hm Hbuf Honce Hops Hlen He0 Hevents.
  destruct (exchange_run h BUFFER CACHE fd Hbuffer Hcache e0 ops published m0 w0 Hm0 Hops Hlen)
    as (results & rest & s & w' & es & n & ks & Hrun & Hes & Hs & Hn & Hserves).
  pose proof (sim_count _ _ _ _ _ _ _ _ _ Hs) as Hcount.
  exists results, rest, s, w', es, n, ks. split; [done|]. split; [done|]. split; [done|].
  split; [apply (sim_datagrams _ _ _ _ _ _ _ _ _ Hs)|]. split; [apply (sim_sent _ _ _ _ _ _ _ _ _ Hs)|]. intros feed_ops Harrived Hserved.
  assert (Forall (λ k, Config.FIRST_SEQUENCE_ID ≤ k ≤ Z.of_nat n) (Feed.arrived feed_ops)) as Hids.
  { eapply Forall_impl; [exact Harrived|]. intros k Hk.
    assert (k ∈ seqZ Config.FIRST_SEQUENCE_ID (Z.of_nat n)) as Hin
      by (eapply elem_of_sublist; [exact Hk|apply (sim_sent _ _ _ _ _ _ _ _ _ Hs)]).
    apply elem_of_seqZ in Hin. unfold Config.FIRST_SEQUENCE_ID in *. lia. }
  assert (Forall (Feed.answers (event_at e0 es) client_fd (Z.of_nat n)) feed_ops) as Hanswers.
  { eapply Forall_impl; [exact Hserved|]. intros o Ho. destruct o as [| |answer| |]; try done.
    eapply served_answers; [lia|exact Hes|lia|exact Hbuf|exact Honce|exact Hserves|exact Ho]. }
  assert (∀ k, MarketEvent.wf (event_at e0 es k)) as Hwf.
  { intros k. unfold event_at. destruct (es !! _) as [e|] eqn:He; [|done]. simpl.
    rewrite Hes in Hevents. apply Forall_app in Hevents as [Hevents _]. by eapply Forall_lookup_1. }
  destruct (feed_run h' h (event_at e0 es) fresh client_fd UDP RETRANSMIT REORDER MARKET Hsizes (Z.of_nat n) ltac:(lia) Hwf Hfresh
    m raw0 feed_ops Hm Hanswers Hids) as (f & d & Hfeed & Hd & Hdelivered & Hquiet).
  destruct (Z_of_nat_complete d (proj1 Hd)) as [k ->]. exists f, k. split; [done|]. split; [lia|]. split; [|done].
  rewrite Hdelivered. apply events_at_take. lia.
Qed.

(** C6: exchange, network, retransmit server and market data handler together
    lose nothing.  Let the exchange number, cache and broadcast events with
    sends that fail at any time; let the network lose, duplicate and reorder the
    datagrams that left; let the handler's threads take rounds in any order, and
    let each retransmission request be met by what [served] allows: what a run
    of the retransmit server's event loop has sent, with any clients and any
    events, each read seeing the exchange's cache as it is at a moment of its
    own, the answer cut anywhere, or some of the packets and an error.  Then the exchange's
    run and the handler's are defined, what is delivered is the first [k] events
    that the exchange numbered, in order, and once no thread has anything left to do
    and none has stopped with an error, every event up to the last datagram that arrived is among them.
    Conditions: capacities are powers of two below the stated bounds, the exchange
    takes fewer than 2^32 - 1 steps, [kevent] reports no descriptor twice in one
    batch (the server's loop would not survive it), the moments at which the
    server reads the cache come after the first event (before it, it answers
    packet 1 with an item that was never put), it is still running, and an error
    does not come in the middle of a packet. *)
Theorem exchange_feed_recovers {V W S} `{MulticastLaws V} `{SocketLaws W} `{SocketLaws S} {LI : Listener S} {LL : ListenerLaws S}
    (h h' : endian) (BUFFER CACHE fd : Z) (buffer : list Z) (client_fd UDP RETRANSMIT REORDER MARKET : Z)
    `{PowerOfTwo BUFFER, PowerOfTwo CACHE, PowerOfTwo UDP, PowerOfTwo RETRANSMIT, PowerOfTwo REORDER, PowerOfTwo MARKET}
    (e0 : MarketEvent.t) (ops : list ExchangeSimulator.op) (published : list MarketEvent.t) (m0 fresh m : EncodedMessage.t) (raw0 : RawEvent.t) (w0 : V) :
  BUFFER < 2 ^ 64 ∧ CACHE < 2 ^ 32 → UDP < 2 ^ 64 ∧ RETRANSMIT < 2 ^ 64 ∧ REORDER ≤ 2 ^ 63 ∧ MARKET < 2 ^ 64 →
  is_buffer (EncodedMessage.buffer m0) → is_buffer (EncodedMessage.buffer fresh) → is_buffer (EncodedMessage.buffer m) →
  is_buffer buffer → ServerLoop.reports_once (W := S) → Forall ExchangeProof.op_ok ops → Z.of_nat (length ops) < 2 ^ 32 - 1 →
  MarketEvent.wf e0 → Forall MarketEvent.wf published →
  ∃ results rest s w' es n ks,
    ExchangeSimulator.run h BUFFER CACHE fd ops published (ExchangeSimulator.init BUFFER CACHE e0 m0) w0 = Ok (results, rest, s, w') ∧
    published = es ++ rest ∧ (n ≤ length es)%nat ∧
    datagrams w' = datagrams w0 ++ (packet (event_at e0 es) <$> ks) ∧
    ks `sublist_of` seqZ Config.FIRST_SEQUENCE_ID (Z.of_nat n) ∧
    ∀ feed_ops : list (Feed.op W),
      Forall (λ k, k ∈ ks) (Feed.arrived feed_ops) →
      Forall (λ o, match o with Feed.Serve answer => served (S := S) h BUFFER CACHE fd buffer e0 ops published m0 w0 h' client_fd (Z.of_nat n) answer | _ => True end) feed_ops →
      ∃ f k, Feed.run h' h (event_at e0 es) fresh client_fd UDP RETRANSMIT REORDER MARKET feed_ops
          (Feed.init UDP RETRANSMIT REORDER MARKET m raw0) = Ok f ∧
        (k ≤ n)%nat ∧ Feed.delivered f = RawEvent.of_event <$> take k es ∧
        (Feed.stopped f = None → Feed.quiet REORDER f →
         Forall (λ id, id < Config.FIRST_SEQUENCE_ID + Z.of_nat k) (Feed.arrived feed_ops)).
Proof. intros. by eapply exchange_feed. Qed.

(** ** A run *)

(** Two events; the first datagram does not leave, the second one arrives. *)
Definition lossy_ops : list ExchangeSimulator.op :=
  [ExchangeSimulator.Publish; ExchangeSimulator.Round (replicate 42 7);
   ExchangeSimulator.Publish; ExchangeSimulator.Round (replicate 42 8)].
Definition lossy_events : list MarketEvent.t := sample_event <$> [1; 2; 3].
Definition lossy_network : flaky := ([], 1%nat).
Definition lossy_request : RetransmitRequest.t :=
  {| RetransmitRequest.first_packet := 1; RetransmitRequest.last_packet := 2 |}.

(** The server's side: request and packet pass in parts. *)
Definition lossy_server : RetransmitServer.t :=
  {| RetransmitServer.socket_fd_ := 3; RetransmitServer.event_queue_ := 9; RetransmitServer.current_connections_ := 1;
     RetransmitServer.connection_buffers := RetransmitServer.connection_buffers (RetransmitServer.init (replicate 42 0)) |}.
Definition lossy_reports (reports : list (Z * bool)) (sends : list (Z * list Z)) (calls_in : list (list Z)) :
    expected Playback.happening errno :=
  Value {| Playback.calls_in := calls_in; Playback.sends := sends; Playback.reports := list_to_map reports |}.
Definition server_world : Playback.t :=
  {| Playback.log := ∅; Playback.input := ∅; Playback.output := ∅; Playback.limits := [7; 0; 9; 10; 0; 18]%nat;
     Playback.queue := {[3]}; Playback.pending := [];
     Playback.script := [lossy_reports [(3, false)] [] [[]];
                         lossy_reports [(4, false)] [(4, RetransmitRequest.serialize LittleEndian lossy_request)] [];
                         lossy_reports [(4, false)] [] []; lossy_reports [(4, false)] [] []] |}.
Definition lossy_cache (i : nat) : Z → RetransmitServer.answer :=
  cache_after BigEndian 4 2 0 lossy_ops lossy_events (ExchangeSimulator.init 4 2 (sample_event 0) test_message) lossy_network i.
Definition lossy_caches : list (nat → Z → RetransmitServer.answer) := (λ i _, lossy_cache i) <$> [2; 2; 2; 4]%nat.
Definition server_run (fuel : nat) : outcome (option (expected unit ExchangeError.t) * RetransmitServer.t * Playback.t) :=
  RetransmitServer.turns BigEndian (replicate 42 0) fuel lossy_caches lossy_server server_world.
Definition server_bytes : list Z :=
  match server_run 2 with Ok (_, _, w) => outgoing w 4 | _ => [] end.

(** The client's side. *)
Definition client_world (request : RetransmitRequest.t) : Scripted.t :=
  {| Scripted.input := {[5 := server_bytes]}; Scripted.output := ∅; Scripted.limits := [16; 3; 7]%nat |}.
Definition lossy_feed : list (Feed.op Scripted.t) :=
  [Feed.Datagram 2; Feed.Handle; Feed.Serve client_world] ++ concat (replicate 2 [Feed.Publish; Feed.Publish; Feed.Deliver]).

Example lossy_server_run : length server_bytes = 28%nat.
Proof. vm_compute. reflexivity. Qed.

Lemma lossy_started : ServerLoop.started lossy_server server_world.
Proof.
  split; [by split|]. split; [reflexivity|]. split; [|reflexivity]. apply Forall_replicate, ServerLoop.default_closed. reflexivity.
Qed.

Lemma lossy_caches_while_running :
  Forall (cached_while_running (V := flaky) BigEndian 4 2 0 (sample_event 0) lossy_ops lossy_events test_message lossy_network) lossy_caches.
Proof.
  repeat (apply Forall_cons_2; [intros ? ?; left; eexists; split; [|reflexivity]; vm_compute; reflexivity|]). apply Forall_nil_2.
Qed.

Lemma lossy_served n : n ≤ 2 →
  served (V := flaky) (S := Playback.t) BigEndian 4 2 0 (replicate 42 0) (sample_event 0) lossy_ops lossy_events test_message lossy_network
    LittleEndian 5 n client_world.
Proof.
  intros Hn [a b] (Ha & Hab & Hb). simpl in *. unfold Config.FIRST_SEQUENCE_ID in Ha.
  assert (a = 1) as -> by lia. assert (b = 2) as -> by lia. left.
  assert (∃ s' ws' client, (∀ fuel, (2 ≤ fuel)%nat → server_run fuel = Ok (None, s', ws')) ∧
    RetransmitServer.connection_buffers s' !! 4%nat = Some client ∧
    Connection.socket_fd_ (RetransmitServer.connection client) = 4 ∧
    arrived ws' 4 = RetransmitRequest.serialize LittleEndian lossy_request ∧ server_bytes = outgoing ws' 4)
    as (s' & ws' & client & Hrun & Hcl & Hsock & Harr & Hbytes).
  { do 3 eexists. split; [intros [|[|fuel]] Hfuel; [lia|lia|vm_compute; reflexivity]|].
    split; [vm_compute; reflexivity|]. split; [reflexivity|]. split; [vm_compute; reflexivity|vm_compute; reflexivity]. }
  exists lossy_server, s', server_world, ws', lossy_caches, 2%nat, 4, client, [].
  split; [exact lossy_started|]. split; [exact lossy_caches_while_running|].
  split; [exact Hrun|]. split; [done|]. split; [exact Hcl|]. split; [exact Hsock|]. split; [done|].
  split; [rewrite Harr; exists []; vm_compute; reflexivity|].
  cbn [answer_length sum_list_with foldr]. rewrite drop_0, <- Hbytes. apply (reflexive_eq (R := prefix)).
  cbn [incoming Scripted.socket client_world Scripted.input]. unfold Scripted.bytes_of at 1. by rewrite lookup_singleton_eq.
Qed.

Lemma exchange_feed_recovers_witness :
  ∃ results rest s w' es n ks,
    ExchangeSimulator.run BigEndian 4 2 0 lossy_ops lossy_events (ExchangeSimulator.init 4 2 (sample_event 0) test_message) lossy_network =
      Ok (results, rest, s, w') ∧
    ∃ f k, Feed.run LittleEndian BigEndian (event_at (sample_event 0) es) test_message 5 4 4 8 4 lossy_feed
        (Feed.init 4 4 8 4 test_message (RawEvent.of_event (sample_event 0))) = Ok f ∧
      (k ≤ n)%nat ∧ Feed.delivered f = RawEvent.of_event <$> take k es ∧ ks = [2] ∧
      RawEvent.order_id <$> Feed.delivered f = [1; 2].
Proof.
  assert (PowerOfTwo 4) as H4 by (split; reflexivity). assert (PowerOfTwo 8) as H8 by (split; reflexivity).
  assert (PowerOfTwo 2) as H2 by (split; reflexivity).
  destruct (exchange_feed_recovers (V := flaky) (W := Scripted.t) (S := Playback.t) BigEndian LittleEndian 4 2 0 (replicate 42 0) 5 4 4 8 4
    (sample_event 0) lossy_ops lossy_events test_message test_message test_message (RawEvent.of_event (sample_event 0)) lossy_network)
    as (results & rest & s & w' & es & n & ks & Hrun & Hes & Hn & Hd & Hks & Hfeed).
  - split; reflexivity.
  - split_and!; reflexivity || discriminate.
  - reflexivity.
  - reflexivity.
  - reflexivity.
  - reflexivity.
  - exact ServerLoop.playback_reports_once.
  - repeat (apply Forall_cons; split); try exact I; try apply Forall_nil_2; reflexivity.
  - reflexivity.
  - apply (bool_decide_eq_true_1 (MarketEvent.wf (sample_event 0))). reflexivity.
  - apply (bool_decide_eq_true_1 (Forall MarketEvent.wf lossy_events)). reflexivity.
  - exists results, rest, s, w', es, n, ks. split; [exact Hrun|].
    assert (es = take 2 lossy_events) as Hes2.
    { assert (rest = drop 2 lossy_events) as -> by (vm_compute in Hrun; injection Hrun as _ <- _ _; reflexivity).
      rewrite <- (take_drop 2 lossy_events) in Hes at 1. by apply app_inv_tail in Hes. }
    assert (Z.of_nat n ≤ 2) as Hn2 by (rewrite Hes2 in Hn; simpl in Hn; lia).
    assert (ks = [2]) as Hks2.
    { assert (∃ d, datagrams w' = [d] ∧ nth 7 d 0 = 2) as (d & Hone & Hd7)
        by (vm_compute in Hrun; injection Hrun as _ _ _ <-; eexists; split; [reflexivity|reflexivity]).
      rewrite Hone in Hd. destruct ks as [|k [|]]; [discriminate Hd| |discriminate Hd]. simpl in Hd. injection Hd as Hd.
      assert (k ∈ seqZ Config.FIRST_SEQUENCE_ID (Z.of_nat n)) as Hk by (eapply elem_of_sublist; [by left|exact Hks]).
      apply elem_of_seqZ in Hk. unfold Config.FIRST_SEQUENCE_ID in Hk. f_equal.
      assert (k = 1 ∨ k = 2) as [->| ->] by lia; [|reflexivity]. rewrite Hd in Hd7. discriminate Hd7. }
    destruct (Hfeed lossy_feed) as (f & k & Hrunf & Hk & Hdel & _).
    + rewrite Hks2. repeat constructor.
    + repeat (apply Forall_cons_2; [try exact I|]); [by apply lossy_served|apply Forall_nil_2].
    + exists f, k. split; [exact Hrunf|]. split; [exact Hk|]. split; [exact Hdel|]. split; [exact Hks2|].
      rewrite Hes2 in Hrunf. vm_compute in Hrunf. injection Hrunf as <-. reflexivity.
Defined.

(** ** What [served] leaves out

    [notify_and_close] does not look at what the connection was sending: a server that
    stops while a packet is partly sent puts the header of its error right behind
    that part.  The handler takes its bytes for the rest of the packet and delivers an
    event that the exchange never published, here with another price, quantity and side. *)
Definition cut_world : Playback.t :=
  {| Playback.log := ∅; Playback.input := ∅; Playback.output := ∅; Playback.limits := [16; 20; 0; 10]%nat;
     Playback.queue := {[3]}; Playback.pending := [];
     Playback.script := [lossy_reports [(3, false)] [] [[]];
                         lossy_reports [(4, false)] [(4, RetransmitRequest.serialize LittleEndian lossy_request)] []] |}.
Definition cut_bytes : list Z :=
  match RetransmitServer.run_event_loop BigEndian (replicate 42 0) 2 (take 2 lossy_caches) lossy_server cut_world with
  | Ok (_, _, w) => outgoing w 4
  | _ => []
  end.
Definition cut_feed : list (Feed.op Scripted.t) :=
  [Feed.Datagram 2; Feed.Handle;
   Feed.Serve (λ _, {| Scripted.input := {[5 := cut_bytes]}; Scripted.output := ∅; Scripted.limits := [] |});
   Feed.Publish; Feed.Publish; Feed.Deliver].

Theorem error_notice_cuts_packet :
  cut_bytes = take 20 (packet (event_at (sample_event 0) lossy_events) 1) ++
    header_wire {| MessageHeader.sequence_number := 0; MessageHeader.payload_length := ExchangeError.code ExchangeError.ServerFatal |} ∧
  ∃ f e, Feed.run LittleEndian BigEndian (event_at (sample_event 0) lossy_events) test_message 5 4 4 8 4 cut_feed
      (Feed.init 4 4 8 4 test_message (RawEvent.of_event (sample_event 0))) = Ok f ∧
    Feed.stopped f = None ∧ Feed.delivered f = [e] ∧ e ≠ RawEvent.of_event (sample_event 1).
Proof.
  split; [vm_compute; reflexivity|]. do 2 eexists. split; [vm_compute; reflexivity|]. by split.
Qed.
