(* ===== verification/ExchangeThreads.v ===== *)
(** * ExchangeSimulator ([exchange-simulator.cpp])

    The three threads of the exchange over the members they share: the main
    loop, which numbers, caches and broadcasts; the retransmit server's event loop
    on the same cache; and the generator's thread, which drives the matching engine.  All that the
    generator's thread shows the others is the events it publishes, so it is
    here a sequence of events that wait for room in the buffer (Generator and Clob say
    which).  The results of the set-ups come in as data (Sockets). *)

From S2P Require Import Prelude Interfaces Types Bytes Codec CodecProof Ring RingBuffers RingUse CircularCache Network Connection RetransmitServer ServerWorld ServerEvents ServerLoop Threads Handler HandlerProof Feed FeedProof Exchange ExchangeProof Retransmission.

Module ExchangeThreads.

(** What a turn finds outside: the result of a set-up, what the array of a new
    message holds, and, for a turn of the server, at which moment it reads the
    cache: for the [i]-th event of its batch and an index, in the [j]-th of the
    states that the exchange has passed since the server's last turn ([Some j];
    beyond those, the present one), or while a put is under way ([None]). *)
Record outside : Type := {
  opened : expected unit ExchangeError.t;
  fresh : list Z;
  moment : nat → Z → option nat;
}.

(** The members, with the multicast network and the retransmit server's kernel.
    [to_publish]: what the generator's thread publishes from here on; [passed]:
    the states of the exchange since the server's last turn, before the present one;
    [broadcaster_ready], [server_ready]: the set-up of the socket is done. *)
Record t (V W : Type) : Type := {
  simulator : ExchangeSimulator.t;
  passed : list ExchangeSimulator.t;
  to_publish : list MarketEvent.t;
  retransmit_server_ : RetransmitServer.t;
  broadcaster_ready : bool;
  server_ready : bool;
  feed : V;
  kernel : W;
}.
Arguments simulator {V W} _.
Arguments passed {V W} _.
Arguments to_publish {V W} _.
Arguments retransmit_server_ {V W} _.
Arguments broadcaster_ready {V W} _.
Arguments server_ready {V W} _.
Arguments feed {V W} _.
Arguments kernel {V W} _.

Section Threads.
Context {V : Type} {M : Multicast V} {W : Type} {SK : Socket W} {LI : Listener W}.
Context (h : endian) (BUFFER CACHE fd : Z) (buffer : list Z) (fuel : nat).
Implicit Types (s : t V W) (e : outside) (stop : bool).

Definition set_simulator sim events v s : t V W :=
  {| simulator := sim; passed := passed s ++ [simulator s]; to_publish := events; retransmit_server_ := retransmit_server_ s;
     broadcaster_ready := broadcaster_ready s; server_ready := server_ready s; feed := v; kernel := kernel s |}.
Definition set_server server w s : t V W :=
  {| simulator := simulator s; passed := []; to_publish := to_publish s; retransmit_server_ := server;
     broadcaster_ready := broadcaster_ready s; server_ready := server_ready s; feed := feed s; kernel := w |}.
Definition set_ready broadcaster server s : t V W :=
  {| simulator := simulator s; passed := passed s; to_publish := to_publish s; retransmit_server_ := retransmit_server_ s;
     broadcaster_ready := broadcaster; server_ready := server; feed := feed s; kernel := kernel s |}.

(** [ExchangeSimulator::run]: a failed [start] of the broadcaster ends it without
    an error, like the stop. *)
Definition main_part e stop s : outcome (option (expected unit ExchangeError.t) * t V W) :=
  if negb (broadcaster_ready s) then
    Ok match opened e with
       | Value _ => (None, set_ready true (server_ready s) s)
       | Unexpected _ => (Some (Value tt), s)
       end
  else
  if stop then Ok (Some (Value tt), s) else
  '(_, sim, v) ← ExchangeSimulator.run_step h BUFFER CACHE fd (fresh e) (simulator s) (feed s);
  Ok (None, set_simulator sim (to_publish s) v s).

(** [retransmit_cache_] as a turn of the server sees it, every read at its own moment. *)
Definition seen e s : nat → Z → RetransmitServer.answer := λ i index,
  match moment e i index with
  | Some j => ExchangeSimulator.cached CACHE (nth j (passed s) (simulator s)) index
  | None => Ok (Unexpected CircularCache.ConcurrentWrite)
  end.

(** [RetransmitServer::start]. *)
Definition server_part e stop s : outcome (option (expected unit ExchangeError.t) * t V W) :=
  if negb (server_ready s) then
    Ok match opened e with
       | Value _ => (None, set_server (retransmit_server_ s) (kernel s) (set_ready (broadcaster_ready s) true s))
       | Unexpected err => (Some (Unexpected err), s)
       end
  else
  if stop then
    '(server, w) ← RetransmitServer.close_server h buffer (retransmit_server_ s) (kernel s);
    Ok (Some (Value tt), set_server server w s)
  else
    '(result, server, w) ← RetransmitServer.turn h buffer fuel (seen e s) (retransmit_server_ s) (kernel s);
    Ok (result, set_server server w s).

(** [MarketRequestGenerator::start], as far as the event buffer shows it. *)
Definition generator_part stop s : outcome (option (expected unit ExchangeError.t) * t V W) :=
  if stop then Ok (Some (Value tt), s) else
  '(events, sim) ← ExchangeSimulator.publish BUFFER (to_publish s) (simulator s);
  Ok (None, set_simulator sim events (feed s) s).

#[global] Instance parts : Parts (t V W) outside ExchangeError.t :=
  exchange_parts main_part server_part (λ _, generator_part).

(** The members when [start] is called. *)
Definition init (e0 : MarketEvent.t) (m0 : EncodedMessage.t) (events : list MarketEvent.t) (server : RetransmitServer.t) (v : V) (w : W) : t V W :=
  {| simulator := ExchangeSimulator.init BUFFER CACHE e0 m0; passed := []; to_publish := events; retransmit_server_ := server;
     broadcaster_ready := false; server_ready := false; feed := v; kernel := w |}.
End Threads.

(** ** What holds throughout a run *)

Section Session.
Context {V : Type} {M : Multicast V} {ML : MulticastLaws V} {W : Type} {SK : Socket W} {SL : SocketLaws W} {LI : Listener W} {LL : ListenerLaws W}.
Context (h : endian) (BUFFER CACHE fd : Z) (buffer : list Z).
Context {HB : PowerOfTwo BUFFER} {HC : PowerOfTwo CACHE} (Hbuffer : BUFFER < 2 ^ 64) (Hcache : CACHE < 2 ^ 32).
Context (Hbuf : is_buffer buffer) (Honce : ServerLoop.reports_once (W := W)).
Context (e0 : MarketEvent.t) (published : list MarketEvent.t) (before : list (list Z)).
Abbreviation state := (t V W).
Abbreviation body := (λ fuel, @Threads.body _ _ _ (parts (V := V) (W := W) h BUFFER CACHE fd buffer fuel)).
Abbreviation steps := (λ fuel, Threads.step (P := parts (V := V) (W := W) h BUFFER CACHE fd buffer fuel)).
Abbreviation runs := (λ fuel, Threads.run (P := parts (V := V) (W := W) h BUFFER CACHE fd buffer fuel)).
Abbreviation serving := (ServerLoop.serving h (wire_packet e0 published)).
Implicit Types (s : state) (g : group state) (n : nat) (ks : list Z).

Definition op_ok (op : event outside) : Prop := match op with Turn _ e => is_buffer (fresh e) | RequestStop => True end.

(** The first event has been numbered and cached. *)
Definition begun (sim : ExchangeSimulator.t) : Prop := Config.FIRST_SEQUENCE_ID < ExchangeSimulator.sequencer_ sim.

(** In this turn the server reads the cache as it is after the first event, or
    it has no client to serve. *)
Definition late e s : Prop :=
  (∀ i index j, moment e i index = Some j → begun (nth j (passed s) (simulator s))) ∨
  ∀ events w, kevent (RetransmitServer.event_queue_ (retransmit_server_ s)) (kernel s) = (Value events, w) →
    ServerLoop.calm (retransmit_server_ s) events.

(** [es] are published, the first [n] of them numbered and cached, those in [ks] sent. *)
Record main_ok (es : list MarketEvent.t) n ks s : Prop := {
  main_sim : sim_ok BUFFER CACHE e0 before es n ks (simulator s) (feed s);
  main_events : published = es ++ to_publish s;
  main_passed : Forall (λ sim, begun sim → RetransmitServer.serves (wire_packet e0 published) (ExchangeSimulator.cached CACHE sim)) (passed s);
}.

Lemma main_serves es n ks s : main_ok es n ks s → Z.of_nat n < 2 ^ 32 - 1 → begun (simulator s) →
  RetransmitServer.serves (wire_packet e0 published) (ExchangeSimulator.cached CACHE (simulator s)).
Proof using HC Hcache. intros [Hsim -> _] Hn. by eapply (cached_serves BUFFER CACHE Hcache e0). Qed.

Lemma main_pushed es n ks s : main_ok es n ks s → Z.of_nat n < 2 ^ 32 - 1 →
  Forall (λ sim, begun sim → RetransmitServer.serves (wire_packet e0 published) (ExchangeSimulator.cached CACHE sim)) (passed s ++ [simulator s]).
Proof using HC Hcache.
  intros Hm Hn. apply Forall_app. split; [apply Hm|]. constructor; [|done]. by eapply main_serves.
Qed.

(** The server while its thread runs, and afterwards. *)
Definition server_ok (alive : bool) s : Prop :=
  if alive then serving (retransmit_server_ s) (kernel s)
  else server_ready s = true → ServerLoop.shut_down (retransmit_server_ s) (kernel s).

Definition same_server s s' : Prop :=
  retransmit_server_ s' = retransmit_server_ s ∧ server_ready s' = server_ready s ∧ kernel s' = kernel s.

Lemma server_ok_same alive s s' : same_server s s' → server_ok alive s → server_ok alive s'.
Proof using. unfold server_ok. by intros (-> & -> & ->). Qed.

(** The two other parts leave the server alone. *)
Definition advances n (part : outcome (option (expected unit ExchangeError.t) * state)) s : Prop :=
  ∃ r s' es n' ks, part = Ok (r, s') ∧ (n' ≤ S n)%nat ∧ main_ok es n' ks s' ∧ same_server s s'.

Lemma advances_still r es n ks s : main_ok es n ks s → advances n (Ok (r, s)) s.
Proof using. intros Hm. exists r, s, es, n, ks. split; [done|]. split; [lia|done]. Qed.

Lemma main_part_ok es n ks s e stop : main_ok es n ks s → is_buffer (fresh e) → Z.of_nat n < 2 ^ 32 - 1 →
  advances n (main_part h BUFFER CACHE fd e stop s) s.
Proof using HB HC Hbuffer Hcache ML.
  intros Hm He Hn. unfold main_part. destruct (broadcaster_ready s); simpl.
  2:{ destruct (opened e); [|by eapply advances_still]. exists None, (set_ready true (server_ready s) s), es, n, ks.
      split; [done|]. split; [lia|]. split; [|done]. by destruct Hm. }
  destruct stop; [by eapply advances_still|]. pose proof (main_pushed _ _ _ _ Hm Hn) as Hpushed. destruct Hm as [Hsim Hev _].
  destruct (run_step_ok h BUFFER CACHE fd Hbuffer Hcache e0 before es n ks (fresh e) (simulator s) (feed s) Hsim He Hn)
    as (result & sim & v & n' & ks' & -> & Hsim' & Hn' & _). cbn [mbind outcome_bind].
  eexists None, _, es, n', (ks ++ ks'). split; [done|]. split; [done|]. split; [by split|done].
Qed.

Lemma generator_part_ok es n ks s stop : main_ok es n ks s → Z.of_nat n < 2 ^ 32 - 1 → advances n (generator_part BUFFER stop s) s.
Proof using HB HC Hbuffer Hcache.
  intros Hm Hn. unfold generator_part. destruct stop; [by eapply advances_still|].
  pose proof (main_pushed _ _ _ _ Hm Hn) as Hpushed. destruct Hm as [Hsim Hev _].
  destruct (publish_ok BUFFER CACHE Hbuffer e0 before es n ks (to_publish s) (simulator s) (feed s) Hsim) as (rest & sim & es' & -> & Heq & Hsim').
  cbn [mbind outcome_bind]. eexists None, _, (es ++ es'), n, ks. split; [done|]. split; [lia|]. split; [|done].
  split; [done| |done]. simpl. by rewrite Hev, Heq, (assoc_L (++)).
Qed.

Lemma wire_length p : (length (wire_packet e0 published p) ≤ 42)%nat.
Proof using. unfold wire_packet. rewrite packet_length. lia. Qed.

Lemma main_server es n ks s server w : main_ok es n ks s → main_ok es n ks (set_server server w s).
Proof using. intros [? ? _]. by split. Qed.

Lemma seen_serves es n ks s e : main_ok es n ks s → Z.of_nat n < 2 ^ 32 - 1 →
  (∀ i index j, moment e i index = Some j → begun (nth j (passed s) (simulator s))) →
  ServerLoop.serves_all (wire_packet e0 published) (seen CACHE e s).
Proof using HC Hcache.
  intros Hm Hn Hlate i p Hp. unfold seen. specialize (Hlate i (u32 (p - Config.FIRST_SEQUENCE_ID))).
  destruct (moment e i _) as [j|]; [|done]. specialize (Hlate j eq_refl).
  destruct (nth_in_or_default j (passed s) (simulator s)) as [Hin|Hlast].
  - apply list_elem_of_In in Hin. pose proof (main_passed _ _ _ _ Hm) as Hpassed. rewrite Forall_forall in Hpassed.
    by apply (Hpassed _ Hin Hlate).
  - rewrite Hlast in *. by eapply main_serves.
Qed.

Lemma server_part_ok es n ks s e stop : main_ok es n ks s → serving (retransmit_server_ s) (kernel s) → Z.of_nat n < 2 ^ 32 - 1 →
  (stop = false → server_ready s = true → late e s) →
  ServerLoop.settles (λ fuel, server_part h CACHE buffer fuel e stop s) (λ '(r, s'), main_ok es n ks s' ∧
    server_ok (bool_decide (r = None)) s').
Proof using HC Hbuf Hcache Honce LL SL.
  intros Hm Hs Hn Hlate. unfold server_part. destruct (server_ready s) eqn:Hready; simpl.
  2:{ apply ServerLoop.settles_ok. destruct (opened e); simpl.
    - split; [|done]. destruct Hm. by split.
    - split; [done|]. unfold server_ok. simpl. congruence. }
  destruct stop.
  { destruct (ServerLoop.close_server_spec h _ buffer Hbuf wire_length _ _ Hs) as (server & w & -> & Hdown). cbn [mbind outcome_bind].
    apply ServerLoop.settles_ok. split; [by apply main_server|]. by intros _. }
  assert (ServerLoop.serves_all (wire_packet e0 published) (seen CACHE e s) ∨
    (∀ events w, kevent (RetransmitServer.event_queue_ (retransmit_server_ s)) (kernel s) = (Value events, w) →
     ServerLoop.calm (retransmit_server_ s) events)) as Hcalm.
  { destruct (Hlate eq_refl eq_refl) as [Hbegun|Hcalm]; [left|by right]. by eapply seen_serves. }
  eapply ServerLoop.settles_bind; [by apply (ServerLoop.turn_spec h _ buffer Hbuf wire_length)|].
  intros [[result server] w] Hturned. apply ServerLoop.settles_ok. split; [by apply main_server|].
  unfold server_ok. destruct result as [r|]; simpl.
  - intros _. by destruct Hturned as (err & _ & _ & Hdown).
  - apply Hturned.
Qed.

(** ** The threads together *)

(** The exchange after [N] steps. *)
Record process (N : nat) g : Prop := {
  process_main : ∃ es n ks, (n ≤ N)%nat ∧ main_ok es n ks (shared g);
  process_server : server_ok (bool_decide (running g !! 1%nat = Some true)) (shared g);
  process_threads : length (running g) = 3%nat;
  process_told i : running g !! i = Some false → stop g = true;
}.

Lemma process_later N g : process N g → process (S N) g.
Proof using. intros [(es & n & ks & Hn & Hm) Hs Hl Ht]. split; try done. exists es, n, ks. split; [lia|done]. Qed.

(** After a part has been run, [Threads.thread_turn] puts this together. *)
Definition after i g (a : option (expected unit ExchangeError.t) * state) : group state :=
  match a.1 with
  | None => {| shared := a.2; stop := stop g; running := running g |}
  | Some r => {| shared := a.2; stop := stop g || true; running := <[i := false]> (running g) |}
  end.

Lemma after_process N g i a es n ks : process N g → running g !! i = Some true → (n ≤ S N)%nat → main_ok es n ks a.2 →
  server_ok (bool_decide (running g !! 1%nat = Some true ∧ ¬ (i = 1%nat ∧ is_Some a.1))) a.2 → process (S N) (after i g a).
Proof using.
  intros [_ _ Hlen Htold] Hi Hn Hm Hs. unfold after. destruct a as [[r|] s]; simpl in *.
  - split; simpl; [by exists es, n, ks| |by rewrite length_insert|intros; apply orb_true_r].
    erewrite bool_decide_ext; [exact Hs|]. destruct (decide (i = 1%nat)) as [->|Hne].
    + rewrite list_lookup_insert_eq by (rewrite Hlen; lia). split; [done|]. intros [_ Hnot]. destruct Hnot. by split.
    + rewrite list_lookup_insert_ne by done. naive_solver.
  - split; simpl; [by exists es, n, ks| |done|done]. erewrite bool_decide_ext; [exact Hs|].
    split; [|by intros []]. intros Ha. split; [done|]. by intros [_ []].
Qed.

(** When the next step is a turn in which the server serves clients, it reads late enough. *)
Definition in_time (op : event outside) g : Prop := ∀ e, op = Turn 1 e → running g !! 1%nat = Some true → stop g = false →
  server_ready (shared g) = true → late e (shared g).

Lemma exchange_step_ok N g op : process N g → op_ok op → Z.of_nat N < 2 ^ 32 - 1 → in_time op g →
  ServerLoop.settles (λ fuel, steps fuel op g) (process (S N)).
Proof using HB HC Hbuffer Hcache Hbuf Honce ML LL SL.
  intros Hp Hop HN Htime. pose proof Hp as [(es & n & ks & Hn & Hm) Hs Hlen Htold].
  destruct op as [i e|]; simpl.
  2:{ apply ServerLoop.settles_ok. split; simpl; [|done..]. exists es, n, ks. split; [lia|done]. }
  unfold Threads.thread_turn. destruct (decide (running g !! i = Some true)) as [Hi|]; [|apply ServerLoop.settles_ok; by apply process_later].
  destruct (decide (i = 1%nat)) as [->|Hne].
  - rewrite bool_decide_true in Hs by done.
    pose proof (server_part_ok es n ks (shared g) e (stop g) Hm Hs ltac:(lia) (Htime e eq_refl Hi)) as Hpart.
    eapply ServerLoop.settles_bind; [exact Hpart|]. intros [r s'] [Hm' Hs'].
    exists O, (after 1 g (r, s')). split; [|intros fuel _; by destruct r].
    apply (after_process N g 1 (r, s') es n ks Hp Hi); [lia|done|]. erewrite bool_decide_ext; [exact Hs'|].
    simpl. rewrite Hi. destruct r; [|naive_solver]. split; [|done]. intros [_ Hnot]. destruct Hnot. by split.
  - assert (∃ r s' es' n' ks', (∀ fuel, body fuel i e (stop g) (shared g) = Ok (r, s')) ∧ (n' ≤ S N)%nat ∧ main_ok es' n' ks' s' ∧
      same_server (shared g) s') as (r & s' & es' & n' & ks' & Hbody & Hn' & Hm' & Hsame).
    { destruct i as [|[|i]]; [|done|].
      - destruct (main_part_ok es n ks (shared g) e (stop g) Hm Hop ltac:(lia)) as (r & s' & es' & n' & ks' & Hbody & Hn' & Hm' & Hsame).
        exists r, s', es', n', ks'. split; [done|]. split; [lia|done].
      - destruct (generator_part_ok es n ks (shared g) (stop g) Hm ltac:(lia)) as (r & s' & es' & n' & ks' & Hbody & Hn' & Hm' & Hsame).
        exists r, s', es', n', ks'. split; [done|]. split; [lia|done]. }
    exists O, (after i g (r, s')). split.
    + apply (after_process N g i (r, s') es' n' ks' Hp Hi); [done|done|]. eapply server_ok_same; [exact Hsame|].
      erewrite bool_decide_ext; [exact Hs|]. naive_solver.
    + intros fuel _. by rewrite Hbody.
Qed.

(** Throughout the run. *)
Definition reads_late (ops : list (event outside)) g : Prop := ∀ pre op post F g', ops = pre ++ op :: post →
  (∀ fuel, (F ≤ fuel)%nat → runs fuel pre g = Ok g') → in_time op g'.

Lemma exchange_run_ok ops N g : process N g → Forall op_ok ops → Z.of_nat N + Z.of_nat (length ops) < 2 ^ 32 - 1 →
  reads_late ops g → ServerLoop.settles (λ fuel, runs fuel ops g) (process (N + length ops)).
Proof using HB HC Hbuffer Hcache Hbuf Honce ML LL SL.
  revert N g. induction ops as [|op ops IH]; intros N g Hp Hops Hlen Hlate; simpl in *.
  { apply ServerLoop.settles_ok. by rewrite Nat.add_0_r. }
  apply Forall_cons in Hops as [Hop Hops].
  assert (in_time op g) as Htime by (by apply (Hlate [] op ops 0%nat g)).
  destruct (exchange_step_ok N g op Hp Hop ltac:(lia) Htime) as (F & g1 & Hp1 & Hstep).
  assert (reads_late ops g1) as Hlate1.
  { intros pre op' post F' g' -> Hrun. apply (Hlate (op :: pre) op' post (max F F') g' eq_refl).
    intros fuel Hfuel. cbn [Threads.run]. rewrite Hstep by lia. apply Hrun. lia. }
  eapply (ServerLoop.settles_bind _ (λ g' fuel, runs fuel ops g') (λ a, a = g1)); [by exists F, g1|].
  intros ? ->. rewrite <- Nat.add_succ_comm. apply IH; [done|done|lia|done].
Qed.

(** ** After the stop *)

Definition ready (i : nat) s : bool := match i with O => broadcaster_ready s | 1%nat => server_ready s | _ => true end.

Lemma stopped_body i e s : (i = 1%nat → server_ok true s) → ∃ r s', (∀ fuel, body fuel i e true s = Ok (r, s')) ∧
  (r = None → ready i s = false ∧ ready i s' = true).
Proof using Hbuf SL.
  intros Hs. destruct i as [|[|i]]; simpl.
  - unfold main_part. destruct (broadcaster_ready s); simpl; [by do 2 eexists|]. destruct (opened e); by do 2 eexists.
  - unfold server_part. destruct (server_ready s); simpl; [|destruct (opened e); by do 2 eexists].
    destruct (ServerLoop.close_server_spec h _ buffer Hbuf wire_length _ _ (Hs eq_refl)) as (server & w & -> & Hdown). by do 2 eexists.
  - by do 2 eexists.
Qed.

Lemma stopped_turn N g i e : process N g → Z.of_nat N < 2 ^ 32 - 1 → is_buffer (fresh e) → stop g = true →
  ∃ g', (∀ fuel, steps fuel (Turn i e) g = Ok g') ∧ process (S N) g' ∧ stop g' = true ∧
    (∀ j, running g !! j = Some false → running g' !! j = Some false) ∧
    (running g' !! i = Some true → ready i (shared g) = false ∧ ready i (shared g') = true).
Proof using HB HC Hbuffer Hcache Hbuf Honce ML LL SL.
  intros Hp HN He Hstop. destruct (exchange_step_ok N g (Turn i e) Hp He HN) as (F & g1 & Hp1 & Hstep); [intros ? _ _ ?; congruence|].
  assert (∃ g', (∀ fuel, steps fuel (Turn i e) g = Ok g') ∧ stop g' = true ∧
    (∀ j, running g !! j = Some false → running g' !! j = Some false) ∧
    (running g' !! i = Some true → ready i (shared g) = false ∧ ready i (shared g') = true)) as (g' & Hg' & Hrest).
  { simpl. unfold Threads.thread_turn. destruct (decide (running g !! i = Some true)) as [Hi|]; [|by exists g].
    destruct (stopped_body i e (shared g)) as (r & s' & Hbody & Hready).
    { intros ->. pose proof (process_server _ _ Hp) as Hs. by rewrite bool_decide_true in Hs by done. }
    exists (after i g (r, s')). split; [intros fuel; unfold after; rewrite !Hstop, Hbody; by destruct r|]. unfold after. destruct r as [r|]; simpl.
    - split; [apply orb_true_r|]. split.
      + intros j Hj. destruct (decide (i = j)) as [->|]; [by rewrite Hi in Hj|by rewrite list_lookup_insert_ne].
      + rewrite list_lookup_insert_eq by (by eapply lookup_lt_Some). done.
    - split; [done|]. split; [done|]. intros _. by apply Hready. }
  exists g'. split; [done|]. split; [|done]. pose proof (Hstep F ltac:(lia)) as Hf. rewrite Hg' in Hf. by injection Hf as ->.
Qed.

(** Two more turns of a thread end it: in the first it may still set up its socket. *)
Lemma stopped_twice N g i e e' : process N g → Z.of_nat N + 1 < 2 ^ 32 - 1 → is_buffer (fresh e) → is_buffer (fresh e') →
  stop g = true → (i < 3)%nat → ∃ g', (∀ fuel, runs fuel [Turn i e; Turn i e'] g = Ok g') ∧ process (N + 2) g' ∧ stop g' = true ∧
    (∀ j, running g !! j = Some false → running g' !! j = Some false) ∧ running g' !! i = Some false.
Proof using HB HC Hbuffer Hcache Hbuf Honce ML LL SL.
  intros Hp HN He He' Hstop Hi. destruct (stopped_turn N g i e Hp ltac:(lia) He Hstop) as (g1 & Hg1 & Hp1 & Hstop1 & Hdead1 & Hready1).
  destruct (stopped_turn (S N) g1 i e' Hp1 ltac:(lia) He' Hstop1) as (g2 & Hg2 & Hp2 & Hstop2 & Hdead2 & Hready2).
  exists g2. split; [intros fuel; cbn [Threads.run]; by rewrite Hg1; cbn [mbind outcome_bind]; rewrite Hg2|].
  split; [by replace (N + 2)%nat with (S (S N)) by lia|]. split; [done|]. split; [by eauto|].
  destruct (lookup_lt_is_Some_2 (running g1) i) as [b1 Hb1]; [by rewrite (process_threads _ _ Hp1)|].
  destruct (lookup_lt_is_Some_2 (running g2) i) as [b2 Hb2]; [by rewrite (process_threads _ _ Hp2)|].
  destruct b1; [|by apply Hdead2]. destruct b2; [|done]. destruct (Hready1 Hb1), (Hready2 Hb2). congruence.
Qed.

(** [start] returns, and the server has closed everything it had opened. *)
Lemma stopped_all N g (es : nat → outside) : process N g → Z.of_nat N + 5 < 2 ^ 32 - 1 → (∀ k, is_buffer (fresh (es k))) → stop g = true →
  ∃ g', (∀ fuel, runs fuel [Turn 0 (es 0%nat); Turn 0 (es 1%nat); Turn 1 (es 2%nat); Turn 1 (es 3%nat); Turn 2 (es 4%nat); Turn 2 (es 5%nat)] g = Ok g') ∧
    joined g' ∧ server_ok false (shared g').
Proof using HB HC Hbuffer Hcache Hbuf Honce ML LL SL.
  intros Hp HN He Hstop.
  destruct (stopped_twice N g 0 (es 0%nat) (es 1%nat) Hp ltac:(lia) (He _) (He _) Hstop ltac:(lia)) as (g1 & Hg1 & Hp1 & Hstop1 & _ & H0).
  destruct (stopped_twice _ g1 1 (es 2%nat) (es 3%nat) Hp1 ltac:(lia) (He _) (He _) Hstop1 ltac:(lia)) as (g2 & Hg2 & Hp2 & Hstop2 & Hdead2 & H1).
  destruct (stopped_twice _ g2 2 (es 4%nat) (es 5%nat) Hp2 ltac:(lia) (He _) (He _) Hstop2 ltac:(lia)) as (g3 & Hg3 & Hp3 & Hstop3 & Hdead3 & H2).
  exists g3. split; [|split].
  - intros fuel. specialize (Hg1 fuel). specialize (Hg2 fuel). specialize (Hg3 fuel). cbv beta in *.
    change (Threads.run (P := parts h BUFFER CACHE fd buffer fuel) ([Turn 0 (es 0%nat); Turn 0 (es 1%nat)] ++ [Turn 1 (es 2%nat); Turn 1 (es 3%nat)] ++ [Turn 2 (es 4%nat); Turn 2 (es 5%nat)]) g = Ok g3).
    rewrite threads_run_app, Hg1. cbn [mbind outcome_bind]. rewrite threads_run_app, Hg2. exact Hg3.
  - pose proof (process_threads _ _ Hp3) as Hlen. unfold joined.
    pose proof (Hdead3 0%nat (Hdead2 0%nat H0)) as H0'. pose proof (Hdead3 1%nat H1) as H1'.
    destruct (running g3) as [|? [|? [|? [|? ?]]]]; simplify_eq/=. by repeat constructor.
  - pose proof (process_server _ _ Hp3) as Hs. by rewrite (Hdead3 1%nat H1) in Hs.
Qed.

Lemma start_process m0 server v w : before = datagrams v → is_buffer (EncodedMessage.buffer m0) → ServerLoop.started server w →
  process 0 (exchange_start (init BUFFER CACHE e0 m0 published server v w) false).
Proof using HB HC.
  intros Hb Hm Hs. split; simpl.
  - exists [], O, []. split; [done|]. split; [rewrite Hb; by apply simulator_init_ok|done|done].
  - by apply ServerLoop.started_serving.
  - done.
  - intros i Hi. by destruct i as [|[|[|i]]].
Qed.
End Session.

(** C10: The exchange's three threads together.  Let the turns of the main loop,
    the retransmit server and the generator's thread interleave in any order, with
    sends, set-ups and connections that fail at any time and a stop at any
    moment; let the server read every packet of an answer at a moment of its own among
    the states the exchange passes meanwhile, or in the middle of a put.  Then no turn
    is undefined.  The events are
    numbered in order from [FIRST_SEQUENCE_ID], none is lost or repeated, the
    numbered ones, those in the buffer and those still to be published are all of
    them; a datagram leaves, in number order, only as the packet the market data handler
    expects under its number; the cache has every packet less than its size behind the newest;
    and as long as the server runs, what every connected client has been sent is, in
    order, the packets it asked for as far as the server got, where a number beyond the first 2^32 packets
    is answered with the packet 2^32 (or a multiple) before it.  As
    soon as one thread returns the stop is requested, and after a stop two more
    turns of each thread end [start], with everything the server opened closed.
    Conditions: [kevent] reports no descriptor twice in one batch (the server's
    loop would not survive it); the server does not serve a client from a state of
    the cache before the first event (it would answer packet 1 with an item that
    was never put); fewer than 2^32 - 6 turns. *)
Theorem exchange_threads_serve {V W} `{MulticastLaws V} `{SocketLaws W} {LI : Listener W} {LL : ListenerLaws W} (h : endian)
    (BUFFER CACHE fd : Z) (buffer : list Z) `{PowerOfTwo BUFFER, PowerOfTwo CACHE} (e0 : MarketEvent.t) (m0 : EncodedMessage.t)
    (events : list MarketEvent.t) (server : RetransmitServer.t) (v : V) (w : W) (ops : list (event outside)) :
  BUFFER < 2 ^ 64 → CACHE < 2 ^ 32 → is_buffer (EncodedMessage.buffer m0) → is_buffer buffer → ServerLoop.reports_once (W := W) →
  ServerLoop.started server w → Forall op_ok ops → Z.of_nat (length ops) < 2 ^ 32 - 6 →
  reads_late h BUFFER CACHE fd buffer ops (exchange_start (init BUFFER CACHE e0 m0 events server v w) false) →
  let run fuel := Threads.run (P := parts h BUFFER CACHE fd buffer fuel) in
  let begin := exchange_start (init BUFFER CACHE e0 m0 events server v w) false in
  ServerLoop.settles (λ fuel, run fuel ops begin) (λ g, let s := shared g in ∃ es n ks,
    events = es ++ to_publish s ∧ lazy_repr BUFFER (ExchangeSimulator.market_event_buffer_ (simulator s)) (drop n es) ∧ (n ≤ length es)%nat ∧
    datagrams (feed s) = datagrams v ++ (packet (event_at e0 es) <$> ks) ∧ ks `sublist_of` seqZ Config.FIRST_SEQUENCE_ID (Z.of_nat n) ∧
    (∀ k, Config.FIRST_SEQUENCE_ID ≤ k → k < Config.FIRST_SEQUENCE_ID + Z.of_nat n → Config.FIRST_SEQUENCE_ID + Z.of_nat n < k + CACHE →
       ∃ m, ExchangeSimulator.cached CACHE (simulator s) (k - Config.FIRST_SEQUENCE_ID) = Ok (Value m) ∧
         EncodedMessage.message m = Ok (packet (event_at e0 es) k)) ∧
    (running g !! 1%nat = Some true → ServerLoop.serving h (wire_packet e0 events) (retransmit_server_ s) (kernel s)) ∧
    (∀ p, Config.FIRST_SEQUENCE_ID ≤ p < Config.FIRST_SEQUENCE_ID + 2 ^ 32 → wire_packet e0 events p = packet (event_at e0 events) p) ∧
    (∀ i, running g !! i = Some false → stop g = true) ∧
    (stop g = true → ∀ outs, (∀ k, is_buffer (fresh (outs k))) →
       ∃ g', (∀ fuel, run fuel ((λ k, Turn (k / 2) (outs k)) <$> seq 0 6) g = Ok g') ∧ joined g' ∧
         (server_ready (shared g') = true → ServerLoop.shut_down (retransmit_server_ (shared g')) (kernel (shared g'))))).
Proof.
  intros Hbuffer Hcache Hm Hbuf Honce Hstarted Hops Hlen Hlate run begin.
  assert (ServerLoop.settles (λ fuel, run fuel ops begin) (process h BUFFER CACHE e0 events (datagrams v) (0 + length ops))) as Hrun
    by (apply exchange_run_ok; try done; [by apply start_process|lia]).
  eapply ServerLoop.settles_weaken; [exact Hrun|]. intros g Hp s. pose proof Hp as [(es & n & ks & Hn & [Hsim Hev _]) Hserver _ Htold].
  exists es, n, ks. split; [exact Hev|]. do 4 (split; [apply Hsim|]). split; [|split; [|split; [|split]]].
  - intros k Hk1 Hk2 Hk3.
    destruct (cached_ok BUFFER CACHE Hcache e0 (datagrams v) es n ks _ _ (k - Config.FIRST_SEQUENCE_ID) Hsim) as (r & Hr & Hok & Hlive); [lia|lia|lia|].
    unfold s. rewrite Hr. destruct Hlive as [m ->]; [lia..|]. exists m. split; [done|]. rewrite (proj2 (Hok m eq_refl)). do 2 f_equal. lia.
  - intros Halive. by rewrite bool_decide_true in Hserver by done.
  - intros p Hpk. unfold wire_packet. f_equal. rewrite uwrap_small by (unfold in_u; lia). lia.
  - exact Htold.
  - intros Hstop outs Houts. apply (stopped_all h BUFFER CACHE fd buffer Hbuffer Hcache Hbuf Honce e0 events (datagrams v) _ g outs Hp); [lia|done|done].
Qed.

(** ** A run

    The lossy network and the client of [Retransmission], with the threads' turns. *)

(** The server reads the [j]-th of the passed states. *)
Definition fine (j : nat) : outside := {| opened := Value tt; fresh := replicate 42 7; moment := λ _ _, Some j |}.
Definition exchange_ops : list (event outside) :=
  (λ a, Turn a.1 (fine a.2)) <$> [(1, 0); (0, 0); (2, 0); (0, 0); (2, 0); (1, 2); (1, 0); (0, 0); (1, 0); (1, 0); (2, 0)]%nat.
Abbreviation test_parts := (λ fuel, parts (V := flaky) (W := Playback.t) BigEndian 4 2 0 (replicate 42 0) fuel).
Abbreviation test_begin :=
  (exchange_start (init 4 2 (sample_event 0) test_message lossy_events lossy_server lossy_network server_world) false).

(** The client of the server has been sent the packet it asked for. *)
Example exchange_threads_result :
  (λ g, (length (to_publish (shared g)), length (datagrams (feed (shared g))), outgoing (kernel (shared g)) 4, running g)) <$>
    Threads.run (P := test_parts 10%nat) exchange_ops test_begin =
  Ok (0%nat, 1%nat, wire_packet (sample_event 0) lossy_events 1, [true; true; true]).
Proof. vm_compute. reflexivity. Qed.

(** What the server reads is there. *)
Lemma exchange_ops_late : reads_late (V := flaky) (W := Playback.t) BigEndian 4 2 0 (replicate 42 0) exchange_ops test_begin.
Proof.
  intros pre op post F g Heq Hrun e -> _ _ Hready. left. intros i index j Hj.
  assert (F ≤ 10 + F)%nat as Hle by lia.
  pose proof (f_equal (fmap (λ g, (server_ready (shared g),
    bool_decide (begun (nth j (passed (shared g)) (simulator (shared g))))))) (Hrun _ Hle)) as Hlast.
  cbn [fmap outcome_fmap] in Hlast. rewrite Hready in Hlast. clear Hrun Hready Hle.
  repeat (destruct pre as [|op pre]; [first [discriminate Heq|injection Heq as <- _; unfold fine in Hj; cbn [moment] in Hj;
    injection Hj as <-; match type of Hlast with ?l = _ => let r := eval vm_compute in l in
      assert (l = r) as Hl by (vm_compute; reflexivity); rewrite Hl in Hlast end;
    first [discriminate Hlast|injection Hlast as Hlast; exact (bool_decide_eq_true_1 _ (eq_sym Hlast))]]|injection Heq as <- Heq]).
  destruct pre; discriminate Heq.
Qed.

Lemma exchange_threads_serve_witness :
  ∃ F g es n ks, (∀ fuel, (F ≤ fuel)%nat → Threads.run (P := test_parts fuel) exchange_ops test_begin = Ok g) ∧
    lossy_events = es ++ to_publish (shared g) ∧
    datagrams (feed (shared g)) = (packet (event_at (sample_event 0) es) <$> ks) ∧ ks `sublist_of` seqZ 1 (Z.of_nat n) ∧
    ServerLoop.serving BigEndian (wire_packet (sample_event 0) lossy_events) (retransmit_server_ (shared g)) (kernel (shared g)).
Proof.
  assert (PowerOfTwo 4) as H4 by (split; reflexivity). assert (PowerOfTwo 2) as H2 by (split; reflexivity).
  destruct (exchange_threads_serve (V := flaky) (W := Playback.t) BigEndian 4 2 0 (replicate 42 0) (sample_event 0) test_message lossy_events
    lossy_server lossy_network server_world exchange_ops) as (F & g & (es & n & ks & Hev & _ & _ & Hdata & Hks & _ & Hserving & _) & Hrun).
  - reflexivity.
  - reflexivity.
  - reflexivity.
  - reflexivity.
  - exact ServerLoop.playback_reports_once.
  - exact lossy_started.
  - repeat (apply Forall_cons; split); try apply Forall_nil_2; reflexivity.
  - reflexivity.
  - exact exchange_ops_late.
  - exists F, g, es, n, ks. split; [exact Hrun|]. split; [exact Hev|]. split; [exact Hdata|]. split; [exact Hks|]. apply Hserving.
    assert (F ≤ 10 + F)%nat as Hle by lia. pose proof (f_equal (fmap (λ g, running g !! 1%nat)) (Hrun _ Hle)) as Halive.
    cbn [fmap outcome_fmap] in Halive. assert (Ok (running g !! 1%nat) = Ok (Some true)) as Hone; [|by injection Hone].
    rewrite <- Halive. vm_compute. reflexivity.
Defined.
End ExchangeThreads.
