(* ===== verification/Errors.v ===== *)
(** * Error messages ([exchange-errors.hpp], [handler-errors.hpp], [strategy-errors.hpp])

    The [std::formatter] specialisations: what an error prints as.  [strerror]
    is the C library's text for an error number. *)

From Stdlib Require Import Ascii String.
From stdpp Require Import strings pretty.
From S2P Require Import Prelude Types Handler.
#[local] Open Scope string_scope.

(** [std::format_to("{} (errno {}: {})", name, errno, strerror(errno))] *)
Definition with_errno (strerror : Z → string) (errno : Z) (name : string) : string :=
  name ++ " (errno " ++ pretty errno ++ ": " ++ strerror errno ++ ")".

Module ExchangeErrorFormat.
Import ExchangeError.
Definition name (error : t) : string :=
  match error with
  | PacketTooOld => "PacketTooOld"
  | InvalidPacket => "InvalidPacket"
  | PacketUnavailable => "PacketUnavailable"
  | ClientConnection => "ClientConnection"
  | ServerFatal => "ServerFatal"
  | StartBroadcast => "StartBroadcast"
  | Send => "Send"
  | ServerBusy => "ServerBusy"
  | StartRetransmitServer => "StartRetransmitServer"
  | AddressInfo => "AddressInfo"
  | SetSocketNonblocking => "SetSocketNonblocking"
  | ClientConnectionClosed => "ClientConnectionClosed"
  | WouldBlock => "WouldBlock"
  | ReceiveFromClient => "ReceiveFromClient"
  | SendToClient => "SendToClient"
  | NewConnection => "NewConnection"
  | RequestHandler => "RequestHandler"
  | RegisterEvent => "RegisterEvent"
  | EventQueue => "EventQueue"
  | OrderDoesNotExist => "OrderDoesNotExist"
  | InvalidOrderRequest => "InvalidOrderRequest"
  | InvalidBroadcastIP => "InvalidBroadcastIP"
  | InvalidBroadcastInterface => "InvalidBroadcastInterface"
  end.

Definition system_error (error : t) : bool :=
  match error with
  | StartBroadcast | Send | StartRetransmitServer | SetSocketNonblocking | ClientConnectionClosed | WouldBlock | ReceiveFromClient | SendToClient | NewConnection | RegisterEvent | EventQueue | ServerFatal => true
  | _ => false
  end.

Definition format (strerror : Z → string) (errno : Z) (error : t) : string :=
  if system_error error then with_errno strerror errno (name error) else name error.
End ExchangeErrorFormat.

Module HandlerErrorFormat.
Import HandlerError.
Definition name (error : t) : string :=
  match error with
  | StartUDPListener => "Start UDP Listener"
  | UDPListen => "UDP Listen Error"
  | InvalidMulticastGroup => "Invalid Multicast Group IP"
  | StartRetransmitClient => "Start Retransmit Client"
  | ConnectToRetransmitServer => "Connect to Retransmit Server"
  | RetransmitServer => "Retransmit Server Error"
  | RetransmitClientSend => "Retransmit Client Send Error"
  | RetransmitClientReceive => "Retransmit Client Receive Error"
  | InvalidRetransmitServer => "Invalid Retransmit Server IP"
  | ReaderTooFarBehind => "Fatal: Market data handler too far behind. Likely slow reader."
  | WriterTooFarBehind => "Fatal: Market data handler too far behind. Likely slow TCP retransmission."
  | RetransmitRequestBufferFull => "Retransmit request buffer full."
  | HandlerTooSlow => "Fatal: Market data handler too slow. Packet buffer is full."
  end.

Definition system_error (error : t) : bool :=
  match error with
  | StartUDPListener | UDPListen | InvalidMulticastGroup | StartRetransmitClient | ConnectToRetransmitServer | RetransmitClientSend | RetransmitClientReceive => true
  | _ => false
  end.

Definition format (strerror : Z → string) (errno : Z) (error : t) : string :=
  if system_error error then with_errno strerror errno (name error) else name error.
End HandlerErrorFormat.

Module StrategyError.
Inductive t : Type := CriticalRiskLimitBreached | TradeBufferFull | TooManyOrders.
#[global] Instance eq_dec : EqDecision t.
Proof. solve_decision. Defined.

Definition format (error : t) : string :=
  match error with
  | CriticalRiskLimitBreached => "Critical risk limit breached"
  | TradeBufferFull => "Trade buffer full"
  | TooManyOrders => "Too many orders"
  end.
End StrategyError.

(** ** A message identifies its error *)

(** The name in a message: what comes before the first parenthesis. *)
Fixpoint before_errno (s : string) : string :=
  match s with
  | EmptyString => EmptyString
  | String c s => if Ascii.eqb c "(" then EmptyString else String c (before_errno s)
  end.

(** Names that a search of all errors finds again are names of one error only. *)
Lemma identified {T} (key : T → string) (all : list T) :
  (∀ e, List.find (λ x, String.eqb (key x) (key e)) all = Some e) → ∀ e e', key e = key e' → e = e'.
Proof. intros Hfind e e' Heq. pose proof (Hfind e) as He. rewrite Heq, Hfind in He. by injection He. Qed.

Definition exchange_errors : list ExchangeError.t :=
  [ExchangeError.PacketTooOld; ExchangeError.InvalidPacket; ExchangeError.PacketUnavailable; ExchangeError.ClientConnection;
   ExchangeError.ServerFatal; ExchangeError.StartBroadcast; ExchangeError.Send; ExchangeError.ServerBusy;
   ExchangeError.StartRetransmitServer; ExchangeError.AddressInfo; ExchangeError.SetSocketNonblocking;
   ExchangeError.ClientConnectionClosed; ExchangeError.WouldBlock; ExchangeError.ReceiveFromClient; ExchangeError.SendToClient;
   ExchangeError.NewConnection; ExchangeError.RequestHandler; ExchangeError.RegisterEvent; ExchangeError.EventQueue;
   ExchangeError.OrderDoesNotExist; ExchangeError.InvalidOrderRequest; ExchangeError.InvalidBroadcastIP;
   ExchangeError.InvalidBroadcastInterface].
Definition handler_errors : list HandlerError.t :=
  [HandlerError.StartUDPListener; HandlerError.UDPListen; HandlerError.InvalidMulticastGroup; HandlerError.StartRetransmitClient;
   HandlerError.ConnectToRetransmitServer; HandlerError.RetransmitServer; HandlerError.RetransmitClientSend;
   HandlerError.RetransmitClientReceive; HandlerError.InvalidRetransmitServer; HandlerError.ReaderTooFarBehind;
   HandlerError.WriterTooFarBehind; HandlerError.RetransmitRequestBufferFull; HandlerError.HandlerTooSlow].

Lemma exchange_name strerror n e : before_errno (ExchangeErrorFormat.format strerror n e) =
  before_errno (ExchangeErrorFormat.format (λ _, "") 0 e).
Proof. by destruct e. Qed.
Lemma handler_name strerror n e : before_errno (HandlerErrorFormat.format strerror n e) =
  before_errno (HandlerErrorFormat.format (λ _, "") 0 e).
Proof. by destruct e. Qed.

(** Error messages are unambiguous: whatever [errno] is and whatever the C
    library calls it, two errors of a component that print alike are the
    same error. *)
Theorem error_messages_identify strerror (n n' : Z) :
  (∀ e e', ExchangeErrorFormat.format strerror n e = ExchangeErrorFormat.format strerror n' e' → e = e') ∧
  (∀ e e', HandlerErrorFormat.format strerror n e = HandlerErrorFormat.format strerror n' e' → e = e') ∧
  (∀ e e', StrategyError.format e = StrategyError.format e' → e = e').
Proof.
  split_and!; intros e e' Heq.
  - apply (f_equal before_errno) in Heq. rewrite !(exchange_name strerror) in Heq. revert Heq.
    apply (identified (λ e, before_errno (ExchangeErrorFormat.format (λ _, "") 0 e)) exchange_errors). by intros [].
  - apply (f_equal before_errno) in Heq. rewrite !(handler_name strerror) in Heq. revert Heq.
    apply (identified (λ e, before_errno (HandlerErrorFormat.format (λ _, "") 0 e)) handler_errors). by intros [].
  - revert e e' Heq. apply (identified StrategyError.format
      [StrategyError.CriticalRiskLimitBreached; StrategyError.TradeBufferFull; StrategyError.TooManyOrders]). by intros [].
Qed.
