(* ===== verification/Log.v ===== *)
(** * Log messages ([utils/log.hpp])

    The settings of [config.hpp], [logging::enabled] and [logging::write], and the
    messages that the components print as their work goes on: one for every item
    when the setting is detailed, one for every [MINIMAL_INTERVAL] items when
    it is minimal.  What [std::format] makes of a pattern and its arguments is written
    out; the standard output is what it holds back and what has gone out. *)

From Stdlib Require Import Ascii String.
From stdpp Require Import strings pretty.
From S2P Require Import Prelude Types Interfaces Clob RandomContainer Generator.
#[local] Open Scope string_scope.

Module LogSetting.
Inductive t : Type := None | Errors | Minimal | Detailed | Flush.
(** [static_cast<unsigned>] *)
Definition code (setting : t) : Z := match setting with None => 0 | Errors => 1 | Minimal => 2 | Detailed => 3 | Flush => 4 end.
End LogSetting.

Module LogConfig.
(** exchange::config, handler::config, strategy::config *)
Definition EXCHANGE_LOGGING : LogSetting.t := LogSetting.Minimal.
Definition HANDLER_LOGGING : LogSetting.t := LogSetting.Minimal.
Definition STRATEGY_LOGGING : LogSetting.t := LogSetting.Detailed.
End LogConfig.

(** Standard output: text in the buffer, and text that has left it. *)
Record stdout : Type := { pending_text : string; written_text : string }.
Definition print (text : string) (out : stdout) : stdout :=
  {| pending_text := pending_text out ++ text; written_text := written_text out |}.
Definition fflush (out : stdout) : stdout :=
  {| pending_text := ""; written_text := written_text out ++ pending_text out |}.
Definition newline : string := String (ascii_of_nat 10) "".

Module logging.
Definition MINIMAL_INTERVAL : Z := 5000.

Definition enabled (Current Minimum : LogSetting.t) : bool := (LogSetting.code Minimum <=? LogSetting.code Current)%Z.

(** [message]: the formatted arguments. *)
Definition write (Current : LogSetting.t) (component message : string) (out : stdout) : stdout :=
  let out := print ("[" ++ component ++ "] ") out in
  let out := print (message ++ newline) out in
  match Current with LogSetting.Flush => fflush out | _ => out end.
End logging.
#[local] Arguments logging.write : simpl never.

(** ** Progress

    [count] is the function's [static size_t]. *)
Section Progress.
Context (Current : LogSetting.t) (component : string).

Definition progress (each : string) (every : Z → string) (count : Z) (out : stdout) : Z * stdout :=
  if logging.enabled Current LogSetting.Detailed then (count, logging.write Current component each out)
  else if logging.enabled Current LogSetting.Minimal then
    let count := u64 (count + 1)%Z in
    (count, if (count mod logging.MINIMAL_INTERVAL =? 0)%Z then logging.write Current component (every count) out else out)
  else (count, out).

(** The same, by a packet's number. *)
Definition numbered (message : Z → string) (number : Z) (out : stdout) : stdout :=
  if logging.enabled Current LogSetting.Detailed then logging.write Current component (message number) out
  else if logging.enabled Current LogSetting.Minimal then
    if (number mod logging.MINIMAL_INTERVAL =? 0)%Z then logging.write Current component (message number) out else out
  else out.
End Progress.

Definition with_count (before after : string) (count : Z) : string := before ++ pretty count ++ after.

(** [Broadcaster::send] *)
Definition log_sent (Current : LogSetting.t) : Z → stdout → Z * stdout :=
  progress Current "Broadcaster" "Sent message." (with_count "Sent " " packets.").

(** [RealTimeListener::run] *)
Definition log_received (Current : LogSetting.t) : Z → stdout → Z * stdout :=
  progress Current "Real Time Feed Listener" "Received packet." (with_count "Received " " packets.").

(** [MarketDataHandler::run] *)
Definition log_submitted (Current : LogSetting.t) : Z → stdout → Z * stdout :=
  progress Current "MarketDataHandler" "Submitted packet data to reorder buffer."
    (with_count "Submitted " " packets to the reorder buffer.").

(** [RetransmitListener::handle_request] *)
Definition log_retransmitted (Current : LogSetting.t) (sequence_number : Z) : Z → stdout → Z * stdout :=
  progress Current "Retransmit Client" (with_count "Received packet " "." sequence_number)
    (with_count "Received " " retransmitted packets.").

(** [MarketEventPublisher::run] *)
Definition log_published (Current : LogSetting.t) : Z → stdout → Z * stdout :=
  progress Current "Market Event Publisher" "Published market event." (with_count "Published " " market events.").

(** [MarketRequestGenerator::generate_and_post_cancel_request] *)
Definition log_cancel (Current : LogSetting.t) (request : OrderRequest.t) : Z → stdout → Z * stdout :=
  progress Current "Market Request Generator" (with_count "Generated cancel order #" "." (OrderRequest.order_id request))
    (with_count "Generated " " cancel orders.").

(** [MarketRequestGenerator::generate_and_post_new_order_request] *)
Definition log_new_order (Current : LogSetting.t) (new_request : OrderRequest.t) : Z → stdout → Z * stdout :=
  let type_name := match OrderRequest.type new_request with OrderRequest.Buy => "Buy" | _ => "Sell" end in
  progress Current "Market Request Generator"
    ("Generated " ++ type_name ++ " order #" ++ pretty (OrderRequest.order_id new_request) ++ " at " ++
     pretty (OrderRequest.price new_request) ++ " x " ++ pretty (OrderRequest.quantity new_request) ++ ".")
    (with_count "Generated " " new orders.").

(** [Sequencer::generate_message]: the counter has gone past the packet. *)
Definition log_sequenced (Current : LogSetting.t) (sequencer_counter_ : Z) : stdout → stdout :=
  numbered Current "Sequencer" (with_count "Sequenced packet # " ".") (u64 (sequencer_counter_ - 1)%Z).

(** [ExchangeSimulator::run] *)
Definition log_cached (Current : LogSetting.t) (sequence_number : Z) : stdout → stdout :=
  numbered Current "ExchangeSimulator" (with_count "Cached packet # " ".") sequence_number.

(** ** What is printed *)

(** Every setting includes the messages of the previous ones. *)
Lemma enabled_mono current current' minimum : (LogSetting.code current ≤ LogSetting.code current')%Z →
  logging.enabled current minimum = true → logging.enabled current' minimum = true.
Proof. unfold logging.enabled. rewrite !Z.leb_le. lia. Qed.

Lemma append_empty_r (s : string) : s ++ "" = s.
Proof. induction s as [|a s IH]; [done|]. exact (f_equal (String a) IH). Qed.
Lemma append_assoc (s1 s2 s3 : string) : s1 ++ s2 ++ s3 = (s1 ++ s2) ++ s3.
Proof. induction s1 as [|a s1 IH]; [done|]. exact (f_equal (String a) IH). Qed.

Lemma print_print text text' out : print text' (print text out) = print (text ++ text') out.
Proof. unfold print. simpl. by rewrite append_assoc. Qed.
Lemma print_empty out : print "" out = out.
Proof. unfold print. rewrite append_empty_r. by destruct out. Qed.

Lemma concat_cons (s : string) l : String.concat "" (s :: l) = s ++ String.concat "" l.
Proof. destruct l; simpl; [by rewrite append_empty_r|done]. Qed.

Definition line (component message : string) : string := "[" ++ component ++ "] " ++ message ++ newline.

(** A message is one line, printed whole; when every message is flushed none is held back. *)
Lemma write_spec current component message out : logging.write current component message out =
  (match current with LogSetting.Flush => fflush | _ => id end) (print (line component message) out).
Proof.
  unfold logging.write. rewrite print_print.
  assert (("[" ++ component ++ "] ") ++ message ++ newline = line component message) as ->.
  { unfold line. by rewrite !append_assoc. }
  by destruct current.
Qed.

(** Items logged one after the other. *)
Fixpoint log_items (log : Z → stdout → Z * stdout) (items : nat) (count : Z) (out : stdout) : Z * stdout :=
  match items with
  | O => (count, out)
  | S items => let '(count, out) := log count out in log_items log items count out
  end.

(** With the minimal setting there is one line for every [MINIMAL_INTERVAL]-th
    item, with how many there have been so far. *)
Lemma progress_minimal component each every items count out : (0 ≤ count)%Z → (count + Z.of_nat items < 2 ^ 64)%Z →
  log_items (progress LogSetting.Minimal component each every) items count out =
    ((count + Z.of_nat items)%Z,
     print (String.concat "" ((λ n, line component (every n)) <$>
       filter (λ n, (n mod logging.MINIMAL_INTERVAL = 0)%Z) (seqZ (count + 1)%Z (Z.of_nat items)))) out).
Proof.
  revert count out. induction items as [|items IH]; intros count out Hc Hlen; simpl.
  { change (Z.of_nat 0) with 0%Z. rewrite Z.add_0_r. by rewrite print_empty. }
  change (logging.enabled LogSetting.Minimal LogSetting.Detailed) with false.
  rewrite seqZ_cons, filter_cons by lia. rewrite (uwrap_small 64) by (unfold in_u; lia).
  replace (Z.pred (Z.of_nat (S items))) with (Z.of_nat items) by lia. replace (Z.succ (count + 1)) with (count + 1 + 1)%Z by lia.
  rewrite IH by lia. f_equal; [lia|]. destruct (Z.eqb_spec ((count + 1) mod logging.MINIMAL_INTERVAL) 0) as [Hz|Hz].
  - rewrite decide_True by done. rewrite write_spec. unfold id. rewrite fmap_cons, concat_cons, print_print. done.
  - by rewrite decide_False.
Qed.

(** Without log messages nothing is printed, whatever happens. *)
Lemma progress_none component each every items count out :
  log_items (progress LogSetting.None component each every) items count out = (count, out).
Proof. by induction items. Qed.

(** ** The log line of a new order

    The generator's requests carry no id: the engine assigns it and returns it,
    but the line prints the request's. *)
Lemma new_order_line {PL OM} {pl_ops : KeyedStore PL Z OrderBook.BookState.PriceLevel} {om_ops : KeyedStore OM Z Z} entropy type
    (s s' : MarketRequestGenerator.t PL OM) request count out :
  MarketRequestGenerator.new_order_request entropy type s = Ok (request, s') →
  ∃ rest, log_new_order LogSetting.Detailed request count out =
    (count, print (line "Market Request Generator" ("Generated " ++ rest)) out) ∧
    ∃ type_name rest', rest = type_name ++ " order #0 at " ++ rest'.
Proof.
  intros Hr. assert (OrderRequest.order_id request = 0%Z) as Hid.
  { revert Hr. unfold MarketRequestGenerator.new_order_request, MarketRequestGenerator.generate_aggressive_order_request,
      MarketRequestGenerator.generate_passive_order_request. destruct (MarketRequestGenerator.draw entropy s) as [raw s1].
    destruct (_ <? _)%Z; (destruct (assert_ _); [|done..]); cbn [mbind outcome_bind];
      (destruct (MarketRequestGenerator.generate_price _ _ _ _) as [[price s2]| |]; [|done..]); cbn [mbind outcome_bind];
      (destruct (MarketRequestGenerator.draw entropy s2) as [raw' s3]); (destruct (uniform_int _ _ _); [|done..]); by intros [= <- _]. }
  eexists. split.
  - unfold log_new_order, progress. cbn [logging.enabled LogSetting.code Z.leb]. rewrite Hid. rewrite write_spec. done.
  - do 2 eexists. done.
Qed.
