(* ===== verification/Strategy.v ===== *)
(** * The strategy's data, ClientOrderIDGenerator and PassiveMarketMaker

    [strategy-oms/strategy.hpp], [client-id-gen] and [market-maker].  The static
    counter of the id generator is passed along explicitly; prices are [int32_t]
    and go through [i32], the inventory through [i64]. *)

From S2P Require Import Prelude Types OrderBook RingBuffers.

Module QuantityChange.
Inductive t : Type := NotAnUpdate | Reducing | Increasing.
#[global] Instance eq_dec : EqDecision t.
Proof. solve_decision. Defined.
End QuantityChange.

Module OrderFillUpdate.
Record t : Type := { order_id : Z; filled_quantity : Z }.
End OrderFillUpdate.

Module OutboundOrderRequest.
Record t : Type := {
  request : OrderRequest.t;
  quantity_change : QuantityChange.t;
  previous_quantity : Z;
  side : Side.t;
}.
#[global] Instance eq_dec : EqDecision t.
Proof. solve_decision. Defined.
End OutboundOrderRequest.

Module RiskData.
Record t : Type := {
  net_position : Z;
  realized_pnl : Z;
  unrealized_pnl : Z;
  open_order_count : Z;
  orders_sent_in_window : Z;
  max_position : Z;
  max_loss_allowed : Z;
  max_orders_allowed : Z;
  max_orders_per_window : Z;
  is_halted : bool;
}.
End RiskData.

Module OrderStatus.
Inductive t : Type := Good | Stopped | Halted | TooManyOrders | TooMuchExposure | TooMuchLoss.
#[global] Instance eq_dec : EqDecision t.
Proof. solve_decision. Defined.
End OrderStatus.

Abbreviation BestBidOffer := BookState.OrderSnapshot.
Abbreviation StrategyOrderBuffer := (SingleThreadRingBuffer.t OutboundOrderRequest.t).

Module ClientOrderIDGenerator.
(** [next_client_id_] *)
Definition init : Z := 1.
Definition generate (next_client_id_ : Z) : Z * Z := (next_client_id_, u64 (next_client_id_ + 1)).
End ClientOrderIDGenerator.

(** [std::abs] of a [w]-bit integer. *)
Definition abs_ (w x : Z) : outcome Z := checked w (Z.abs x).

Module PassiveMarketMaker.

Inductive Status : Type := NotPlaced | Placed.
#[global] Instance Status_eq_dec : EqDecision Status.
Proof. solve_decision. Defined.

Record PlacedOrder : Type := { status : Status; placed_order : Order.t }.
Record PricePair : Type := { bid_price : Z; offer_price : Z }.

Record t : Type := {
  buy_order_ : PlacedOrder;
  sell_order_ : PlacedOrder;
  net_filled_quantity_ : Z;
}.

Definition no_order : PlacedOrder := {| status := NotPlaced; placed_order := Order.zero |}.
Definition init : t := {| buy_order_ := no_order; sell_order_ := no_order; net_filled_quantity_ := 0 |}.

Definition set_status (st : Status) (o : PlacedOrder) : PlacedOrder :=
  {| status := st; placed_order := placed_order o |}.
Definition set_quantity (q : Z) (o : PlacedOrder) : PlacedOrder :=
  {| status := status o; placed_order := Order.set_quantity q (placed_order o) |}.
Definition set_buy (o : PlacedOrder) (m : t) : t :=
  {| buy_order_ := o; sell_order_ := sell_order_ m; net_filled_quantity_ := net_filled_quantity_ m |}.
Definition set_sell (o : PlacedOrder) (m : t) : t :=
  {| buy_order_ := buy_order_ m; sell_order_ := o; net_filled_quantity_ := net_filled_quantity_ m |}.
Definition set_net (n : Z) (m : t) : t :=
  {| buy_order_ := buy_order_ m; sell_order_ := sell_order_ m; net_filled_quantity_ := n |}.

(** [buy_order_] or [sell_order_], as the code's [PlacedOrder&] and [PlacedOrder*]. *)
Definition order_at (sd : Side.t) (m : t) : PlacedOrder :=
  match sd with Side.Buy => buy_order_ m | Side.Sell => sell_order_ m end.
Definition set_order_at (sd : Side.t) (o : PlacedOrder) (m : t) : t :=
  match sd with Side.Buy => set_buy o m | Side.Sell => set_sell o m end.

Definition placed (o : PlacedOrder) : bool := bool_decide (status o = Placed).
Definition placed_count (m : t) : Z :=
  (if placed (buy_order_ m) then 1 else 0) + (if placed (sell_order_ m) then 1 else 0).

Definition new_order_request (o : PlacedOrder) : OutboundOrderRequest.t :=
  let p := placed_order o in
  {| OutboundOrderRequest.request :=
       {| OrderRequest.order_id := Order.order_id p; OrderRequest.price := Order.price p;
          OrderRequest.quantity := Order.quantity p;
          OrderRequest.type := if decide (Order.side p = Side.Buy) then OrderRequest.Buy else OrderRequest.Sell |};
     OutboundOrderRequest.quantity_change := QuantityChange.NotAnUpdate;
     OutboundOrderRequest.previous_quantity := 0;
     OutboundOrderRequest.side := Order.side p |}.

(** The [Cancel] that [queue_cancel_orders] and [cancel_for_risk] push. *)
Definition cancel_request (o : PlacedOrder) : OutboundOrderRequest.t :=
  {| OutboundOrderRequest.request :=
       {| OrderRequest.order_id := Order.order_id (placed_order o); OrderRequest.price := 0;
          OrderRequest.quantity := 0; OrderRequest.type := OrderRequest.Cancel |};
     OutboundOrderRequest.quantity_change := QuantityChange.NotAnUpdate;
     OutboundOrderRequest.previous_quantity := 0;
     OutboundOrderRequest.side := Order.side (placed_order o) |}.

Definition price_new_order_pair (bbo : BestBidOffer) : outcome (option PricePair) :=
  let bid := BookState.price (BookState.best_bid bbo) in
  let offer := BookState.price (BookState.best_offer bbo) in
  if (bid =? BookState.NO_BID) || (offer =? BookState.NO_OFFER) || (offer <=? bid) then Ok None else
  potential_offer ← i32 (offer - Config.MIN_TICK_DIFF);
  potential_bid ← i32 (bid + Config.MIN_TICK_DIFF);
  spread ← i32 (potential_offer - potential_bid);
  if spread <? Config.ONE_SIDED_MIN_SPREAD * 2 then Ok None else
  sum ← i32 (offer + bid);
  let midpoint := Z.quot sum 2 in
  low ← i32 (midpoint - Config.ONE_SIDED_MAX_SPREAD);
  high ← i32 (midpoint + Config.ONE_SIDED_MAX_SPREAD);
  Ok (Some {| bid_price := Z.max low potential_bid; offer_price := Z.min high potential_offer |}).

Definition should_place_new_orders (bbo : BestBidOffer) (m : t) : outcome bool :=
  if negb (placed (buy_order_ m)) || negb (placed (sell_order_ m)) then Ok true else
  sum ← i32 (BookState.price (BookState.best_offer bbo) + BookState.price (BookState.best_bid bbo));
  quoted ← i32 (Order.price (placed_order (buy_order_ m)) + Order.price (placed_order (sell_order_ m)));
  drift ← i32 (Z.quot sum 2 - Z.quot quoted 2);
  drift ← abs_ 32 drift;
  Ok (Config.MAX_ALLOWED_DRIFT <? drift).

Section Buffer.
Context (CAPACITY : Z).
Implicit Types (m : t) (order_buffer : StrategyOrderBuffer).

(** The lambda [queue_cancel] of [queue_cancel_orders]. *)
Definition queue_cancel (sd : Side.t) m order_buffer : outcome (t * StrategyOrderBuffer) :=
  let order := order_at sd m in
  if negb (placed order) then Ok (m, order_buffer) else
  '(queued, order_buffer) ← SingleThreadRingBuffer.try_push CAPACITY (cancel_request order) order_buffer;
  _ ← assert_ queued;
  Ok (set_order_at sd (set_status NotPlaced order) m, order_buffer).

Definition queue_cancel_orders m order_buffer : outcome (bool * t * StrategyOrderBuffer) :=
  if SingleThreadRingBuffer.available CAPACITY order_buffer <? placed_count m then Ok (false, m, order_buffer) else
  '(m, order_buffer) ← queue_cancel Side.Buy m order_buffer;
  '(m, order_buffer) ← queue_cancel Side.Sell m order_buffer;
  Ok (true, m, order_buffer).

(** The order of a new quote. *)
Definition quote (sd : Side.t) (id price : Z) : PlacedOrder :=
  {| status := Placed;
     placed_order := {| Order.order_id := id; Order.price := price;
                        Order.quantity := Config.MARKET_MAKER_ORDER_QUANTITY; Order.side := sd |} |}.

Definition queue_new_order_pair (bbo : BestBidOffer) m (next_client_id_ : Z) order_buffer :
    outcome (bool * t * Z * StrategyOrderBuffer) :=
  _ ← assert_ (negb (placed (buy_order_ m)) && negb (placed (sell_order_ m)));
  prices ← price_new_order_pair bbo;
  match prices with
  | None => Ok (true, m, next_client_id_, order_buffer)
  | Some prices =>
      if bid_price prices <? Config.MIN_BID_PRICE then Ok (true, m, next_client_id_, order_buffer) else
      if SingleThreadRingBuffer.available CAPACITY order_buffer <? 2 then Ok (false, m, next_client_id_, order_buffer) else
      let '(buy_id, ids) := ClientOrderIDGenerator.generate next_client_id_ in
      let m := set_buy (quote Side.Buy buy_id (bid_price prices)) m in
      let '(sell_id, ids) := ClientOrderIDGenerator.generate ids in
      let m := set_sell (quote Side.Sell sell_id (offer_price prices)) m in
      '(bid_queued, order_buffer) ←
        SingleThreadRingBuffer.try_push CAPACITY (new_order_request (buy_order_ m)) order_buffer;
      '(offer_queued, order_buffer) ←
        SingleThreadRingBuffer.try_push CAPACITY (new_order_request (sell_order_ m)) order_buffer;
      _ ← assert_ (bid_queued && offer_queued);
      Ok (true, m, ids, order_buffer)
  end.

Definition queue_quantity_update (sd : Side.t) (quantity : Z) m order_buffer :
    outcome (bool * t * StrategyOrderBuffer) :=
  let order := order_at sd m in
  let previous := Order.quantity (placed_order order) in
  if negb (placed order) || (previous =? quantity) then Ok (true, m, order_buffer) else
  '(queued, order_buffer) ← SingleThreadRingBuffer.try_push CAPACITY
    {| OutboundOrderRequest.request :=
         {| OrderRequest.order_id := Order.order_id (placed_order order); OrderRequest.price := 0;
            OrderRequest.quantity := quantity; OrderRequest.type := OrderRequest.Update |};
       OutboundOrderRequest.quantity_change :=
         if previous <? quantity then QuantityChange.Increasing else QuantityChange.Reducing;
       OutboundOrderRequest.previous_quantity := previous;
       OutboundOrderRequest.side := Order.side (placed_order order) |} order_buffer;
  Ok (if queued : bool then (true, set_order_at sd (set_quantity quantity order) m, order_buffer)
      else (false, m, order_buffer)).

Definition rebalance_exposure m order_buffer : outcome (t * StrategyOrderBuffer) :=
  let net := net_filled_quantity_ m in
  magnitude ← abs_ 64 net;
  if magnitude <? Config.EXPOSURE_REBALANCE_THRESHOLD then Ok (m, order_buffer) else
  let imbalance := u32 (Z.min magnitude Config.MAX_ADDITIONAL_EXIT_QUANTITY) in
  let base := Config.MARKET_MAKER_ORDER_QUANTITY in
  let less := Z.max Config.MIN_MARKET_MAKER_ORDER_QUANTITY (if imbalance <? base then u32 (base - imbalance) else 0) in
  let more := u32 (base + imbalance) in
  let '(bid, offer) := if 0 <? net then (less, more) else (more, less) in
  '(_, m, order_buffer) ← queue_quantity_update Side.Buy bid m order_buffer;
  '(_, m, order_buffer) ← queue_quantity_update Side.Sell offer m order_buffer;
  Ok (m, order_buffer).

Definition get_orders (bbo : BestBidOffer) m (next_client_id_ : Z) order_buffer :
    outcome (t * Z * StrategyOrderBuffer) :=
  should ← should_place_new_orders bbo m;
  if negb should then Ok (m, next_client_id_, order_buffer) else
  let cancels := placed_count m in
  if SingleThreadRingBuffer.available CAPACITY order_buffer <? cancels + 2 then Ok (m, next_client_id_, order_buffer) else
  '(cancelled, m, order_buffer) ← queue_cancel_orders m order_buffer;
  if negb cancelled then Ok (m, next_client_id_, order_buffer) else
  '(_, m, next_client_id_, order_buffer) ← queue_new_order_pair bbo m next_client_id_ order_buffer;
  Ok (m, next_client_id_, order_buffer).

(** The order an update is about. *)
Definition find_order (order_id : Z) m : option Side.t :=
  if placed (buy_order_ m) && (Order.order_id (placed_order (buy_order_ m)) =? order_id) then Some Side.Buy
  else if placed (sell_order_ m) && (Order.order_id (placed_order (sell_order_ m)) =? order_id) then Some Side.Sell
  else None.

Definition update (update : OrderFillUpdate.t) m order_buffer : outcome (t * StrategyOrderBuffer) :=
  match find_order (OrderFillUpdate.order_id update) m with
  | None => Ok (m, order_buffer)
  | Some sd =>
      let order := order_at sd m in
      let quantity := Order.quantity (placed_order order) in
      let filled := Z.min (OrderFillUpdate.filled_quantity update) quantity in
      net ← i64 (if decide (Order.side (placed_order order) = Side.Buy)
                 then net_filled_quantity_ m + filled else net_filled_quantity_ m - filled);
      let order := set_quantity (u32 (quantity - filled)) order in
      let order := if Order.quantity (placed_order order) =? 0 then set_status NotPlaced order else order in
      rebalance_exposure (set_net net (set_order_at sd order m)) order_buffer
  end.

Definition cancel_for_risk (rejected : OutboundOrderRequest.t) m order_buffer : outcome (t * StrategyOrderBuffer) :=
  let sd := OutboundOrderRequest.side rejected in
  let order := order_at sd m in
  if negb (placed order) then Ok (m, order_buffer) else
  '(queued, order_buffer) ← SingleThreadRingBuffer.try_push CAPACITY (cancel_request order) order_buffer;
  Ok (if queued : bool then (set_order_at sd (set_status NotPlaced order) m, order_buffer) else (m, order_buffer)).

(** The first part of [notify_invalid]: the local state the rejection undoes. *)
Definition undo (rejected : OutboundOrderRequest.t) m : t :=
  let request := OutboundOrderRequest.request rejected in
  let id := OrderRequest.order_id request in
  let buy_id := Order.order_id (placed_order (buy_order_ m)) in
  let sell_id := Order.order_id (placed_order (sell_order_ m)) in
  match OrderRequest.type request with
  | OrderRequest.Update =>
      if id =? buy_id then set_buy (set_quantity (OutboundOrderRequest.previous_quantity rejected) (buy_order_ m)) m
      else if id =? sell_id then set_sell (set_quantity (OutboundOrderRequest.previous_quantity rejected) (sell_order_ m)) m
      else m
  | OrderRequest.Buy => if buy_id =? id then set_buy (set_status NotPlaced (buy_order_ m)) m else m
  | OrderRequest.Sell => if sell_id =? id then set_sell (set_status NotPlaced (sell_order_ m)) m else m
  | OrderRequest.Cancel => m
  end.

Definition notify_invalid (rejected : OutboundOrderRequest.t) (reason : OrderStatus.t) m order_buffer :
    outcome (t * StrategyOrderBuffer) :=
  let m := undo rejected m in
  match reason with
  | OrderStatus.Halted | OrderStatus.TooMuchLoss =>
      '(_, m, order_buffer) ← queue_cancel_orders m order_buffer; Ok (m, order_buffer)
  | OrderStatus.TooMuchExposure => cancel_for_risk rejected m order_buffer
  | _ => Ok (m, order_buffer)
  end.
End Buffer.
End PassiveMarketMaker.
