(* ===== verification/MarketMakerProof.v ===== *)
(** * The passive market maker quotes inside the spread

    What each operation of [PassiveMarketMaker] does to its orders and to the
    requests it has queued, and that no sequence of operations is undefined. *)

From S2P Require Import Prelude Types OrderBook Ring RingBuffers RingUse Strategy.
Import PassiveMarketMaker.

Lemma checked_ok w x : in_s w x → checked w x = Ok x.
Proof. intros. unfold checked. by rewrite decide_True. Qed.

Lemma checked_overflow w x : ¬ in_s w x → checked w x = Undefined.
Proof. intros. unfold checked. by rewrite decide_False. Qed.

Ltac in_range := unfold in_s, in_u; simpl; lia.

(** ** Prices *)

(** A price whose sums with another do not overflow. *)
Definition sane (p : Z) : Prop := - 2 ^ 29 ≤ p ≤ 2 ^ 29.

Definition bid_of (bbo : BestBidOffer) : Z := BookState.price (BookState.best_bid bbo).
Definition offer_of (bbo : BestBidOffer) : Z := BookState.price (BookState.best_offer bbo).

(** Both sides are quoted, and far enough apart. *)
Definition quotable (bbo : BestBidOffer) : bool :=
  negb (bid_of bbo =? BookState.NO_BID) && negb (offer_of bbo =? BookState.NO_OFFER) &&
  (bid_of bbo + 2 * Config.MIN_TICK_DIFF + 2 * Config.ONE_SIDED_MIN_SPREAD <=? offer_of bbo).

Definition midpoint (bbo : BestBidOffer) : Z := Z.quot (offer_of bbo + bid_of bbo) 2.
Definition quote_prices (bbo : BestBidOffer) : PricePair := {|
  bid_price := Z.max (midpoint bbo - Config.ONE_SIDED_MAX_SPREAD) (bid_of bbo + Config.MIN_TICK_DIFF);
  offer_price := Z.min (midpoint bbo + Config.ONE_SIDED_MAX_SPREAD) (offer_of bbo - Config.MIN_TICK_DIFF);
|}.

(** A side is absent or has a sane price. *)
Definition sane_bbo (bbo : BestBidOffer) : Prop :=
  (bid_of bbo = BookState.NO_BID ∨ sane (bid_of bbo)) ∧ (offer_of bbo = BookState.NO_OFFER ∨ sane (offer_of bbo)).

Lemma price_pair_spec bbo : sane_bbo bbo →
  price_new_order_pair bbo = Ok (if quotable bbo then Some (quote_prices bbo) else None).
Proof.
  unfold sane_bbo, price_new_order_pair, quotable, quote_prices, midpoint. fold (bid_of bbo) (offer_of bbo).
  set (b := bid_of bbo). set (o := offer_of bbo). intros [Hb Ho].
  destruct (Z.eqb_spec b BookState.NO_BID) as [|Hnb]; [done|]. destruct Hb as [|Hb]; [done|].
  destruct (Z.eqb_spec o BookState.NO_OFFER) as [|Hno]; [done|]. destruct Ho as [|Ho]; [done|].
  unfold sane in *. cbn [orb negb andb].
  unfold Config.MIN_TICK_DIFF, Config.ONE_SIDED_MIN_SPREAD, Config.ONE_SIDED_MAX_SPREAD.
  destruct (Z.leb_spec o b) as [Hle|Hgt].
  { by rewrite (proj2 (Z.leb_gt _ _)) by lia. }
  rewrite (checked_ok 32 (o - 1)), (checked_ok 32 (b + 1)) by in_range. cbn [mbind outcome_bind].
  rewrite (checked_ok 32 (o - 1 - (b + 1))) by in_range. cbn [mbind outcome_bind].
  destruct (Z.ltb_spec (o - 1 - (b + 1)) (3 * 2)) as [Hlt|Hge].
  { by rewrite (proj2 (Z.leb_gt _ _)) by lia. }
  rewrite (proj2 (Z.leb_le _ _)) by lia. rewrite (checked_ok 32 (o + b)) by in_range. cbn [mbind outcome_bind]. cbv zeta.
  pose proof (Z.quot_rem' (o + b) 2) as Hq. pose proof (Z.rem_bound_abs (o + b) 2 ltac:(done)) as Hr.
  rewrite (checked_ok 32 (Z.quot (o + b) 2 - 10)) by in_range. cbn [mbind outcome_bind].
  by rewrite (checked_ok 32 (Z.quot (o + b) 2 + 10)) by in_range.
Qed.

(** The quotes improve on both best prices, do not cross, and keep the spread. *)
Lemma quote_prices_inside bbo : sane_bbo bbo → quotable bbo = true →
  bid_of bbo < bid_price (quote_prices bbo) ∧
  bid_price (quote_prices bbo) + 2 * Config.ONE_SIDED_MIN_SPREAD ≤ offer_price (quote_prices bbo) ∧
  offer_price (quote_prices bbo) < offer_of bbo ∧
  offer_price (quote_prices bbo) - bid_price (quote_prices bbo) ≤ 2 * Config.ONE_SIDED_MAX_SPREAD ∧
  sane (bid_price (quote_prices bbo)) ∧ sane (offer_price (quote_prices bbo)).
Proof.
  unfold quotable, sane_bbo. intros [Hb Ho] Hq. apply andb_prop in Hq as [Hq Hle]. apply andb_prop in Hq as [Hnb Hno].
  apply negb_true_iff, Z.eqb_neq in Hnb, Hno. destruct Hb as [|Hb]; [done|]. destruct Ho as [|Ho]; [done|].
  apply Z.leb_le in Hle. unfold quote_prices, midpoint, sane in *. simpl.
  unfold Config.MIN_TICK_DIFF, Config.ONE_SIDED_MIN_SPREAD, Config.ONE_SIDED_MAX_SPREAD in *.
  set (b := bid_of bbo) in *. set (o := offer_of bbo) in *.
  pose proof (Z.quot_rem' (o + b) 2) as Hqr. pose proof (Z.rem_bound_abs (o + b) 2 ltac:(done)) as Hr.
  lia.
Qed.

(** ** The order buffer *)

Section Buffer.
Context (CAPACITY : Z) {HC : PowerOfTwo CAPACITY} (Hcap : CAPACITY < 2 ^ 64).
Abbreviation holds := (single_repr (A := OutboundOrderRequest.t) CAPACITY).
Abbreviation room l := (CAPACITY - Z.of_nat (length l)).

(** ** Cancels *)

Definition cancels_of (sd : Side.t) (m : t) : list OutboundOrderRequest.t :=
  if placed (order_at sd m) then [cancel_request (order_at sd m)] else [].
Definition withdraw_side (sd : Side.t) (m : t) : t :=
  if placed (order_at sd m) then set_order_at sd (set_status NotPlaced (order_at sd m)) m else m.
Definition cancels (m : t) : list OutboundOrderRequest.t := cancels_of Side.Buy m ++ cancels_of Side.Sell m.
Definition withdraw (m : t) : t := withdraw_side Side.Sell (withdraw_side Side.Buy m).

Lemma placed_count_cancels m : placed_count m = Z.of_nat (length (cancels m)).
Proof. unfold placed_count, cancels, cancels_of. simpl. by destruct (placed _), (placed _). Qed.

Lemma withdraw_placed m : placed (buy_order_ (withdraw m)) = false ∧ placed (sell_order_ (withdraw m)) = false.
Proof.
  unfold withdraw, withdraw_side. destruct m as [b s n]. simpl.
  destruct (placed b) eqn:Hb; simpl; destruct (placed s) eqn:Hs; simpl; by rewrite ?Hb, ?Hs.
Qed.

Lemma cancels_sell m : cancels_of Side.Sell (withdraw_side Side.Buy m) = cancels_of Side.Sell m.
Proof. unfold cancels_of, withdraw_side. destruct m as [b s n]. simpl. by destruct (placed b). Qed.

Lemma queue_cancel_spec sd m b l : holds b l → Z.of_nat (length (cancels_of sd m)) ≤ room l →
  ∃ b', queue_cancel CAPACITY sd m b = Ok (withdraw_side sd m, b') ∧ holds b' (l ++ cancels_of sd m).
Proof using HC Hcap.
  intros Hr Hroom. unfold queue_cancel, withdraw_side, cancels_of in *. cbv zeta.
  destruct (placed (order_at sd m)); cbn [negb]; [|exists b; by rewrite app_nil_r].
  simpl in Hroom. destruct (proj1 (single_push CAPACITY Hcap (cancel_request (order_at sd m)) b l Hr) ltac:(lia)) as (b' & -> & Hr').
  cbn [mbind outcome_bind assert_]. by exists b'.
Qed.

Lemma queue_cancel_orders_spec m b l : holds b l →
  (room l < placed_count m → queue_cancel_orders CAPACITY m b = Ok (false, m, b)) ∧
  (placed_count m ≤ room l → ∃ b', queue_cancel_orders CAPACITY m b = Ok (true, withdraw m, b') ∧ holds b' (l ++ cancels m)).
Proof using HC Hcap.
  intros Hr. unfold queue_cancel_orders. rewrite (single_available CAPACITY Hcap b l Hr). split; intros Hroom.
  { by rewrite (proj2 (Z.ltb_lt _ _)) by lia. }
  rewrite (proj2 (Z.ltb_ge _ _)) by lia. rewrite placed_count_cancels in Hroom. unfold cancels in Hroom. rewrite length_app in Hroom.
  destruct (queue_cancel_spec Side.Buy m b l Hr ltac:(lia)) as (b1 & -> & Hr1). cbn [mbind outcome_bind].
  destruct (queue_cancel_spec Side.Sell (withdraw_side Side.Buy m) b1 _ Hr1) as (b2 & -> & Hr2).
  { rewrite cancels_sell, length_app. lia. }
  rewrite cancels_sell in Hr2. cbn [mbind outcome_bind]. exists b2. split; [done|]. unfold cancels. by rewrite app_assoc.
Qed.

(** ** New quotes *)

(** The requests of a new pair with ids [id] and [id + 1]. *)
Definition quotes (prices : PricePair) (id : Z) : list OutboundOrderRequest.t :=
  [new_order_request (quote Side.Buy id (bid_price prices)); new_order_request (quote Side.Sell (id + 1) (offer_price prices))].
Definition quoting (prices : PricePair) (id : Z) (m : t) : t :=
  {| buy_order_ := quote Side.Buy id (bid_price prices); sell_order_ := quote Side.Sell (id + 1) (offer_price prices);
     net_filled_quantity_ := net_filled_quantity_ m |}.

(** Whether a new pair is placed. *)
Definition quotes_now (bbo : BestBidOffer) : bool :=
  quotable bbo && (Config.MIN_BID_PRICE <=? bid_price (quote_prices bbo)).

Lemma queue_new_order_pair_spec bbo m ids b l : holds b l → sane_bbo bbo → in_u 64 (ids + 2) → 0 ≤ ids →
  placed (buy_order_ m) = false → placed (sell_order_ m) = false → 2 ≤ room l →
  ∃ b', queue_new_order_pair CAPACITY bbo m ids b = Ok (true, (if quotes_now bbo then quoting (quote_prices bbo) ids m else m),
      (if quotes_now bbo then ids + 2 else ids), b') ∧
    holds b' (l ++ if quotes_now bbo then quotes (quote_prices bbo) ids else []).
Proof using HC Hcap.
  intros Hr Hbbo Hids H0 Hb Hs Hroom. unfold queue_new_order_pair, quotes_now. rewrite Hb, Hs. cbn [negb andb assert_ mbind outcome_bind].
  rewrite price_pair_spec by done. cbn [mbind outcome_bind].
  destruct (quotable bbo); cbn [andb]; [|exists b; by rewrite app_nil_r].
  destruct (Z.ltb_spec (bid_price (quote_prices bbo)) Config.MIN_BID_PRICE) as [Hlt|Hge].
  { rewrite (proj2 (Z.leb_gt _ _)) by lia. exists b. by rewrite app_nil_r. }
  rewrite (proj2 (Z.leb_le _ _)) by lia. rewrite (single_available CAPACITY Hcap b l Hr).
  rewrite (proj2 (Z.ltb_ge _ _)) by lia. unfold ClientOrderIDGenerator.generate.
  rewrite (uwrap_small 64 (ids + 1)) by (unfold in_u in *; lia). rewrite (uwrap_small 64 (ids + 1 + 1)) by (unfold in_u in *; lia).
  cbv zeta. cbn [set_buy set_sell buy_order_ sell_order_ net_filled_quantity_].
  destruct (proj1 (single_push CAPACITY Hcap (new_order_request (quote Side.Buy ids (bid_price (quote_prices bbo)))) b l Hr) ltac:(lia))
    as (b1 & -> & Hr1). cbn [mbind outcome_bind].
  destruct (proj1 (single_push CAPACITY Hcap (new_order_request (quote Side.Sell (ids + 1) (offer_price (quote_prices bbo)))) b1 _ Hr1))
    as (b2 & -> & Hr2); [rewrite length_app; simpl; lia|].
  cbn [mbind outcome_bind andb assert_]. exists b2. rewrite <- app_assoc in Hr2. split; [|exact Hr2].
  do 3 f_equal. lia.
Qed.
(** ** A new best bid or offer *)

(** The midpoint left the tolerated range, or a side is not quoted. *)
Definition requotes (bbo : BestBidOffer) (m : t) : bool :=
  negb (placed (buy_order_ m)) || negb (placed (sell_order_ m)) ||
  (Config.MAX_ALLOWED_DRIFT <? Z.abs (midpoint bbo -
     Z.quot (Order.price (placed_order (buy_order_ m)) + Order.price (placed_order (sell_order_ m))) 2)).

(** The sum that [should_place_new_orders] forms with both quotes out does not
    overflow. *)
Definition comparable (bbo : BestBidOffer) : Prop := in_s 32 (offer_of bbo + bid_of bbo).
Definition compares (m : t) (bbo : BestBidOffer) : Prop :=
  placed (buy_order_ m) = true ∧ placed (sell_order_ m) = true → comparable bbo.
#[global] Instance compares_dec m bbo : Decision (compares m bbo).
Proof. unfold compares, comparable, in_s. apply _. Defined.

Definition sane_order (o : PlacedOrder) : Prop := placed o = true → sane (Order.price (placed_order o)).

Lemma quot2_bounds x : Z.abs (Z.quot x 2) ≤ Z.abs x ∧ 2 * Z.abs (Z.quot x 2) ≤ Z.abs x.
Proof. Z.to_euclidean_division_equations. lia. Qed.

Lemma should_place_spec bbo m : compares m bbo → sane_order (buy_order_ m) → sane_order (sell_order_ m) →
  should_place_new_orders bbo m = Ok (requotes bbo m).
Proof using.
  intros Hc Hb Hs. unfold should_place_new_orders, requotes, sane_order, compares, comparable in *.
  destruct (placed (buy_order_ m)); [|done]. destruct (placed (sell_order_ m)); [|done]. cbn [negb orb].
  specialize (Hc (conj eq_refl eq_refl)). specialize (Hb eq_refl). specialize (Hs eq_refl). fold (bid_of bbo) (offer_of bbo).
  set (x := Order.price _) in *. set (y := Order.price (placed_order (sell_order_ m))) in *. unfold sane in *.
  rewrite (checked_ok 32 (offer_of bbo + bid_of bbo)) by done. cbn [mbind outcome_bind].
  rewrite (checked_ok 32 (x + y)) by in_range. cbn [mbind outcome_bind]. fold (midpoint bbo).
  pose proof (quot2_bounds (offer_of bbo + bid_of bbo)) as Hm. fold (midpoint bbo) in Hm. pose proof (quot2_bounds (x + y)) as Hq.
  assert (Z.abs (offer_of bbo + bid_of bbo) ≤ 2 ^ 31) as Habs by (unfold in_s in Hc; lia).
  rewrite (checked_ok 32 (midpoint bbo - _)) by in_range. cbn [mbind outcome_bind].
  unfold abs_. rewrite checked_ok by in_range. done.
Qed.

Definition served (bbo : BestBidOffer) (m : t) (l : list OutboundOrderRequest.t) : bool :=
  requotes bbo m && (placed_count m + 2 <=? room l).

Definition after_orders (bbo : BestBidOffer) (ids : Z) (m : t) : t :=
  if quotes_now bbo then quoting (quote_prices bbo) ids (withdraw m) else withdraw m.
Definition orders_for (bbo : BestBidOffer) (ids : Z) (m : t) : list OutboundOrderRequest.t :=
  cancels m ++ if quotes_now bbo then quotes (quote_prices bbo) ids else [].

Lemma get_orders_spec bbo m ids b l : holds b l → sane_bbo bbo → compares m bbo →
  sane_order (buy_order_ m) → sane_order (sell_order_ m) → 0 ≤ ids → in_u 64 (ids + 2) →
  ∃ b', get_orders CAPACITY bbo m ids b = Ok (if served bbo m l then
        (after_orders bbo ids m, if quotes_now bbo then ids + 2 else ids, b')
      else (m, ids, b')) ∧
    holds b' (l ++ if served bbo m l then orders_for bbo ids m else []).
Proof using HC Hcap.
  intros Hr Hbbo Hc Hb Hs H0 Hids. unfold get_orders. rewrite should_place_spec by done. cbn [mbind outcome_bind]. unfold served.
  destruct (requotes bbo m); cbn [negb andb]; [|exists b; by rewrite app_nil_r].
  rewrite (single_available CAPACITY Hcap b l Hr). cbv zeta.
  destruct (Z.ltb_spec (room l) (placed_count m + 2)) as [Hlt|Hge].
  { rewrite (proj2 (Z.leb_gt _ _)) by lia. exists b. by rewrite app_nil_r. }
  rewrite (proj2 (Z.leb_le _ _)) by lia.
  destruct (proj2 (queue_cancel_orders_spec m b l Hr) ltac:(lia)) as (b1 & -> & Hr1). cbn [mbind outcome_bind negb].
  destruct (withdraw_placed m) as [Hwb Hws]. rewrite placed_count_cancels in Hge.
  destruct (queue_new_order_pair_spec bbo (withdraw m) ids b1 _ Hr1 Hbbo Hids H0 Hwb Hws) as (b2 & -> & Hr2).
  { rewrite length_app. lia. }
  cbn [mbind outcome_bind]. exists b2. rewrite <- app_assoc in Hr2. by split.
Qed.
(** ** The invariant *)

(** The largest quantity the market maker asks for: a full quote and the cap on
    the exit quantity. *)
Definition MAX_ORDER : Z := Config.MARKET_MAKER_ORDER_QUANTITY + Config.MAX_ADDITIONAL_EXIT_QUANTITY.

Definition order_ok (ids : Z) (sd : Side.t) (o : PlacedOrder) : Prop :=
  placed o = true → Order.side (placed_order o) = sd ∧ 0 < Order.quantity (placed_order o) ≤ MAX_ORDER ∧
    sane (Order.price (placed_order o)) ∧ 0 < Order.order_id (placed_order o) < ids.

(** A queued request, as the risk gate, the exchange and [notify_invalid] will see it: an update
    is labelled by what it does to the quantity. *)
Definition request_ok (ids : Z) (r : OutboundOrderRequest.t) : Prop :=
  let request := OutboundOrderRequest.request r in
  0 < OrderRequest.order_id request < ids ∧
  match OrderRequest.type request with
  | OrderRequest.Cancel => True
  | OrderRequest.Update => 0 < OrderRequest.quantity request ≤ MAX_ORDER ∧ 0 < OutboundOrderRequest.previous_quantity r ≤ MAX_ORDER ∧
      OutboundOrderRequest.quantity_change r =
        if OutboundOrderRequest.previous_quantity r <? OrderRequest.quantity request then QuantityChange.Increasing else QuantityChange.Reducing
  | _ => 0 < OrderRequest.quantity request ≤ MAX_ORDER
  end.

(** Two orders out at once are of one pair, its keeping the minimum spread. *)
Definition pair_ok (m : t) : Prop :=
  placed (buy_order_ m) = true → placed (sell_order_ m) = true →
  Order.order_id (placed_order (sell_order_ m)) = Order.order_id (placed_order (buy_order_ m)) + 1 ∧
  Order.price (placed_order (buy_order_ m)) + 2 * Config.ONE_SIDED_MIN_SPREAD ≤ Order.price (placed_order (sell_order_ m)).

Record mm_ok (ids : Z) (m : t) (l : list OutboundOrderRequest.t) : Prop := {
  ok_ids : 0 < ids;
  ok_orders sd : order_ok ids sd (order_at sd m);
  ok_requests : Forall (request_ok ids) l;
  ok_pair : pair_ok m;
}.

Lemma request_ok_mono ids ids' r : ids ≤ ids' → request_ok ids r → request_ok ids' r.
Proof using. intros Hle [Hid Hr]. split; [lia|done]. Qed.

Lemma init_ok : mm_ok ClientOrderIDGenerator.init init [].
Proof using. by split; [|intros []| |]. Qed.

(** Taking requests away keeps the invariant, and so does taking orders away. *)
Lemma mm_ok_tail ids m l : mm_ok ids m l → mm_ok ids m (tail l).
Proof using. intros []. split; try done. by apply Forall_tail. Qed.

Lemma mm_ok_net ids m l n : mm_ok ids m l → mm_ok ids (set_net n m) l.
Proof using. intros [Hi Ho Hr Hp]. split; [done|by intros []; [apply (Ho Side.Buy)|apply (Ho Side.Sell)]|done|done]. Qed.

(** An order that is taken away, or resized within the limits. *)
Definition reduced (o o' : PlacedOrder) : Prop :=
  placed o' = false ∨ placed o = true ∧ ∃ q, o' = set_quantity q o ∧ 0 < q ≤ MAX_ORDER.

Lemma mm_ok_reduce ids sd m l o' : mm_ok ids m l → reduced (order_at sd m) o' → mm_ok ids (set_order_at sd o' m) l.
Proof using.
  intros [Hi Ho Hr Hp] Hred. split; [done| |done|].
  - intros sd'. pose proof (Ho sd') as Hsd'. pose proof (Ho sd) as Hsd. unfold order_ok in *.
    assert (placed o' = true → Order.side (placed_order o') = sd ∧ 0 < Order.quantity (placed_order o') ≤ MAX_ORDER ∧
      sane (Order.price (placed_order o')) ∧ 0 < Order.order_id (placed_order o') < ids) as Hnew.
    { intros Hpl. destruct Hred as [|(Hpo & q & -> & Hq)]; [congruence|]. simpl. by destruct (Hsd Hpo) as (? & _ & ? & ?). }
    by destruct sd, sd'.
  - intros Hb Hs. destruct Hred as [Hn|(Hpo & q & -> & Hq)]; [|].
    { destruct sd; [change (placed o' = true) in Hb|change (placed o' = true) in Hs]; congruence. }
    destruct sd; apply Hp; done.
Qed.

Lemma mm_ok_push ids m l r : mm_ok ids m l → request_ok ids r → mm_ok ids m (l ++ [r]).
Proof using. intros [] Hr. split; try done. apply Forall_app. by split; [|constructor]. Qed.

Lemma cancel_request_ok ids m l sd : mm_ok ids m l → placed (order_at sd m) = true → request_ok ids (cancel_request (order_at sd m)).
Proof using. intros Hm Hp. split; [|done]. by apply (ok_orders _ _ _ Hm sd). Qed.

Lemma withdraw_side_ok ids m l sd : mm_ok ids m l → mm_ok ids (withdraw_side sd m) (l ++ cancels_of sd m).
Proof using.
  intros Hm. unfold withdraw_side, cancels_of. destruct (placed (order_at sd m)) eqn:Hp; [|by rewrite app_nil_r].
  apply mm_ok_push; [apply mm_ok_reduce; [done|by left]|by eapply cancel_request_ok].
Qed.

Lemma withdraw_ok ids m l : mm_ok ids m l → mm_ok ids (withdraw m) (l ++ cancels m).
Proof using.
  intros Hm. unfold withdraw, cancels. rewrite app_assoc, <- cancels_sell. by apply withdraw_side_ok, withdraw_side_ok.
Qed.

(** ** Each operation keeps it *)

Lemma after_orders_ok ids bbo m l : mm_ok ids m l → sane_bbo bbo →
  mm_ok (if quotes_now bbo then ids + 2 else ids) (after_orders bbo ids m) (l ++ orders_for bbo ids m).
Proof using.
  intros Hm Hbbo. unfold after_orders, orders_for. pose proof (withdraw_ok _ _ _ Hm) as Hw.
  destruct (quotes_now bbo) eqn:Hq; [|by rewrite app_nil_r]. unfold quotes_now in Hq. apply andb_prop in Hq as [Hq _].
  destruct (quote_prices_inside bbo Hbbo Hq) as (_ & Hspread & _ & _ & Hsb & Hso). pose proof (ok_ids _ _ _ Hm).
  assert (0 < Config.MARKET_MAKER_ORDER_QUANTITY ≤ MAX_ORDER) by (vm_compute; split; [done|discriminate]).
  split; [lia| | |].
  - intros [] _; simpl; split_and!; first [done | lia].
  - rewrite app_assoc. apply Forall_app. split; [eapply Forall_impl; [apply Hw|]; intros r; apply request_ok_mono; lia|].
    constructor; [|constructor; [|done]]; (split; simpl; [lia|done]).
  - intros _ _. simpl. split; [done|exact Hspread].
Qed.

Lemma quantity_update_ok ids sd q m b l : holds b l → mm_ok ids m l → 0 < q ≤ MAX_ORDER →
  ∃ r m' b' l', queue_quantity_update CAPACITY sd q m b = Ok (r, m', b') ∧ holds b' l' ∧ mm_ok ids m' l' ∧
    net_filled_quantity_ m' = net_filled_quantity_ m.
Proof using HC Hcap.
  intros Hr Hm Hq. unfold queue_quantity_update. cbv zeta.
  destruct (placed (order_at sd m)) eqn:Hp; cbn [negb orb]; [|by exists true, m, b, l].
  destruct (Order.quantity (placed_order (order_at sd m)) =? q) eqn:Heq; [by exists true, m, b, l|].
  set (req := {| OutboundOrderRequest.request := _ |}). destruct (single_push CAPACITY Hcap req b l Hr) as [Hyes Hno].
  destruct (Z_lt_le_dec 0 (room l)) as [Hroom|Hroom].
  - destruct (Hyes Hroom) as (b' & -> & Hr'). cbn [mbind outcome_bind]. eexists _, _, b', _. split; [done|].
    split; [done|]. split; [|by destruct sd]. apply mm_ok_push.
    + apply mm_ok_reduce; [done|]. right. split; [done|]. by eexists.
    + destruct (ok_orders _ _ _ Hm sd Hp) as (_ & Hqty & _ & Hid). split; [done|]. by split.
  - rewrite (Hno Hroom). cbn [mbind outcome_bind]. by exists false, m, b, l.
Qed.

(** The quantities [rebalance_exposure] aims at are within the limits. *)
Lemma rebalance_ok ids m b l : holds b l → mm_ok ids m l → in_s 64 (Z.abs (net_filled_quantity_ m)) →
  ∃ m' b' l', rebalance_exposure CAPACITY m b = Ok (m', b') ∧ holds b' l' ∧ mm_ok ids m' l' ∧
    net_filled_quantity_ m' = net_filled_quantity_ m.
Proof using HC Hcap.
  intros Hr Hm Hnet. unfold rebalance_exposure, abs_. cbv zeta. rewrite checked_ok by done. cbn [mbind outcome_bind].
  set (n := net_filled_quantity_ m) in *.
  destruct (Z.ltb_spec (Z.abs n) Config.EXPOSURE_REBALANCE_THRESHOLD) as [|Hbig]; [by exists m, b, l|].
  assert (MAX_ORDER = 225) as HM by done.
  unfold Config.EXPOSURE_REBALANCE_THRESHOLD, Config.MAX_ADDITIONAL_EXIT_QUANTITY, Config.MARKET_MAKER_ORDER_QUANTITY,
    Config.MIN_MARKET_MAKER_ORDER_QUANTITY in *.
  rewrite (uwrap_small 32 (Z.min (Z.abs n) 150)) by in_range. set (imbalance := Z.min (Z.abs n) 150) in *.
  rewrite (uwrap_small 32 (75 + imbalance)) by in_range. set (more := 75 + imbalance).
  set (less := Z.max 25 _). assert (0 < less ≤ MAX_ORDER ∧ 0 < more ≤ MAX_ORDER) as [Hless Hmore].
  { unfold less, more. destruct (Z.ltb_spec imbalance 75); [rewrite (uwrap_small 32 (75 - imbalance)) by in_range|]; lia. }
  assert (∃ bid offer, (if 0 <? n then (less, more) else (more, less)) = (bid, offer) ∧ 0 < bid ≤ MAX_ORDER ∧ 0 < offer ≤ MAX_ORDER)
    as (bid & offer & -> & Hbid & Hoffer) by (destruct (0 <? n); eauto).
  destruct (quantity_update_ok ids Side.Buy bid m b l Hr Hm Hbid) as (r1 & m1 & b1 & l1 & -> & Hr1 & Hm1 & Hn1). cbn [mbind outcome_bind].
  destruct (quantity_update_ok ids Side.Sell offer m1 b1 l1 Hr1 Hm1 Hoffer) as (r2 & m2 & b2 & l2 & -> & Hr2 & Hm2 & Hn2). cbn [mbind outcome_bind].
  exists m2, b2, l2. split_and!; [done..|]. by rewrite Hn2, Hn1.
Qed.

Lemma update_ok ids u m b l : holds b l → mm_ok ids m l → 0 ≤ OrderFillUpdate.filled_quantity u →
  Z.abs (net_filled_quantity_ m) + MAX_ORDER < 2 ^ 63 →
  ∃ m' b' l', update CAPACITY u m b = Ok (m', b') ∧ holds b' l' ∧ mm_ok ids m' l' ∧
    Z.abs (net_filled_quantity_ m') ≤ Z.abs (net_filled_quantity_ m) + MAX_ORDER.
Proof using HC Hcap.
  intros Hr Hm Hu Hnet. unfold update. assert (MAX_ORDER = 225) as HM by done.
  destruct (find_order (OrderFillUpdate.order_id u) m) as [sd|] eqn:Hf; [|exists m, b, l; split_and!; first [done|lia]].
  assert (placed (order_at sd m) = true) as Hp.
  { unfold find_order in Hf. destruct (placed (buy_order_ m)) eqn:Hb, (placed (sell_order_ m)) eqn:Hs; simpl in Hf;
      repeat case_match; simplify_eq; done. }
  cbv zeta. destruct (ok_orders _ _ _ Hm sd Hp) as (Hside & Hqty & _). set (o := order_at sd m) in *.
  set (filled := Z.min _ _). assert (0 ≤ filled ≤ Order.quantity (placed_order o)) as Hfill by (unfold filled; lia).
  set (net := if decide _ then _ else _).
  assert (Z.abs net ≤ Z.abs (net_filled_quantity_ m) + MAX_ORDER) as Hn by (unfold net; case_decide; lia).
  rewrite checked_ok by in_range. cbn [mbind outcome_bind]. rewrite (uwrap_small 32 (_ - filled)) by in_range.
  set (o' := if _ =? 0 then _ else _).
  assert (reduced o o') as Hred.
  { unfold o'. simpl. destruct (Z.eqb_spec (Order.quantity (placed_order o) - filled) 0); [by left|].
    right. split; [done|]. eexists. split; [done|]. lia. }
  destruct (rebalance_ok ids (set_net net (set_order_at sd o' m)) b l) as (m' & b' & l' & -> & Hr' & Hm' & Hn');
    [done|by apply mm_ok_net, mm_ok_reduce|simpl; in_range|].
  exists m', b', l'. split_and!; [done..|]. rewrite Hn'. exact Hn.
Qed.

Lemma placed_count_set sd o m : placed_count (set_order_at sd o m) =
  placed_count m - (if placed (order_at sd m) then 1 else 0) + (if placed o then 1 else 0).
Proof using. unfold placed_count. destruct sd, m as [x y n]; simpl; destruct (placed x), (placed y), (placed o); lia. Qed.

(** What undoing a rejected request does to one order. *)
Lemma undo_step ids sd o' m l : mm_ok ids m l → reduced (order_at sd m) o' →
  mm_ok ids (set_order_at sd o' m) l ∧ net_filled_quantity_ (set_order_at sd o' m) = net_filled_quantity_ m ∧
  placed_count (set_order_at sd o' m) ≤ placed_count m.
Proof using.
  intros Hm Hred. split; [by apply mm_ok_reduce|]. split; [by destruct sd|]. rewrite placed_count_set.
  destruct Hred as [->|(Hp & q & -> & _)]; [|rewrite Hp]; repeat case_match; lia.
Qed.

Lemma undo_ok ids rejected m l : mm_ok ids m l → request_ok ids rejected →
  mm_ok ids (undo rejected m) l ∧ net_filled_quantity_ (undo rejected m) = net_filled_quantity_ m ∧
  placed_count (undo rejected m) ≤ placed_count m.
Proof using.
  intros Hm [_ Hq]. unfold undo. cbv zeta. destruct (OrderRequest.type _); try (split_and!; first [done|lia]).
  - destruct (_ =? _); [|split_and!; first [done|lia]]. apply (undo_step ids Side.Buy); [done|by left].
  - destruct (_ =? _); [|split_and!; first [done|lia]]. apply (undo_step ids Side.Sell); [done|by left].
  - assert (∀ sd, reduced (order_at sd m) (set_quantity (OutboundOrderRequest.previous_quantity rejected) (order_at sd m))) as Hred.
    { intros sd. destruct (placed (order_at sd m)) eqn:Hp; [right|by left]. split; [done|]. eexists. split; [done|]. apply Hq. }
    destruct (_ =? _); [by apply (undo_step ids Side.Buy)|]. destruct (_ =? _); [by apply (undo_step ids Side.Sell)|split_and!; first [done|lia]].
Qed.

(** Withdrawing orders moves them from the books to the queue. *)
Lemma withdraw_effect m : net_filled_quantity_ (withdraw m) = net_filled_quantity_ m ∧ placed_count (withdraw m) = 0.
Proof using. unfold withdraw, withdraw_side. by destruct m as [[[]] [[]] ?]. Qed.

Lemma notify_all_ok ids m b l : holds b l → mm_ok ids m l →
  ∃ m' b' l', ('(_, m, order_buffer) ← queue_cancel_orders CAPACITY m b; Ok (m, order_buffer)) = Ok (m', b') ∧
    holds b' l' ∧ mm_ok ids m' l' ∧ net_filled_quantity_ m' = net_filled_quantity_ m ∧
    Z.of_nat (length l') + placed_count m' ≤ Z.of_nat (length l) + placed_count m.
Proof using HC Hcap.
  intros Hr Hm. destruct (queue_cancel_orders_spec m b l Hr) as [Hno Hyes].
  destruct (Z_lt_le_dec (room l) (placed_count m)) as [Hroom|Hroom].
  - rewrite (Hno Hroom). cbn [mbind outcome_bind]. exists m, b, l. split_and!; first [done|lia].
  - destruct (Hyes Hroom) as (b' & -> & Hr'). cbn [mbind outcome_bind]. destruct (withdraw_effect m) as [Hn Hp].
    eexists _, b', _. split; [done|]. split; [done|]. split; [by apply withdraw_ok|]. split; [done|].
    rewrite Hp, length_app, (placed_count_cancels m). lia.
Qed.

Lemma cancel_for_risk_ok ids rejected m b l : holds b l → mm_ok ids m l →
  ∃ m' b' l', cancel_for_risk CAPACITY rejected m b = Ok (m', b') ∧ holds b' l' ∧ mm_ok ids m' l' ∧
    net_filled_quantity_ m' = net_filled_quantity_ m ∧
    Z.of_nat (length l') + placed_count m' ≤ Z.of_nat (length l) + placed_count m.
Proof using HC Hcap.
  intros Hr Hm. unfold cancel_for_risk. cbv zeta. set (sd := OutboundOrderRequest.side rejected).
  destruct (placed (order_at sd m)) eqn:Hp; cbn [negb]; [|exists m, b, l; split_and!; first [done|lia]].
  destruct (single_push CAPACITY Hcap (cancel_request (order_at sd m)) b l Hr) as [Hyes Hno].
  destruct (Z_lt_le_dec 0 (room l)) as [Hroom|Hroom].
  - destruct (Hyes Hroom) as (b' & -> & Hr'). cbn [mbind outcome_bind]. eexists _, b', _. split; [done|]. split; [done|].
    split; [|split; [by destruct sd|]].
    + pose proof (withdraw_side_ok ids m l sd Hm) as Hw. unfold withdraw_side, cancels_of in Hw. by rewrite Hp in Hw.
    + rewrite placed_count_set, Hp, length_app. simpl. lia.
  - rewrite (Hno Hroom). cbn [mbind outcome_bind]. exists m, b, l. split_and!; first [done|lia].
Qed.

Lemma notify_invalid_ok ids rejected reason m b l : holds b l → mm_ok ids m l → request_ok ids rejected →
  ∃ m' b' l', notify_invalid CAPACITY rejected reason m b = Ok (m', b') ∧ holds b' l' ∧ mm_ok ids m' l' ∧
    net_filled_quantity_ m' = net_filled_quantity_ m ∧
    Z.of_nat (length l') + placed_count m' ≤ Z.of_nat (length l) + placed_count m.
Proof using HC Hcap.
  intros Hr Hm Hrej. unfold notify_invalid. cbv zeta. destruct (undo_ok ids rejected m l Hm Hrej) as (Hm1 & Hn1 & Hp1).
  set (m1 := undo rejected m) in *. clearbody m1.
  assert (∃ m' b' l', (match reason with
    | OrderStatus.Halted | OrderStatus.TooMuchLoss => '(_, m, order_buffer) ← queue_cancel_orders CAPACITY m1 b; Ok (m, order_buffer)
    | OrderStatus.TooMuchExposure => cancel_for_risk CAPACITY rejected m1 b
    | _ => Ok (m1, b) end) = Ok (m', b') ∧ holds b' l' ∧ mm_ok ids m' l' ∧ net_filled_quantity_ m' = net_filled_quantity_ m1 ∧
    Z.of_nat (length l') + placed_count m' ≤ Z.of_nat (length l) + placed_count m1) as (m' & b' & l' & -> & Hr' & Hm' & Hn' & Hc').
  { destruct reason; first [by apply notify_all_ok | by apply cancel_for_risk_ok | exists m1, b, l; split_and!; first [done|lia]]. }
  exists m', b', l'. split_and!; first [done|lia].
Qed.

Lemma get_orders_ok ids bbo m b l : holds b l → mm_ok ids m l → ids < 2 ^ 52 → sane_bbo bbo → compares m bbo →
  ∃ m' ids' b' l', get_orders CAPACITY bbo m ids b = Ok (m', ids', b') ∧ holds b' l' ∧ mm_ok ids' m' l' ∧
    ids' ≤ ids + 2 ∧ net_filled_quantity_ m' = net_filled_quantity_ m.
Proof using HC Hcap.
  intros Hr Hm Hids Hs Hc. pose proof (ok_ids _ _ _ Hm).
  assert (∀ sd, sane_order (order_at sd m)) as Hsane by (intros sd Hp; by apply (ok_orders _ _ _ Hm sd)).
  destruct (get_orders_spec bbo m ids b l Hr Hs Hc (Hsane Side.Buy) (Hsane Side.Sell)) as (b' & -> & Hr'); [lia|unfold in_u; lia|].
  destruct (served bbo m l) eqn:Hserved.
  - eexists _, _, b', _. split; [done|]. split; [exact Hr'|]. split; [by apply after_orders_ok|].
    split; [destruct (quotes_now bbo); lia|].
    unfold after_orders, quoting, withdraw, withdraw_side. destruct (quotes_now bbo), m as [[[]] [[]] ?]; done.
  - exists m, ids, b', l. rewrite app_nil_r in Hr'. split_and!; first [done|lia].
Qed.
End Buffer.

(** ** Sessions *)

(** What happens to a market maker: quotes and fills arrive, its oldest request
    is sent or turned down. *)
Inductive session_op : Type :=
  | Quote (bbo : BestBidOffer)
  | Fill (u : OrderFillUpdate.t)
  | Sent
  | Rejected (reason : OrderStatus.t).

Record session : Type := { maker : t; ids : Z; orders : StrategyOrderBuffer }.

Section Session.
Context (CAPACITY : Z).

Definition session_init (filler : OutboundOrderRequest.t) : session :=
  {| maker := init; ids := ClientOrderIDGenerator.init; orders := SingleThreadRingBuffer.init CAPACITY filler |}.

Definition session_step (o : session_op) (s : session) : outcome session :=
  match o with
  | Quote bbo => '(m, i, b) ← get_orders CAPACITY bbo (maker s) (ids s) (orders s); Ok {| maker := m; ids := i; orders := b |}
  | Fill u => '(m, b) ← update CAPACITY u (maker s) (orders s); Ok {| maker := m; ids := ids s; orders := b |}
  | Sent => Ok {| maker := maker s; ids := ids s; orders := SingleThreadRingBuffer.pop (orders s) |}
  | Rejected reason =>
      front ← SingleThreadRingBuffer.try_front CAPACITY (orders s);
      match front with
      | None => Ok s
      | Some rejected =>
          '(m, b) ← notify_invalid CAPACITY rejected reason (maker s) (SingleThreadRingBuffer.pop (orders s));
          Ok {| maker := m; ids := ids s; orders := b |}
      end
  end.

Fixpoint session_run (ops : list session_op) (s : session) : outcome session :=
  match ops with
  | [] => Ok s
  | o :: ops => s ← session_step o s; session_run ops s
  end.

Definition op_sane (o : session_op) : Prop :=
  match o with
  | Quote bbo => sane_bbo bbo
  | Fill u => 0 ≤ OrderFillUpdate.filled_quantity u
  | _ => True
  end.

Context {HC : PowerOfTwo CAPACITY} (Hcap : CAPACITY < 2 ^ 64).

(** After [n] operations. *)
Definition session_ok (n : Z) (s : session) : Prop :=
  ∃ l, single_repr CAPACITY (orders s) l ∧ mm_ok (ids s) (maker s) l ∧
    ids s ≤ 1 + 2 * n ∧ Z.abs (net_filled_quantity_ (maker s)) ≤ MAX_ORDER * n.

(** The operation compares best prices whose sum is beyond [int32_t] with the quotes that are out. *)
Definition overflows (o : session_op) (s : session) : Prop :=
  ∃ bbo, o = Quote bbo ∧ placed (buy_order_ (maker s)) = true ∧ placed (sell_order_ (maker s)) = true ∧
    ¬ in_s 32 (offer_of bbo + bid_of bbo).

Lemma overflow_undefined o s : overflows o s → session_step o s = Undefined.
Proof using.
  intros (bbo & -> & Hb & Hs & Hov). unfold session_step, get_orders, should_place_new_orders. rewrite Hb, Hs. cbn [negb orb].
  fold (bid_of bbo) (offer_of bbo). by rewrite (checked_overflow 32 _ Hov).
Qed.

Lemma session_step_ok o n s : op_sane o → 0 ≤ n < 2 ^ 50 → session_ok n s →
  overflows o s ∨ ∃ s', session_step o s = Ok s' ∧ session_ok (n + 1) s'.
Proof using HC Hcap.
  intros Hop Hn (l & Hr & Hm & Hids & Hnet). assert (MAX_ORDER = 225) as HM by done.
  assert (overflows o s ∨ ∀ bbo, o = Quote bbo → compares (maker s) bbo) as [?|Hc]; [|by left|right].
  { destruct o as [bbo|u| |reason]; [|by right..]. destruct (decide (compares (maker s) bbo)) as [Hc|Hc]; [right; by intros ? [= <-]|left].
    unfold compares, comparable in Hc. exists bbo. split; [done|].
    destruct (placed (buy_order_ (maker s))); [|destruct Hc; by intros []]. destruct (placed (sell_order_ (maker s))); [|destruct Hc; by intros []].
    split_and!; [done..|]. tauto. }
  pose proof (ok_ids _ _ _ Hm). unfold session_step, session_ok. destruct o as [bbo|u| |reason].
  - destruct (get_orders_ok CAPACITY Hcap (ids s) bbo (maker s) (orders s) l Hr Hm) as (m' & i' & b' & l' & -> & Hr' & Hm' & Hi' & Hn');
      [lia|done|by apply Hc|]. cbn [mbind outcome_bind]. eexists. split; [done|]. exists l'. simpl. split_and!; first [done|lia].
  - destruct (update_ok CAPACITY Hcap (ids s) u (maker s) (orders s) l Hr Hm Hop) as (m' & b' & l' & -> & Hr' & Hm' & Hn'); [lia|].
    cbn [mbind outcome_bind]. eexists. split; [done|]. exists l'. simpl. split_and!; first [done|lia].
  - eexists. split; [done|]. exists (tail l). simpl. split_and!; first [by apply single_front|by apply mm_ok_tail|lia].
  - destruct (single_front CAPACITY _ _ Hr) as [-> Hpop]. cbn [mbind outcome_bind]. destruct l as [|r l]; simpl.
    { eexists. split; [done|]. exists []. split_and!; first [done|lia]. }
    simpl in Hpop. pose proof (ok_requests _ _ _ Hm) as Hreq. apply Forall_cons in Hreq as [Hreq _].
    destruct (notify_invalid_ok CAPACITY Hcap (ids s) r reason (maker s) _ l Hpop (mm_ok_tail _ _ _ Hm) Hreq)
      as (m' & b' & l' & -> & Hr' & Hm' & Hn' & _). cbn [mbind outcome_bind].
    eexists. split; [done|]. exists l'. simpl. split_and!; first [done|lia].
Qed.

Lemma session_run_ok ops n s : Forall op_sane ops → 0 ≤ n → n + Z.of_nat (length ops) ≤ 2 ^ 50 → session_ok n s →
  (∃ pre o post s', ops = pre ++ o :: post ∧ session_run pre s = Ok s' ∧ overflows o s' ∧ session_run ops s = Undefined) ∨
  ∃ s', session_run ops s = Ok s' ∧ session_ok (n + Z.of_nat (length ops)) s'.
Proof using HC Hcap.
  intros Hops. revert n s. induction Hops as [|o ops Ho Hops IH]; intros n s Hn Hlen Hs; cbn [session_run length] in *.
  { right. exists s. by rewrite Z.add_0_r. }
  destruct (session_step_ok o n s Ho ltac:(lia) Hs) as [Hov|(s1 & Hs1 & Hok1)].
  { left. exists [], o, ops, s. split_and!; [done..|]. by rewrite (overflow_undefined _ _ Hov). }
  rewrite Hs1. cbn [mbind outcome_bind].
  destruct (IH (n + 1) s1 ltac:(lia) ltac:(lia) Hok1) as [(pre & o' & post & s' & -> & Hpre & Hov & Hrun)|(s' & -> & Hs')]; [left|right].
  - exists (o :: pre), o', post, s'. split; [done|]. split; [cbn [session_run]; by rewrite Hs1|done].
  - exists s'. split; [done|].
    by replace (n + Z.of_nat (S (length ops))) with (n + 1 + Z.of_nat (length ops)) by lia.
Qed.
End Session.

(** C12: A market maker behaves through any session.  Whatever best prices, fills of any size and
    order arrive, one or both sides of the market absent, prices otherwise within 2^29 of zero,
    and whichever of its requests
    are sent or turned down, for whatever reason, up to 2^50 operations from the start:
    both orders it believes to be out have fresh ids, a
    positive quantity of at most 225, and their own side; two orders out at
    once are of one pair and at least the minimum spread apart, so it never
    trades with itself; every queued request is within the same limits, an update labelled
    increasing or reducing as it is, and the
    buffer never holds more than its capacity.  The one way to undefined behaviour is a snapshot whose
    two prices do not add up within [int32_t] (an absent offer with a positive bid, an absent bid
    with a negative offer) while both its quotes are out: that operation always overflows. *)
Theorem market_maker_session (CAPACITY : Z) `{PowerOfTwo CAPACITY} (filler : OutboundOrderRequest.t) (ops : list session_op) :
  CAPACITY < 2 ^ 64 → Forall op_sane ops → Z.of_nat (length ops) ≤ 2 ^ 50 →
  (∃ pre bbo post s, ops = pre ++ Quote bbo :: post ∧ session_run CAPACITY pre (session_init CAPACITY filler) = Ok s ∧
    placed (buy_order_ (maker s)) = true ∧ placed (sell_order_ (maker s)) = true ∧ ¬ in_s 32 (offer_of bbo + bid_of bbo) ∧
    session_run CAPACITY ops (session_init CAPACITY filler) = Undefined) ∨
  ∃ s l, session_run CAPACITY ops (session_init CAPACITY filler) = Ok s ∧
    single_repr CAPACITY (orders s) l ∧ Z.of_nat (length l) ≤ CAPACITY ∧ Forall (request_ok (ids s)) l ∧
    (∀ sd, order_ok (ids s) sd (order_at sd (maker s))) ∧ pair_ok (maker s) ∧
    Z.abs (net_filled_quantity_ (maker s)) ≤ MAX_ORDER * Z.of_nat (length ops).
Proof.
  intros Hcap Hops Hlen. destruct (session_run_ok CAPACITY Hcap ops 0 (session_init CAPACITY filler) Hops)
    as [(pre & o & post & s & Heq & Hpre & (bbo & -> & ? & ? & ?) & Hrun)|(s & Hrun & l & Hr & Hm & _ & Hnet)]; [done|lia| | |].
  { exists []. split; [by apply ring_repr_init|]. split; [apply init_ok|done]. }
  { left. by exists pre, bbo, post, s. }
  right. exists s, l. split_and!; [done|done| |apply Hm|apply Hm|apply Hm|exact Hnet].
  destruct (ring_repr_bound CAPACITY _ _ _ _ Hr). lia.
Qed.

Definition make_bbo (bid offer : Z) : BestBidOffer :=
  {| BookState.best_bid := {| BookState.price := bid; BookState.quantity := 10 |};
     BookState.best_offer := {| BookState.price := offer; BookState.quantity := 10 |} |}.

(** Quote around 400, buy 60, have the rebalancing update refused, requote. *)
Definition test_session : list session_op :=
  [Quote (make_bbo 350 450); Sent; Sent; Fill {| OrderFillUpdate.order_id := 1; OrderFillUpdate.filled_quantity := 60 |};
   Rejected OrderStatus.TooManyOrders; Sent; Quote (make_bbo 360 460); Sent; Rejected OrderStatus.Halted;
   Quote (make_bbo BookState.NO_BID 460)].

Example test_session_result :
  (λ s, (net_filled_quantity_ (maker s), placed (buy_order_ (maker s)), ids s)) <$>
    session_run 32 test_session (session_init 32 (cancel_request no_order)) = Ok (60, false, 5).
Proof. vm_compute. reflexivity. Qed.

(** The same with the offers gone while both quotes are out. *)
Definition overflowing_session : list session_op :=
  [Quote (make_bbo 350 450); Sent; Sent; Quote (make_bbo 350 BookState.NO_OFFER)].

Lemma market_maker_session_witness :
  (∃ s l, session_run Config.STRATEGY_ORDER_BUFFER_SIZE test_session (session_init Config.STRATEGY_ORDER_BUFFER_SIZE (cancel_request no_order)) = Ok s ∧
    single_repr Config.STRATEGY_ORDER_BUFFER_SIZE (orders s) l ∧ Z.of_nat (length l) ≤ Config.STRATEGY_ORDER_BUFFER_SIZE ∧
    Forall (request_ok (ids s)) l ∧
    (∀ sd, order_ok (ids s) sd (order_at sd (maker s))) ∧ pair_ok (maker s) ∧
    Z.abs (net_filled_quantity_ (maker s)) ≤ MAX_ORDER * 10) ∧
  session_run Config.STRATEGY_ORDER_BUFFER_SIZE overflowing_session (session_init Config.STRATEGY_ORDER_BUFFER_SIZE (cancel_request no_order)) = Undefined.
Proof.
  split.
  - destruct (market_maker_session Config.STRATEGY_ORDER_BUFFER_SIZE (cancel_request no_order) test_session)
      as [(pre & bbo & post & s & _ & _ & _ & _ & _ & Hrun)|Hgood].
    + reflexivity.
    + repeat (apply Forall_cons; split); try exact I; try apply Forall_nil_2; try discriminate;
        (split; first [left; reflexivity | right; split; discriminate]).
    + discriminate.
    + vm_compute in Hrun. discriminate Hrun.
    + exact Hgood.
  - destruct (market_maker_session Config.STRATEGY_ORDER_BUFFER_SIZE (cancel_request no_order) overflowing_session)
      as [(pre & bbo & post & s & _ & _ & _ & _ & _ & Hrun)|(s & l & Hrun & _)].
    + reflexivity.
    + repeat (apply Forall_cons; split); try exact I; try apply Forall_nil_2; try discriminate;
        (split; first [left; reflexivity | right; split; discriminate]).
    + discriminate.
    + exact Hrun.
    + vm_compute in Hrun. discriminate Hrun.
Defined.

(** C20: A new best bid or offer is served exactly as the quoting rule says.  With
    the requests queued and no arithmetic at risk, [get_orders] leaves
    everything as it is unless a side is not quoted or the midpoint moved by
    more than the allowed drift, and the buffer has room; otherwise it queues the cancels of
    the orders out and, if the spread is wide enough and the bid at least the
    minimum, a new bid and offer with the next two ids: both of the standard
    quantity, each improving on the market's best price, at least twice the minimum
    and at most twice the maximum one-sided spread apart. *)
Theorem market_maker_quotes_inside (CAPACITY : Z) `{PowerOfTwo CAPACITY} (bbo : BestBidOffer) (m : t) (next_id : Z)
    (b : StrategyOrderBuffer) (l : list OutboundOrderRequest.t) :
  CAPACITY < 2 ^ 64 → single_repr CAPACITY b l → sane_bbo bbo → compares m bbo →
  sane_order (buy_order_ m) → sane_order (sell_order_ m) → 0 ≤ next_id → in_u 64 (next_id + 2) →
  ∃ m' next_id' b', get_orders CAPACITY bbo m next_id b = Ok (m', next_id', b') ∧
    if served CAPACITY bbo m l then
      single_repr CAPACITY b' (l ++ cancels m ++ if quotes_now bbo then quotes (quote_prices bbo) next_id else []) ∧
      next_id' = (if quotes_now bbo then next_id + 2 else next_id) ∧
      (if quotes_now bbo then m' = quoting (quote_prices bbo) next_id m ∧
         bid_of bbo < bid_price (quote_prices bbo) ∧ offer_price (quote_prices bbo) < offer_of bbo ∧
         2 * Config.ONE_SIDED_MIN_SPREAD ≤ offer_price (quote_prices bbo) - bid_price (quote_prices bbo) ≤ 2 * Config.ONE_SIDED_MAX_SPREAD
       else placed (buy_order_ m') = false ∧ placed (sell_order_ m') = false)
    else m' = m ∧ next_id' = next_id ∧ single_repr CAPACITY b' l.
Proof.
  intros Hcap Hr Hs Hc Hb Ho H0 Hid. destruct (get_orders_spec CAPACITY Hcap bbo m next_id b l Hr Hs Hc Hb Ho H0 Hid) as (b' & -> & Hr').
  destruct (served CAPACITY bbo m l); [|eexists _, _, b'; split; [done|]; by rewrite app_nil_r in Hr'].
  eexists _, _, b'. split; [done|]. split; [exact Hr'|]. split; [done|]. unfold after_orders.
  destruct (quotes_now bbo) eqn:Hq; [|apply withdraw_placed].
  apply andb_prop in Hq as [Hq _]. destruct (quote_prices_inside bbo Hs Hq) as (? & ? & ? & ? & _).
  split_and!; [|lia..]. unfold quoting, withdraw, withdraw_side. by destruct m as [[[]] [[]] ?].
Qed.

Lemma market_maker_quotes_inside_witness :
  ∃ m' next_id' b', get_orders 32 (make_bbo 350 450) init 1 (SingleThreadRingBuffer.init 32 (cancel_request no_order)) = Ok (m', next_id', b') ∧
    m' = quoting {| bid_price := 390; offer_price := 410 |} 1 init ∧ next_id' = 3.
Proof.
  destruct (market_maker_quotes_inside Config.STRATEGY_ORDER_BUFFER_SIZE (make_bbo 350 450) init 1
    (SingleThreadRingBuffer.init 32 (cancel_request no_order)) []) as (m' & i' & b' & Hrun & Hout).
  - reflexivity.
  - apply (ring_repr_init Config.STRATEGY_ORDER_BUFFER_SIZE).
  - split; right; split; discriminate.
  - intros [Hout _]. discriminate Hout.
  - discriminate.
  - discriminate.
  - discriminate.
  - split; [discriminate|reflexivity].
  - destruct Hout as (_ & Hi & Hm & _). exists m', i', b'. split; [exact Hrun|]. split; [exact Hm|exact Hi].
Defined.

(** With both quotes out, a best offer that disappears while a bid is left is
    undefined behaviour: [should_place_new_orders] adds the bid's price to the
    largest [int32_t], which stands for the absent offer, before any test for it. *)
Theorem market_maker_one_sided_undefined (CAPACITY : Z) (bbo : BestBidOffer) (m : t) (next_id : Z) (b : StrategyOrderBuffer) :
  placed (buy_order_ m) = true → placed (sell_order_ m) = true →
  offer_of bbo = BookState.NO_OFFER → 0 < bid_of bbo →
  get_orders CAPACITY bbo m next_id b = Undefined.
Proof.
  intros Hb Hs Ho Hbid. unfold get_orders, should_place_new_orders. rewrite Hb, Hs. cbn [negb orb].
  fold (bid_of bbo) (offer_of bbo). rewrite Ho, (checked_overflow 32 (BookState.NO_OFFER + bid_of bbo)); [reflexivity|].
  unfold in_s, BookState.NO_OFFER, INT32_MAX. lia.
Qed.

Lemma market_maker_one_sided_undefined_witness :
  get_orders 32 (make_bbo 350 BookState.NO_OFFER) (quoting {| bid_price := 390; offer_price := 410 |} 1 init) 3
    (SingleThreadRingBuffer.init 32 (cancel_request no_order)) = Undefined.
Proof. apply market_maker_one_sided_undefined; reflexivity. Defined.
