(* ===== verification/Trader.v ===== *)
(** * Trader ([strategy-oms/trader.hpp]) and OrderBookEngine ([engine])

    The trader runs any strategy of the [Strategy] class; the market maker is an
    instance.  What other threads publish comes in as data: the risk figures
    that [read_latest] returns and the answers of the stop token. *)

From S2P Require Import Prelude Types Interfaces OrderPool PriceSet OrderBook RingBuffers Errors Strategy.

(** ** The concept [Strategy] *)

Class StrategyOps (T : Type) : Type := {
  strategy_get_orders : BestBidOffer → T → StrategyOrderBuffer → outcome (T * StrategyOrderBuffer);
  strategy_update : OrderFillUpdate.t → T → StrategyOrderBuffer → outcome (T * StrategyOrderBuffer);
  strategy_notify_invalid : OutboundOrderRequest.t → OrderStatus.t → T → StrategyOrderBuffer →
    outcome (T * StrategyOrderBuffer);
}.

Module Trader.

(** What the risk check answered for a request, and the figures it had read. *)
Record decision : Type := {
  considered : OutboundOrderRequest.t;
  figures : option RiskData.t;
  verdict : OrderStatus.t;
}.

Section Trader.
Context {T : Type} {S : StrategyOps T} (STRATEGY_ORDER_BUFFER_SIZE TRADE_BUFFER_SIZE ORDER_UPDATE_BUFFER_SIZE : Z).

(** The members that change; [bbo_] and [risk_data_] are read from outside.
    [decisions] is no member: it records, for the theorems, every request the loop of
    [place_new_orders] took off [order_buffer_], with what was decided on it. *)
Record t : Type := {
  order_buffer_ : StrategyOrderBuffer;
  trade_buffer_ : LazyRingBuffer.t OrderRequest.t;
  update_buffer_ : LazyRingBuffer.t OrderFillUpdate.t;
  strategy_ : T;
  decisions : list decision;
}.
Definition set_order_buffer (b : StrategyOrderBuffer) (s : t) : t :=
  {| order_buffer_ := b; trade_buffer_ := trade_buffer_ s; update_buffer_ := update_buffer_ s; strategy_ := strategy_ s;
     decisions := decisions s |}.
Definition set_strategy (st : T) (b : StrategyOrderBuffer) (s : t) : t :=
  {| order_buffer_ := b; trade_buffer_ := trade_buffer_ s; update_buffer_ := update_buffer_ s; strategy_ := st;
     decisions := decisions s |}.
Definition set_trade_buffer (b : LazyRingBuffer.t OrderRequest.t) (s : t) : t :=
  {| order_buffer_ := order_buffer_ s; trade_buffer_ := b; update_buffer_ := update_buffer_ s; strategy_ := strategy_ s;
     decisions := decisions s |}.
Definition set_update_buffer (b : LazyRingBuffer.t OrderFillUpdate.t) (s : t) : t :=
  {| order_buffer_ := order_buffer_ s; trade_buffer_ := trade_buffer_ s; update_buffer_ := b; strategy_ := strategy_ s;
     decisions := decisions s |}.
Definition decide_on (d : decision) (s : t) : t :=
  {| order_buffer_ := order_buffer_ s; trade_buffer_ := trade_buffer_ s; update_buffer_ := update_buffer_ s; strategy_ := strategy_ s;
     decisions := decisions s ++ [d] |}.

Definition reduces_exposure (outbound : OutboundOrderRequest.t) : bool :=
  bool_decide (OrderRequest.type (OutboundOrderRequest.request outbound) = OrderRequest.Cancel)
  || (bool_decide (OrderRequest.type (OutboundOrderRequest.request outbound) = OrderRequest.Update)
      && bool_decide (OutboundOrderRequest.quantity_change outbound = QuantityChange.Reducing)).

(** [signed_delta]: the subtraction of quantities is unsigned, its result becomes an [int64_t]. *)
Definition signed_delta (outbound : OutboundOrderRequest.t) : Z :=
  let request := OutboundOrderRequest.request outbound in
  match OrderRequest.type request with
  | OrderRequest.Buy => OrderRequest.quantity request
  | OrderRequest.Sell => - OrderRequest.quantity request
  | OrderRequest.Update =>
      if decide (OutboundOrderRequest.quantity_change outbound = QuantityChange.Increasing) then
        let delta := u32 (OrderRequest.quantity request - OutboundOrderRequest.previous_quantity outbound) in
        if decide (OutboundOrderRequest.side outbound = Side.Buy) then delta else - delta
      else 0
  | OrderRequest.Cancel => 0
  end.

(** [stop]: the stop token's answer; [risk]: what [read_latest] returns. *)
Definition evaluate_risk (outbound : OutboundOrderRequest.t) (stop : bool) (risk : option RiskData.t) :
    outcome OrderStatus.t :=
  if stop then Ok OrderStatus.Stopped else
  match risk with
  | None => Ok OrderStatus.Stopped
  | Some risk =>
      let reducing := reduces_exposure outbound in
      if RiskData.is_halted risk && negb reducing then Ok OrderStatus.Halted else
      if negb reducing && (RiskData.max_orders_per_window risk <=? RiskData.orders_sent_in_window risk)
      then Ok OrderStatus.TooManyOrders else
      if reducing then Ok OrderStatus.Good else
      position ← i64 (RiskData.net_position risk + signed_delta outbound);
      exposure ← abs_ 64 position;
      if RiskData.max_position risk <? exposure then Ok OrderStatus.TooMuchExposure else
      pnl ← i64 (RiskData.realized_pnl risk + RiskData.unrealized_pnl risk);
      Ok (if pnl <=? RiskData.max_loss_allowed risk then OrderStatus.TooMuchLoss else OrderStatus.Good)
  end.

(** One round of the loop of [place_new_orders]: [Some result] ends the loop. *)
Definition place_next_order (stop : bool) (risk : option RiskData.t) (s : t) :
    outcome (option (expected unit StrategyError.t) * t) :=
  front ← SingleThreadRingBuffer.try_front STRATEGY_ORDER_BUFFER_SIZE (order_buffer_ s);
  match front with
  | None => Ok (Some (Value tt), s)
  | Some outbound =>
      status ← evaluate_risk outbound stop risk;
      let decided := decide_on {| considered := outbound; figures := risk; verdict := status |} in
      if decide (status = OrderStatus.Stopped) then Ok (Some (Value tt), s) else
      if decide (status ≠ OrderStatus.Good) then
        '(strategy, buffer) ← strategy_notify_invalid outbound status (strategy_ s)
          (SingleThreadRingBuffer.pop (order_buffer_ s));
        Ok (None, decided (set_strategy strategy buffer s))
      else
        match LazyRingBuffer.try_get_head_ref TRADE_BUFFER_SIZE (trade_buffer_ s) with
        | None => Ok (Some (Unexpected StrategyError.TradeBufferFull), s)
        | Some slot =>
            trades ← LazyRingBuffer.write slot (OutboundOrderRequest.request outbound) (trade_buffer_ s);
            Ok (None, decided (set_order_buffer (SingleThreadRingBuffer.pop (order_buffer_ s))
                        (set_trade_buffer (LazyRingBuffer.publish trades) s)))
        end
  end.

(** [answers i]: the stop token and the risk figures in the [i]-th round.  The
    result carries the number of rounds. *)
Fixpoint place_new_orders (fuel : nat) (answers : nat → bool * option RiskData.t) (s : t) :
    outcome (expected unit StrategyError.t * t) :=
  match fuel with
  | O => OutOfFuel
  | Datatypes.S fuel =>
      '(result, s) ← place_next_order (answers O).1 (answers O).2 s;
      match result with
      | Some result => Ok (result, s)
      | None => place_new_orders fuel (λ i, answers (Datatypes.S i)) s
      end
  end.

(** [rounds i]: the answers during the [i]-th update. *)
Fixpoint forward_oms_updates (fuel : nat) (place_fuel : nat) (rounds : nat → nat → bool * option RiskData.t) (s : t) :
    outcome (expected unit StrategyError.t * t) :=
  match LazyRingBuffer.try_get_tail_ref ORDER_UPDATE_BUFFER_SIZE (update_buffer_ s) with
  | None => Ok (Value tt, s)
  | Some slot =>
      match fuel with
      | O => OutOfFuel
      | Datatypes.S fuel =>
          update ← LazyRingBuffer.read slot (update_buffer_ s);
          '(strategy, buffer) ← strategy_update update (strategy_ s) (order_buffer_ s);
          let s := set_update_buffer (LazyRingBuffer.consume (update_buffer_ s)) (set_strategy strategy buffer s) in
          '(result, s) ← place_new_orders place_fuel (rounds O) s;
          match result with
          | Unexpected e => Ok (Unexpected e, s)
          | Value _ => forward_oms_updates fuel place_fuel (λ i, rounds (Datatypes.S i)) s
          end
      end
  end.

(** The second half of a round of [start], once [wait_read_next] has returned
    [snapshot] ([None]: stopped). *)
Definition quote_step (place_fuel : nat) (snapshot : option BestBidOffer) (answers : nat → bool * option RiskData.t) (s : t) :
    outcome (option (expected unit StrategyError.t) * t) :=
  match snapshot with
  | None => Ok (Some (Value tt), s)
  | Some snapshot =>
      '(strategy, buffer) ← strategy_get_orders snapshot (strategy_ s) (order_buffer_ s);
      '(result, s) ← place_new_orders place_fuel answers (set_strategy strategy buffer s);
      Ok (match result with Unexpected e => Some (Unexpected e) | Value _ => None end, s)
  end.

(** One round of [start]. *)
Definition start_step (fuel place_fuel : nat) (rounds : nat → nat → bool * option RiskData.t)
    (snapshot : option BestBidOffer) (answers : nat → bool * option RiskData.t) (s : t) :
    outcome (option (expected unit StrategyError.t) * t) :=
  '(result, s) ← forward_oms_updates fuel place_fuel rounds s;
  match result with
  | Unexpected e => Ok (Some (Unexpected e), s)
  | Value _ => quote_step place_fuel snapshot answers s
  end.
End Trader.
Arguments t : clear implicits.
Arguments order_buffer_ {T} _.
Arguments trade_buffer_ {T} _.
Arguments update_buffer_ {T} _.
Arguments strategy_ {T} _.
Arguments decisions {T} _.
End Trader.

(** ** The market maker as a strategy, with the id counter it draws from *)

Definition market_maker_ops (CAPACITY : Z) : StrategyOps (PassiveMarketMaker.t * Z) := {|
  strategy_get_orders bbo st buffer :=
    '(m, ids, buffer) ← PassiveMarketMaker.get_orders CAPACITY bbo st.1 st.2 buffer; Ok ((m, ids), buffer);
  strategy_update u st buffer :=
    '(m, buffer) ← PassiveMarketMaker.update CAPACITY u st.1 buffer; Ok ((m, st.2), buffer);
  strategy_notify_invalid rejected reason st buffer :=
    '(m, buffer) ← PassiveMarketMaker.notify_invalid CAPACITY rejected reason st.1 buffer; Ok ((m, st.2), buffer);
|}.

Module OrderBookEngine.
Section Engine.
Context {PL OM : Type} {pl_ops : KeyedStore PL Z BookState.PriceLevel} {om_ops : KeyedStore OM Z Z}.
Context (MARKET_EVENT_BUFFER_SIZE : Z).

(** [public_bbo_] is the sequence of snapshots written, newest last. *)
Record t : Type := {
  state_ : BookState.t PL OM;
  public_bbo_ : list BookState.OrderSnapshot;
  market_events_ : LazyRingBuffer.t MarketEvent.t;
}.

(** The handling of one event, between [wait_get_tail_ref] and [consume]. *)
Definition apply (new_market_event : MarketEvent.t) (state : BookState.t PL OM) (bbo : list BookState.OrderSnapshot) :
    outcome (BookState.t PL OM * list BookState.OrderSnapshot) :=
  '(state, status) ← BookState.execute state new_market_event;
  Ok (state, match status with
             | BookState.NewBestBid | BookState.NewBestOffer => bbo ++ [BookState.snapshot state]
             | BookState.NoChange => bbo
             end).

(** One round of [start]; [None]: the wait keeps spinning on an empty buffer. *)
Definition start_step (s : t) : outcome (option MarketEvent.t * t) :=
  match LazyRingBuffer.try_get_tail_ref MARKET_EVENT_BUFFER_SIZE (market_events_ s) with
  | None => Ok (None, s)
  | Some slot =>
      new_market_event ← LazyRingBuffer.read slot (market_events_ s);
      '(state, bbo) ← apply new_market_event (state_ s) (public_bbo_ s);
      Ok (Some new_market_event,
          {| state_ := state; public_bbo_ := bbo; market_events_ := LazyRingBuffer.consume (market_events_ s) |})
  end.
End Engine.
Arguments t : clear implicits.
End OrderBookEngine.
