(* ===== verification/TraderProof.v ===== *)
(** * The trader gates what its strategy queues

    The contract of a strategy ([StrategyLaws]), the loop of
    [place_new_orders] and a round of [Trader::start] proved against it, and
    the market maker as an instance. *)

From S2P Require Import Prelude Types OrderBook Ring RingBuffers RingUse Errors Strategy MarketMakerProof Trader.

(** ** The risk gate *)

(** Figures whose sums do not overflow. *)
Definition risk_sane (r : RiskData.t) : Prop :=
  Z.abs (RiskData.net_position r) < 2 ^ 62 ∧ Z.abs (RiskData.realized_pnl r) < 2 ^ 62 ∧
  Z.abs (RiskData.unrealized_pnl r) < 2 ^ 62.

(** The limits on a request that would change the position by [change]: no halt, a window that is
    not full, the new position within its limit, and the profit above the floor. *)
Definition within_limits (r : RiskData.t) (change : Z) : Prop :=
  RiskData.is_halted r = false ∧ RiskData.orders_sent_in_window r < RiskData.max_orders_per_window r ∧
  Z.abs (RiskData.net_position r + change) ≤ RiskData.max_position r ∧
  RiskData.max_loss_allowed r < RiskData.realized_pnl r + RiskData.unrealized_pnl r.

(** What the risk figures permit: a cancel and an update to no more than the previous quantity always,
    anything else within the limits, for the quantity it adds on its side. *)
Definition permitted (r : RiskData.t) (o : OutboundOrderRequest.t) : Prop :=
  let quantity := OrderRequest.quantity (OutboundOrderRequest.request o) in
  let previous := OutboundOrderRequest.previous_quantity o in
  match OrderRequest.type (OutboundOrderRequest.request o) with
  | OrderRequest.Cancel => True
  | OrderRequest.Buy => within_limits r quantity
  | OrderRequest.Sell => within_limits r (- quantity)
  | OrderRequest.Update => quantity ≤ previous ∨
      within_limits r (match OutboundOrderRequest.side o with Side.Buy => quantity - previous | Side.Sell => previous - quantity end)
  end.

(** Quantities of 32 bits, and an update labelled by what it does to the quantity. *)
Definition quantity_ok (o : OutboundOrderRequest.t) : Prop :=
  let quantity := OrderRequest.quantity (OutboundOrderRequest.request o) in
  let previous := OutboundOrderRequest.previous_quantity o in
  match OrderRequest.type (OutboundOrderRequest.request o) with
  | OrderRequest.Cancel => True
  | OrderRequest.Update => in_u 32 quantity ∧ in_u 32 previous ∧
      OutboundOrderRequest.quantity_change o = if previous <? quantity then QuantityChange.Increasing else QuantityChange.Reducing
  | _ => in_u 32 quantity
  end.

(** Only what the limits are for is not let through at once, with the change it makes. *)
Lemma permitted_spec o r : quantity_ok o →
  if Trader.reduces_exposure o then permitted r o
  else Z.abs (Trader.signed_delta o) < 2 ^ 32 ∧ (permitted r o ↔ within_limits r (Trader.signed_delta o)).
Proof.
  unfold quantity_ok, permitted, Trader.reduces_exposure, Trader.signed_delta, in_u. cbv zeta.
  destruct (OrderRequest.type _); simpl; [intros ?; split; [lia|done]|intros ?; split; [lia|done]|done|].
  intros (Hq & Hp & ->). destruct (Z.ltb_spec (OutboundOrderRequest.previous_quantity o) (OrderRequest.quantity (OutboundOrderRequest.request o))) as [Hlt|Hle];
    simpl; [|by left].
  rewrite (uwrap_small 32 (_ - _)) by (unfold in_u; lia).
  destruct (OutboundOrderRequest.side o); simpl; (split; [lia|split; [intros [?|Hw]; [lia|]|intros Hw; right]]);
    by rewrite ?Z.opp_sub_distr, ?(Z.add_comm (- _)), ?Z.add_opp_r in *.
Qed.

(** The gate's answer: [Stopped] when asked to stop, [Good] exactly when the figures permit it. *)
Definition silent (answer : bool * option RiskData.t) : Prop := answer.1 = true ∨ answer.2 = None.

Lemma evaluate_risk_spec o stop risk : quantity_ok o → (∀ r, risk = Some r → risk_sane r) →
  ∃ status, Trader.evaluate_risk o stop risk = Ok status ∧
    match status with
    | OrderStatus.Stopped => silent (stop, risk)
    | OrderStatus.Good => stop = false ∧ ∃ r, risk = Some r ∧ permitted r o
    | _ => stop = false ∧ ∃ r, risk = Some r ∧ ¬ permitted r o
    end.
Proof.
  intros Hq Hs. unfold Trader.evaluate_risk, silent. destruct stop; [eexists; split; [done|by left]|].
  destruct risk as [r|]; [|eexists; split; [done|by right]]. destruct (Hs r eq_refl) as (Hn & Hrp & Hup). cbv zeta.
  pose proof (permitted_spec o r Hq) as Hd. destruct (Trader.reduces_exposure o); cbn [negb andb].
  { rewrite andb_false_r. eexists. split; [done|]. split; [done|]. by exists r. }
  destruct Hd as [Hd Hper]. unfold within_limits in Hper. destruct (RiskData.is_halted r) eqn:Hh; cbn [andb].
  { eexists. split; [done|]. split; [done|]. exists r. split; [done|]. intros [? _]%Hper. congruence. }
  destruct (Z.leb_spec (RiskData.max_orders_per_window r) (RiskData.orders_sent_in_window r)).
  { eexists. split; [done|]. split; [done|]. exists r. split; [done|]. intros (? & ? & ?)%Hper. lia. }
  rewrite (checked_ok 64 (RiskData.net_position r + _)) by in_range. cbn [mbind outcome_bind]. unfold abs_.
  rewrite (checked_ok 64 (Z.abs _)) by in_range. cbn [mbind outcome_bind].
  destruct (Z.ltb_spec (RiskData.max_position r) (Z.abs (RiskData.net_position r + Trader.signed_delta o))).
  { eexists. split; [done|]. split; [done|]. exists r. split; [done|]. intros (? & ? & ? & ?)%Hper. lia. }
  rewrite (checked_ok 64 (RiskData.realized_pnl r + _)) by in_range. cbn [mbind outcome_bind].
  destruct (Z.leb_spec (RiskData.realized_pnl r + RiskData.unrealized_pnl r) (RiskData.max_loss_allowed r)); eexists; (split; [done|]);
    (split; [done|]); exists r; (split; [done|]); [intros (? & ? & ? & ?)%Hper; lia|apply Hper; split_and!; [done|lia..]].
Qed.

(** ** What a strategy promises the trader

    [strategy_inv n st l]: after [n] calls, the strategy is in the state [st] with the
    requests [l] queued; [strategy_accepts st bbo]: these best prices are not
    beyond its arithmetic.  Every queued request has 32-bit quantities, and an update is
    labelled as it is.  A rejection may queue more requests, but each comes
    out of the [strategy_pending] that is left. *)
Class StrategyLaws {T : Type} (S : StrategyOps T) (CAPACITY : Z) : Type := {
  strategy_inv : Z → T → list OutboundOrderRequest.t → Prop;
  strategy_pending : T → Z;
  strategy_max_pending : Z;
  strategy_accepts : T → BestBidOffer → Prop;
  #[global] strategy_accepts_dec st bbo :: Decision (strategy_accepts st bbo);
  strategy_pending_range st : 0 ≤ strategy_pending st ≤ strategy_max_pending;
  strategy_sent n st l : strategy_inv n st l → strategy_inv n st (tail l);
  strategy_quantities n st l : strategy_inv n st l → Forall quantity_ok l;
  strategy_notified n st o l reason b : strategy_inv n st (o :: l) → single_repr CAPACITY b l →
    ∃ st' b' l', strategy_notify_invalid o reason st b = Ok (st', b') ∧ single_repr CAPACITY b' l' ∧
      strategy_inv n st' l' ∧ Z.of_nat (length l') + strategy_pending st' ≤ Z.of_nat (length l) + strategy_pending st;
  strategy_updated n st u l b : strategy_inv n st l → single_repr CAPACITY b l → 0 ≤ n < 2 ^ 50 →
    0 ≤ OrderFillUpdate.filled_quantity u →
    ∃ st' b' l', strategy_update u st b = Ok (st', b') ∧ single_repr CAPACITY b' l' ∧ strategy_inv (n + 1) st' l';
  strategy_quoted n st bbo l b : strategy_inv n st l → single_repr CAPACITY b l → 0 ≤ n < 2 ^ 50 →
    sane_bbo bbo → strategy_accepts st bbo →
    ∃ st' b' l', strategy_get_orders bbo st b = Ok (st', b') ∧ single_repr CAPACITY b' l' ∧ strategy_inv (n + 1) st' l';
}.

Section Trader.
Context {T : Type} {S : StrategyOps T} (CAPACITY TRADES UPDATES : Z).
Context {HC : PowerOfTwo CAPACITY} {HT : PowerOfTwo TRADES} {HU : PowerOfTwo UPDATES}.
Context (Hcap : CAPACITY < 2 ^ 64) (Htrades : TRADES < 2 ^ 64) {L : StrategyLaws S CAPACITY}.

(** A trader: its strategy after [n] calls with [l] queued, [ts] in the trade
    buffer and [us] in the update buffer. *)
Record trader_ok (n : Z) (s : Trader.t T) (l : list OutboundOrderRequest.t) (ts : list OrderRequest.t)
    (us : list OrderFillUpdate.t) : Prop := {
  trader_strategy : strategy_inv n (Trader.strategy_ s) l;
  trader_orders : single_repr CAPACITY (Trader.order_buffer_ s) l;
  trader_trades : lazy_repr TRADES (Trader.trade_buffer_ s) ts;
  trader_updates : lazy_repr UPDATES (Trader.update_buffer_ s) us;
}.

(** A decision that follows the figures read for it: let through if and only if they permit it. *)
Definition sound (d : Trader.decision) : Prop :=
  ∃ r, Trader.figures d = Some r ∧ (Trader.verdict d = OrderStatus.Good ↔ permitted r (Trader.considered d)).

(** The requests that were let through. *)
Definition placed (ds : list Trader.decision) : list OrderRequest.t :=
  OutboundOrderRequest.request ∘ Trader.considered <$> filter (λ d, Trader.verdict d = OrderStatus.Good) ds.

Lemma placed_app ds1 ds2 : placed (ds1 ++ ds2) = placed ds1 ++ placed ds2.
Proof using. unfold placed. by rewrite filter_app, fmap_app. Qed.

(** Each decision was taken on the next answers of the stop token and the risk figures. *)
Definition follows (answers : nat → bool * option RiskData.t) (ds : list Trader.decision) : Prop :=
  ∀ k d, ds !! k = Some d → answers k = (false, Trader.figures d).

Definition answers_sane (answers : nat → bool * option RiskData.t) : Prop := ∀ i r, (answers i).2 = Some r → risk_sane r.

(** How [place_new_orders] ends, after [n] decisions. *)
Definition placing_ends (result : expected unit StrategyError.t) (answers : nat → bool * option RiskData.t) (n : nat)
    (l : list OutboundOrderRequest.t) (ts : list OrderRequest.t) : Prop :=
  match result with
  | Unexpected e => e = StrategyError.TradeBufferFull ∧ Z.of_nat (length ts) = TRADES ∧ l ≠ []
  | Value _ => l = [] ∨ silent (answers n)
  end.

Lemma place_next_order_ok n s l ts us stop risk : trader_ok n s l ts us → (∀ r, risk = Some r → risk_sane r) →
  ∃ result s' l' ds, Trader.place_next_order CAPACITY TRADES stop risk s = Ok (result, s') ∧
    trader_ok n s' l' (ts ++ placed ds) us ∧ Trader.decisions s' = Trader.decisions s ++ ds ∧
    match result with
    | Some (Unexpected e) => ds = [] ∧ e = StrategyError.TradeBufferFull ∧ Z.of_nat (length ts) = TRADES ∧ l' ≠ []
    | Some (Value _) => ds = [] ∧ (l' = [] ∨ silent (stop, risk))
    | None => (∃ d, ds = [d] ∧ head l = Some (Trader.considered d) ∧ (stop, risk) = (false, Trader.figures d) ∧ sound d) ∧
        Z.of_nat (length l') + strategy_pending (Trader.strategy_ s') < Z.of_nat (length l) + strategy_pending (Trader.strategy_ s)
    end.
Proof using HC HT HU Hcap Htrades.
  intros [Hs Hl Ht Hu] Hrisk. unfold Trader.place_next_order.
  destruct (single_front CAPACITY _ _ Hl) as [-> Hpop]. cbn [mbind outcome_bind].
  destruct l as [|o l]; cbn [List.hd_error tail] in *.
  { exists (Some (Value tt)), s, [], []. rewrite !app_nil_r. split_and!; [done|by split|done|done|by left]. }
  pose proof (strategy_quantities _ _ _ Hs) as Hq. apply Forall_cons in Hq as [Hq _].
  destruct (evaluate_risk_spec o stop risk Hq Hrisk) as (status & -> & Hstatus). cbn [mbind outcome_bind]. cbv zeta.
  set (d := {| Trader.considered := o; Trader.figures := risk; Trader.verdict := status |}).
  case_decide as Hstop.
  { rewrite Hstop in Hstatus. exists (Some (Value tt)), s, (o :: l), []. rewrite !app_nil_r. split_and!; [done|by split|done|done|by right]. }
  case_decide as Hgood.
  { destruct (strategy_notified n _ o l status _ Hs Hpop) as (st' & b' & l' & -> & Hl' & Hs' & Hm). cbn [mbind outcome_bind].
    eexists None, _, l', [d]. split; [done|]. assert (placed [d] = []) as -> by (unfold placed; by rewrite filter_cons_False).
    rewrite app_nil_r. split; [by split|]. split; [done|]. split; [|simpl; lia]. exists d. split; [done|]. split; [done|].
    assert (stop = false ∧ ∃ r, risk = Some r ∧ ¬ permitted r o) as (-> & r & -> & Hper) by (destruct status; done).
    split; [done|]. exists r. split; [done|]. simpl. tauto. }
  assert (status = OrderStatus.Good) as Hg by (destruct (decide (status = OrderStatus.Good)); tauto). rewrite Hg in Hstatus.
  destruct Hstatus as (-> & r & -> & Hper). pose proof (lazy_claim TRADES Htrades _ _ Ht) as Hclaim.
  destruct (LazyRingBuffer.try_get_head_ref TRADES (Trader.trade_buffer_ s)) as [slot|].
  - destruct Hclaim as [_ Hwrite]. destruct (Hwrite (OutboundOrderRequest.request o)) as (trades & -> & Htrades' & _).
    cbn [mbind outcome_bind]. eexists None, _, l, [d]. split; [done|].
    assert (placed [d] = [OutboundOrderRequest.request o]) as -> by (unfold placed; by rewrite filter_cons_True).
    split; [split; try done; by apply (strategy_sent n _ (o :: l))|]. split; [done|].
    split; [|simpl; lia]. exists d. split_and!; [done..|]. exists r. split; [done|]. simpl. tauto.
  - exists (Some (Unexpected StrategyError.TradeBufferFull)), s, (o :: l), []. rewrite !app_nil_r. split_and!; try done; by split.
Qed.

Lemma follows_cons answers d ds : answers O = (false, Trader.figures d) → follows (λ i, answers (Datatypes.S i)) ds → follows answers (d :: ds).
Proof using. intros Hd Hds [|k] d' Hk; [by injection Hk as <-|by apply Hds]. Qed.

Lemma place_new_orders_ok fuel n s l ts us answers : trader_ok n s l ts us → answers_sane answers →
  Z.of_nat (length l) + strategy_pending (Trader.strategy_ s) < Z.of_nat fuel →
  ∃ result s' l' ds, Trader.place_new_orders CAPACITY TRADES fuel answers s = Ok (result, s') ∧
    trader_ok n s' l' (ts ++ placed ds) us ∧ Trader.decisions s' = Trader.decisions s ++ ds ∧ Forall sound ds ∧ follows answers ds ∧
    placing_ends result answers (length ds) l' (ts ++ placed ds).
Proof using HC HT HU Hcap Htrades.
  revert s l ts answers. induction fuel as [|fuel IH]; intros s l ts answers Hok Hsane Hfuel.
  { pose proof (strategy_pending_range (Trader.strategy_ s)). lia. }
  cbn [Trader.place_new_orders].
  destruct (place_next_order_ok n s l ts us (answers 0%nat).1 (answers 0%nat).2 Hok (Hsane 0%nat)) as (result & s1 & l1 & ds & -> & Hok1 & Hds & Hres).
  cbn [mbind outcome_bind]. rewrite <- surjective_pairing in Hres. destruct result as [[u|e]|].
  - destruct Hres as [-> Hend]. by exists (Value u), s1, l1, [].
  - destruct Hres as (-> & -> & Hfull & Hne). eexists (Unexpected _), s1, l1, []. split_and!; try done.
    by rewrite app_nil_r.
  - destruct Hres as ((d & -> & _ & Hd & Hsound) & Hm).
    destruct (IH s1 l1 (ts ++ placed [d]) (λ i, answers (Datatypes.S i)) Hok1) as (result & s' & l' & ds & -> & Hok' & Hds' & Hsounds & Hfollows & Hend);
      [intros i; apply Hsane|lia|].
    rewrite <- (assoc_L (++)), <- placed_app in Hok', Hend. exists result, s', l', (d :: ds). split; [done|]. split; [done|].
    split; [by rewrite Hds', Hds, <- (assoc_L (++))|]. split; [by constructor|]. split; [by apply follows_cons|done].
Qed.

(** Enough rounds for [place_new_orders] from any state. *)
Definition enough_rounds (fuel : nat) : Prop := CAPACITY + strategy_max_pending < Z.of_nat fuel.

Lemma enough_rounds_from fuel n s l ts us : trader_ok n s l ts us → enough_rounds fuel →
  Z.of_nat (length l) + strategy_pending (Trader.strategy_ s) < Z.of_nat fuel.
Proof using HC.
  intros [_ Hl _ _] Hfuel. unfold enough_rounds in Hfuel. destruct (ring_repr_bound CAPACITY _ _ _ _ Hl).
  pose proof (strategy_pending_range (Trader.strategy_ s)). lia.
Qed.

Definition fill_sane (u : OrderFillUpdate.t) : Prop := 0 ≤ OrderFillUpdate.filled_quantity u.

(** What the placing after each of a list of updates decided. *)
Definition each_follows (rounds : nat → nat → bool * option RiskData.t) (dss : list (list Trader.decision)) : Prop :=
  ∀ i ds, dss !! i = Some ds → follows (rounds i) ds.

Lemma each_follows_cons rounds ds dss : follows (rounds O) ds → each_follows (λ i, rounds (Datatypes.S i)) dss → each_follows rounds (ds :: dss).
Proof using. intros Hds Hdss [|i] ds' Hi; [by injection Hi as <-|by apply Hdss]. Qed.

(** The updates are forwarded in order, each consumed before the orders it
    leads to are placed. *)
Lemma forward_oms_updates_ok place_fuel : enough_rounds place_fuel → ∀ fuel n s l ts us rounds,
  trader_ok n s l ts us → (∀ i, answers_sane (rounds i)) → Forall fill_sane us → (length us ≤ fuel)%nat →
  0 ≤ n → n + Z.of_nat (length us) < 2 ^ 50 →
  ∃ result s' l' dss us', Trader.forward_oms_updates CAPACITY TRADES UPDATES fuel place_fuel rounds s = Ok (result, s') ∧
    trader_ok (n + Z.of_nat (length us) - Z.of_nat (length us')) s' l' (ts ++ placed (concat dss)) us' ∧
    us' `suffix_of` us ∧ length us = (length dss + length us')%nat ∧
    Trader.decisions s' = Trader.decisions s ++ concat dss ∧ Forall sound (concat dss) ∧ each_follows rounds dss ∧
    match result with
    | Unexpected e => e = StrategyError.TradeBufferFull ∧ Z.of_nat (length (ts ++ placed (concat dss))) = TRADES
    | Value _ => us' = []
    end.
Proof using HC HT HU Hcap Htrades.
  intros Hplace. induction fuel as [|fuel IH]; intros n s l ts us rounds Hok Hsane Hus Hlen H0 Hn;
    cbn [Trader.forward_oms_updates]; pose proof (lazy_front UPDATES _ _ (trader_updates _ _ _ _ _ Hok)) as Hfront;
    (destruct (LazyRingBuffer.try_get_tail_ref UPDATES (Trader.update_buffer_ s)) as [slot|];
     [destruct Hfront as (u & us1 & -> & Hread & Hconsume); try (simpl in Hlen; lia)|
      subst; exists (Value tt), s, l, [], []; rewrite !app_nil_r, Z.sub_0_r, Z.add_0_r; split_and!; first [done|constructor]]).
  apply Forall_cons in Hus as [Hu Hus]. simpl in Hlen, Hn. rewrite Hread. cbn [mbind outcome_bind]. destruct Hok as [Hs Hl Ht _].
  destruct (strategy_updated n _ u l _ Hs Hl ltac:(lia) Hu) as (st' & b' & l1 & -> & Hl1 & Hs1). cbn [mbind outcome_bind].
  set (s1 := Trader.set_update_buffer _ _). assert (trader_ok (n + 1) s1 l1 ts us1) as Hok1 by by split.
  destruct (place_new_orders_ok place_fuel (n + 1) s1 l1 ts us1 (rounds 0%nat) Hok1) as (result & s2 & l2 & ds & -> & Hok2 & Hds & Hsound & Hfol & Hend);
    [done|by eapply enough_rounds_from|]. cbn [mbind outcome_bind].
  destruct result as [[]|e].
  - destruct (IH (n + 1) s2 l2 (ts ++ placed ds) us1 (λ i, rounds (Datatypes.S i)) Hok2)
      as (result & s' & l' & dss & us' & -> & Hok' & Hsuf & Hcount & Hdss & Hsounds & Hfols & Hend');
      [intros i; apply Hsane|done|lia..|]. rewrite <- (assoc_L (++)), <- placed_app in Hok', Hend'.
    exists result, s', l', (ds :: dss), us'. split_and!; [done| |by apply suffix_cons_r|simpl; lia| | |by apply each_follows_cons|done].
    + by replace (n + Z.of_nat (length (u :: us1)) - Z.of_nat (length us')) with (n + 1 + Z.of_nat (length us1) - Z.of_nat (length us')) by (simpl; lia).
    + simpl. by rewrite Hdss, Hds, (assoc_L (++)).
    + simpl. by apply Forall_app.
  - destruct Hend as (-> & Hfull & _). eexists (Unexpected _), s2, l2, [ds], us1. simpl. rewrite app_nil_r. split_and!; try done.
    + by replace (n + Z.of_nat (Datatypes.S (length us1)) - Z.of_nat (length us1)) with (n + 1) by (simpl; lia).
    + by apply suffix_cons_r.
    + by apply each_follows_cons.
Qed.

(** A new best bid and offer is handed to the strategy, and what it queues is placed. *)
Lemma quote_step_ok place_fuel n s l ts us bbo answers : enough_rounds place_fuel → trader_ok n s l ts us → answers_sane answers →
  sane_bbo bbo → strategy_accepts (Trader.strategy_ s) bbo → 0 ≤ n < 2 ^ 50 →
  ∃ result s' l' ds, Trader.quote_step CAPACITY TRADES place_fuel (Some bbo) answers s = Ok (result, s') ∧
    trader_ok (n + 1) s' l' (ts ++ placed ds) us ∧ Trader.decisions s' = Trader.decisions s ++ ds ∧ Forall sound ds ∧ follows answers ds ∧
    match result with
    | None => l' = [] ∨ silent (answers (length ds))
    | Some (Value _) => False
    | Some (Unexpected e) => e = StrategyError.TradeBufferFull ∧ Z.of_nat (length (ts ++ placed ds)) = TRADES
    end.
Proof using HC HT HU Hcap Htrades.
  intros Hplace [Hs Hl Ht Hu] Hanswers Hbbo Hcmp Hn. unfold Trader.quote_step.
  destruct (strategy_quoted _ _ bbo l _ Hs Hl Hn Hbbo Hcmp) as (st' & b' & l2 & -> & Hl2 & Hs2). cbn [mbind outcome_bind].
  destruct (place_new_orders_ok place_fuel _ (Trader.set_strategy st' b' s) l2 ts us answers
    ltac:(by split) Hanswers) as (result & s' & l' & ds & -> & Hok' & Hds & Hsound & Hfol & Hend).
  { eapply enough_rounds_from; [|done]. by split. }
  cbn [mbind outcome_bind]. destruct result as [u|e]; [exists None|exists (Some (Unexpected e))]; exists s', l', ds;
    (do 5 (split; [done|])); [exact Hend|by destruct Hend as (? & ? & _)].
Qed.
End Trader.

Section Round.
Context {T : Type} {S : StrategyOps T} (CAPACITY TRADES UPDATES : Z).
Context {HC : PowerOfTwo CAPACITY} {HT : PowerOfTwo TRADES} {HU : PowerOfTwo UPDATES} {L : StrategyLaws S CAPACITY}.

(** C11: A round of [Trader::start] gates every order, whatever strategy keeps the contract.  Let
    the risk figures be such that their sums do not overflow, the fills have no negative quantity, and the
    strategy, once the fills are forwarded, accept the snapshot (the market maker: two prices
    that add up within [int32_t], or not both quotes out).  With enough rounds for the loops the round then
    returns with nothing undefined.  Each request taken off the strategy's
    buffer is decided on the figures read at that moment, with no stop requested: it goes into the trade buffer,
    behind what that held and in order, if and only if these figures permit it - a cancel and
    an update that adds no quantity always, anything else with no halt, a window that is not full, the
    position it leads to within the limit and the profit above the floor.  The fills are
    forwarded in order, and all of them are consumed unless the trade buffer is full; with nothing
    left to forward the strategy's buffer is emptied, up to a stop; and the round ends the trader
    only with the trade buffer full of TRADES requests or, when the wait for a new
    best bid or offer was stopped. *)
Theorem trader_round_gates_orders (fuel place_fuel : nat) (n : Z) (s : Trader.t T) (l : list OutboundOrderRequest.t)
    (ts : list OrderRequest.t) (us : list OrderFillUpdate.t) (rounds : nat → nat → bool * option RiskData.t)
    (snapshot : option BestBidOffer) (answers : nat → bool * option RiskData.t) :
  CAPACITY < 2 ^ 64 → TRADES < 2 ^ 64 → trader_ok CAPACITY TRADES UPDATES n s l ts us →
  (∀ i, answers_sane (rounds i)) → answers_sane answers → Forall fill_sane us →
  (∀ bbo, snapshot = Some bbo → sane_bbo bbo ∧
     ∀ s1, Trader.forward_oms_updates CAPACITY TRADES UPDATES fuel place_fuel rounds s = Ok (Value tt, s1) →
       strategy_accepts (Trader.strategy_ s1) bbo) →
  (length us ≤ fuel)%nat → enough_rounds CAPACITY place_fuel → 0 ≤ n → n + Z.of_nat (length us) < 2 ^ 50 →
  ∃ result s' n' l' dss ds us',
    Trader.start_step CAPACITY TRADES UPDATES fuel place_fuel rounds snapshot answers s = Ok (result, s') ∧
    Trader.decisions s' = Trader.decisions s ++ concat dss ++ ds ∧ Forall sound (concat dss ++ ds) ∧
    each_follows rounds dss ∧ follows answers ds ∧
    trader_ok CAPACITY TRADES UPDATES n' s' l' (ts ++ placed (concat dss ++ ds)) us' ∧ n ≤ n' ≤ n + Z.of_nat (length us) + 1 ∧
    us' `suffix_of` us ∧ length us = (length dss + length us')%nat ∧
    match result with
    | None => us' = [] ∧ (l' = [] ∨ silent (answers (length ds)))
    | Some (Value _) => us' = [] ∧ snapshot = None
    | Some (Unexpected e) => e = StrategyError.TradeBufferFull ∧ Z.of_nat (length (ts ++ placed (concat dss ++ ds))) = TRADES
    end.
Proof.
  intros Hcap Htrades Hok Hrounds Hanswers Hus Hsnap Hfuel Hplace H0 Hn. unfold Trader.start_step.
  destruct (forward_oms_updates_ok CAPACITY TRADES UPDATES Hcap Htrades place_fuel Hplace fuel n s l ts us rounds Hok Hrounds Hus Hfuel H0 Hn)
    as (result & s1 & l1 & dss & us' & Hrun & Hok1 & Hsuf & Hcount & Hdss & Hsound & Hfol & Hend). rewrite Hrun. cbn [mbind outcome_bind].
  pose proof (suffix_length _ _ Hsuf) as Hle. destruct result as [[]|e].
  2:{ destruct Hend as [-> Hfull]. eexists (Some (Unexpected _)), s1, _, l1, dss, [], us'. rewrite !app_nil_r.
      split_and!; [done..|exact Hok1|lia|lia|done|done|done|done]. }
  subst us'. simpl in Hok1. destruct snapshot as [bbo|].
  2:{ eexists (Some (Value tt)), s1, _, l1, dss, [], []. rewrite !app_nil_r.
      split_and!; [done..|exact Hok1|simpl in *; lia|simpl in *; lia|done|done|done|done]. }
  destruct (Hsnap bbo eq_refl) as [Hbbo Hcmp].
  destruct (quote_step_ok CAPACITY TRADES UPDATES Hcap Htrades place_fuel _ s1 l1 (ts ++ placed (concat dss)) [] bbo answers Hplace Hok1 Hanswers Hbbo (Hcmp _ Hrun))
    as (result & s' & l' & ds & -> & Hok' & Hds & Hsound' & Hfol' & Hend'); [lia|]. rewrite <- (assoc_L (++)), <- placed_app in Hok', Hend'.
  exists result, s', (n + Z.of_nat (length us) - Z.of_nat 0 + 1), l', dss, ds, []. split_and!; [done| | |done|done|done|lia|lia|done|done|].
  - by rewrite Hds, Hdss, (assoc_L (++)).
  - by apply Forall_app.
  - by destruct result as [[|]|].
Qed.
End Round.

(** ** The market maker keeps the contract *)

#[export] Instance market_maker_laws (CAPACITY : Z) `{PowerOfTwo CAPACITY} (Hcap : CAPACITY < 2 ^ 64) :
  StrategyLaws (market_maker_ops CAPACITY) CAPACITY.
Proof.
  refine {|
    strategy_inv n st l := mm_ok st.2 st.1 l ∧ st.2 ≤ 1 + 2 * n ∧ Z.abs (PassiveMarketMaker.net_filled_quantity_ st.1) ≤ MAX_ORDER * n;
    strategy_pending st := PassiveMarketMaker.placed_count st.1;
    strategy_max_pending := 2;
    strategy_accepts st bbo := compares st.1 bbo;
    strategy_accepts_dec st bbo := compares_dec st.1 bbo;
  |}.
  - intros [m ids]. unfold PassiveMarketMaker.placed_count. repeat case_match; simpl; lia.
  - intros n [m ids] l (Hm & ? & ?). split_and!; [by apply mm_ok_tail|done..].
  - intros n [m ids] l (Hm & ? & ?). eapply Forall_impl; [apply (ok_requests _ _ _ Hm)|]. intros r [_ Hr].
    assert (MAX_ORDER = 225) as HM by done. unfold quantity_ok, in_u. destruct (OrderRequest.type _); [lia|lia|done|].
    destruct Hr as (? & ? & ?). split; [lia|]. split; [lia|done].
  - intros n [m ids] o l reason b (Hm & ? & ?) Hl. simpl in *.
    pose proof (ok_requests _ _ _ Hm) as Hreq. apply Forall_cons in Hreq as [Hreq _].
    destruct (notify_invalid_ok CAPACITY Hcap ids o reason m b l Hl (mm_ok_tail _ _ _ Hm) Hreq) as (m' & b' & l' & -> & Hl' & Hm' & Hn' & Hp').
    cbn [mbind outcome_bind]. exists (m', ids), b', l'. simpl. split_and!; first [done|lia].
  - intros n [m ids] u l b (Hm & ? & ?) Hl Hn Hu. simpl in *. assert (MAX_ORDER = 225) as HM by done.
    destruct (update_ok CAPACITY Hcap ids u m b l Hl Hm Hu) as (m' & b' & l' & -> & Hl' & Hm' & Hn'); [lia|].
    cbn [mbind outcome_bind]. exists (m', ids), b', l'. simpl. split_and!; first [done|lia].
  - intros n [m ids] bbo l b (Hm & ? & ?) Hl Hn Hs Hc. simpl in *. assert (MAX_ORDER = 225) as HM by done.
    destruct (get_orders_ok CAPACITY Hcap ids bbo m b l Hl Hm) as (m' & i' & b' & l' & -> & Hl' & Hm' & Hi' & Hn'); [lia|done..|].
    cbn [mbind outcome_bind]. exists (m', i'), b', l'. simpl. split_and!; first [done|lia].
Defined.

(** ** A round of the configured trader *)

Definition config_ops : StrategyOps (PassiveMarketMaker.t * Z) := market_maker_ops Config.STRATEGY_ORDER_BUFFER_SIZE.
#[export] Instance config_laws : StrategyLaws config_ops Config.STRATEGY_ORDER_BUFFER_SIZE.
Proof. apply market_maker_laws; [apply _|reflexivity]. Defined.

Definition test_trader : Trader.t (PassiveMarketMaker.t * Z) := {|
  Trader.order_buffer_ := SingleThreadRingBuffer.init 32 (PassiveMarketMaker.cancel_request PassiveMarketMaker.no_order);
  Trader.trade_buffer_ := LazyRingBuffer.init 4 (OutboundOrderRequest.request (PassiveMarketMaker.cancel_request PassiveMarketMaker.no_order));
  Trader.update_buffer_ := LazyRingBuffer.init 4 {| OrderFillUpdate.order_id := 0; OrderFillUpdate.filled_quantity := 0 |};
  Trader.strategy_ := (PassiveMarketMaker.init, ClientOrderIDGenerator.init);
  Trader.decisions := [];
|}.

(** A limit of 1000; at 950 there is no room for a bid of 100. *)
Definition test_risk (net : Z) : RiskData.t := {|
  RiskData.net_position := net; RiskData.realized_pnl := 0; RiskData.unrealized_pnl := 0; RiskData.open_order_count := 0;
  RiskData.orders_sent_in_window := 0; RiskData.max_position := 1000; RiskData.max_loss_allowed := -500;
  RiskData.max_orders_allowed := 10; RiskData.max_orders_per_window := 10; RiskData.is_halted := false |}.
Definition test_answers (i : nat) : bool * option RiskData.t := (false, Some (test_risk (if i is 0%nat then 950 else 900))).

(** The bid would take the position to 1050 and is turned down; the offer goes out. *)
Example test_round :
  (λ r, (r.1, length (filter (λ o, OrderRequest.type o = OrderRequest.Sell) (LazyRingBuffer.buffer_ (Trader.trade_buffer_ r.2))),
         LazyRingBuffer.head_ (Trader.trade_buffer_ r.2))) <$>
    Trader.start_step (S := config_ops) 32 4 4 4 40 (λ _, test_answers) (Some (make_bbo 350 450)) test_answers test_trader = Ok (None, 1%nat, 1).
Proof. vm_compute. reflexivity. Qed.

Lemma trader_round_gates_orders_witness :
  ∃ result s' n' l' dss ds us',
    Trader.start_step (S := config_ops) 32 4 4 4 40 (λ _, test_answers) (Some (make_bbo 350 450)) test_answers test_trader = Ok (result, s') ∧
    Trader.decisions s' = concat dss ++ ds ∧ Forall sound (concat dss ++ ds) ∧ follows test_answers ds ∧
    trader_ok (S := config_ops) 32 4 4 n' s' l' (placed (concat dss ++ ds)) us' ∧
    Trader.verdict <$> Trader.decisions s' = [OrderStatus.TooMuchExposure; OrderStatus.Good].
Proof.
  assert (PowerOfTwo 4) as H4 by (split; reflexivity).
  assert (answers_sane test_answers) as Hsane.
  { intros i r Hr. injection Hr as <-. destruct i; repeat split. }
  destruct (trader_round_gates_orders (S := config_ops) Config.STRATEGY_ORDER_BUFFER_SIZE 4 4 4 40 0 test_trader [] [] []
    (λ _, test_answers) (Some (make_bbo 350 450)) test_answers) as (result & s' & n' & l' & dss & ds & us' & Hrun & Hds & Hsound & _ & Hfol & Hok & _).
  - reflexivity.
  - reflexivity.
  - split; [split; [apply init_ok|split; discriminate]|apply (ring_repr_init Config.STRATEGY_ORDER_BUFFER_SIZE)|apply (ring_repr_init 4)|apply (ring_repr_init 4)].
  - intros _. exact Hsane.
  - exact Hsane.
  - constructor.
  - intros bbo Hbbo. injection Hbbo as <-. split; [split; right; split; discriminate|intros s1 _ _; split; [discriminate|reflexivity]].
  - auto with arith.
  - reflexivity.
  - discriminate.
  - reflexivity.
  - exists result, s', n', l', dss, ds, us'. split; [exact Hrun|]. split; [exact Hds|]. split; [exact Hsound|]. split; [exact Hfol|].
    split; [exact Hok|]. vm_compute in Hrun. injection Hrun as _ <-. reflexivity.
Defined.
