(* ===== verification/Pipeline.v ===== *)
(** * From the exchange's book to the strategy's

    The components composed: the matching engine's log, numbered and encoded by
    the exchange, carried by the feed, executed by the strategy's engine. *)

From S2P Require Import Prelude Interfaces Types HashMap OrderPool OrderBook BookSpec BookRep BookRefine BookTrace HashedBook Clob Matching ClobProof ClobProperties Bytes Codec CodecProof Ring RingBuffers Network Handler HandlerProof Feed FeedProof Exchange ExchangeProof Strategy Trader.

(** ** The strategy's engine on a list of events *)

Section Engine.
Context {PL OM : Type} {pl_ops : KeyedStore PL Z BookState.PriceLevel} {om_ops : KeyedStore OM Z Z}.

(** The book after the events, and the snapshots published on the way. *)
Fixpoint engine_run (es : list MarketEvent.t) (state : BookState.t PL OM) (bbo : list BookState.OrderSnapshot) :
    outcome (BookState.t PL OM * list BookState.OrderSnapshot) :=
  match es with
  | [] => Ok (state, bbo)
  | e :: es => '(state, bbo) ← OrderBookEngine.apply e state bbo; engine_run es state bbo
  end.

(** The snapshot a strategy reads: the last one published, if any. *)
Definition shown (initial : BookState.OrderSnapshot) (bbo : list BookState.OrderSnapshot) : BookState.OrderSnapshot :=
  default initial (last bbo).

Context (pl_cap om_cap : Z) (pl_repr : PL → gmap Z BookState.PriceLevel → Prop) (om_repr : OM → gmap Z Z → Prop).
Context {pl_laws : KeyedStoreLaws PL Z BookState.PriceLevel pl_cap pl_repr}.
Context {om_laws : KeyedStoreLaws OM Z Z om_cap om_repr}.
Context (CAPACITY : Z) (Hom : CAPACITY ≤ om_cap).

Lemma apply_ok e s bbo os os' u initial : Rep pl_repr om_repr CAPACITY s os → next_orders pl_cap CAPACITY e os = Some os' →
  report e os = Some u → shown initial bbo = BookState.snapshot s →
  ∃ s' bbo', OrderBookEngine.apply e s bbo = Ok (s', bbo') ∧ Rep pl_repr om_repr CAPACITY s' os' ∧
    shown initial bbo' = BookState.snapshot s'.
Proof using pl_laws om_laws Hom.
  intros HR Hn Hu Hshown. destruct (execute_Rep pl_cap CAPACITY om_cap pl_repr om_repr s os e os' u Hom HR Hn Hu) as (s' & Hexec & HR').
  pose proof (execute_describes s e s' u Hexec) as Hdesc. unfold OrderBookEngine.apply. rewrite Hexec. cbn [mbind outcome_bind].
  eexists s', _. split; [done|]. split; [done|]. unfold shown in *.
  destruct u; [|by rewrite last_snoc..]. rewrite Hshown. symmetry. exact Hdesc.
Qed.

Lemma engine_run_ok es s bbo os os' us initial : Rep pl_repr om_repr CAPACITY s os → spec_run pl_cap CAPACITY es os = Some (os', us) →
  shown initial bbo = BookState.snapshot s →
  ∃ s' bbo', engine_run es s bbo = Ok (s', bbo') ∧ Rep pl_repr om_repr CAPACITY s' os' ∧ shown initial bbo' = BookState.snapshot s'.
Proof using pl_laws om_laws Hom.
  revert s bbo os us. induction es as [|e es IH]; intros s bbo os us HR; simpl.
  { intros [= <- _] Hshown. by exists s, bbo. }
  destruct (next_orders pl_cap CAPACITY e os) as [os1|] eqn:Hn; simpl; [|done].
  destruct (report e os) as [u|] eqn:Hu; simpl; [|done].
  destruct (spec_run pl_cap CAPACITY es os1) as [[os2 us2]|] eqn:Hr; simpl; [|done]. intros [= -> _] Hshown.
  destruct (apply_ok e s bbo os os1 u initial HR Hn Hu Hshown) as (s1 & bbo1 & -> & HR1 & Hshown1). cbn [mbind outcome_bind].
  by apply (IH s1 bbo1 os1 us2).
Qed.
End Engine.

(** ** The events that are delivered *)

Lemma spec_run_prefix pl_cap CAPACITY es1 es2 os os2 us : spec_run pl_cap CAPACITY (es1 ++ es2) os = Some (os2, us) →
  ∃ os1 us1, spec_run pl_cap CAPACITY es1 os = Some (os1, us1).
Proof.
  revert os us. induction es1 as [|e es1 IH]; intros os us; simpl; [by eauto|].
  destruct (next_orders pl_cap CAPACITY e os) as [os1|]; simpl; [|done]. destruct (report e os) as [u|]; simpl; [|done].
  destruct (spec_run pl_cap CAPACITY (es1 ++ es2) os1) as [[os' us']|] eqn:Hr; simpl; [|done]. intros [= -> _].
  destruct (IH os1 us' Hr) as (os3 & us3 & ->). simpl. eauto.
Qed.

Lemma delivered_events e0 es (n : nat) : (n ≤ length es)%nat →
  omap RawEvent.to_event ((λ k, RawEvent.of_event (event_at e0 es k)) <$> seqZ Config.FIRST_SEQUENCE_ID (Z.of_nat n)) = take n es.
Proof.
  induction n as [|n IH]; intros Hn; [done|]. rewrite seqZ_S, fmap_app, omap_app, IH by lia. simpl. rewrite raw_event_inverse.
  destruct (lookup_lt_is_Some_2 es n) as [e He]; [lia|]. rewrite (take_S_r es n e He). do 2 f_equal.
  unfold event_at. replace (Z.to_nat _) with n by lia. by rewrite He.
Qed.

Lemma event_at_wf e0 es k : MarketEvent.wf e0 → Forall MarketEvent.wf es → MarketEvent.wf (event_at e0 es k).
Proof.
  intros H0 Hes. unfold event_at. destruct (es !! _) as [e|] eqn:He; [|done]. by eapply Forall_lookup_1.
Qed.

Section Pipeline.
Context (hash_price hash_id : Z → Z) (LEVELS ORDERS : Z).
Context {HL : PowerOfTwo (LEVELS * 2)} {HO : PowerOfTwo (ORDERS * 2)}.
#[local] Instance pipeline_levels : KeyedStore (ClosedHashMap.t Z BookState.PriceLevel) Z BookState.PriceLevel :=
  level_store hash_price LEVELS.
#[local] Instance pipeline_orders : KeyedStore (ClosedHashMap.t Z Z) Z Z := order_store hash_id ORDERS.
#[local] Existing Instance level_store_laws.
#[local] Existing Instance order_store_laws.

(** The strategy's book is the exchange's.  Let the exchange serve any
    accepted requests, its events be numbered, encoded and broadcast in order, and
    the network lose, duplicate and reorder the datagrams while the retransmit server answers
    requests and all threads take rounds in any order.  Then the strategy's engine
    executes what was delivered without undefined behaviour; at any moment its
    book holds exactly the orders that rested at the exchange after the first [n]
    events, the snapshot it shows is the best prices of these orders; and once
    the last event's datagram has arrived and no thread has anything left to do, its
    book and its snapshot are those of the exchange. *)
Theorem pipeline_replicates_book {W} `{SocketLaws W} (tok : option nat) (ds : list nat) (rs : list OrderRequest.t)
    (results : list (expected Z ExchangeError.t)) (c : exchange) (h h' : endian) (fresh m : EncodedMessage.t)
    (fd UDP RETRANSMIT REORDER MARKET : Z) `{PowerOfTwo UDP, PowerOfTwo RETRANSMIT, PowerOfTwo REORDER, PowerOfTwo MARKET}
    (e0 : MarketEvent.t) (raw0 : RawEvent.t) (ops : list (Feed.op W)) :
  ORDERS < 2 ^ 32 → accepts_all hash_price hash_id LEVELS ORDERS (exchange_init LEVELS ORDERS tok ds) rs = true →
  exchange_submit_all hash_price hash_id LEVELS ORDERS (exchange_init LEVELS ORDERS tok ds) rs = Ok (results, c) →
  let events := event_at e0 (Clob.published c) in
  let LAST := Z.of_nat (length (Clob.published c)) in
  UDP < 2 ^ 64 ∧ RETRANSMIT < 2 ^ 64 ∧ REORDER ≤ 2 ^ 63 ∧ MARKET < 2 ^ 64 → LAST + REORDER + 2 ≤ 2 ^ 64 → MarketEvent.wf e0 →
  is_buffer (EncodedMessage.buffer fresh) → is_buffer (EncodedMessage.buffer m) → Forall (Feed.answers events fd LAST) ops →
  Forall (λ k, Config.FIRST_SEQUENCE_ID ≤ k ≤ LAST) (Feed.arrived ops) →
  ∃ s n state bbo os us, Feed.run h h' events fresh fd UDP RETRANSMIT REORDER MARKET ops (Feed.init UDP RETRANSMIT REORDER MARKET m raw0) = Ok s ∧
    engine_run (omap RawEvent.to_event (Feed.delivered s)) (empty_book LEVELS ORDERS) [] = Ok (state, bbo) ∧
    book_spec LEVELS ORDERS (take n (Clob.published c)) = Some (os, us) ∧
    (∀ id, BookState.order_exists state id = bool_decide (is_Some (Book.find id os))) ∧
    BookState.snapshot state = Book.bbo_of os ∧ shown (BookState.snapshot (empty_book LEVELS ORDERS)) bbo = Book.bbo_of os ∧
    (Feed.stopped s = None → Feed.quiet REORDER s → LAST ∈ Feed.arrived ops →
     shown (BookState.snapshot (empty_book LEVELS ORDERS)) bbo = Clob.snapshot c ∧
     ∀ id, BookState.order_exists state id = Clob.order_exists c id).
Proof.
  intros Hcap Hacc Hrun events LAST Hsizes Hlast He0 Hfresh Hm Hans Harr.
  destruct (submit_all_inv hash_price hash_id LEVELS ORDERS rs _ [] (exchange_inv_init hash_price hash_id LEVELS ORDERS tok ds Hcap) Hacc)
    as (results' & c' & os_c & Hrun' & [Hinv [us_c Hspec]] & _).
  rewrite Hrun in Hrun'. injection Hrun' as <- <-.
  assert (∀ k, MarketEvent.wf (events k)) as Hev by (intros k; apply event_at_wf; [done|apply Hinv]).
  destruct (feed_run h h' events fresh fd UDP RETRANSMIT REORDER MARKET Hsizes LAST ltac:(lia) Hev Hfresh m raw0 ops Hm Hans Harr)
    as (s & n & Hfeed & Hn & Hdelivered & Hcomplete).
  destruct (Z_of_nat_complete n (proj1 Hn)) as [k ->].
  assert (omap RawEvent.to_event (Feed.delivered s) = take k (Clob.published c)) as Htake.
  { rewrite Hdelivered. apply delivered_events. lia. }
  destruct (spec_run_prefix (LEVELS * 2) ORDERS (take k (Clob.published c)) (drop k (Clob.published c)) [] os_c us_c) as (os & us & Hos);
    [by rewrite take_drop|].
  destruct (engine_run_ok (LEVELS * 2) (ORDERS * 2) _ _ ORDERS (orders_cap _) (take k (Clob.published c)) (empty_book LEVELS ORDERS) [] [] os us
    (BookState.snapshot (empty_book LEVELS ORDERS)) (empty_book_Rep hash_price hash_id LEVELS ORDERS Hcap) Hos eq_refl)
    as (state & bbo & Hengine & HR & Hshown).
  exists s, k, state, bbo, os, us. rewrite Htake. split; [done|]. split; [done|]. split; [done|].
  split; [intros id; apply (order_exists_spec _ _ _ _ ORDERS state os id (proj1 HR))|]. split; [apply HR|]. split; [by rewrite Hshown; apply HR|].
  intros Hstop Hquiet Hin. specialize (Hcomplete Hstop Hquiet). rewrite Forall_forall in Hcomplete. specialize (Hcomplete LAST Hin).
  change Config.FIRST_SEQUENCE_ID with 1 in Hcomplete. rewrite take_ge in Hos by lia. rewrite Hspec in Hos. injection Hos as <- <-.
  pose proof (inv_Rep _ _ _ _ _ Hinv) as HRc. split.
  - rewrite Hshown. transitivity (Book.bbo_of os_c); [apply HR|symmetry; apply HRc].
  - intros id. unfold Clob.order_exists. rewrite (order_exists_spec _ _ _ _ ORDERS state os_c id (proj1 HR)).
    symmetry. apply (order_exists_spec _ _ _ _ ORDERS (Clob.state c) os_c id (proj1 HRc)).
Qed.
End Pipeline.

(** ** A run *)

#[local] Instance pot_two : PowerOfTwo (2 * 2).
Proof. split; reflexivity. Defined.
#[local] Instance pot_four : PowerOfTwo (4 * 2).
Proof. split; reflexivity. Defined.

(** The exchange serves the requests of [ClobProperties]; its five datagrams
    arrive out of order, the second one twice. *)
Definition pipeline_ops : list (Feed.op Scripted.t) :=
  [Feed.Datagram 2; Feed.Datagram 1; Feed.Datagram 2; Feed.Handle; Feed.Handle; Feed.Handle; Feed.Datagram 3; Feed.Datagram 5; Feed.Datagram 4;
   Feed.Handle; Feed.Handle; Feed.Handle] ++ concat (replicate 6 [Feed.Publish; Feed.Publish; Feed.Deliver]).
Definition pipeline_exchange : outcome (list (expected Z ExchangeError.t) * exchange) :=
  exchange_submit_all id id 2 4 (exchange_init 2 4 None []) example_requests.

(** All five are delivered, and the strategy shows the exchange's best prices. *)
Example pipeline_result : ('(_, c) ← pipeline_exchange;
  s ← Feed.run LittleEndian BigEndian (event_at (sample_event 0) (Clob.published c)) test_message 5 4 4 8 4 pipeline_ops
    (Feed.init 4 4 8 4 test_message (RawEvent.of_event (sample_event 0)));
  '(_, bbo) ← engine_run (pl_ops := level_store id 2) (om_ops := order_store id 4) (omap RawEvent.to_event (Feed.delivered s)) (empty_book 2 4) [];
  Ok (length (Feed.delivered s), bool_decide (last bbo = Some (Clob.snapshot c)))) = Ok (5%nat, true).
Proof. vm_compute. reflexivity. Qed.

Lemma pipeline_replicates_book_witness : ∃ results c, pipeline_exchange = Ok (results, c) ∧
  ∃ s n state bbo os us, Feed.run LittleEndian BigEndian (event_at (sample_event 0) (Clob.published c)) test_message 5 4 4 8 4 pipeline_ops
      (Feed.init 4 4 8 4 test_message (RawEvent.of_event (sample_event 0))) = Ok s ∧
    engine_run (pl_ops := level_store id 2) (om_ops := order_store id 4) (omap RawEvent.to_event (Feed.delivered s)) (empty_book 2 4) [] = Ok (state, bbo) ∧
    book_spec 2 4 (take n (Clob.published c)) = Some (os, us) ∧ BookState.snapshot state = Book.bbo_of os.
Proof.
  assert (PowerOfTwo 4) as H4 by (split; reflexivity). assert (PowerOfTwo 8) as H8 by (split; reflexivity).
  destruct pipeline_exchange as [[results c]| |] eqn:Hrun; [|vm_compute in Hrun; discriminate Hrun..].
  exists results, c. split; [reflexivity|].
  assert (Z.of_nat (length (Clob.published c)) = 5) as Hlen by (vm_compute in Hrun; injection Hrun as _ <-; reflexivity).
  destruct (pipeline_replicates_book id id 2 4 None [] example_requests results c LittleEndian BigEndian test_message test_message 5 4 4 8 4
    (sample_event 0) (RawEvent.of_event (sample_event 0)) pipeline_ops) as (s & n & state & bbo & os & us & Hfeed & Hengine & Hspec & _ & Hsnap & _).
  - reflexivity.
  - vm_compute. reflexivity.
  - exact Hrun.
  - split; [reflexivity|split; [reflexivity|split; [discriminate|reflexivity]]].
  - rewrite Hlen. discriminate.
  - apply (bool_decide_eq_true_1 (MarketEvent.wf (sample_event 0))). reflexivity.
  - reflexivity.
  - reflexivity.
  - apply Forall_forall. intros o Ho. apply list_elem_of_In in Ho.
    pose proof (proj1 (List.forallb_forall (λ o, match o with Feed.Serve _ => false | _ => true end) pipeline_ops) eq_refl o Ho) as Hserve.
    destruct o; first [exact I|discriminate Hserve].
  - rewrite Hlen. repeat constructor; discriminate.
  - exists s, n, state, bbo, os, us. split; [exact Hfeed|]. split; [exact Hengine|]. split; [exact Hspec|exact Hsnap].
Defined.
