(* ===== verification/System.v ===== *)
(** * The whole path, from the request generator to the strategy's book

    Every stage composed: generator and matching engine, the exchange's main loop,
    the network, the retransmit server's event loop, the market data handler, the
    strategy's order book engine. *)

From S2P Require Import Prelude Interfaces Types HashMap OrderPool OrderBook BookSpec BookRep BookRefine BookTrace HashedBook Clob Matching ClobProof ClobProperties RandomContainer Generator GeneratorProof Bytes Codec CodecProof Ring RingBuffers CircularCache Network Connection RetransmitServer ServerWorld ServerEvents ServerLoop Handler HandlerProof Feed FeedProof Exchange ExchangeProof Retransmission Strategy Trader Pipeline.

Section System.
Context (hash_price hash_id : Z → Z) (entropy : nat → Z).
Abbreviation LEVELS := Config.MAX_PRICE_LEVELS.
Abbreviation ORDERS := Config.MAX_CONCURRENT_ORDERS.
#[local] Instance system_levels : KeyedStore (ClosedHashMap.t Z BookState.PriceLevel) Z BookState.PriceLevel :=
  level_store hash_price LEVELS.
#[local] Instance system_orders : KeyedStore (ClosedHashMap.t Z Z) Z Z := order_store hash_id ORDERS.
#[local] Existing Instance level_store_laws.
#[local] Existing Instance order_store_laws.

(** The strategy's book after the first [k] of the events that the exchange's
    book [c] published. *)
Definition replica (c : exchange) (k : nat) (events : list MarketEvent.t) : Prop :=
  ∃ state bbo os us, engine_run events (empty_book LEVELS ORDERS) [] = Ok (state, bbo) ∧
    book_spec LEVELS ORDERS (take k (Clob.published c)) = Some (os, us) ∧
    (∀ id, BookState.order_exists state id = bool_decide (is_Some (Book.find id os))) ∧
    BookState.snapshot state = Book.bbo_of os ∧ shown (BookState.snapshot (empty_book LEVELS ORDERS)) bbo = Book.bbo_of os ∧
    ((length (Clob.published c) ≤ k)%nat →
     shown (BookState.snapshot (empty_book LEVELS ORDERS)) bbo = Clob.snapshot c ∧
     ∀ id, BookState.order_exists state id = Clob.order_exists c id).

Lemma replica_of_published (c : exchange) os k : exchange_inv hash_price hash_id LEVELS ORDERS c os →
  replica c k (take k (Clob.published c)).
Proof.
  intros [Hinv [us_c Hspec]].
  destruct (spec_run_prefix (LEVELS * 2) ORDERS (take k (Clob.published c)) (drop k (Clob.published c)) [] os us_c) as (os_k & us & Hos);
    [by rewrite take_drop|].
  destruct (engine_run_ok (LEVELS * 2) (ORDERS * 2) _ _ ORDERS (orders_cap _) (take k (Clob.published c)) (empty_book LEVELS ORDERS) [] [] os_k us
    (BookState.snapshot (empty_book LEVELS ORDERS)) (empty_book_Rep hash_price hash_id LEVELS ORDERS eq_refl) Hos eq_refl)
    as (state & bbo & Hengine & HR & Hshown).
  exists state, bbo, os_k, us. split; [done|]. split; [done|].
  split; [intros id; apply (order_exists_spec _ _ _ _ ORDERS state os_k id (proj1 HR))|]. split; [apply HR|]. split; [by rewrite Hshown; apply HR|].
  intros Hk. rewrite take_ge in Hos by done. rewrite Hspec in Hos. injection Hos as <- <-.
  pose proof (inv_Rep _ _ _ _ _ Hinv) as HRc. split.
  - rewrite Hshown. transitivity (Book.bbo_of os); [apply HR|symmetry; apply HRc].
  - intros id. unfold Clob.order_exists. rewrite (order_exists_spec _ _ _ _ ORDERS state os id (proj1 HR)).
    symmetry. apply (order_exists_spec _ _ _ _ ORDERS (Clob.state c) os id (proj1 HRc)).
Qed.

(** C5: The strategy's book is the exchange's, over the whole path.  Let the
    generator post whatever its random numbers make it post until it is stopped,
    and the matching engine publish what it does, waiting for room in the event
    buffer; let the main loop number, cache and broadcast, with sends that fail
    at any time; let the network lose, duplicate and reorder the datagrams that
    left; let the threads of the market data handler take rounds in any order, and
    let each of its retransmission requests be met by what [served] allows: what
    a run of the retransmit server over the exchange's cache has sent, cut
    anywhere, or some of the packets and an error.  Then every one of these runs
    is defined, and at any moment the strategy's engine has executed the first
    [k] events of the exchange's book: its book holds exactly the orders that
    rested there at that point, the snapshot it shows are their best prices; and
    once the last event's datagram has arrived, no thread of the handler has
    stopped with an error and none has anything left to do, book and snapshot are the exchange's.
    Conditions: capacities are powers of two below the stated bounds, the exchange
    takes fewer than 2^32 - 1 steps, [kevent] reports no descriptor twice in one
    batch (the server's loop would not survive it), the server reads the cache
    after the first event (before it, it answers packet 1 with an item that was
    never put), it is still running, and an error does not come in the middle of a packet. *)
Theorem system_replicates_book {V W S} `{MulticastLaws V} `{SocketLaws W} `{SocketLaws S} {LI : Listener S} {LL : ListenerLaws S}
    (polls fuel : nat) (delays : list nat) (h h' : endian) (BUFFER CACHE fd : Z) (buffer : list Z)
    (client_fd UDP RETRANSMIT REORDER MARKET : Z)
    `{PowerOfTwo BUFFER, PowerOfTwo CACHE, PowerOfTwo UDP, PowerOfTwo RETRANSMIT, PowerOfTwo REORDER, PowerOfTwo MARKET}
    (e0 : MarketEvent.t) (ops : list ExchangeSimulator.op) (m0 fresh m : EncodedMessage.t) (raw0 : RawEvent.t) (w0 : V) :
  Z.of_nat polls ≤ 2 ^ 64 - 3 → (2 * polls + 1 ≤ fuel)%nat →
  BUFFER < 2 ^ 64 ∧ CACHE < 2 ^ 32 → UDP < 2 ^ 64 ∧ RETRANSMIT < 2 ^ 64 ∧ REORDER ≤ 2 ^ 63 ∧ MARKET < 2 ^ 64 →
  is_buffer (EncodedMessage.buffer m0) → is_buffer (EncodedMessage.buffer fresh) → is_buffer (EncodedMessage.buffer m) →
  is_buffer buffer → ServerLoop.reports_once (W := S) → Forall ExchangeProof.op_ok ops → Z.of_nat (length ops) < 2 ^ 32 - 1 →
  MarketEvent.wf e0 →
  ∃ g, MarketRequestGenerator.start ORDERS entropy fuel
      (MarketRequestGenerator.init (exchange_init LEVELS ORDERS (Some polls) delays)) = Ok g ∧
    let c := MarketRequestGenerator.clob_ g in
    ∃ results rest s w' es n ks,
      ExchangeSimulator.run h BUFFER CACHE fd ops (Clob.published c) (ExchangeSimulator.init BUFFER CACHE e0 m0) w0 =
        Ok (results, rest, s, w') ∧
      Clob.published c = es ++ rest ∧ datagrams w' = datagrams w0 ++ (packet (event_at e0 es) <$> ks) ∧
      ks `sublist_of` seqZ Config.FIRST_SEQUENCE_ID (Z.of_nat n) ∧ (n ≤ length es)%nat ∧
      ∀ feed_ops : list (Feed.op W),
        Forall (λ k, k ∈ ks) (Feed.arrived feed_ops) →
        Forall (λ o, match o with
          | Feed.Serve answer => served (S := S) h BUFFER CACHE fd buffer e0 ops (Clob.published c) m0 w0 h' client_fd (Z.of_nat n) answer
          | _ => True end) feed_ops →
        ∃ f k, Feed.run h' h (event_at e0 es) fresh client_fd UDP RETRANSMIT REORDER MARKET feed_ops
            (Feed.init UDP RETRANSMIT REORDER MARKET m raw0) = Ok f ∧
          replica c k (omap RawEvent.to_event (Feed.delivered f)) ∧
          (Feed.stopped f = None → Feed.quiet REORDER f → Z.of_nat (length (Clob.published c)) ∈ Feed.arrived feed_ops →
           k = length (Clob.published c)).
Proof.
  intros Hpolls Hfuel Hring Hsizes Hm0 Hfresh Hm Hbuf Honce Hops Hlen He0.
  destruct (session_tracks hash_price hash_id entropy polls delays fuel Hpolls Hfuel) as (g & os & ids & Hstart & Htracks).
  exists g. split; [exact Hstart|]. intros c. pose proof (tr_exchange _ _ _ _ _ _ Htracks) as Hinv. fold c in Hinv.
  destruct (exchange_feed (V := V) (W := W) (S := S) h h' BUFFER CACHE fd buffer client_fd UDP RETRANSMIT REORDER MARKET e0 ops (Clob.published c) m0 fresh m raw0 w0
    Hring Hsizes Hm0 Hfresh Hm Hbuf Honce Hops Hlen He0 (inv_published _ _ _ _ _ (proj1 Hinv)))
    as (results & rest & s & w' & es & n & ks & Hrun & Hes & Hn & Hdata & Hks & Hfeed).
  exists results, rest, s, w', es, n, ks. do 5 (split; [done|]). intros feed_ops Harrived Hserved.
  destruct (Hfeed feed_ops Harrived Hserved) as (f & k & Hf & Hk & Hdelivered & Hcomplete).
  exists f, k. split; [done|].
  assert (omap RawEvent.to_event (Feed.delivered f) = take k (Clob.published c)) as ->.
  { rewrite Hdelivered, Hes, take_app_le by lia. clear. induction (take k es) as [|e l IH]; [done|].
    cbn [fmap list_fmap omap list_omap]. rewrite raw_event_inverse. by rewrite <- IH at 2. }
  split; [by apply (replica_of_published c os)|]. intros Hstop Hquiet Hlast. specialize (Hcomplete Hstop Hquiet).
  rewrite Forall_forall in Hcomplete. specialize (Hcomplete _ Hlast). unfold Config.FIRST_SEQUENCE_ID in Hcomplete.
  assert (length es ≤ length (Clob.published c))%nat by (rewrite Hes, length_app; lia). lia.
Qed.
End System.

(** ** A run *)

(** The twenty rounds of a generator publish four events.  The network loses every
    other datagram, so that the second and the fourth arrive; for the first and
    the third the handler asks the server, in turn, on one connection. *)
Definition session_events : list MarketEvent.t :=
  (λ e : Z * Z * Z, {| MarketEvent.order := {| Order.order_id := e.1.1; Order.price := e.1.2; Order.quantity := e.2; Order.side := Side.Buy |};
                       MarketEvent.type := MarketEvent.Add |}) <$> [(1, 350, 16); (2, 345, 90); (3, 356, 73); (4, 656, 348)].
Abbreviation system_generator :=
  (MarketRequestGenerator.start Config.MAX_CONCURRENT_ORDERS (pl_ops := level_store id Config.MAX_PRICE_LEVELS)
    (om_ops := order_store id Config.MAX_CONCURRENT_ORDERS) test_entropy 41
    (MarketRequestGenerator.init (exchange_init Config.MAX_PRICE_LEVELS Config.MAX_CONCURRENT_ORDERS (Some 20%nat) [1; 0; 2]%nat))).

Lemma system_generator_events : (λ g, Clob.published (MarketRequestGenerator.clob_ g)) <$> system_generator = Ok session_events.
Proof. lazy. reflexivity. Qed.

Definition system_ops : list ExchangeSimulator.op :=
  concat (replicate 4 [ExchangeSimulator.Publish; ExchangeSimulator.Round (replicate 42 7)]).
Definition system_network : flaky := ([], 1%nat).
Definition system_cache (i : nat) : Z → RetransmitServer.answer :=
  cache_after BigEndian 4 4 0 system_ops session_events (ExchangeSimulator.init 4 4 (sample_event 0) test_message) system_network i.
Definition system_caches : list (nat → Z → RetransmitServer.answer) := (λ i _, system_cache i) <$> [3; 4; 5; 5; 8]%nat.
Definition first_request : RetransmitRequest.t := {| RetransmitRequest.first_packet := 1; RetransmitRequest.last_packet := 2 |}.
Definition second_request : RetransmitRequest.t := {| RetransmitRequest.first_packet := 3; RetransmitRequest.last_packet := 4 |}.
Definition system_world : Playback.t :=
  {| Playback.log := ∅; Playback.input := ∅; Playback.output := ∅; Playback.limits := [7; 0; 9; 10; 0; 18]%nat;
     Playback.queue := {[3]}; Playback.pending := [];
     Playback.script := [lossy_reports [(3, false)] [] [[]];
                         lossy_reports [(4, false)] [(4, RetransmitRequest.serialize LittleEndian first_request)] [];
                         lossy_reports [(4, false)] [] []; lossy_reports [(4, false)] [] [];
                         lossy_reports [(4, false)] [(4, RetransmitRequest.serialize LittleEndian second_request)] []] |}.
Definition system_server (turns fuel : nat) : outcome (option (expected unit ExchangeError.t) * RetransmitServer.t * Playback.t) :=
  RetransmitServer.turns BigEndian (replicate 42 0) fuel (take turns system_caches) lossy_server system_world.
Definition system_sent (turns : nat) : list Z := match system_server turns 2 with Ok (_, _, w) => outgoing w 4 | _ => [] end.

(** The handler's connection. *)
Definition system_answer (request : RetransmitRequest.t) : Scripted.t :=
  {| Scripted.input := {[5 := if RetransmitRequest.last_packet request =? 2 then system_sent 4
       else if (RetransmitRequest.first_packet request =? 3) && (RetransmitRequest.last_packet request =? 4) then drop 28 (system_sent 5) else []]};
     Scripted.output := ∅; Scripted.limits := [16; 3; 7]%nat |}.
Definition system_feed : list (Feed.op Scripted.t) :=
  [Feed.Datagram 2; Feed.Handle; Feed.Serve system_answer; Feed.Datagram 4; Feed.Handle; Feed.Publish; Feed.Publish; Feed.Serve system_answer]
  ++ concat (replicate 4 [Feed.Publish; Feed.Publish; Feed.Deliver]).

Lemma system_started : ServerLoop.started lossy_server system_world.
Proof.
  split; [by split|]. split; [reflexivity|]. split; [|reflexivity]. apply Forall_replicate, ServerLoop.default_closed. reflexivity.
Qed.

Lemma system_caches_while_running :
  Forall (cached_while_running (V := flaky) BigEndian 4 4 0 (sample_event 0) system_ops session_events test_message system_network) system_caches.
Proof.
  repeat (apply Forall_cons_2; [intros ? ?; left; eexists; split; [|reflexivity]; vm_compute; reflexivity|]). apply Forall_nil_2.
Qed.

(** After four turns the first request has been answered, after five both. *)
Lemma system_server_run turns : turns = 4%nat ∨ turns = 5%nat → ∃ s' ws' client,
  (∀ fuel, (2 ≤ fuel)%nat → system_server turns fuel = Ok (None, s', ws')) ∧
  RetransmitServer.connection_buffers s' !! 4%nat = Some client ∧ Connection.socket_fd_ (RetransmitServer.connection client) = 4 ∧
  arrived ws' 4 = concat (RetransmitRequest.serialize LittleEndian <$> take (turns - 3) [first_request; second_request]) ∧
  outgoing ws' 4 = system_sent turns.
Proof.
  intros [-> | ->]; (do 3 eexists; split; [intros [|[|fuel]] Hfuel; [lia|lia|vm_compute; reflexivity]|];
    split; [vm_compute; reflexivity|]; split; [reflexivity|]; split; vm_compute; reflexivity).
Qed.

Lemma system_served n : served (V := flaky) (S := Playback.t) BigEndian 4 4 0 (replicate 42 0) (sample_event 0) system_ops session_events
  test_message system_network LittleEndian 5 n system_answer.
Proof.
  assert (∀ turns request earlier n, turns = 4%nat ∨ turns = 5%nat → Forall (within n) earlier →
    take (turns - 3) [first_request; second_request] = earlier ++ [request] →
    Scripted.input (system_answer request) !! 5 = Some (drop (answer_length earlier) (system_sent turns)) →
    sent_by_server (V := flaky) (S := Playback.t) BigEndian 4 4 0 (replicate 42 0) (sample_event 0) system_ops session_events
      test_message system_network LittleEndian n request (incoming (system_answer request) 5)) as Hsent.
  { intros turns request earlier n' Hturns Hearlier Hreqs Hin.
    destruct (system_server_run turns Hturns) as (s' & ws' & client & Hrun & Hcl & Hsock & Harr & Hout).
    exists lossy_server, s', system_world, ws', (take turns system_caches), 2%nat, 4, client, earlier.
    split; [exact system_started|]. split; [apply Forall_take, system_caches_while_running|].
    do 5 (split; [done|]). rewrite Harr, Hreqs, Hout. split; [done|].
    cbn [incoming Scripted.socket]. unfold Scripted.bytes_of. by rewrite Hin. }
  intros [a b] (Ha & Hab & Hb). unfold Config.FIRST_SEQUENCE_ID in Ha. simpl in Ha, Hab, Hb.
  destruct (Z.eqb_spec b 2) as [->|Hb2].
  { left. assert (a = 1) as -> by lia. apply (Hsent 4%nat first_request []); [by left|by constructor|reflexivity|vm_compute; reflexivity]. }
  destruct (decide (a = 3 ∧ b = 4)) as [[-> ->]|Hne].
  { left. apply (Hsent 5%nat second_request [first_request]); [by right| |reflexivity|vm_compute; reflexivity]. constructor; [|by constructor]. split; simpl; [done|lia]. }
  right. exists a, {| MessageHeader.sequence_number := 0; MessageHeader.payload_length := 0 |}.
  cbn [RetransmitRequest.first_packet RetransmitRequest.last_packet]. split; [lia|]. split; [by split|]. split; [done|].
  cbn [incoming Scripted.socket system_answer Scripted.input]. unfold Scripted.bytes_of. rewrite lookup_singleton_eq.
  cbn [RetransmitRequest.first_packet RetransmitRequest.last_packet default from_option]. rewrite (proj2 (Z.eqb_neq b 2) Hb2).
  assert ((a =? 3) && (b =? 4) = false) as -> by (apply andb_false_iff; rewrite !Z.eqb_neq; lia). apply prefix_nil.
Qed.

(** The datagrams say which packets they are. *)
Lemma system_datagrams (es : list MarketEvent.t) n ks (w : flaky) : ks `sublist_of` seqZ Config.FIRST_SEQUENCE_ID n → n ≤ 4 →
  datagrams w = packet (event_at (sample_event 0) es) <$> ks → (λ d, nth 7 d 0) <$> datagrams w = [2; 4] → ks = [2; 4].
Proof.
  intros Hks Hn -> Hd. assert (∀ k, k ∈ ks → nth 7 (packet (event_at (sample_event 0) es) k) 0 = k) as Hid.
  { intros k Hk. assert (k ∈ seqZ Config.FIRST_SEQUENCE_ID n) as Hin by (by eapply elem_of_sublist).
    apply elem_of_seqZ in Hin. unfold Config.FIRST_SEQUENCE_ID in Hin.
    assert (k = 1 ∨ k = 2 ∨ k = 3 ∨ k = 4) as [-> |[-> |[-> | ->]]] by lia; reflexivity. }
  rewrite <- Hd, <- list_fmap_compose. symmetry. rewrite <- (list_fmap_id ks) at 2.
  apply list_fmap_ext. intros i k Hk. apply Hid. by eapply list_elem_of_lookup_2.
Qed.

Lemma system_exchange_run : ∃ results s w',
  ExchangeSimulator.run BigEndian 4 4 0 system_ops session_events (ExchangeSimulator.init 4 4 (sample_event 0) test_message)
    system_network = Ok (results, [], s, w') ∧ (λ d, nth 7 d 0) <$> datagrams w' = [2; 4].
Proof. do 3 eexists. split; vm_compute; reflexivity. Qed.

Lemma system_feed_run : ∃ f, Feed.run LittleEndian BigEndian (event_at (sample_event 0) session_events) test_message 5 4 4 8 4 system_feed
    (Feed.init 4 4 8 4 test_message (RawEvent.of_event (sample_event 0))) = Ok f ∧ Feed.stopped f = None ∧ Feed.quiet 8 f.
Proof.
  eexists. split; [vm_compute; reflexivity|]. split; [vm_compute; reflexivity|].
  repeat (split; [vm_compute; reflexivity|]). vm_compute. reflexivity.
Qed.

Lemma system_feed_arrived : Feed.arrived system_feed = [2; 4].
Proof. vm_compute. reflexivity. Qed.

Lemma system_replicates_book_witness :
  ∃ g, system_generator = Ok g ∧
    let c := MarketRequestGenerator.clob_ g in
    ∃ results rest s w' es n ks,
      ExchangeSimulator.run BigEndian 4 4 0 system_ops (Clob.published c) (ExchangeSimulator.init 4 4 (sample_event 0) test_message)
        system_network = Ok (results, rest, s, w') ∧ ks = [2; 4] ∧
      Forall (λ o, match o with
        | Feed.Serve answer => served (V := flaky) (S := Playback.t) BigEndian 4 4 0 (replicate 42 0) (sample_event 0) system_ops
            (Clob.published c) test_message system_network LittleEndian 5 (Z.of_nat n) answer
        | _ => True end) system_feed ∧
      ∃ f, Feed.run LittleEndian BigEndian (event_at (sample_event 0) es) test_message 5 4 4 8 4 system_feed
          (Feed.init 4 4 8 4 test_message (RawEvent.of_event (sample_event 0))) = Ok f ∧
        Feed.stopped f = None ∧ Feed.quiet 8 f ∧ replica id id c 4 (omap RawEvent.to_event (Feed.delivered f)) ∧
        length (Clob.published c) = 4%nat.
Proof.
  assert (PowerOfTwo 4) as H4 by (split; reflexivity). assert (PowerOfTwo 8) as H8 by (split; reflexivity).
  destruct (system_replicates_book id id test_entropy (V := flaky) (W := Scripted.t) (S := Playback.t) 20 41 [1; 0; 2]%nat
    BigEndian LittleEndian 4 4 0 (replicate 42 0) 5 4 4 8 4 (sample_event 0) system_ops test_message test_message test_message
    (RawEvent.of_event (sample_event 0)) system_network) as (g & Hg & results & rest & s & w' & es & n & ks & Hrun & Hes & Hd & Hks & Hn & Hfeed);
    [..|unfold system_levels, system_orders in Hg].
  - discriminate.
  - apply Nat.leb_le. reflexivity.
  - split; reflexivity.
  - split; [reflexivity|split; [reflexivity|split; [discriminate|reflexivity]]].
  - reflexivity.
  - reflexivity.
  - reflexivity.
  - reflexivity.
  - exact ServerLoop.playback_reports_once.
  - repeat (apply Forall_cons; split); try exact I; try apply Forall_nil_2; reflexivity.
  - reflexivity.
  - apply (bool_decide_eq_true_1 (MarketEvent.wf (sample_event 0))). reflexivity.
  - assert (Clob.published (MarketRequestGenerator.clob_ g) = session_events) as Hpub.
    { pose proof system_generator_events as He. rewrite Hg in He. by injection He. }
    rewrite Hpub in *. destruct system_exchange_run as (results0 & s0 & w0 & Hrun0 & Hd0).
    rewrite Hrun0 in Hrun. injection Hrun as <- <- <- <-. rewrite app_nil_r in Hes. subst es.
    assert (ks = [2; 4]) as ->
      by (apply (system_datagrams session_events (Z.of_nat n) ks w0 Hks); [simpl in Hn; lia|exact Hd|exact Hd0]).
    exists g. split; [exact Hg|]. exists results0, [], s0, w0, session_events, n, [2; 4]. rewrite Hpub.
    split; [exact Hrun0|]. split; [reflexivity|].
    assert (Forall (λ o, match o with
        | Feed.Serve answer => served (V := flaky) (S := Playback.t) BigEndian 4 4 0 (replicate 42 0) (sample_event 0) system_ops
            session_events test_message system_network LittleEndian 5 (Z.of_nat n) answer
        | _ => True end) system_feed) as Hserved.
    { repeat (apply Forall_cons_2; [try exact I|]); try apply system_served. apply Forall_nil_2. }
    split; [exact Hserved|]. destruct (Hfeed system_feed) as (f & k & Hf & Hreplica & Hall).
    + rewrite system_feed_arrived. apply Forall_forall. intros k Hk. exact Hk.
    + exact Hserved.
    + destruct system_feed_run as (f0 & Hf0 & Hstop & Hquiet). rewrite Hf0 in Hf. injection Hf as <-.
      exists f0. split; [exact Hf0|]. split; [exact Hstop|]. split; [exact Hquiet|].
      rewrite system_feed_arrived in Hall. rewrite (Hall Hstop Hquiet) in Hreplica; [|apply list_elem_of_further, list_elem_of_here].
      split; [exact Hreplica|reflexivity].
Defined.
