(* ===== verification/Runner.v ===== *)
(** * StrategyRunner ([strategy-runner.cpp])

    The three threads of the strategy process over the members they share: the
    trader, the order book engine and the order management system.  The first two
    take their turns as [Trader] and [OrderBookEngine] say; the third has no code
    ([oms.cpp] is empty), so what it does in a turn comes in as data, within what
    its two buffers let it do.  The market data handler feeds the event buffer. *)

From S2P Require Import Threads Prelude Types Interfaces HashMap OrderPool OrderBook BookSpec BookRep BookRefine BookTrace HashedBook Clob ClobProof ClobProperties Ring RingBuffers RingUse SeqLock Errors Strategy MarketMakerProof Trader TraderProof Pipeline.

Module StrategyRunner.

(** Where [Trader::start] is: at the head of its loop, at the test of
    [wait_read_next], inside [wait_read_and_update]. *)
Inductive phase : Type := Updating | Polling | Reading.

(** What the order management system does in a turn: take a request, report a
    fill, or return. *)
Inductive oms_action : Type := Take | Fill (update : OrderFillUpdate.t) | Return.

(** What a turn finds outside: the stop token's answers and the risk figures
    during the trader's calls, and the order management system's action. *)
Record outside : Type := {
  rounds : nat → nat → bool * option RiskData.t;
  answers : nat → bool * option RiskData.t;
  oms : oms_action;
}.

Section Runner.
Context {PL OM : Type} {pl_ops : KeyedStore PL Z BookState.PriceLevel} {om_ops : KeyedStore OM Z Z}.
Context {T : Type} {S : StrategyOps T} (CAPACITY TRADES UPDATES MARKET : Z) (place_fuel : nat).

(** [public_bbo_], [trade_buffer_] and [order_update_buffer_] are members of the
    engine's and the trader's states; [taken]: the requests the order management
    system has popped. *)
Record t : Type := {
  order_book_engine_ : OrderBookEngine.t PL OM;
  trader_ : Trader.t T;
  trader_phase : phase;
  last_generation_seen_ : Z;
  taken : list OrderRequest.t;
}.
Implicit Types (s : t) (e : outside) (stop : bool).

Definition set_engine engine s : t :=
  {| order_book_engine_ := engine; trader_ := trader_ s; trader_phase := trader_phase s;
     last_generation_seen_ := last_generation_seen_ s; taken := taken s |}.
Definition set_trader trader p generation s : t :=
  {| order_book_engine_ := order_book_engine_ s; trader_ := trader; trader_phase := p;
     last_generation_seen_ := generation; taken := taken s |}.
Definition set_taken trader requests s : t :=
  {| order_book_engine_ := order_book_engine_ s; trader_ := trader; trader_phase := trader_phase s;
     last_generation_seen_ := last_generation_seen_ s; taken := requests |}.

(** [generation_] of [public_bbo_] between two writes. *)
Definition generation s : Z := u64 (Z.of_nat (length (OrderBookEngine.public_bbo_ (order_book_engine_ s))) - 1).

(** [Trader::start]: the loop asks the token at its head and in both waits. *)
Definition trader_part e stop s : outcome (option (expected unit StrategyError.t) * t) :=
  if stop then Ok (Some (Value tt), s) else
  match trader_phase s with
  | Updating =>
      '(result, trader) ← Trader.forward_oms_updates CAPACITY TRADES UPDATES (Z.to_nat UPDATES) place_fuel (rounds e) (trader_ s);
      Ok (match result with Unexpected err => Some (Unexpected err) | Value _ => None end,
          set_trader trader Polling (last_generation_seen_ s) s)
  | Polling =>
      Ok (None, if generation s =? last_generation_seen_ s then s
                else set_trader (trader_ s) Reading (last_generation_seen_ s) s)
  | Reading =>
      match last (OrderBookEngine.public_bbo_ (order_book_engine_ s)) with
      | None => Ok (None, s)
      | Some snapshot =>
          '(result, trader) ← Trader.quote_step CAPACITY TRADES place_fuel (Some snapshot) (answers e) (trader_ s);
          Ok (result, set_trader trader Updating (generation s) s)
      end
  end.

(** [launch_order_book_engine]: [OrderBookEngine::start] *)
Definition engine_part e stop s : outcome (option (expected unit StrategyError.t) * t) :=
  if stop then Ok (Some (Value tt), s) else
  '(_, engine) ← OrderBookEngine.start_step MARKET (order_book_engine_ s);
  Ok (None, set_engine engine s).

(** [launch_oms]: an [OrderManagementSystem::start] that heeds the token. *)
Definition oms_part e stop s : outcome (option (expected unit StrategyError.t) * t) :=
  if stop then Ok (Some (Value tt), s) else
  match oms e with
  | Take =>
      popped ← LazyRingBuffer.pop TRADES (Trader.trade_buffer_ (trader_ s));
      Ok (None, match popped with
                | None => s
                | Some (request, trades) => set_taken (Trader.set_trade_buffer trades (trader_ s)) (taken s ++ [request]) s
                end)
  | Fill update =>
      pushed ← LazyRingBuffer.push UPDATES update (Trader.update_buffer_ (trader_ s));
      Ok (None, match pushed with
                | None => s
                | Some updates => set_taken (Trader.set_update_buffer updates (trader_ s)) (taken s) s
                end)
  | Return => Ok (Some (Value tt), s)
  end.

#[global] Instance parts : Parts t outside StrategyError.t := runner_parts trader_part engine_part oms_part.

(** The handler's publisher puts the next of its events into the buffer, when
    there is room. *)
Definition deliver (events : list MarketEvent.t) s : outcome (list MarketEvent.t * t) :=
  match events with
  | [] => Ok ([], s)
  | event :: rest =>
      let engine := order_book_engine_ s in
      pushed ← LazyRingBuffer.push MARKET event (OrderBookEngine.market_events_ engine);
      Ok match pushed with
         | None => (events, s)
         | Some buffer =>
             (rest, set_engine {| OrderBookEngine.state_ := OrderBookEngine.state_ engine;
                OrderBookEngine.public_bbo_ := OrderBookEngine.public_bbo_ engine;
                OrderBookEngine.market_events_ := buffer |} s)
         end
  end.

(** What happens to the process: an event arrives, or one of its threads moves. *)
Inductive op : Type := Market | Thread (ev : Threads.event outside).

Definition step (o : op) (events : list MarketEvent.t) (g : group t) : outcome (list MarketEvent.t * group t) :=
  match o with
  | Market =>
      '(events, s) ← deliver events (shared g);
      Ok (events, {| shared := s; stop := stop g; running := running g |})
  | Thread ev => g ← Threads.step ev g; Ok (events, g)
  end.

Fixpoint run (ops : list op) (events : list MarketEvent.t) (g : group t) : outcome (list MarketEvent.t * group t) :=
  match ops with
  | [] => Ok (events, g)
  | o :: ops => '(events, g) ← step o events g; run ops events g
  end.

(** The members when [start] is called, over a book and a strategy; the slots
    of the buffers hold anything. *)
Definition init (book : BookState.t PL OM) (strategy : T) (order : OutboundOrderRequest.t) (fill : OrderFillUpdate.t)
    (event : MarketEvent.t) : t := {|
  order_book_engine_ := {|
    OrderBookEngine.state_ := book; OrderBookEngine.public_bbo_ := [];
    OrderBookEngine.market_events_ := LazyRingBuffer.init MARKET event |};
  trader_ := {|
    Trader.order_buffer_ := SingleThreadRingBuffer.init CAPACITY order;
    Trader.trade_buffer_ := LazyRingBuffer.init TRADES (OutboundOrderRequest.request order);
    Trader.update_buffer_ := LazyRingBuffer.init UPDATES fill; Trader.strategy_ := strategy;
    Trader.decisions := [] |};
  trader_phase := Updating;
  last_generation_seen_ := 0;
  taken := [];
|}.
End Runner.
Arguments t : clear implicits.

(** ** Sane prices come from sane events *)

Definition event_sane (e : MarketEvent.t) : Prop :=
  MarketEvent.type e = MarketEvent.Add → sane (Order.price (MarketEvent.order e)).
#[local] Abbreviation priced := (Forall (λ o, sane (Order.price o))).

Lemma remove_sane id os : priced os → priced (Book.remove id os).
Proof. intros Hos. apply Forall_forall. intros o [_ Ho]%list_elem_of_filter. rewrite Forall_forall in Hos. by apply Hos. Qed.

Lemma set_quantity_sane id q os : priced os → priced (Book.set_quantity id q os).
Proof.
  intros Hos. unfold Book.set_quantity. apply Forall_fmap. eapply Forall_impl; [exact Hos|].
  intros o Ho. simpl. by destruct (_ =? _).
Qed.

Lemma next_orders_sane cap CAPACITY e os os' : event_sane e → priced os → next_orders cap CAPACITY e os = Some os' → priced os'.
Proof.
  intros He Hos. unfold next_orders, event_sane in *. destruct (MarketEvent.type e).
  - case_decide; [|done]. intros [= <-]. apply Forall_app. split; [done|]. constructor; [by apply He|done].
  - destruct (Book.find _ os); simpl; [|done]. intros [= <-]. by apply remove_sane.
  - destruct (Book.find _ os) as [r|] eqn:Hf; simpl; [|done]. case_decide; [|done]. intros [= <-].
    unfold Book.trade. rewrite Hf. destruct (_ =? _); [by apply remove_sane|by apply set_quantity_sane].
  - destruct (Book.find _ os); simpl; [|done]. case_decide; [|done]. intros [= <-].
    unfold Book.update. destruct (_ =? 0); [by apply remove_sane|by apply set_quantity_sane].
Qed.

Lemma best_info_sane sd os : priced os →
  BookState.price (Book.best_info sd os) = Book.no_price sd ∨ sane (BookState.price (Book.best_info sd os)).
Proof.
  intros Hos. unfold Book.best_info. destruct (Book.best sd os) as [p|] eqn:Hb; [right|by left].
  apply Book.best_Some in Hb as [(o & Ho & _ & <-) _]. rewrite Forall_forall in Hos. by apply Hos.
Qed.

Lemma bbo_of_sane os : priced os → sane_bbo (Book.bbo_of os).
Proof. intros Hos. split; [apply (best_info_sane Side.Buy)|apply (best_info_sane Side.Sell)]; done. Qed.

Lemma spec_run_snoc cap CAPACITY es x os0 os us os' us' : spec_run cap CAPACITY es os0 = Some (os, us) →
  spec_run cap CAPACITY (es ++ [x]) os0 = Some (os', us') → ∃ u, next_orders cap CAPACITY x os = Some os' ∧ report x os = Some u.
Proof.
  revert os0 us us'. induction es as [|e es IH]; intros os0 us us'; simpl.
  - intros [= <- <-]. destruct (next_orders _ _ _ _) as [os1|]; simpl; [|done].
    destruct (report _ _) as [u|]; simpl; [|done]. intros [= -> _]. by exists u.
  - destruct (next_orders cap CAPACITY e os0) as [os1|]; simpl; [|done]. destruct (report e os0) as [u|]; simpl; [|done].
    destruct (spec_run cap CAPACITY es os1) as [[? ?]|] eqn:H1; simpl; [|done]. intros [= -> _].
    destruct (spec_run cap CAPACITY (es ++ [x]) os1) as [[? ?]|] eqn:H2; simpl; [|done]. intros [= -> _].
    exact (IH _ _ _ H1 H2).
Qed.

(** ** What holds throughout a run *)

Section Session.
Context {PL OM : Type} {pl_ops : KeyedStore PL Z BookState.PriceLevel} {om_ops : KeyedStore OM Z Z}.
Context (pl_cap om_cap ORDERS : Z) (pl_repr : PL → gmap Z BookState.PriceLevel → Prop) (om_repr : OM → gmap Z Z → Prop).
Context {pl_laws : KeyedStoreLaws PL Z BookState.PriceLevel pl_cap pl_repr}.
Context {om_laws : KeyedStoreLaws OM Z Z om_cap om_repr} (Hom : ORDERS ≤ om_cap).
Context {T : Type} {S : StrategyOps T} (CAPACITY TRADES UPDATES MARKET : Z) (place_fuel : nat).
Context {HC : PowerOfTwo CAPACITY} {HT : PowerOfTwo TRADES} {HU : PowerOfTwo UPDATES} {HM : PowerOfTwo MARKET}.
Context (Hcap : CAPACITY < 2 ^ 64) (Htrades : TRADES < 2 ^ 64) (Hupdates : UPDATES < 2 ^ 64) (Hmarket : MARKET < 2 ^ 64).
Context {L : StrategyLaws S CAPACITY} (Hplace : enough_rounds CAPACITY place_fuel).
Context (initial : BookState.OrderSnapshot) (figures : RiskData.t → Prop).
Abbreviation state := (t PL OM T).
Implicit Types (s : state) (e : outside).

(** Whatever is read, [figures] holds of it. *)
Definition reads (answers : nat → bool * option RiskData.t) : Prop := ∀ i r, (answers i).2 = Some r → figures r.

(** The figures are sane and among [figures], the fills have sane quantities. *)
Definition outside_ok e : Prop :=
  (∀ i, answers_sane (rounds e i)) ∧ answers_sane (answers e) ∧ (∀ i, reads (rounds e i)) ∧ reads (answers e) ∧
  match oms e with Fill u => fill_sane u | _ => True end.

(** The engine has executed the events [done], in a book of the orders [os]; [buffered] wait for it. *)
Record engine_ok (engine : OrderBookEngine.t PL OM) (done buffered : list MarketEvent.t) (os : list Order.t) : Prop := {
  engine_events : lazy_repr MARKET (OrderBookEngine.market_events_ engine) buffered;
  engine_book : Rep pl_repr om_repr ORDERS (OrderBookEngine.state_ engine) os;
  engine_spec : ∃ us, spec_run pl_cap ORDERS done [] = Some (os, us);
  engine_shown : shown initial (OrderBookEngine.public_bbo_ engine) = Book.bbo_of os;
  engine_priced : priced os;
}.

(** A decision on some of these figures, that follows them. *)
Definition judged (d : Trader.decision) : Prop :=
  ∃ r, Trader.figures d = Some r ∧ figures r ∧ (Trader.verdict d = OrderStatus.Good ↔ permitted r (Trader.considered d)).

Lemma judged_all answers ds : reads answers → Forall sound ds → follows answers ds → Forall judged ds.
Proof using.
  intros Hr Hs Hf. apply Forall_lookup. intros k d Hk. rewrite Forall_lookup in Hs. destruct (Hs k d Hk) as (r & Hd & Hiff).
  exists r. split; [done|]. split; [|done]. apply (Hr k). rewrite (Hf k d Hk). exact Hd.
Qed.

Lemma judged_each rounds dss : (∀ i, reads (rounds i)) → Forall sound (concat dss) → each_follows rounds dss → Forall judged (concat dss).
Proof using.
  intros Hr Hs Hf. apply Forall_concat in Hs. apply Forall_concat, Forall_lookup. intros i ds Hi. rewrite Forall_lookup in Hs.
  apply (judged_all (rounds i)); [apply Hr|by eapply Hs|by apply Hf].
Qed.

(** The trader after [n] calls of its strategy, with [ts] in the trade buffer and [us] in the update buffer:
    what it let through is what was taken from the trade buffer and what is still there. *)
Record trading (trader : Trader.t T) (requests : list OrderRequest.t) (n : Z) (ts : list OrderRequest.t) (us : list OrderFillUpdate.t) : Prop := {
  trading_ok : ∃ l, trader_ok CAPACITY TRADES UPDATES n trader l ts us;
  trading_placed : placed (Trader.decisions trader) = requests ++ ts;
  trading_fills : Forall fill_sane us;
  trading_calls : 0 ≤ n;
  trading_judged : Forall judged (Trader.decisions trader);
}.

(** After [N] turns, with the events [es] delivered. *)
Definition session (N : Z) (es : list MarketEvent.t) s : Prop :=
  ∃ done buffered os n ts us, es = done ++ buffered ∧ engine_ok (order_book_engine_ s) done buffered os ∧
    trading (trader_ s) (taken s) n ts us ∧ n + Z.of_nat (length us) ≤ N.

(** The trade buffer holds as many requests as it has room for. *)
Definition trades_full s : Prop := ∃ ts, lazy_repr TRADES (Trader.trade_buffer_ (trader_ s)) ts ∧ Z.of_nat (length ts) = TRADES.

(** The strategy is about to be given best prices beyond its arithmetic. *)
Definition refused s : Prop :=
  trader_phase s = Reading ∧
  ∃ bbo, last (OrderBookEngine.public_bbo_ (order_book_engine_ s)) = Some bbo ∧ ¬ strategy_accepts (Trader.strategy_ (trader_ s)) bbo.

(** What a turn of thread [part] leads to. *)
Definition moves (N : Z) es (part : outcome (option (expected unit StrategyError.t) * state)) (may_end full : Prop) : Prop :=
  ∃ r s', part = Ok (r, s') ∧ session (N + 1) es s' ∧ (is_Some r → may_end ∨ full ∧ trades_full s').

Lemma session_later N es s : session N es s → session (N + 1) es s.
Proof using.
  intros (done & buffered & os & n & ts & us & Hes & He & Ht & Hn). exists done, buffered, os, n, ts, us.
  split; [done|]. split; [done|]. split; [done|lia].
Qed.

Lemma moves_still N es s r (may_end full : Prop) : session N es s → (is_Some r → may_end) →
  moves N es (Ok (r, s)) may_end full.
Proof using.
  intros Hs Hr. exists r, s. split; [done|]. split; [by apply session_later|]. intros ?; left; by apply Hr.
Qed.

(** The trader has let some more requests through. *)
Lemma trading_more trader trader' requests n n' ts us us' l' ds : trading trader requests n ts us → n ≤ n' → us' `suffix_of` us →
  trader_ok CAPACITY TRADES UPDATES n' trader' l' (ts ++ placed ds) us' →
  Trader.decisions trader' = Trader.decisions trader ++ ds → Forall judged ds →
  trading trader' requests n' (ts ++ placed ds) us'.
Proof using.
  intros [_ Hplaced Hfills Hcalls Hjudged] Hn [us1 ->] Hok Hds Hj. split; [by exists l'| | |lia|].
  - by rewrite Hds, placed_app, Hplaced, (assoc_L (++)).
  - by apply Forall_app in Hfills as [_ ?].
  - rewrite Hds. by apply Forall_app.
Qed.

Lemma trader_part_ok N es s e b : 0 ≤ N < 2 ^ 50 → session N es s → outside_ok e →
  (b = false ∧ refused s) ∨ moves N es (trader_part CAPACITY TRADES UPDATES place_fuel e b s) (b = true) (b = false).
Proof using HC HT HU Hcap Htrades Hplace.
  intros HN Hs (Hrounds & Hanswers & Hreads & Hread & _). unfold trader_part. destruct b; [right; by apply moves_still|].
  destruct (trader_phase s) eqn:Hphase.
  - right. destruct Hs as (done & buffered & os & n & ts & us & Hes & He & Ht & Hn). pose proof Ht as [(l & Hok) Hplaced Hfills Hcalls Hjudged].
    pose proof (ring_repr_bound UPDATES _ _ _ _ (trader_updates _ _ _ _ _ _ _ _ Hok)) as [Hlen Hroom].
    destruct (forward_oms_updates_ok CAPACITY TRADES UPDATES Hcap Htrades place_fuel Hplace (Z.to_nat UPDATES) n _ l ts us (rounds e)
      Hok Hrounds Hfills ltac:(lia) Hcalls ltac:(lia)) as (result & trader & l' & dss & us' & -> & Hok' & Hsuf & Hcount & Hds & Hsound & Hfol & Hend).
    cbn [mbind outcome_bind]. pose proof (suffix_length _ _ Hsuf) as Hle.
    eexists _, _. split; [done|]. split.
    + eexists done, buffered, os, _, _, us'. split; [done|]. split; [done|]. split; [|shelve].
      eapply trading_more; [exact Ht|shelve|done|exact Hok'|done|by apply (judged_each (rounds e))].
      Unshelve. all: lia.
    + destruct result; [by intros []|intros _; right]. destruct Hend as [_ Hfull]. split; [done|]. eexists. split; [apply Hok'|done].
  - right. destruct (_ =? _); (apply moves_still; [exact Hs|by intros []]).
  - destruct (last _) as [bbo|] eqn:Hlast; [|right; apply moves_still; [done|by intros []]].
    destruct (decide (strategy_accepts (Trader.strategy_ (trader_ s)) bbo)) as [Hcmp|]; [right|left; split; [done|]; split; [done|by exists bbo]].
    destruct Hs as (done & buffered & os & n & ts & us & Hes & He & Ht & Hn). pose proof Ht as [(l & Hok) Hplaced Hfills Hcalls Hjudged].
    assert (sane_bbo bbo) as Hsane.
    { pose proof (engine_shown _ _ _ _ He) as Hshown. unfold shown in Hshown. rewrite Hlast in Hshown. simpl in Hshown.
      rewrite Hshown. apply bbo_of_sane, He. }
    destruct (quote_step_ok CAPACITY TRADES UPDATES Hcap Htrades place_fuel n _ l ts us bbo (answers e) Hplace Hok Hanswers Hsane Hcmp ltac:(lia))
      as (result & trader & l' & ds & -> & Hok' & Hds & Hsound & Hfol & Hend). cbn [mbind outcome_bind].
    eexists _, _. split; [done|]. split.
    + eexists done, buffered, os, (n + 1), _, us. split; [done|]. split; [done|]. split; [|lia].
      eapply trading_more; [exact Ht|lia|done|exact Hok'|done|by apply (judged_all (answers e))].
    + destruct result as [[|]|]; [done|intros _; right|by intros []]. destruct Hend as [_ Hfull]. split; [done|]. eexists. split; [apply Hok'|done].
Qed.

Lemma engine_step_ok engine done buffered os : engine_ok engine done buffered os → Forall event_sane buffered →
  (∃ us, spec_run pl_cap ORDERS (done ++ buffered) [] = Some us) →
  ∃ executed engine' done' buffered' os', OrderBookEngine.start_step MARKET engine = Ok (executed, engine') ∧
    done ++ buffered = done' ++ buffered' ∧ engine_ok engine' done' buffered' os'.
Proof using HM pl_laws om_laws Hom.
  intros He Hsane [us_end Hspec]. pose proof He as [Hev HR [us1 Hdone] Hshown Hpriced].
  unfold OrderBookEngine.start_step. pose proof (lazy_front MARKET _ _ Hev) as Hfront.
  destruct (LazyRingBuffer.try_get_tail_ref MARKET _) as [slot|]; [|by exists None, engine, done, buffered, os].
  destruct Hfront as (x & rest & -> & -> & Hconsume). cbn [mbind outcome_bind]. apply Forall_cons in Hsane as [Hx _].
  destruct us_end as [os_end us_end]. rewrite cons_middle, (assoc_L (++)) in Hspec.
  destruct (spec_run_prefix pl_cap ORDERS (done ++ [x]) rest [] os_end us_end Hspec) as (os' & us' & Hspec').
  destruct (spec_run_snoc _ _ _ _ _ _ _ _ _ Hdone Hspec') as (u & Hnext & Hreport).
  destruct (apply_ok pl_cap om_cap pl_repr om_repr ORDERS Hom x _ (OrderBookEngine.public_bbo_ engine) os os' u initial HR Hnext Hreport)
    as (state & bbo & -> & HR' & Hshown'); [rewrite Hshown; symmetry; apply HR|]. cbn [mbind outcome_bind].
  eexists _, _, (done ++ [x]), rest, os'. split; [done|]. split; [by rewrite <- (assoc_L (++))|]. split; [done|done|by exists us'| |].
  - simpl. rewrite Hshown'. apply HR'.
  - by eapply next_orders_sane.
Qed.

Lemma engine_part_ok N es s e b full : session N es s → Forall event_sane es →
  (∃ us, spec_run pl_cap ORDERS es [] = Some us) → moves N es (engine_part MARKET e b s) (b = true) full.
Proof using HM pl_laws om_laws Hom.
  intros Hs Hsane Hspec. unfold engine_part. destruct b; [by apply moves_still|].
  destruct Hs as (done & buffered & os & n & ts & us & -> & He & Ht & Hn). pose proof Hsane as [_ Hbuf]%Forall_app.
  destruct (engine_step_ok _ _ _ _ He Hbuf Hspec) as (executed & engine' & done' & buffered' & os' & -> & Heq & He').
  cbn [mbind outcome_bind]. eexists _, _. split; [done|]. split; [|by intros []].
  exists done', buffered', os', n, ts, us. split; [done|]. split; [done|]. split; [done|lia].
Qed.

Lemma oms_part_ok N es s e b full : session N es s → outside_ok e →
  moves N es (oms_part TRADES UPDATES e b s) (b = true ∨ oms e = Return) full.
Proof using HT HU Hupdates.
  intros Hs (_ & _ & _ & _ & Hfill). unfold oms_part. destruct b; [apply moves_still; [done|by left]|].
  destruct (oms e) as [|u|]; [| |apply moves_still; [done|by right]];
    pose proof Hs as (done & buffered & os & n & ts & us & Hes & He & [(l & [Hst Hord Htr Hup]) Hplaced Hfills Hcalls Hjudged] & Hn).
  - destruct (lazy_pop TRADES _ _ Htr) as (popped & -> & Hpopped). cbn [mbind outcome_bind].
    destruct popped as [[r trades]|]; [|apply moves_still; [done|by intros []]]. destruct Hpopped as (ts' & -> & Htr').
    eexists _, _. split; [done|]. split; [|by intros []].
    exists done, buffered, os, n, ts', us. split; [done|]. split; [done|]. split; [|lia]. split; [by exists l| |done..].
    simpl. by rewrite Hplaced, <- (assoc_L (++)).
  - destruct (lazy_push UPDATES Hupdates u _ _ Hup) as (pushed & -> & Hpushed). cbn [mbind outcome_bind].
    destruct pushed as [updates|]; [|apply moves_still; [done|by intros []]].
    eexists _, _. split; [done|]. split; [|by intros []].
    exists done, buffered, os, n, ts, (us ++ [u]). split; [done|]. split; [done|]. split; [|rewrite length_app; simpl; lia].
    split; [by exists l|done| |done|done]. apply Forall_app. split; [done|by constructor].
Qed.

Lemma deliver_ok N es s events : session N es s →
  ∃ rest s' es', deliver MARKET events s = Ok (rest, s') ∧ es ++ events = es' ++ rest ∧ session (N + 1) es' s'.
Proof using HM Hmarket.
  intros Hs. pose proof Hs as (done & buffered & os & n & ts & us & -> & He & Ht & Hn). pose proof (session_later _ _ _ Hs) as Hs'.
  unfold deliver. destruct events as [|x rest]; [by exists [], s, (done ++ buffered)|]. destruct He as [Hev HR Hspec Hshown Hpriced].
  destruct (lazy_push MARKET Hmarket x _ _ Hev) as (pushed & -> & Hpushed). cbn [mbind outcome_bind].
  destruct pushed as [buffer|]; [|by exists (x :: rest), s, (done ++ buffered)].
  eexists rest, _, (done ++ buffered ++ [x]). split; [done|]. split; [by rewrite <- !(assoc_L (++))|].
  exists done, (buffered ++ [x]), os, n, ts, us. split; [done|]. split; [by split|]. split; [done|lia].
Qed.

(** ** The threads together *)

Definition op_ok (o : op) : Prop := match o with Thread (Turn _ e) => outside_ok e | _ => True end.

(** Someone other than the trader asks for the stop. *)
Definition asked (o : op) : Prop :=
  match o with Market => False | Thread RequestStop => True | Thread (Turn _ e) => oms e = Return end.

Abbreviation process_parts := (parts (PL := PL) (OM := OM) CAPACITY TRADES UPDATES MARKET place_fuel).

Abbreviation runs := (run (PL := PL) (OM := OM) CAPACITY TRADES UPDATES MARKET place_fuel).

(** The run comes to a turn of the trader that ends it, before any stop, with the trade buffer full. *)
Definition ends_full (ops : list op) events (g : group state) : Prop :=
  ∃ pre e post rest g1 g2, ops = pre ++ Thread (Turn 0 e) :: post ∧ runs pre events g = Ok (rest, g1) ∧ stop g1 = false ∧
    Threads.step (P := process_parts) (Turn 0 e) g1 = Ok g2 ∧ running g2 !! 0%nat = Some false ∧ trades_full (shared g2).

(** The process after [N] steps, with [es] delivered. *)
Record process (N : Z) es (g : group state) : Prop := {
  process_session : session N es (shared g);
  process_threads : length (running g) = 3%nat;
}.

Lemma body_ok N es g i e : 0 ≤ N < 2 ^ 50 → session N es (shared g) → outside_ok e → Forall event_sane es →
  (∃ us, spec_run pl_cap ORDERS es [] = Some us) →
  (i = O ∧ stop g = false ∧ refused (shared g)) ∨
  moves N es (@body _ _ _ process_parts i e (stop g) (shared g)) (stop g = true ∨ oms e = Return) (i = O ∧ stop g = false).
Proof using HC HT HU HM Hcap Htrades Hupdates Hplace Hom pl_laws om_laws.
  assert (∀ part (P P' Q Q' : Prop), (P → P') → (Q → Q') → moves N es part P Q → moves N es part P' Q') as Hweak.
  { intros part P P' Q Q' HP HQ (r & s' & ? & ? & Hr). exists r, s'. split_and!; try done. intros Hsome. destruct (Hr Hsome) as [?|[? ?]]; auto. }
  intros HN Hs He Hsane Hspec. destruct i as [|[|i]]; simpl.
  - destruct (trader_part_ok N es _ e (stop g) HN Hs He) as [[? ?]|Hm]; [by left|right]. by eapply Hweak; [..|exact Hm]; [left|].
  - right. eapply Hweak; [| |by apply (engine_part_ok N es (shared g) e (stop g) False)]; [by left|done].
  - right. eapply Hweak; [| |by apply (oms_part_ok N es (shared g) e (stop g) False)]; [done|done].
Qed.

Lemma runner_step_ok N es g o rest : 0 ≤ N < 2 ^ 50 → process N es g → op_ok o →
  Forall event_sane (es ++ rest) → (∃ us, spec_run pl_cap ORDERS (es ++ rest) [] = Some us) →
  (∃ e, o = Thread (Turn 0 e) ∧ stop g = false ∧ refused (shared g)) ∨
  ∃ rest' g' es', step CAPACITY TRADES UPDATES MARKET place_fuel o rest g = Ok (rest', g') ∧ es ++ rest = es' ++ rest' ∧
    process (N + 1) es' g' ∧ (stop g' = true → stop g = true ∨ asked o ∨
      ∃ e, o = Thread (Turn 0 e) ∧ stop g = false ∧ running g' !! 0%nat = Some false ∧ trades_full (shared g')).
Proof using HC HT HU HM Hcap Htrades Hupdates Hmarket Hplace Hom pl_laws om_laws.
  intros HN [Hs Hthreads] Ho Hsane [[os us] Hspec].
  assert (∃ us, spec_run pl_cap ORDERS es [] = Some us) as Hspec1.
  { destruct (spec_run_prefix _ _ _ _ _ _ _ Hspec) as (os1 & us1 & ?). by exists (os1, us1). }
  pose proof Hsane as [Hsane1 _]%Forall_app.
  destruct o as [|[i e|]]; cbn [step Threads.step].
  - right. destruct (deliver_ok N es _ rest Hs) as (rest' & s' & es' & -> & Heq & Hs'). cbn [mbind outcome_bind].
    eexists rest', _, es'. split; [done|]. split; [done|]. split; [by split|auto].
  - unfold Threads.thread_turn. destruct (decide (running g !! i = Some true)) as [Hi|]; cbn [mbind outcome_bind].
    2:{ right. exists rest, g, es. split_and!; [done..|split; [by apply session_later|done]|auto]. }
    destruct (body_ok N es g i e HN Hs Ho Hsane1 Hspec1) as [(-> & ? & ?)|Hm]; [left; by exists e|right].
    destruct Hm as (r & s' & -> & Hs' & Hend). cbn [mbind outcome_bind].
    destruct r as [r|]; eexists rest, _, es; (split; [done|]; split; [done|]; split; [split; [done|]|]); simpl; [by rewrite length_insert| |done|auto].
    intros _. destruct (Hend ltac:(by eexists)) as [[?|?]|[[-> ?] ?]]; [auto|auto|]. right. right. exists e. split_and!; [done..| |done].
    apply list_lookup_insert_eq. lia.
  - right. eexists rest, _, es. split; [done|]. split; [done|]. split; [|simpl; auto]. split; [by apply session_later|done].
Qed.

(** A run that comes to a turn in which the strategy is given such prices. *)
Definition ends_refused (ops : list op) events (g : group state) : Prop :=
  ∃ pre e post rest g', ops = pre ++ Thread (Turn 0 e) :: post ∧ runs pre events g = Ok (rest, g') ∧
    stop g' = false ∧ refused (shared g').

Lemma runner_run_ok ops N es g rest : 0 ≤ N → N + Z.of_nat (length ops) < 2 ^ 50 → process N es g →
  Forall op_ok ops → Forall event_sane (es ++ rest) → (∃ us, spec_run pl_cap ORDERS (es ++ rest) [] = Some us) →
  ends_refused ops rest g ∨
  ∃ rest' g' es' M, runs ops rest g = Ok (rest', g') ∧ es ++ rest = es' ++ rest' ∧ process M es' g' ∧
    (stop g' = true → stop g = true ∨ Exists asked ops ∨ ends_full ops rest g).
Proof using HC HT HU HM Hcap Htrades Hupdates Hmarket Hplace Hom pl_laws om_laws.
  revert N es g rest. induction ops as [|o ops IH]; intros N es g rest HN Hlen Hp Hops Hsane Hspec.
  { right. exists rest, g, es, N. split_and!; [done..|auto]. }
  apply Forall_cons in Hops as [Ho Hops]. simpl in Hlen.
  destruct (runner_step_ok N es g o rest ltac:(lia) Hp Ho Hsane Hspec) as
    [(e & -> & Hstop & Hinc)|(rest1 & g1 & es1 & Hstep & Heq & Hp1 & Hstop1)].
  { left. by exists [], e, ops, rest, g. }
  rewrite Heq in Hsane, Hspec.
  destruct (IH (N + 1) es1 g1 rest1 ltac:(lia) ltac:(lia) Hp1 Hops Hsane Hspec) as
    [(pre & e & post & rest' & g' & -> & Hrun & Hinc)|(rest' & g' & es' & M & Hrun & Heq' & Hp' & Hstop')].
  - left. exists (o :: pre), e, post, rest', g'. split; [done|]. split; [|done]. simpl. by rewrite Hstep.
  - right. exists rest', g', es', M. split; [simpl; by rewrite Hstep|]. split; [by rewrite Heq|]. split; [done|].
    intros Hst. destruct (Hstop' Hst) as [Hst1|[?|(pre & e & post & r0 & ga & gb & -> & Hrun0 & ?)]].
    + destruct (Hstop1 Hst1) as [?|[?|(e & -> & Hs0 & Hdead & Hfull)]]; [auto|right; left; by constructor|right; right].
      exists [], e, ops, rest, g, g1. split_and!; [done..| |done|done]. simpl in Hstep.
      change (Threads.thread_turn (P := process_parts) 0 e g) with (Threads.step (P := process_parts) (Turn 0 e) g) in Hstep.
      destruct (Threads.step (P := process_parts) (Turn 0 e) g) as [g2| |]; [|done..]. by injection Hstep as _ ->.
    + right. left. by apply Exists_cons_tl.
    + right. right. exists (o :: pre), e, post, r0, ga, gb. split; [done|]. split; [simpl; by rewrite Hstep|done].
Qed.

(** Once the stop is requested, each thread returns in its next turn. *)
Lemma runner_stopped_turn i e g : stop g = true → (i < length (running g))%nat →
  ∃ g', Threads.step (P := process_parts) (Turn i e) g = Ok g' ∧ stop g' = true ∧ running g' = <[i := false]> (running g).
Proof using.
  intros Hst Hi. simpl. unfold Threads.thread_turn. case_decide as Hrun.
  - assert (∃ r, @body _ _ _ process_parts i e (stop g) (shared g) = Ok (Some r, shared g)) as [r ->].
    { rewrite Hst. destruct i as [|[|i]]; by eexists. }
    cbn [mbind outcome_bind]. eexists. split; [done|]. simpl. by rewrite Hst.
  - destruct (lookup_lt_is_Some_2 (running g) i Hi) as [b Hb]. exists g. split; [done|]. split; [done|].
    rewrite list_insert_id; [done|]. rewrite Hb. destruct b; [by destruct Hrun|done].
Qed.

Lemma stopped_turns g e0 e1 e2 rest : stop g = true → length (running g) = 3%nat →
  ∃ g', runs [Thread (Turn 0 e0); Thread (Turn 1 e1); Thread (Turn 2 e2)] rest g = Ok (rest, g') ∧ joined g'.
Proof using.
  intros Hst Hlen. cbn [run step].
  destruct (runner_stopped_turn 0 e0 g Hst ltac:(lia)) as (g1 & -> & Hst1 & Hrun1). cbn [mbind outcome_bind].
  destruct (runner_stopped_turn 1 e1 g1 Hst1) as (g2 & -> & Hst2 & Hrun2); [rewrite Hrun1, length_insert; lia|]. cbn [mbind outcome_bind].
  destruct (runner_stopped_turn 2 e2 g2 Hst2) as (g3 & -> & _ & Hrun3); [rewrite Hrun2, Hrun1, !length_insert; lia|]. cbn [mbind outcome_bind].
  exists g3. split; [done|]. unfold joined. rewrite Hrun3, Hrun2, Hrun1.
  destruct (running g) as [|? [|? [|? [|? ?]]]]; simplify_eq/=. by repeat constructor.
Qed.
End Session.

Section Hashed.
Context (hash_price hash_id : Z → Z) (LEVELS ORDERS : Z).
Context {HL : PowerOfTwo (LEVELS * 2)} {HO : PowerOfTwo (ORDERS * 2)}.
#[local] Instance runner_levels : KeyedStore (ClosedHashMap.t Z BookState.PriceLevel) Z BookState.PriceLevel :=
  level_store hash_price LEVELS.
#[local] Instance runner_orders : KeyedStore (ClosedHashMap.t Z Z) Z Z := order_store hash_id ORDERS.
#[local] Existing Instance level_store_laws.
#[local] Existing Instance order_store_laws.

(** C7: The strategy process trades on its book, within the risk limits.  Let
    the events be such that a book can execute them, at prices within 2^29 of zero; let
    any strategy keep its contract; and let the arrival of events, the turns of the
    three threads, risk figures whose sums do not overflow, the order management system's takes,
    fills and return, and requests to stop come in any order, fewer than 2^50 of them.  Then, unless the run
    comes to a turn that hands the strategy best prices it does not accept ([ends_refused]; for the market maker: with both its quotes
    out, two prices whose sum overflows, as when the offers are gone), nothing is undefined, and at its
    end the engine's book is that of the events it has executed, in order and
    without a gap, and the published snapshot shows its best prices; every request
    the trader took off the strategy's buffer was let through if and only if the risk figures read for it permit
    it ([permitted]: a cancel or an update that adds no quantity, or no halt, a window that is not full, the new position
    within its limit and the profit above the floor); the requests let through are, in that order, those the order management system
    has taken and those in the trade buffer; a stop was requested from outside, or the order management system
    returned, or the trader ended itself in a turn that left the trade buffer full of TRADES requests ([ends_full]); and once the stop is
    requested one more turn of each thread ends the process. *)
Theorem runner_trades_within_limits {T : Type} {S : StrategyOps T} (CAPACITY TRADES UPDATES MARKET : Z)
    `{PowerOfTwo CAPACITY, PowerOfTwo TRADES, PowerOfTwo UPDATES, PowerOfTwo MARKET} {L : StrategyLaws S CAPACITY}
    (place_fuel : nat) (figures : RiskData.t → Prop) (strategy : T) (order : OutboundOrderRequest.t) (fill : OrderFillUpdate.t)
    (event : MarketEvent.t) (events : list MarketEvent.t) (ops : list op) :
  ORDERS < 2 ^ 32 → CAPACITY < 2 ^ 64 ∧ TRADES < 2 ^ 64 ∧ UPDATES < 2 ^ 64 ∧ MARKET < 2 ^ 64 →
  enough_rounds CAPACITY place_fuel → strategy_inv 0 strategy [] → is_Some (book_spec LEVELS ORDERS events) →
  Forall event_sane events → Forall (op_ok figures) ops → Z.of_nat (length ops) < 2 ^ 50 →
  let book := empty_book LEVELS ORDERS in
  let start := runner_start (init CAPACITY TRADES UPDATES MARKET book strategy order fill event) false in
  ends_refused CAPACITY TRADES UPDATES MARKET place_fuel ops events start ∨
  ∃ rest g done buffered os us ts, run CAPACITY TRADES UPDATES MARKET place_fuel ops events start = Ok (rest, g) ∧
    let engine := order_book_engine_ (shared g) in
    let trader := trader_ (shared g) in
    events = done ++ buffered ++ rest ∧ lazy_repr MARKET (OrderBookEngine.market_events_ engine) buffered ∧
    book_spec LEVELS ORDERS done = Some (os, us) ∧
    (∀ id, BookState.order_exists (OrderBookEngine.state_ engine) id = bool_decide (is_Some (Book.find id os))) ∧
    shown (BookState.snapshot book) (OrderBookEngine.public_bbo_ engine) = Book.bbo_of os ∧
    Forall (judged figures) (Trader.decisions trader) ∧
    lazy_repr TRADES (Trader.trade_buffer_ trader) ts ∧ placed (Trader.decisions trader) = taken (shared g) ++ ts ∧
    (stop g = true → (Exists asked ops ∨ ends_full CAPACITY TRADES UPDATES MARKET place_fuel ops events start) ∧
      ∀ e0 e1 e2, ∃ g', run CAPACITY TRADES UPDATES MARKET place_fuel [Thread (Turn 0 e0); Thread (Turn 1 e1); Thread (Turn 2 e2)] rest g =
        Ok (rest, g') ∧ joined g').
Proof.
  intros Horders (Hcap & Htrades & Hupdates & Hmarket) Hplace Hst [spec Hspec] Hsane Hops Hlen book start.
  assert (process (LEVELS * 2) ORDERS (ClosedHashMap.repr hash_price (LEVELS * 2)) (ClosedHashMap.repr hash_id (ORDERS * 2))
    CAPACITY TRADES UPDATES MARKET (BookState.snapshot book) figures 0 [] start) as Hstart.
  { split; [|done]. exists [], [], [], 0, [], []. split; [done|]. split; [|split; [|done]].
    - pose proof (empty_book_Rep hash_price hash_id LEVELS ORDERS Horders) as HR.
      split; [apply (ring_repr_init MARKET)|exact HR|by exists []|apply HR|done].
    - split; [|done|done|done|done]. exists [].
      split; [exact Hst|apply (ring_repr_init CAPACITY)|apply (ring_repr_init TRADES)|apply (ring_repr_init UPDATES)]. }
  destruct (runner_run_ok (LEVELS * 2) (ORDERS * 2) ORDERS _ _ (orders_cap _) CAPACITY TRADES UPDATES MARKET place_fuel
    Hcap Htrades Hupdates Hmarket Hplace _ figures ops 0 [] start events ltac:(done) Hlen Hstart Hops Hsane ltac:(by exists spec))
    as [?|(rest & g & es & M & Hrun & Heq & [(done & buffered & os & n & ts & us & -> & He & Ht & _) Hthreads] & Hstop)]; [by left|right].
  destruct He as [Hev HR [us1 Hdone] Hshown _]. destruct Ht as [(l & Hok) Hplaced _ _ Hjudged].
  exists rest, g, done, buffered, os, us1, ts. split; [exact Hrun|]. split; [by rewrite (assoc_L (++))|]. split; [exact Hev|].
  split; [exact Hdone|]. split; [intros id; apply (order_exists_spec _ _ _ _ ORDERS _ os id (proj1 HR))|].
  split; [exact Hshown|]. split; [exact Hjudged|]. split; [apply Hok|]. split; [exact Hplaced|].
  intros Hs. split; [by destruct (Hstop Hs)|]. intros e0 e1 e2. by apply stopped_turns.
Qed.
End Hashed.

(** ** A run of the configured process *)

#[local] Instance pot_two : PowerOfTwo (2 * 2).
Proof. split; reflexivity. Defined.
#[local] Instance pot_four : PowerOfTwo (4 * 2).
Proof. split; reflexivity. Defined.

Definition quote_event (id price : Z) (side : Side.t) : MarketEvent.t := {|
  MarketEvent.order := {| Order.order_id := id; Order.price := price; Order.quantity := 5; Order.side := side |};
  MarketEvent.type := MarketEvent.Add |}.
Definition test_events : list MarketEvent.t := [quote_event 1 350 Side.Buy; quote_event 2 450 Side.Sell; quote_event 3 360 Side.Buy].
Definition test_outside (action : oms_action) : outside :=
  {| rounds _ := test_answers; answers := test_answers; oms := action |}.

(** Two events arrive and are executed; the trader quotes on them, its bid is
    over the limit; the offer is taken and filled; the stop comes from outside. *)
Definition runner_ops : list op :=
  [Market; Market; Thread (Turn 1 (test_outside Take)); Thread (Turn 1 (test_outside Take))] ++
  replicate 3 (Thread (Turn 0 (test_outside Take))) ++
  [Thread (Turn 2 (test_outside Take)); Thread (Turn 2 (test_outside (Fill {| OrderFillUpdate.order_id := 2; OrderFillUpdate.filled_quantity := 60 |})));
   Thread (Turn 0 (test_outside Take)); Market; Thread RequestStop; Thread (Turn 0 (test_outside Take))].
Abbreviation test_start := (runner_start (init Config.STRATEGY_ORDER_BUFFER_SIZE 4 4 4 (empty_book 2 4)
  (PassiveMarketMaker.init, ClientOrderIDGenerator.init) (PassiveMarketMaker.cancel_request PassiveMarketMaker.no_order)
  {| OrderFillUpdate.order_id := 0; OrderFillUpdate.filled_quantity := 0 |} (quote_event 0 0 Side.Buy)) false).
Abbreviation test_run := (run (pl_ops := level_store id 2) (om_ops := order_store id 4) (S := config_ops) Config.STRATEGY_ORDER_BUFFER_SIZE 4 4 4 40).

(** The offer at 410 was taken, and the trader has returned. *)
Example runner_result : ('(rest, g) ← test_run runner_ops test_events test_start;
  Ok (length rest, (λ r, (OrderRequest.type r, OrderRequest.price r)) <$> taken (shared g), stop g, running g)) =
  Ok (0%nat, [(OrderRequest.Sell, 410)], true, [false; true; true]).
Proof. vm_compute. reflexivity. Qed.

Definition under_limit (r : RiskData.t) : Prop := RiskData.max_position r = 1000.

(** The strategy accepts all that this run hands it. *)
Lemma runner_ops_accepted : ¬ ends_refused (pl_ops := level_store id 2) (om_ops := order_store id 4) (S := config_ops)
  Config.STRATEGY_ORDER_BUFFER_SIZE 4 4 4 40 runner_ops test_events test_start.
Proof.
  intros (pre & e & post & rest & g & Heq & Hrun & _ & Hphase & bbo & Hlast & Hno).
  repeat (destruct pre as [|o pre];
    [first [discriminate Heq
           |vm_compute in Hrun; injection Hrun as _ <-; first [discriminate Hphase
             |vm_compute in Hlast; injection Hlast as <-; apply Hno; intros _; split; [discriminate|reflexivity]]]
    |injection Heq as <- Heq]).
  destruct pre; discriminate Heq.
Qed.

(** The bid is turned down at 950; the offer and, once it is partly filled, the update to more go through. *)
Lemma runner_trades_within_limits_witness :
  ∃ rest g done buffered os us ts, test_run runner_ops test_events test_start = Ok (rest, g) ∧
    test_events = done ++ buffered ++ rest ∧ book_spec 2 4 done = Some (os, us) ∧
    shown (BookState.snapshot (empty_book 2 4)) (OrderBookEngine.public_bbo_ (order_book_engine_ (shared g))) = Book.bbo_of os ∧
    Forall (judged under_limit) (Trader.decisions (trader_ (shared g))) ∧
    placed (Trader.decisions (trader_ (shared g))) = taken (shared g) ++ ts ∧
    (λ d, (OrderRequest.type (OutboundOrderRequest.request (Trader.considered d)), Trader.verdict d)) <$> Trader.decisions (trader_ (shared g)) =
      [(OrderRequest.Buy, OrderStatus.TooMuchExposure); (OrderRequest.Sell, OrderStatus.Good); (OrderRequest.Update, OrderStatus.Good)].
Proof.
  assert (PowerOfTwo 4) as H4 by (split; reflexivity).
  assert (answers_sane test_answers) as Hsane.
  { intros [|i] r Hr; injection Hr as <-; repeat split. }
  assert (reads under_limit test_answers) as Hlimit.
  { intros [|i] r Hr; injection Hr as <-; reflexivity. }
  assert (∀ a, match a with Fill u => fill_sane u | _ => True end → outside_ok under_limit (test_outside a)) as Hout.
  { intros a Ha. split; [intros i; exact Hsane|]. split; [exact Hsane|]. split; [intros i; exact Hlimit|]. split; [exact Hlimit|exact Ha]. }
  destruct (runner_trades_within_limits id id 2 4 (S := config_ops) Config.STRATEGY_ORDER_BUFFER_SIZE 4 4 4 40 under_limit
    (PassiveMarketMaker.init, ClientOrderIDGenerator.init) (PassiveMarketMaker.cancel_request PassiveMarketMaker.no_order)
    {| OrderFillUpdate.order_id := 0; OrderFillUpdate.filled_quantity := 0 |} (quote_event 0 0 Side.Buy) test_events runner_ops)
    as [Hr|(rest & g & done & buffered & os & us & ts & Hrun & Hev & _ & Hspec & _ & Hshown & Hjudged & _ & Hplaced & _)].
  - reflexivity.
  - split; [reflexivity|split; [reflexivity|split; reflexivity]].
  - reflexivity.
  - split; [apply MarketMakerProof.init_ok|split; discriminate].
  - vm_compute. eexists. reflexivity.
  - repeat (apply Forall_cons; split); try apply Forall_nil_2; intros _; split; discriminate.
  - repeat (apply Forall_cons; split); try apply Forall_nil_2; try exact I; (apply Hout; first [exact I|discriminate]).
  - reflexivity.
  - destruct (runner_ops_accepted Hr).
  - exists rest, g, done, buffered, os, us, ts. split; [exact Hrun|]. split; [exact Hev|]. split; [exact Hspec|].
    split; [exact Hshown|]. split; [exact Hjudged|]. split; [exact Hplaced|]. vm_compute in Hrun. injection Hrun as _ <-. reflexivity.
Defined.
End StrategyRunner.
