(* ===== verification/PipelineTest.v ===== *)
(** * The repository's pipeline test ([test/exchange-pipeline-tester.cpp])

    The test submits orders to the matching engine and, after each, takes the events out of
    the buffer, encodes and caches them and checks with assertions what it finds.  Its assertions are
    shown to hold for any well-formed events, and its main program to run to its end.  The two
    threads of [verify_lazy_ring_buffer_spsc] are those of Spsc. *)

From S2P Require Import Prelude Types Interfaces Bytes Codec CodecProof Ring RingBuffers RingUse CircularCache OrderBook HashedBook Clob ClobProperties Network Connection.

Module PipelineTest.

Definition same_event (left right : MarketEvent.t) : bool :=
  bool_decide (MarketEvent.type left = MarketEvent.type right) &&
  (Order.order_id (MarketEvent.order left) =? Order.order_id (MarketEvent.order right)) &&
  (Order.price (MarketEvent.order left) =? Order.price (MarketEvent.order right)) &&
  (Order.quantity (MarketEvent.order left) =? Order.quantity (MarketEvent.order right)) &&
  bool_decide (Order.side (MarketEvent.order left) = Order.side (MarketEvent.order right)).

(** What the test's main program keeps between the calls. *)
Record t : Type := {
  buffer : LazyRingBuffer.t MarketEvent.t;
  cache : CircularCache.t EncodedMessage.t;
  sequencer : Z;
  next_sequence : Z;
}.

Section Test.
Context (h : endian) (BUFFER CACHE : Z) (fresh : list Z).

(** [exchange::BinaryProtocol::decode(message.payload())] as an event. *)
Definition decoded (message : EncodedMessage.t) : outcome MarketEvent.t :=
  payload ← EncodedMessage.payload message;
  raw ← BinaryProtocol.decode h payload;
  deref (RawEvent.to_event raw).

(** One round of the loop; [None] when the buffer is empty. *)
Definition verify_event (s : t) : outcome (option t) :=
  match LazyRingBuffer.try_get_tail_ref BUFFER (buffer s) with
  | None => Ok None
  | Some slot =>
      event ← LazyRingBuffer.read slot (buffer s);
      '(message, sequencer) ← Sequencer.generate_message h fresh (sequencer s) event;
      _ ← assert_ (MessageHeader.sequence_number (EncodedMessage.header message) =? next_sequence s);
      sent ← decoded message;
      _ ← assert_ (Order.order_id (MarketEvent.order sent) =? Order.order_id (MarketEvent.order event));
      _ ← assert_ (same_event sent event);
      cache ← CircularCache.put_item CACHE message (cache s);
      result ← CircularCache.try_get_item CACHE (u32 (next_sequence s - 1)) cache cache cache;
      cached ← match result with Value cached => Ok cached | Unexpected _ => Undefined end;
      _ ← assert_ (MessageHeader.sequence_number (EncodedMessage.header cached) =? next_sequence s);
      kept ← decoded cached;
      _ ← assert_ (same_event kept event);
      Ok (Some {| buffer := LazyRingBuffer.consume (buffer s); cache := cache; sequencer := sequencer;
                  next_sequence := u64 (next_sequence s + 1) |})
  end.

Fixpoint verify_events (fuel : nat) (s : t) : outcome t :=
  match fuel with
  | O => OutOfFuel
  | S fuel =>
      result ← verify_event s;
      match result with Some s => verify_events fuel s | None => Ok s end
  end.
End Test.

Section Proofs.
Context (h : endian) (BUFFER CACHE : Z) {HB : PowerOfTwo BUFFER} {HC : PowerOfTwo CACHE}.
Context (Hbuffer : BUFFER < 2 ^ 64) (Hcache : CACHE < 2 ^ 32) (Hroom : 1 < CACHE) (fresh : list Z) (Hfresh : is_buffer fresh).

Lemma same_event_refl e : same_event e e = true.
Proof. unfold same_event. by rewrite !bool_decide_true, !Z.eqb_refl by done. Qed.

Lemma generated_message counter e : MarketEvent.wf e → in_u 64 counter → counter ≠ 0 →
  ∃ m, Sequencer.generate_message h fresh counter e = Ok (m, u64 (counter + 1)) ∧
    MessageHeader.sequence_number (EncodedMessage.header m) = counter ∧ decoded h m = Ok e.
Proof.
  intros Hwf Hc H0. set (hd := {| MessageHeader.sequence_number := counter; MessageHeader.payload_length := 18 |}).
  assert (length (event_wire e) = 18%nat) as Hl by apply event_wire_length.
  destruct (make_serialize h fresh hd (event_wire e) Hfresh ltac:(lia)) as (m & Hm & Hhd & Hb). exists m.
  unfold Sequencer.generate_message. cbv zeta. rewrite encode_wire, Hl. change (u16 (Z.of_nat 18)) with 18. fold hd.
  destruct (EncodedMessage.make fresh hd (event_wire e)) as [m0| |]; [|done..]. cbn [mbind outcome_bind] in *. rewrite Hm.
  split; [done|]. rewrite Hhd. split; [done|]. unfold decoded, EncodedMessage.payload. rewrite Hhd, Hb. cbn [MessageHeader.sequence_number hd].
  rewrite (proj2 (Z.eqb_neq _ _) H0), (subspan_middle (header_wire hd) (event_wire e)); [|by rewrite header_wire_length|by rewrite Hl].
  cbn [mbind outcome_bind]. rewrite decode_wire by done. cbn [mbind outcome_bind]. by rewrite raw_event_inverse.
Qed.

(** [n] events were verified, those of [es] are in the buffer. *)
Record verified (n : nat) (es : list MarketEvent.t) (s : t) : Prop := {
  verified_buffer : lazy_repr BUFFER (buffer s) es;
  verified_cache : CircularCache.inv CACHE (cache s);
  verified_idle : CircularCache.phase (cache s) = CircularCache.Idle;
  verified_log : length (CircularCache.log (cache s)) = n;
  verified_sequencer : sequencer s = Config.FIRST_SEQUENCE_ID + Z.of_nat n;
  verified_next : next_sequence s = Config.FIRST_SEQUENCE_ID + Z.of_nat n;
}.

Lemma verify_event_passes n e es s : verified n (e :: es) s → MarketEvent.wf e → Z.of_nat n + 1 < 2 ^ 32 - 1 →
  ∃ s', verify_event h BUFFER CACHE fresh s = Ok (Some s') ∧ verified (S n) es s'.
Proof.
  intros [Hbuf Hinv Hidle Hlog Hseq Hnext] Hwf Hn. change Config.FIRST_SEQUENCE_ID with 1 in *.
  unfold verify_event. pose proof (lazy_front BUFFER _ _ Hbuf) as Hfront.
  destruct (LazyRingBuffer.try_get_tail_ref BUFFER (buffer s)) as [slot|]; [|done].
  destruct Hfront as (e' & es' & [= <- <-] & -> & Hconsume). cbn [mbind outcome_bind].
  destruct (generated_message (sequencer s) e Hwf) as (m & -> & Hhd & Hdec); [rewrite Hseq; unfold in_u; lia|lia|]. cbn [mbind outcome_bind].
  rewrite Hhd, Hdec, Hnext, Hseq, Z.eqb_refl. cbn [mbind outcome_bind assert_]. rewrite Z.eqb_refl. cbn [mbind outcome_bind assert_].
  rewrite same_event_refl. cbn [mbind outcome_bind assert_].
  assert (CircularCache.completed (cache s) = Z.of_nat n) as Hcompleted.
  { unfold CircularCache.completed. rewrite decide_False by (rewrite Hidle; done). lia. }
  destruct (CircularCache.put_item_inv CACHE Hcache m _ Hinv ltac:(unfold CircularCache.bounded; lia) Hidle) as (c & -> & Hinv' & Hidle' & Hlog').
  cbn [mbind outcome_bind].
  assert (CircularCache.completed c = Z.of_nat (S n)) as Hcompleted'.
  { unfold CircularCache.completed. rewrite decide_False by (rewrite Hidle'; done). rewrite Hlog', length_app. simpl. lia. }
  rewrite (uwrap_small 32) by (unfold in_u; lia). replace (1 + Z.of_nat n - 1) with (Z.of_nat n) by lia.
  destruct (CircularCache.quiet_read CACHE Hcache c (Z.of_nat n) Hinv' ltac:(unfold CircularCache.bounded; lia) Hidle' ltac:(lia) ltac:(right; lia))
    as (r & -> & Hr & Hlive). destruct Hlive as [x ->]; [lia..|]. cbn [mbind outcome_bind].
  rewrite Hlog', Nat2Z.id, lookup_app_r, Hlog, Nat.sub_diag in Hr by lia. injection Hr as <-.
  rewrite Hhd, Hseq, Z.eqb_refl. cbn [mbind outcome_bind assert_]. rewrite Hdec. cbn [mbind outcome_bind]. rewrite same_event_refl. cbn [mbind outcome_bind assert_].
  eexists. split; [done|]. split; simpl; try done.
  - rewrite Hlog', length_app. simpl. lia.
  - rewrite (uwrap_small 64) by (unfold in_u; lia). change Config.FIRST_SEQUENCE_ID with 1. lia.
  - rewrite (uwrap_small 64) by (unfold in_u; lia). change Config.FIRST_SEQUENCE_ID with 1. lia.
Qed.

(** The assertions of [verify_events] hold for any well-formed events. *)
Lemma verify_events_pass es : ∀ n s, verified n es s → Forall MarketEvent.wf es → Z.of_nat n + Z.of_nat (length es) < 2 ^ 32 - 1 →
  ∃ s', verify_events h BUFFER CACHE fresh (S (length es)) s = Ok s' ∧ verified (n + length es) [] s'.
Proof.
  induction es as [|e es IH]; intros n s Hs Hwf Hn; cbn [length] in *.
  - exists s. rewrite Nat.add_0_r. split; [|done]. cbn [verify_events]. unfold verify_event.
    pose proof (lazy_front BUFFER _ _ (verified_buffer _ _ _ Hs)) as Hfront.
    destruct (LazyRingBuffer.try_get_tail_ref BUFFER (buffer s)); [|done]. by destruct Hfront as (? & ? & ? & _).
  - inversion Hwf; subst. destruct (verify_event_passes n e es s Hs) as (s1 & Hv & Hs1); [done|lia|].
    destruct (IH (S n) s1 Hs1) as (s' & Hrun & Hs'); [done|lia|]. exists s'. rewrite Nat.add_succ_r. split; [|exact Hs'].
    cbn [verify_events]. rewrite Hv. cbn [mbind outcome_bind]. exact Hrun.
Qed.
End Proofs.

(** ** The other checks *)

(** [verify_connection_move], up to the read at the other end, which finds what was sent on [fd]. *)
Definition verify_connection_move {W} `{Socket W} (fresh : list Z) (fd : Z) (w : W) : outcome W :=
  let connection := Connection.set_socket fd (Connection.make fresh) in
  let '(moved_connection, connection) := Connection.steal connection in
  _ ← assert_ (Connection.socket_fd_ connection =? -1);
  _ ← assert_ (Connection.socket_fd_ moved_connection =? fd);
  moved_connection ← Connection.save [1; 2; 3] moved_connection;
  '(result, moved_connection, w) ← Connection.send moved_connection w;
  _ ← assert_ (match result with Value _ => true | Unexpected _ => false end);
  Ok w.

(** Descriptor 5 is a socket whose buffer has room for the three bytes. *)
Example connection_move_passes :
  (w ← verify_connection_move (replicate 16 9) 5 {| Scripted.input := ∅; Scripted.output := ∅; Scripted.limits := [] |};
   Ok (Scripted.bytes_of (Scripted.output w) 5)) = Ok [1; 2; 3].
Proof. vm_compute. reflexivity. Qed.

(** ** The main program *)

Section Main.
Context (hash_price hash_id : Z → Z) (LEVELS ORDERS BUFFER CACHE : Z) (h : endian) (fresh : list Z).

(** What the engine published goes through the buffer. *)
Fixpoint publish (events : list MarketEvent.t) (b : LazyRingBuffer.t MarketEvent.t) : outcome (LazyRingBuffer.t MarketEvent.t) :=
  match events with
  | [] => Ok b
  | e :: events => pushed ← LazyRingBuffer.push BUFFER e b; b ← deref pushed; publish events b
  end.

(** A call of [submit] with the assertion on its result, and [verify_events]. *)
Definition check (request : OrderRequest.t) (expected_result : expected Z ExchangeError.t → bool) (c : exchange) (s : t) :
    outcome (expected Z ExchangeError.t * exchange * t) :=
  '(result, c') ← exchange_submit hash_price hash_id LEVELS ORDERS c request;
  _ ← assert_ (expected_result result);
  let events := drop (length (Clob.published c)) (Clob.published c') in
  b ← publish events (buffer s);
  s ← verify_events h BUFFER CACHE fresh (S (length events))
        {| buffer := b; cache := cache s; sequencer := sequencer s; next_sequence := next_sequence s |};
  Ok (result, c', s).

Definition request (order_id price quantity : Z) (type : OrderRequest.Type_) : OrderRequest.t :=
  {| OrderRequest.order_id := order_id; OrderRequest.price := price; OrderRequest.quantity := quantity; OrderRequest.type := type |}.
Definition rests (result : expected Z ExchangeError.t) : bool := match result with Value id => negb (id =? Order.INVALID_ORDER_ID) | _ => false end.
Definition filled (result : expected Z ExchangeError.t) : bool := match result with Value id => id =? Order.INVALID_ORDER_ID | _ => false end.
Definition succeeds (result : expected Z ExchangeError.t) : bool := match result with Value _ => true | _ => false end.

(** [main], after the two checks on their own: the number of messages it prints. *)
Definition main (e : MarketEvent.t) (m : EncodedMessage.t) : outcome Z :=
  let c := exchange_init LEVELS ORDERS None [] in
  let s := {| buffer := LazyRingBuffer.init BUFFER e; cache := CircularCache.init CACHE m; sequencer := Sequencer.init; next_sequence := 1 |} in
  '(buy_id, c, s) ← check (request 0 100 100 OrderRequest.Buy) rests c s;
  '(first_sell, c, s) ← check (request 0 90 40 OrderRequest.Sell) filled c s;
  '(second_sell, c, s) ← check (request 0 90 60 OrderRequest.Sell) filled c s;
  '(sell_id, c, s) ← check (request 0 105 100 OrderRequest.Sell) rests c s;
  '(buy, c, s) ← check (request 0 110 50 OrderRequest.Buy) filled c s;
  id ← match sell_id with Value id => Ok id | Unexpected _ => Undefined end;
  '(cancel, c, s) ← check (request id 0 0 OrderRequest.Cancel) succeeds c s;
  Ok (u64 (next_sequence s - 1)).
End Main.

Definition no_event : MarketEvent.t :=
  {| MarketEvent.order := {| Order.order_id := 0; Order.price := 0; Order.quantity := 0; Order.side := Side.Buy |};
     MarketEvent.type := MarketEvent.Add |}.
Definition no_message : EncodedMessage.t :=
  {| EncodedMessage.header := {| MessageHeader.sequence_number := 0; MessageHeader.payload_length := 0 |};
     EncodedMessage.buffer := replicate 42 0 |}.

(** No assertion of the test fails: it ends after six messages, on hosts of either byte order. *)
Theorem pipeline_test_passes h : main id id 2 4 8 8 h (replicate 42 171) no_event no_message = Ok 6.
Proof. destruct h; vm_compute; reflexivity. Qed.
End PipelineTest.
